(** * A shallow embedding of the terminal text editor core

    The development follows the C sources: [helpers.h]/[helpers.c] (integer
    helpers, points, rectangles, string slices), [vt.c] (the VT tokenizer),
    [input.c] (the input classifier), [arena.c] (the bump allocator and the
    string builders), [buffer.c] (the gap-buffer text store with its undo
    log) and [tui.c] (scrollarea layout and scrolling, the child lists of the
    nodes and the hit test of [ui_root_reset]).

    Conventions.
    - [i32] and [usize] values are integers in [Z]; where the C arithmetic can
      leave the range of the type the wrap-around is written out ([wrap32],
      [to_usize]).
    - A [c8] (an unsigned byte) is a [Z] in [0, 256); a byte slice handed to a
      function is a [list Z].
    - Pointers into a byte buffer are addresses in [Z]; a slice [s8] keeps the
      address of its first byte and its length, exactly as the C struct.
    - [assert] is compiled out (NDEBUG); the asserted conditions are kept as
      boolean definitions where a statement needs them. *)

From stdpp Require Import base list.
From Stdlib Require Import ZArith Lia Bool.
From Stdlib Require Ascii String.

Local Open Scope Z_scope.

(** ** helpers.h *)

Definition wrap32 (z : Z) : Z := (z + 2 ^ 31) mod 2 ^ 32 - 2 ^ 31.
Definition to_usize (z : Z) : Z := z mod 2 ^ 64.

Definition COORD_TYPE_MAX : Z := 2147483647.
Definition COORD_TYPE_SAFE_MAX : Z := 32767.

Definition min_i32 (a b : Z) : Z := if a <? b then a else b.
Definition max_i32 (a b : Z) : Z := if a >? b then a else b.
Definition clamp_i32 (v lo hi : Z) : Z :=
  if v <? lo then lo else if v >? hi then hi else v.
Definition min_u64 (a b : Z) : Z := if a <? b then a else b.
Definition max_u64 (a b : Z) : Z := if a >? b then a else b.

Record Point := mkPoint { x : Z; y : Z }.
Record Size := mkSize { width : Z; height : Z }.
Record Rect := mkRect { left : Z; top : Z; right : Z; bottom : Z }.

(** [s8]: a pointer to the first byte, a length and a capacity. *)
Record s8 := mk_s8 { beg : Z; len : Z; cap : Z }.

Definition s8_zero : s8 := mk_s8 0 0 0.

(** ** vt.h / vt.c: the VT tokenizer *)

Module Vt.

Inductive VtParserStateKind :=
| VT_PARSER_STATE_KIND_GROUND
| VT_PARSER_STATE_KIND_ESC
| VT_PARSER_STATE_KIND_SS3
| VT_PARSER_STATE_KIND_CSI
| VT_PARSER_STATE_KIND_OSC
| VT_PARSER_STATE_KIND_DCS
| VT_PARSER_STATE_KIND_OSC_ESC
| VT_PARSER_STATE_KIND_DCS_ESC.

Inductive VtTokenKind :=
| VT_TOKEN_KIND_TEXT
| VT_TOKEN_KIND_CTRL
| VT_TOKEN_KIND_ESC
| VT_TOKEN_KIND_SS3
| VT_TOKEN_KIND_CSI
| VT_TOKEN_KIND_OSC
| VT_TOKEN_KIND_DCS
| VT_TOKEN_KIND_PENDING.

Record CsiState := mkCsiState {
  params : list Z;      (* i32 params[32] *)
  param_count : Z;      (* i32 *)
  private_byte : Z;
  final_byte : Z
}.

Record VtParserState := mkVtParserState {
  _state : VtParserStateKind;
  kind : VtTokenKind;
  text : s8;
  ctrl : Z;
  esc : Z;
  ss3 : Z;
  csi : CsiState;
  osc : s8;
  dcs : s8
}.

Definition csi_zero : CsiState := mkCsiState (replicate 32 0) 0 0 0.

(** The zero-initialised parser state ([VtParserState vt_parser_state = {}]). *)
Definition vt_parser_state_zero : VtParserState :=
  mkVtParserState VT_PARSER_STATE_KIND_GROUND VT_TOKEN_KIND_TEXT
    s8_zero 0 0 0 csi_zero s8_zero s8_zero.

Definition set_state (v : VtParserStateKind) (st : VtParserState) :=
  mkVtParserState v (kind st) (text st) (ctrl st) (esc st) (ss3 st) (csi st) (osc st) (dcs st).
Definition set_kind (v : VtTokenKind) (st : VtParserState) :=
  mkVtParserState (_state st) v (text st) (ctrl st) (esc st) (ss3 st) (csi st) (osc st) (dcs st).
Definition set_text (v : s8) (st : VtParserState) :=
  mkVtParserState (_state st) (kind st) v (ctrl st) (esc st) (ss3 st) (csi st) (osc st) (dcs st).
Definition set_ctrl (v : Z) (st : VtParserState) :=
  mkVtParserState (_state st) (kind st) (text st) v (esc st) (ss3 st) (csi st) (osc st) (dcs st).
Definition set_esc (v : Z) (st : VtParserState) :=
  mkVtParserState (_state st) (kind st) (text st) (ctrl st) v (ss3 st) (csi st) (osc st) (dcs st).
Definition set_ss3 (v : Z) (st : VtParserState) :=
  mkVtParserState (_state st) (kind st) (text st) (ctrl st) (esc st) v (csi st) (osc st) (dcs st).
Definition set_csi (v : CsiState) (st : VtParserState) :=
  mkVtParserState (_state st) (kind st) (text st) (ctrl st) (esc st) (ss3 st) v (osc st) (dcs st).
Definition set_osc (v : s8) (st : VtParserState) :=
  mkVtParserState (_state st) (kind st) (text st) (ctrl st) (esc st) (ss3 st) (csi st) v (dcs st).
Definition set_dcs (v : s8) (st : VtParserState) :=
  mkVtParserState (_state st) (kind st) (text st) (ctrl st) (esc st) (ss3 st) (csi st) (osc st) v.

(** The loop condition of the TEXT run: [*it >= '\x20' && *it != '\x7f']. *)
Definition is_text_byte (c : Z) : bool := (0x20 <=? c) && negb (c =? 0x7f).

Definition is_digit (c : Z) : bool := (0x30 <=? c) && (c <=? 0x39).

(** [for (; it != end && ( *it >= '\x20' && *it != '\x7f'); it += 1)] *)
Fixpoint text_run (it : Z) (l : list Z) : Z * list Z :=
  match l with
  | c :: l' => if is_text_byte c then text_run (it + 1) l' else (it, l)
  | [] => (it, [])
  end.

(** [while (param_count > 0) { param_count -= 1; params[param_count] = 0; }]
    run for [n = param_count] rounds. *)
Fixpoint clear_params (n : nat) (ps : list Z) : list Z :=
  match n with
  | O => ps
  | S k => clear_params k (<[k := 0]> ps)
  end.

(** The reset on [ESC \[]. With more than 32 counted parameters the loop
    stores behind the [params] array, which is undefined in C: [None]. *)
Definition csi_reset (c : CsiState) : option CsiState :=
  if param_count c >? 32 then None
  else Some (mkCsiState (clear_params (Z.to_nat (param_count c)) (params c))
                        (if param_count c >? 0 then 0 else param_count c) 0 0).

(** One digit of the parameter loop. [param_count < array_size(params)]
    compares as [usize], so a negative count selects the skipping loop. *)
Definition csi_digit (c : Z) (cs : CsiState) : CsiState :=
  if to_usize (param_count cs) <? 32 then
    let i := Z.to_nat (param_count cs) in
    let v := wrap32 (wrap32 (params cs !!! i * 10) + (c - 0x30)) in
    mkCsiState (<[i := min_i32 v 0xffff]> (params cs)) (param_count cs)
               (private_byte cs) (final_byte cs)
  else cs.

(** The [for (;;)] loop of the CSI state. The two digit loops are fused into
    the recursion over the bytes: [param_count] does not change during a run
    of digits, so testing it once per digit is the same test. *)
Fixpoint csi_loop (st : VtParserState) (it : Z) (l : list Z)
  : VtParserState * Z * list Z :=
  match l with
  | [] => (st, it, [])
  | c :: l' =>
    if is_digit c then csi_loop (set_csi (csi_digit c (csi st)) st) (it + 1) l'
    else if (0x40 <=? c) && (c <=? 0x7e) then
      let cs := csi st in
      (set_csi (mkCsiState (params cs) (wrap32 (param_count cs + 1)) (private_byte cs) c)
         (set_kind VT_TOKEN_KIND_CSI (set_state VT_PARSER_STATE_KIND_GROUND st)),
       it + 1, l')
    else
      let cs := csi st in
      let cs1 :=
        if c =? 0x3b
        then mkCsiState (params cs) (wrap32 (param_count cs + 1)) (private_byte cs) (final_byte cs)
        else cs in
      let cs2 :=
        if (0x3c <=? c) && (c <=? 0x3f)
        then mkCsiState (params cs1) (param_count cs1) c (final_byte cs1)
        else cs1 in
      csi_loop (set_csi cs2 st) (it + 1) l'
  end.

(** [state->kind = _state == OSC ? OSC : DCS; state->osc.len = it - state->osc.beg;] *)
Definition osc_mark (it : Z) (st : VtParserState) : VtParserState :=
  set_osc (mk_s8 (beg (osc st)) (to_usize (it - beg (osc st))) (cap (osc st)))
    (set_kind (match _state st with
               | VT_PARSER_STATE_KIND_OSC => VT_TOKEN_KIND_OSC
               | _ => VT_TOKEN_KIND_DCS
               end) st).

(** The [for (;;)] loop of the OSC and DCS states; the tight scanning loop is
    fused into the recursion over the bytes. *)
Fixpoint osc_loop (st : VtParserState) (it : Z) (l : list Z)
  : VtParserState * Z * list Z :=
  match l with
  | [] => (osc_mark it st, it, [])
  | c :: l' =>
    if c =? 0x07 then
      (set_state VT_PARSER_STATE_KIND_GROUND (osc_mark it st), it + 1, l')
    else if c =? 0x1b then
      let st1 := osc_mark it st in
      match l' with
      | [] =>
        (set_state (match _state st1 with
                    | VT_PARSER_STATE_KIND_OSC => VT_PARSER_STATE_KIND_OSC_ESC
                    | _ => VT_PARSER_STATE_KIND_DCS_ESC
                    end) st1, it + 1, [])
      | d :: l'' =>
        if d =? 0x5c
        then (set_state VT_PARSER_STATE_KIND_GROUND st1, it + 2, l'')
        else osc_loop st1 (it + 1) l'
      end
    else osc_loop st (it + 1) l'
  end.

(** The [while (it != end) switch (state->_state)] loop. [it] is the address
    of the first byte of [l]; [end] is [it + length l]. The result is the new
    state, the returned pointer and the bytes behind it. *)
Fixpoint vt_loop (st : VtParserState) (it : Z) (l : list Z)
  : option (VtParserState * Z * list Z) :=
  match l with
  | [] => Some (st, it, [])
  | c :: l' =>
    match _state st with
    | VT_PARSER_STATE_KIND_GROUND =>
      if c =? 0x1b then vt_loop (set_state VT_PARSER_STATE_KIND_ESC st) (it + 1) l'
      else if (c <? 0x20) || (c =? 0x7f) then
        Some (set_ctrl c (set_kind VT_TOKEN_KIND_CTRL st), it + 1, l')
      else
        let '(it', rest) := text_run it l in
        Some (set_text (mk_s8 it (to_usize (it' - it)) (cap (text st)))
                (set_kind VT_TOKEN_KIND_TEXT st), it', rest)
    | VT_PARSER_STATE_KIND_ESC =>
      if c =? 0x5b then
        match csi_reset (csi st) with
        | Some cs => vt_loop (set_csi cs (set_state VT_PARSER_STATE_KIND_CSI st)) (it + 1) l'
        | None => None
        end
      else if c =? 0x5d then
        vt_loop (set_osc (mk_s8 (it + 1) 0 (cap (osc st)))
                   (set_state VT_PARSER_STATE_KIND_OSC st)) (it + 1) l'
      else if c =? 0x4f then
        vt_loop (set_state VT_PARSER_STATE_KIND_SS3 st) (it + 1) l'
      else if c =? 0x50 then
        vt_loop (set_dcs (mk_s8 (it + 1) 0 (cap (dcs st)))
                   (set_state VT_PARSER_STATE_KIND_DCS st)) (it + 1) l'
      else
        Some (set_esc c (set_kind VT_TOKEN_KIND_ESC
                           (set_state VT_PARSER_STATE_KIND_GROUND st)), it + 1, l')
    | VT_PARSER_STATE_KIND_SS3 =>
      Some (set_ss3 c (set_kind VT_TOKEN_KIND_SS3
                         (set_state VT_PARSER_STATE_KIND_GROUND st)), it + 1, l')
    | VT_PARSER_STATE_KIND_CSI => Some (csi_loop st it l)
    | VT_PARSER_STATE_KIND_OSC | VT_PARSER_STATE_KIND_DCS => Some (osc_loop st it l)
    | VT_PARSER_STATE_KIND_OSC_ESC | VT_PARSER_STATE_KIND_DCS_ESC =>
      if c =? 0x5c then
        Some (set_osc (mk_s8 (beg (osc st)) (to_usize (it + 1 - beg (osc st))) (cap (osc st)))
                (set_kind (match _state st with
                           | VT_PARSER_STATE_KIND_OSC_ESC => VT_TOKEN_KIND_OSC
                           | _ => VT_TOKEN_KIND_DCS
                           end) st), it + 1, l')
      else
        Some (osc_loop (set_state (match _state st with
                                   | VT_PARSER_STATE_KIND_OSC_ESC => VT_PARSER_STATE_KIND_OSC
                                   | _ => VT_PARSER_STATE_KIND_DCS
                                   end) st) it l)
    end
  end.

(** [c8* vt_parse_next_token(VtParserState* state, c8* const beg, c8* const end)] *)
Definition vt_parse_next_token (st : VtParserState) (it : Z) (l : list Z)
  : option (VtParserState * Z * list Z) :=
  vt_loop (set_kind VT_TOKEN_KIND_PENDING st) it l.

(** A token is the part of the state that [kind] selects. *)
Inductive VtToken :=
| TokText (s : s8)
| TokCtrl (c : Z)
| TokEsc (c : Z)
| TokSs3 (c : Z)
| TokCsi (c : CsiState)
| TokOsc (s : s8)
| TokDcs (s : s8).

Definition token_of (st : VtParserState) : list VtToken :=
  match kind st with
  | VT_TOKEN_KIND_TEXT => [TokText (text st)]
  | VT_TOKEN_KIND_CTRL => [TokCtrl (ctrl st)]
  | VT_TOKEN_KIND_ESC => [TokEsc (esc st)]
  | VT_TOKEN_KIND_SS3 => [TokSs3 (ss3 st)]
  | VT_TOKEN_KIND_CSI => [TokCsi (csi st)]
  | VT_TOKEN_KIND_OSC => [TokOsc (osc st)]
  | VT_TOKEN_KIND_DCS => [TokDcs (dcs st)]
  | VT_TOKEN_KIND_PENDING => []
  end.

(** Calling [vt_parse_next_token] until the buffer is used up, as the loop
    [while (it != end) { it = vt_parse_next_token(state, it, end); ... }] of
    the classifier does, and collecting the tokens that are not PENDING.
    [None]: undefined behaviour was reached, or the fuel ran out. *)
Fixpoint vt_tokens (fuel : nat) (st : VtParserState) (it : Z) (l : list Z)
  : option (list VtToken * VtParserState) :=
  match l with
  | [] => Some ([], st)
  | _ :: _ =>
    match fuel with
    | O => None
    | S fuel' =>
      match vt_parse_next_token st it l with
      | None => None
      | Some (st', it', l') =>
        match vt_tokens fuel' st' it' l' with
        | None => None
        | Some (toks, stf) => Some (token_of st' ++ toks, stf)
        end
      end
    end
  end.

(** Feeding one buffer that starts at address [it]; every call uses up at
    least one byte, so [length l] rounds are enough. *)
Definition vt_feed (st : VtParserState) (it : Z) (l : list Z)
  : option (list VtToken * VtParserState) :=
  vt_tokens (length l) st it l.

(** Feeding a prefix [A] and then, with the state it left, the suffix [B]
    that follows it in memory. *)
Definition vt_feed_then (st : VtParserState) (it : Z) (A B : list Z)
  : option (list VtToken * VtParserState) :=
  match vt_feed st it A with
  | Some (toksA, stA) =>
    match vt_feed stA (it + Z.of_nat (length A)) B with
    | Some (toksB, stB) => Some (toksA ++ toksB, stB)
    | None => None
    end
  | None => None
  end.

Definition starts_with_text (l : list Z) : bool :=
  match l with c :: _ => is_text_byte c | [] => false end.



(** The tokens of a feed, without the final state. *)
Definition tokens_of (r : option (list VtToken * VtParserState)) : option (list VtToken) :=
  option_map fst r.


End Vt.

(** ** tui.h: input events *)

Module Input.

Import Vt.

Definition KEYBOARD_MODIFIER_NONE : Z := 0x00000000.
Definition KEYBOARD_MODIFIER_CTRL : Z := 0x01000000.
Definition KEYBOARD_MODIFIER_ALT : Z := 0x02000000.
Definition KEYBOARD_MODIFIER_SHIFT : Z := 0x04000000.

Definition VK_NULL : Z := 0x00.
Definition VK_BACK : Z := 0x08.
Definition VK_TAB : Z := 0x09.
Definition VK_RETURN : Z := 0x0D.
Definition VK_PRIOR : Z := 0x21.
Definition VK_NEXT : Z := 0x22.
Definition VK_END : Z := 0x23.
Definition VK_HOME : Z := 0x24.
Definition VK_LEFT : Z := 0x25.
Definition VK_UP : Z := 0x26.
Definition VK_RIGHT : Z := 0x27.
Definition VK_DOWN : Z := 0x28.
Definition VK_INSERT : Z := 0x2D.
Definition VK_DELETE : Z := 0x2E.
Definition VK_F1 : Z := 0x70.
Definition VK_F5 : Z := 0x74.

Record UiInputKeyboard := mkUiInputKeyboard { key : Z; modifiers : Z }.

Inductive MouseAction :=
| MOUSE_ACTION_NONE
| MOUSE_ACTION_RELEASE
| MOUSE_ACTION_LEFT
| MOUSE_ACTION_MIDDLE
| MOUSE_ACTION_RIGHT
| MOUSE_ACTION_SCROLL.

Record UiInputMouse := mkUiInputMouse {
  action : MouseAction;
  modifier : Z;
  position : Point;
  scroll : Point
}.

(** [UiInput]: the tag [type] and the member of the union it selects. *)
Inductive UiInput :=
| UI_INPUT_NONE
| UI_INPUT_RESIZE (resize : Size)
| UI_INPUT_TEXT (text : s8)
| UI_INPUT_KEYBOARD (keyboard : UiInputKeyboard)
| UI_INPUT_MOUSE (mouse : UiInputMouse).

(** ** input.c: the input classifier *)

(** What one round of the [switch] in [get_next_ui_input] does with the token
    it was handed: [goto done] with an event, [break] to the next round, or a
    read behind one of the two lookup tables, which is undefined. *)
Inductive Classified :=
| Event (i : UiInput)
| NextToken
| Undefined.

(** [parse_modifiers:] the modifier bits of [params[1] - 1]. *)
Definition parse_modifiers (st : VtParserState) (vk : Z) : UiInput :=
  let p1 := max_i32 (wrap32 (params (csi st) !!! 1%nat - 1)) 0 in
  let m0 := 0 in
  let m1 := if Z.testbit p1 0 then Z.lor m0 KEYBOARD_MODIFIER_SHIFT else m0 in
  let m2 := if Z.testbit p1 1 then Z.lor m1 KEYBOARD_MODIFIER_ALT else m1 in
  let m3 := if Z.testbit p1 2 then Z.lor m2 KEYBOARD_MODIFIER_CTRL else m2 in
  UI_INPUT_KEYBOARD (mkUiInputKeyboard vk m3).

(** [static const u8 lut[]] for the final bytes ['A'] to ['H']. *)
Definition lut_cursor_keys : list Z :=
  [VK_UP; VK_DOWN; VK_RIGHT; VK_LEFT; 0; VK_END; 0; VK_HOME].

(** [static const u8 lut[]] for [CSI ... ~]; its last element has index 34. *)
Definition lut_tilde : list Z :=
  [0; VK_HOME; VK_INSERT; VK_DELETE; VK_END; VK_PRIOR; VK_NEXT; 0; 0; 0; 0; 0;
   0; 0; 0; VK_F5; 0; VK_F5 + 1; VK_F5 + 2; VK_F5 + 3; VK_F5 + 4; VK_F5 + 5; 0;
   VK_F5 + 6; VK_F5 + 7; VK_F5 + 8; VK_F5 + 9; 0; VK_F5 + 10; VK_F5 + 11; 0;
   VK_F5 + 12; VK_F5 + 13; VK_F5 + 14; VK_F5 + 15].

(** The conditions of the two [assert]s on a resize event. *)
Definition resize_asserts (s : Size) : bool :=
  (width s >? 0) && (height s >? 0) && (width s <? 32768) && (height s <? 32768).

Definition classify_csi (st : VtParserState) : Classified :=
  let cs := csi st in
  let fb := final_byte cs in
  if fb <=? 0x48 then
    match lut_cursor_keys !! Z.to_nat (fb - 0x41) with
    | Some vk =>
      if fb <? 0x41 then Undefined
      else if vk =? 0 then NextToken else Event (parse_modifiers st vk)
    | None => Undefined
    end
  else if fb =? 0x7e then
    let p0 := params cs !!! 0%nat in
    if to_usize p0 <=? 35 then
      match lut_tilde !! Z.to_nat p0 with
      | Some vk => if vk =? 0 then NextToken else Event (parse_modifiers st vk)
      | None => Undefined
      end
    else NextToken
  else if (fb =? 0x6d) || (fb =? 0x4d) then
    if private_byte cs =? 0x3c then
      let btn := params cs !!! 0%nat in
      let '(act, scroll_y) :=
        if Z.testbit btn 6 then
          (MOUSE_ACTION_SCROLL, if Z.testbit btn 0 then 3 else (-3))
        else if fb =? 0x4d then
          (match Z.land btn 0x03 with
           | 0 => MOUSE_ACTION_LEFT
           | 1 => MOUSE_ACTION_MIDDLE
           | 2 => MOUSE_ACTION_RIGHT
           | _ => MOUSE_ACTION_NONE
           end, 0)
        else (MOUSE_ACTION_NONE, 0) in
      let m0 := KEYBOARD_MODIFIER_NONE in
      let m1 := Z.lor m0 (if Z.testbit btn 2 then KEYBOARD_MODIFIER_SHIFT else 0) in
      let m2 := Z.lor m1 (if Z.testbit btn 3 then KEYBOARD_MODIFIER_ALT else 0) in
      let m3 := Z.lor m2 (if Z.testbit btn 4 then KEYBOARD_MODIFIER_CTRL else 0) in
      Event (UI_INPUT_MOUSE
               (mkUiInputMouse act m3
                  (mkPoint (wrap32 (params cs !!! 1%nat - 1))
                           (wrap32 (params cs !!! 2%nat - 1)))
                  (mkPoint 0 scroll_y)))
    else NextToken
  else if fb =? 0x74 then
    if params cs !!! 0%nat =? 8 then
      Event (UI_INPUT_RESIZE
               (mkSize (max_i32 (params cs !!! 2%nat) 1)
                       (max_i32 (params cs !!! 1%nat) 1)))
    else NextToken
  else NextToken.

Definition classify (st : VtParserState) : Classified :=
  match kind st with
  | VT_TOKEN_KIND_TEXT => Event (UI_INPUT_TEXT (Vt.text st))
  | VT_TOKEN_KIND_CTRL =>
    let c := ctrl st in
    if (c =? VK_NULL) || (c =? VK_TAB) || (c =? VK_RETURN) then
      Event (UI_INPUT_KEYBOARD (mkUiInputKeyboard c 0))
    else if (0x01 <=? c) && (c <=? 0x1a) then
      Event (UI_INPUT_KEYBOARD (mkUiInputKeyboard (Z.lor c 0x40) KEYBOARD_MODIFIER_CTRL))
    else if c =? 0x7f then
      Event (UI_INPUT_KEYBOARD (mkUiInputKeyboard VK_BACK 0))
    else NextToken
  | VT_TOKEN_KIND_ESC =>
    if (0x20 <=? esc st) && (esc st <=? 0x7e) then
      Event (UI_INPUT_KEYBOARD (mkUiInputKeyboard (esc st) KEYBOARD_MODIFIER_ALT))
    else NextToken
  | VT_TOKEN_KIND_SS3 =>
    if (0x50 <=? ss3 st) && (ss3 st <=? 0x53) then
      Event (UI_INPUT_KEYBOARD (mkUiInputKeyboard (ss3 st - 0x50 + VK_F1) 0))
    else NextToken
  | VT_TOKEN_KIND_CSI => classify_csi st
  | _ => NextToken
  end.

(** [UiInput get_next_ui_input(VtParserState* vt_parser_state, s8* input)]:
    the event, the parser state and what is left of [input]. When the input
    is used up without an event the result has the type [UI_INPUT_NONE].
    [None]: undefined behaviour, or the fuel ran out. *)
Fixpoint get_next_ui_input (fuel : nat) (st : VtParserState) (it : Z) (l : list Z)
  : option (UiInput * VtParserState * Z * list Z) :=
  match l with
  | [] => Some (UI_INPUT_NONE, st, it, [])
  | _ :: _ =>
    match fuel with
    | O => None
    | S fuel' =>
      match vt_parse_next_token st it l with
      | None => None
      | Some (st', it', l') =>
        match classify st' with
        | Event i => Some (i, st', it', l')
        | NextToken => get_next_ui_input fuel' st' it' l'
        | Undefined => None
        end
      end
    end
  end.

Definition event_of (r : option (UiInput * VtParserState * Z * list Z))
  : option UiInput :=
  match r with Some (i, _, _, _) => Some i | None => None end.

(** [ESC \[ 8 ; 1 ; 4 0 0 0 0 t]: a window of 1 row and 40000 columns. *)
Definition resize_40000 : list Z :=
  [0x1b; 0x5b; 0x38; 0x3b; 0x31; 0x3b; 0x34; 0x30; 0x30; 0x30; 0x30; 0x74].

End Input.

(** ** ucd.h: the Unicode oracle

    [ucd.c] is not part of the sources; the text store is written against the
    four functions declared in [ucd.h]. They are kept abstract: a
    [UcdOracle] packs the four functions, and the text store takes one as a
    parameter. *)

Module Ucd.

Record UcdMeasurement := mkUcdMeasurement {
  offset : Z;        (* usize *)
  pos : Point;
  movements : Z;     (* CoordType *)
  newline : bool
}.

Record UcdOracle := mkUcdOracle {
  (** [ucd_measure_forward(str, offset, pos, column_stop,
      cursor_movement_limit, line_break)]; the [bool] tells whether
      [line_break] is a pointer or [NULL], the second component is what is
      stored through it. *)
  ucd_measure_forward :
    list Z -> Z -> Point -> Z -> Z -> bool -> UcdMeasurement * UcdMeasurement;
  ucd_measure_backward :
    list Z -> Z -> Point -> Z -> Z -> UcdMeasurement;
  (** [ucd_newlines_forward(str, offset, &line, line_stop)]: the returned
      offset and the new value of [line]. *)
  ucd_newlines_forward : list Z -> Z -> Z -> Z -> Z * Z;
  ucd_newlines_backward : list Z -> Z -> Z -> Z -> Z * Z
}.

End Ucd.

(** *** An oracle for the examples *)

(** Modelled from the spec: the Unicode oracle [ucd.c] ([ucd_measure_forward],
    [ucd_measure_backward], [ucd_newlines_forward], [ucd_newlines_backward])
    is missing from the sources. The spec describes it as follows.
    [measure_forward] advances through the byte slice from [start_offset] in
    position [start_pos] and stops at the first of: reaching [column_stop]
    terminal columns, advancing [cursor_movement_limit] grapheme movements,
    or exhausting the bytes; it reports the final offset, the cell position,
    the number of grapheme movements and whether a newline terminated the
    advance. [measure_backward] is symmetric and may return a negative [x]
    when a newline was crossed. [newlines_forward] and [newlines_backward]
    advance until the line reaches [line_stop] and return the new offset. All
    treat invalid UTF-8 as U+FFFD.

    What the spec leaves open is settled the way the callers in [buffer.c]
    need it: a negative stop or limit means none (the callers pass [-1]);
    every code point is one grapheme; a code point of the East Asian wide
    blocks takes two cells, any other one cell; a newline ends a forward
    measurement in front of it; [newlines_backward] ends at the start of the
    line [line_stop], which is how [text_buffer_goto_line_start] uses it for
    the line the cursor is on. The examples below only measure letters and
    one wide glyph. *)

Module SpecUcd.

Import Ucd.

Definition is_cont (b : Z) : bool := (0x80 <=? b) && (b <=? 0xBF).

(** The next code point of [l]: its value and the number of its bytes;
    an ill-formed sequence is one byte and stands for U+FFFD. *)
Definition decode (l : list Z) : Z * nat :=
  match l with
  | [] => (0xFFFD, 0%nat)
  | b0 :: l1 =>
    if b0 <? 0x80 then (b0, 1%nat)
    else if (0xC2 <=? b0) && (b0 <=? 0xDF) then
      match l1 with
      | b1 :: _ => if is_cont b1 then ((b0 - 0xC0) * 64 + (b1 - 0x80), 2%nat) else (0xFFFD, 1%nat)
      | _ => (0xFFFD, 1%nat)
      end
    else if (0xE0 <=? b0) && (b0 <=? 0xEF) then
      match l1 with
      | b1 :: b2 :: _ =>
        if is_cont b1 && is_cont b2
        then ((b0 - 0xE0) * 4096 + (b1 - 0x80) * 64 + (b2 - 0x80), 3%nat)
        else (0xFFFD, 1%nat)
      | _ => (0xFFFD, 1%nat)
      end
    else if (0xF0 <=? b0) && (b0 <=? 0xF4) then
      match l1 with
      | b1 :: b2 :: b3 :: _ =>
        if is_cont b1 && is_cont b2 && is_cont b3
        then ((b0 - 0xF0) * 262144 + (b1 - 0x80) * 4096 + (b2 - 0x80) * 64 + (b3 - 0x80), 4%nat)
        else (0xFFFD, 1%nat)
      | _ => (0xFFFD, 1%nat)
      end
    else (0xFFFD, 1%nat)
  end.

(** Terminal cells of a code point: two for the East Asian wide blocks. *)
Definition cells (cp : Z) : Z :=
  if ((0x1100 <=? cp) && (cp <=? 0x115F)) || ((0x2E80 <=? cp) && (cp <=? 0xA4CF))
     || ((0xAC00 <=? cp) && (cp <=? 0xD7A3)) || ((0xF900 <=? cp) && (cp <=? 0xFAFF))
     || ((0xFE30 <=? cp) && (cp <=? 0xFE4F)) || ((0xFF00 <=? cp) && (cp <=? 0xFF60))
     || ((0xFFE0 <=? cp) && (cp <=? 0xFFE6))
  then 2 else 1.

Definition unlimited (limit v : Z) : bool := (limit <? 0) || (v <? limit).

Fixpoint forward (fuel : nat) (l : list Z) (m : UcdMeasurement) (column_stop limit : Z)
  : UcdMeasurement :=
  match fuel with
  | O => m
  | S fuel' =>
    match l with
    | [] => m
    | _ :: _ =>
      if negb (unlimited limit (movements m)) then m
      else
        let '(cp, n) := decode l in
        if cp =? 0x0A then mkUcdMeasurement (offset m) (pos m) (movements m) true
        else if negb ((column_stop <? 0) || (x (pos m) + cells cp <=? column_stop)) then m
        else
          forward fuel' (drop n l)
            (mkUcdMeasurement (offset m + Z.of_nat n)
               (mkPoint (x (pos m) + cells cp) (y (pos m))) (movements m + 1) false)
            column_stop limit
    end
  end.

(** Modelled from the spec: [ucd_measure_forward], missing from the sources.
    Every cell boundary counts as a place where a line may be broken, so the
    measurement stored through [line_break] is the result itself. *)
Definition measure_forward (str : list Z) (off : Z) (p : Point) (column_stop limit : Z)
    (line_break : bool) : UcdMeasurement * UcdMeasurement :=
  let l := drop (Z.to_nat off) str in
  let m := forward (length l) l (mkUcdMeasurement off p 0 false) column_stop limit in
  (m, m).

(** The start of the code point that ends before index [n] of [str]. *)
Definition prev_start (str : list Z) (n : nat) : nat :=
  let cont (i : nat) := match str !! i with Some b => is_cont b | None => false end in
  match n with
  | O => O
  | S i1 =>
    if cont i1 then
      match i1 with
      | O => i1
      | S i2 =>
        if cont i2 then
          match i2 with
          | O => i1
          | S i3 =>
            if cont i3 then match i3 with O => i1 | S i4 => if Nat.eqb (snd (decode (drop i4 str))) 4 then i4 else i1 end
            else if Nat.eqb (snd (decode (drop i3 str))) 3 then i3 else i1
          end
        else if Nat.eqb (snd (decode (drop i2 str))) 2 then i2 else i1
      end
    else i1
  end.

Fixpoint backward (fuel : nat) (str : list Z) (m : UcdMeasurement) (column_stop limit : Z)
  : UcdMeasurement :=
  match fuel with
  | O => m
  | S fuel' =>
    if (offset m <=? 0) || negb (unlimited limit (movements m)) then m
    else
      let i := prev_start str (Z.to_nat (offset m)) in
      let '(cp, _) := decode (drop i str) in
      if cp =? 0x0A then
        mkUcdMeasurement (Z.of_nat i) (mkPoint (-1) (y (pos m) - 1)) (movements m + 1) true
      else if negb ((column_stop <? 0) || (column_stop <=? x (pos m) - cells cp)) then m
      else
        backward fuel' str
          (mkUcdMeasurement (Z.of_nat i) (mkPoint (x (pos m) - cells cp) (y (pos m)))
             (movements m + 1) false)
          column_stop limit
  end.

(** Modelled from the spec: [ucd_measure_backward], missing from the sources. *)
Definition measure_backward (str : list Z) (off : Z) (p : Point) (column_stop limit : Z)
  : UcdMeasurement :=
  let o := Z.min off (Z.of_nat (length str)) in
  backward (Z.to_nat o) str (mkUcdMeasurement o p 0 false) column_stop limit.

Fixpoint lines_forward (l : list Z) (off line line_stop : Z) : Z * Z :=
  match l with
  | [] => (off, line)
  | b :: l' =>
    if line >=? line_stop then (off, line)
    else lines_forward l' (off + 1) (if b =? 0x0A then line + 1 else line) line_stop
  end.

(** Modelled from the spec: [ucd_newlines_forward], missing from the sources. *)
Definition newlines_forward (str : list Z) (off line line_stop : Z) : Z * Z :=
  lines_forward (drop (Z.to_nat off) str) off line line_stop.

(** [rev_prefix] is the text before the offset, last byte first. *)
Fixpoint lines_backward (rev_prefix : list Z) (off line line_stop : Z) : Z * Z :=
  match rev_prefix with
  | [] => (0, line)
  | b :: l' =>
    if b =? 0x0A then
      if line <=? line_stop then (off, line)
      else lines_backward l' (off - 1) (line - 1) line_stop
    else lines_backward l' (off - 1) line line_stop
  end.

(** Modelled from the spec: [ucd_newlines_backward], missing from the sources. *)
Definition newlines_backward (str : list Z) (off line line_stop : Z) : Z * Z :=
  let o := Z.min off (Z.of_nat (length str)) in
  lines_backward (rev (take (Z.to_nat o) str)) o line line_stop.

(** Modelled from the spec: the four functions of [ucd.c] as one oracle. *)
Definition oracle : UcdOracle :=
  mkUcdOracle measure_forward measure_backward newlines_forward newlines_backward.

End SpecUcd.

(** ** buffer.h / buffer.c: the text store *)

Module Buffer.

Import Ucd.

(** The result of an operation: it returns, it calls [abort()] (the allocator
    was asked for more than [TEXT_BUFFER_ALLOC_MAX_BYTES]), or one of its
    loops was still running when the fuel was used up. *)
Inductive outcome (A : Type) :=
| Done (a : A)
| Abort
| OutOfFuel.
Arguments Done {A} a.
Arguments Abort {A}.
Arguments OutOfFuel {A}.

#[export] Instance outcome_ret : MRet outcome := fun A a => Done a.
#[export] Instance outcome_bind : MBind outcome := fun A B f m =>
  match m with
  | Done a => f a
  | Abort => Abort
  | OutOfFuel => OutOfFuel
  end.

Definition TEXT_BUFFER_ALLOC_MAX_BYTES : Z := 0x80000000.
Definition TEXT_BUFFER_ALLOC_CHUNK_BYTES : Z := 0x10000.
Definition TEXT_BUFFER_GAP_CHUNK_BYTES : Z := 0x1000.

(** [sizeof(TextBuffer)] and [sizeof(TextBufferChange)] on the 64-bit targets
    that [helpers.h] accepts. *)
Definition sizeof_TextBuffer : Z := 160.
Definition sizeof_TextBufferChange : Z := 88.

Record TextBufferCursor := mkTextBufferCursor {
  offset : Z;            (* usize *)
  logical_pos : Point;   (* in lines & graphemes *)
  visual_pos : Point     (* in rows & columns, including line wrapping *)
}.

Definition cursor_zero : TextBufferCursor :=
  mkTextBufferCursor 0 (mkPoint 0 0) (mkPoint 0 0).

Inductive TextBufferSelectionState :=
| TEXT_BUFFER_SELECTION_NONE
| TEXT_BUFFER_SELECTION_MAYBE
| TEXT_BUFFER_SELECTION_ACTIVE
| TEXT_BUFFER_SELECTION_DONE.

(** [TextBufferSelection]; the fields [beg], [end], [state]. *)
Record TextBufferSelection := mkTextBufferSelection {
  sel_beg : Point;
  sel_end : Point;
  sel_state : TextBufferSelectionState
}.

(** [TextBufferChange]. A pointer to a change is its byte offset in the undo
    region ([None] is [NULL]). The two slices point at the bytes stored
    behind the struct, which are written once when the change is pushed;
    they are kept as the bytes themselves. *)
Record TextBufferChange := mkTextBufferChange {
  prev : option Z;
  next : option Z;
  change_cursor : TextBufferCursor;
  removed : list Z;
  inserted : list Z
}.

Definition change_zero : TextBufferChange :=
  mkTextBufferChange None None cursor_zero [] [].

(** [TextBuffer]. [text] is the memory at [tb->text], one byte per address;
    [undo_mem] is the undo region, one change per byte offset, all zero where
    nothing was stored; [undo_base] tells whether the region exists. The
    allocator is [text_buffer_allocator_default()]. *)
Record TextBuffer := mkTextBuffer {
  main_commit : Z;
  text : Z -> Z;
  text_length : Z;
  gap_off : Z;
  gap_len : Z;
  undo_base : bool;
  undo_mem : Z -> TextBufferChange;
  undo_tail : option Z;
  undo_usage : Z;
  undo_commit : Z;
  stats_lines : Z;
  cursor : TextBufferCursor;
  selection : TextBufferSelection;
  word_wrap_columns : Z;
  dirty : bool;
  overtype : bool
}.

Definition set_cursor (c : TextBufferCursor) (tb : TextBuffer) : TextBuffer :=
  mkTextBuffer (main_commit tb) (text tb) (text_length tb) (gap_off tb) (gap_len tb)
    (undo_base tb) (undo_mem tb) (undo_tail tb) (undo_usage tb) (undo_commit tb)
    (stats_lines tb) c (selection tb) (word_wrap_columns tb) (dirty tb) (overtype tb).

Definition set_selection (s : TextBufferSelection) (tb : TextBuffer) : TextBuffer :=
  mkTextBuffer (main_commit tb) (text tb) (text_length tb) (gap_off tb) (gap_len tb)
    (undo_base tb) (undo_mem tb) (undo_tail tb) (undo_usage tb) (undo_commit tb)
    (stats_lines tb) (cursor tb) s (word_wrap_columns tb) (dirty tb) (overtype tb).

Definition set_word_wrap_columns (w : Z) (tb : TextBuffer) : TextBuffer :=
  mkTextBuffer (main_commit tb) (text tb) (text_length tb) (gap_off tb) (gap_len tb)
    (undo_base tb) (undo_mem tb) (undo_tail tb) (undo_usage tb) (undo_commit tb)
    (stats_lines tb) (cursor tb) (selection tb) w (dirty tb) (overtype tb).

(** The four fields of the gap buffer proper. *)
Definition set_gap (commit : Z) (mem : Z -> Z) (length off glen : Z) (tb : TextBuffer)
  : TextBuffer :=
  mkTextBuffer commit mem length off glen
    (undo_base tb) (undo_mem tb) (undo_tail tb) (undo_usage tb) (undo_commit tb)
    (stats_lines tb) (cursor tb) (selection tb) (word_wrap_columns tb) (dirty tb)
    (overtype tb).

Definition set_undo_tail (t : option Z) (tb : TextBuffer) : TextBuffer :=
  mkTextBuffer (main_commit tb) (text tb) (text_length tb) (gap_off tb) (gap_len tb)
    (undo_base tb) (undo_mem tb) t (undo_usage tb) (undo_commit tb)
    (stats_lines tb) (cursor tb) (selection tb) (word_wrap_columns tb) (dirty tb)
    (overtype tb).

Definition set_undo_mem (m : Z -> TextBufferChange) (tb : TextBuffer) : TextBuffer :=
  mkTextBuffer (main_commit tb) (text tb) (text_length tb) (gap_off tb) (gap_len tb)
    (undo_base tb) m (undo_tail tb) (undo_usage tb) (undo_commit tb)
    (stats_lines tb) (cursor tb) (selection tb) (word_wrap_columns tb) (dirty tb)
    (overtype tb).

(** [memmove(mem + dst, mem + src, n)] *)
Definition memmove (mem : Z -> Z) (dst src n : Z) : Z -> Z :=
  fun a => if (dst <=? a) && (a <? dst + n) then mem (a - dst + src) else mem a.

(** [memcpy(mem + dst, bytes, length bytes)] *)
Definition memcpy (mem : Z -> Z) (dst : Z) (bytes : list Z) : Z -> Z :=
  fun a =>
    if (dst <=? a) && (a <? dst + Z.of_nat (length bytes))
    then bytes !!! Z.to_nat (a - dst) else mem a.

(** The bytes of the slice [{mem + beg, len}]. *)
Definition slice_bytes (mem : Z -> Z) (s : s8) : list Z :=
  map mem (seqZ (beg s) (len s)).

(** Storing a change at a byte offset of the undo region. *)
Definition store_change (m : Z -> TextBufferChange) (p : Z) (c : TextBufferChange)
  : Z -> TextBufferChange :=
  fun q => if q =? p then c else m q.

(** [text_buffer_allocator_default_realloc]: the new length is rounded up to
    the chunk size; more than 2GiB is [abort()]. *)
Definition allocator_realloc (new_len : Z) : outcome Z :=
  let l := Z.land (to_usize (new_len + TEXT_BUFFER_ALLOC_CHUNK_BYTES - 1))
                  (Z.lnot (TEXT_BUFFER_ALLOC_CHUNK_BYTES - 1)) in
  if l >? TEXT_BUFFER_ALLOC_MAX_BYTES then Abort else Done l.

(** [text_buffer_create(text_buffer_allocator_default())] *)
Definition text_buffer_create : TextBuffer :=
  mkTextBuffer TEXT_BUFFER_ALLOC_CHUNK_BYTES (fun _ => 0) 0 0 0
    false (fun _ => change_zero) None 0 0
    0 cursor_zero
    (mkTextBufferSelection (mkPoint 0 0) (mkPoint 0 0) TEXT_BUFFER_SELECTION_NONE)
    (-1) false false.

Definition text_buffer_allocate_gap_impl (tb : TextBuffer) (off len_ : Z)
  : outcome TextBuffer :=
  let data := text tb in
  let length := text_length tb in
  let gap_off0 := gap_off tb in
  let gap_len0 := gap_len tb in
  let off := min_u64 off length in
  (* Move the existing gap if it exists *)
  let data1 :=
    if negb (off =? gap_off0) && (gap_len0 >? 0) then
      let left_ := off <? gap_off0 in
      let move_src := if left_ then off else to_usize (gap_off0 + gap_len0) in
      let move_dst := if left_ then to_usize (off + gap_len0) else gap_off0 in
      let move_len := if left_ then gap_off0 - off else off - gap_off0 in
      memmove data move_dst move_src move_len
    else data in
  (* Enlarge the gap if needed *)
  if len_ >? gap_len0 then
    let gap_chunk_pad_chars := TEXT_BUFFER_GAP_CHUNK_BYTES / 2 in
    let gap_len_new :=
      Z.land (to_usize (len_ + gap_chunk_pad_chars + TEXT_BUFFER_GAP_CHUNK_BYTES - 1))
             (Z.lnot (TEXT_BUFFER_GAP_CHUNK_BYTES - 1)) in
    let bytes_old := main_commit tb in
    let bytes_new := to_usize (sizeof_TextBuffer + length + gap_len_new) in
    commit ← (if bytes_new >? bytes_old then allocator_realloc bytes_new
              else Done bytes_old);
    let data2 := memmove data1 (off + gap_len_new) (off + gap_len0) (length - off) in
    Done (set_gap commit data2 length off gap_len_new tb)
  else
    Done (set_gap (main_commit tb) data1 length off gap_len0 tb).

(** [text_buffer_allocate_gap]; the returned pointer is [tb->text + off]. *)
Definition text_buffer_allocate_gap (tb : TextBuffer) (off len_ : Z)
  : outcome TextBuffer :=
  if negb (off =? gap_off tb) || (len_ >? gap_len tb)
  then text_buffer_allocate_gap_impl tb off len_
  else Done tb.

Definition text_buffer_commit_gap (tb : TextBuffer) (len_ : Z) : TextBuffer :=
  let l := min_u64 len_ (gap_len tb) in
  set_gap (main_commit tb) (text tb) (to_usize (text_length tb + l))
    (to_usize (gap_off tb + l)) (to_usize (gap_len tb - l)) tb.

Definition text_buffer_read_backward (tb : TextBuffer) (off : Z) : s8 :=
  if off <=? gap_off tb then mk_s8 0 off off
  else
    let l := to_usize (off - gap_off tb) in
    mk_s8 (to_usize (gap_off tb + gap_len tb)) l l.

Definition text_buffer_read_forward (tb : TextBuffer) (off : Z) : s8 :=
  if off <? gap_off tb then
    let l := to_usize (gap_off tb - off) in mk_s8 off l l
  else
    let l := to_usize (text_length tb - off) in
    mk_s8 (to_usize (off + gap_len tb)) l l.

(** [text_buffer_extract]: the bytes copied to [dst]; the return value is
    their number. *)
Definition text_buffer_extract (tb : TextBuffer) (beg_ end_ : Z) : list Z :=
  if (beg_ >=? end_) || (end_ >? text_length tb) then []
  else
    (if beg_ <? gap_off tb then
       slice_bytes (text tb) (mk_s8 beg_ (min_u64 end_ (gap_off tb) - beg_) 0)
     else []) ++
    (if end_ >? gap_off tb then
       let s := max_u64 beg_ (gap_off tb) in
       slice_bytes (text tb) (mk_s8 (gap_len tb + s) (end_ - s) 0)
     else []).

(** The document: everything [text_buffer_extract] can deliver. *)
Definition contents (tb : TextBuffer) : list Z :=
  text_buffer_extract tb 0 (text_length tb).

Definition text_buffer_record_push_change (tb : TextBuffer) (beg_ end_ : Z)
    (replacement : list Z) : outcome TextBuffer :=
  if (beg_ >? end_) || (end_ >? text_length tb) then Done tb
  else
    let removed_len := end_ - beg_ in
    let space_needed :=
      to_usize (sizeof_TextBufferChange + removed_len + Z.of_nat (length replacement)) in
    let usage_now := undo_usage tb in
    let usage_next := to_usize (usage_now + space_needed) in
    '(base, mem, commit, usage_next') ←
      (if usage_next >? undo_commit tb then
         l ← allocator_realloc usage_next;
         Done (true,
               match undo_tail tb with
               | Some _ => store_change (undo_mem tb) 0 change_zero
               | None => undo_mem tb
               end, l, l)
       else Done (undo_base tb, undo_mem tb, undo_commit tb, usage_next));
    let change := undo_usage tb in
    let removed_ := text_buffer_extract tb beg_ end_ in
    let inserted_ := replacement in
    let mem1 :=
      match undo_tail tb with
      | Some t =>
        let c := mem t in
        store_change mem t
          (mkTextBufferChange (prev c) (Some change) (change_cursor c) (removed c)
             (inserted c))
      | None => mem
      end in
    let mem2 :=
      store_change mem1 change
        (mkTextBufferChange (undo_tail tb) None (cursor tb) removed_ inserted_) in
    Done (mkTextBuffer (main_commit tb) (text tb) (text_length tb) (gap_off tb)
            (gap_len tb) base mem2 (Some change) usage_next' commit
            (stats_lines tb) (cursor tb) (selection tb) (word_wrap_columns tb)
            true (overtype tb)).

Definition text_buffer_selection_update (tb : TextBuffer) (p : Point) : TextBuffer :=
  let s := selection tb in
  match sel_state s with
  | TEXT_BUFFER_SELECTION_NONE | TEXT_BUFFER_SELECTION_DONE =>
    set_selection (mkTextBufferSelection p (sel_end s) TEXT_BUFFER_SELECTION_MAYBE) tb
  | _ =>
    set_selection (mkTextBufferSelection (sel_beg s) p TEXT_BUFFER_SELECTION_ACTIVE) tb
  end.

Definition text_buffer_selection_end (tb : TextBuffer) : bool * TextBuffer :=
  let s := selection tb in
  let active :=
    match sel_state s with TEXT_BUFFER_SELECTION_ACTIVE => true | _ => false end in
  (active,
   set_selection
     (mkTextBufferSelection (sel_beg s) (sel_end s)
        (if active then TEXT_BUFFER_SELECTION_DONE else TEXT_BUFFER_SELECTION_NONE))
     tb).

(** [s8_slice] (helpers.c) *)
Definition s8_slice (str : s8) (beg_ end_ : Z) : s8 :=
  let e := min_u64 end_ (len str) in
  let b := min_u64 beg_ e in
  mk_s8 (beg str + b) (e - b) (e - b).

Definition set_offset (o : Z) (c : TextBufferCursor) : TextBufferCursor :=
  mkTextBufferCursor o (logical_pos c) (visual_pos c).
Definition set_logical_pos (p : Point) (c : TextBufferCursor) : TextBufferCursor :=
  mkTextBufferCursor (offset c) p (visual_pos c).
Definition set_visual_pos (p : Point) (c : TextBufferCursor) : TextBufferCursor :=
  mkTextBufferCursor (offset c) (logical_pos c) p.

Section WithOracle.

Variable U : UcdOracle.

(** The bytes of a chunk returned by [text_buffer_read_forward] or
    [text_buffer_read_backward]. *)
Definition chunk_bytes (tb : TextBuffer) (chunk : s8) : list Z :=
  slice_bytes (text tb) chunk.

(** [while (y > tb->cursor.logical_pos.y)] of [text_buffer_goto_line_start] *)
Fixpoint goto_line_forward (fuel : nat) (tb : TextBuffer) (y_ : Z)
    (c : TextBufferCursor) : outcome TextBufferCursor :=
  if y_ >? y (logical_pos c) then
    match fuel with
    | O => OutOfFuel
    | S fuel' =>
      let chunk := text_buffer_read_forward tb (offset c) in
      if len chunk =? 0 then Done c
      else
        let '(n, line) :=
          ucd_newlines_forward U (chunk_bytes tb chunk) 0 (y (logical_pos c)) y_ in
        goto_line_forward fuel' tb y_
          (set_logical_pos (mkPoint (x (logical_pos c)) line)
             (set_offset (to_usize (offset c + n)) c))
    end
  else Done c.

(** [do { ... } while (y < tb->cursor.logical_pos.y)] *)
Fixpoint goto_line_backward (fuel : nat) (tb : TextBuffer) (y_ : Z)
    (c : TextBufferCursor) : outcome TextBufferCursor :=
  match fuel with
  | O => OutOfFuel
  | S fuel' =>
    let chunk := text_buffer_read_backward tb (offset c) in
    if len chunk =? 0 then Done c
    else
      let '(n, line) :=
        ucd_newlines_backward U (chunk_bytes tb chunk) (len chunk)
          (y (logical_pos c)) y_ in
      let c' :=
        set_logical_pos (mkPoint (x (logical_pos c)) line)
          (set_offset (to_usize (offset c - to_usize (len chunk - n))) c) in
      if y_ <? line then goto_line_backward fuel' tb y_ c' else Done c'
  end.

(** The [while (true)] loop that counts the wrapped lines that were crossed;
    the result is [delta]. *)
Fixpoint count_wrapped_lines (fuel : nat) (tb : TextBuffer) (p : Point)
    (off goal delta : Z) : outcome Z :=
  match fuel with
  | O => OutOfFuel
  | S fuel' =>
    let chunk := text_buffer_read_forward tb off in
    if len chunk =? 0 then Done delta
    else
      let wrap :=
        snd (ucd_measure_forward U (chunk_bytes tb chunk) 0 p
               (word_wrap_columns tb) (-1) true) in
      let off' := to_usize (off + Ucd.offset wrap) in
      if off' >=? goal then Done delta
      else count_wrapped_lines fuel' tb p off' goal (wrap32 (delta + 1))
  end.

Definition text_buffer_goto_line_start (fuel : nat) (tb : TextBuffer) (y_ : Z)
  : outcome TextBuffer :=
  let c0 := cursor tb in
  let start_offset := offset c0 in
  c1 ← (if y_ >? y (logical_pos c0) then
          c ← goto_line_forward fuel tb y_ c0;
          if negb (offset c =? text_length tb) then Done c
          else goto_line_backward fuel tb (wrap32 (y (logical_pos c) - 1)) c
        else goto_line_backward fuel tb y_ c0);
  (* done: *)
  let c2 := set_logical_pos (mkPoint 0 (y (logical_pos c1))) c1 in
  if word_wrap_columns tb <? 0 then
    Done (set_cursor (set_visual_pos (mkPoint 0 (y (logical_pos c2))) c2) tb)
  else
    let '(p, off, goal) :=
      if start_offset <? offset c2
      then (mkPoint (x (visual_pos c2)) 0, start_offset, offset c2)
      else (mkPoint 0 0, offset c2, start_offset) in
    delta ← (if off <? goal then count_wrapped_lines fuel tb p off goal 0
             else Done 0);
    let delta' := if start_offset >? offset c2 then wrap32 (- delta) else delta in
    Done (set_cursor
            (set_visual_pos (mkPoint 0 (wrap32 (y (visual_pos c2) + delta'))) c2) tb).

(** [while (x > tb->cursor.logical_pos.x)] of [text_buffer_cursor_move_to_logical],
    without word wrap *)
Fixpoint move_in_line (fuel : nat) (tb : TextBuffer) (x_ : Z)
    (c : TextBufferCursor) : outcome TextBufferCursor :=
  if x_ >? x (logical_pos c) then
    match fuel with
    | O => OutOfFuel
    | S fuel' =>
      let chunk := text_buffer_read_forward tb (offset c) in
      if len chunk =? 0 then Done c
      else
        let m :=
          fst (ucd_measure_forward U (chunk_bytes tb chunk) 0 (visual_pos c) (-1)
                 (wrap32 (x_ - x (logical_pos c))) false) in
        let c' :=
          mkTextBufferCursor (to_usize (offset c + Ucd.offset m))
            (mkPoint (wrap32 (x (logical_pos c) + movements m)) (y (logical_pos c)))
            (pos m) in
        if Ucd.offset m <? len chunk then Done c'
        else move_in_line fuel' tb x_ c'
    end
  else Done c.

(** The [while (true)] loop of [text_buffer_cursor_move_to_logical], with
    word wrap *)
Fixpoint move_in_line_wrapped (fuel : nat) (tb : TextBuffer) (x_ : Z)
    (c : TextBufferCursor) : outcome TextBufferCursor :=
  match fuel with
  | O => OutOfFuel
  | S fuel' =>
    let chunk := text_buffer_read_forward tb (offset c) in
    if len chunk =? 0 then Done c
    else
      let '(m, wrap) :=
        ucd_measure_forward U (chunk_bytes tb chunk) 0 (visual_pos c)
          (word_wrap_columns tb) (wrap32 (x_ - x (logical_pos c))) true in
      let c' :=
        mkTextBufferCursor (to_usize (offset c + Ucd.offset wrap))
          (mkPoint (wrap32 (x (logical_pos c) + movements wrap)) (y (logical_pos c)))
          (pos wrap) in
      if Ucd.offset m <? len chunk then Done c'
      else
        (* Line wrap. *)
        move_in_line_wrapped fuel' tb x_
          (set_visual_pos (mkPoint 0 (wrap32 (y (visual_pos c') + 1))) c')
  end.

(** [text_buffer_cursor_move_to_logical]; the returned offset is the one of
    the cursor of the result. *)
Definition text_buffer_cursor_move_to_logical (fuel : nat) (tb : TextBuffer)
    (p : Point) : outcome TextBuffer :=
  let x_ := max_i32 (x p) 0 in
  let y_ := max_i32 (y p) 0 in
  tb1 ← text_buffer_goto_line_start fuel tb y_;
  c ← (if word_wrap_columns tb1 <? 0 then move_in_line fuel tb1 x_ (cursor tb1)
       else if x_ >? x (logical_pos (cursor tb1))
            then move_in_line_wrapped fuel tb1 x_ (cursor tb1)
            else Done (cursor tb1));
  Done (set_cursor c tb1).

Definition text_buffer_cursor_move_delta (fuel : nat) (tb : TextBuffer)
    (cursor_movements : Z) : outcome TextBuffer :=
  if cursor_movements <? 0 then
    let off := offset (cursor tb) in
    tb1 ← text_buffer_cursor_move_to_logical fuel tb
            (mkPoint (wrap32 (x (logical_pos (cursor tb)) - 1))
                     (y (logical_pos (cursor tb))));
    if off =? offset (cursor tb1) then
      text_buffer_cursor_move_to_logical fuel tb1
        (mkPoint COORD_TYPE_SAFE_MAX (wrap32 (y (logical_pos (cursor tb1)) - 1)))
    else Done tb1
  else if cursor_movements >? 0 then
    let off := offset (cursor tb) in
    tb1 ← text_buffer_cursor_move_to_logical fuel tb
            (mkPoint (wrap32 (x (logical_pos (cursor tb)) + 1))
                     (y (logical_pos (cursor tb))));
    if off =? offset (cursor tb1) then
      text_buffer_cursor_move_to_logical fuel tb1
        (mkPoint 0 (wrap32 (y (logical_pos (cursor tb1)) + 1)))
    else Done tb1
  else Done tb.

Definition text_buffer_reflow (fuel : nat) (tb : TextBuffer) (width_ : Z)
  : outcome TextBuffer :=
  let w := if width_ <=? 0 then -1 else width_ in
  if word_wrap_columns tb =? w then Done tb
  else
    let p := logical_pos (cursor tb) in
    text_buffer_cursor_move_to_logical fuel
      (set_cursor cursor_zero (set_word_wrap_columns w tb)) p.

(** [text_buffer_apply_change]; [change] is the pointer to the change. *)
Definition text_buffer_apply_change (fuel : nat) (tb : TextBuffer) (change : Z)
  : outcome TextBuffer :=
  let ch := undo_mem tb change in
  let tb0 := set_cursor (change_cursor ch) tb in
  let removed_len := Z.of_nat (length (removed ch)) in
  let inserted_len := Z.of_nat (length (inserted ch)) in
  (* Since we'll be deleting the inserted portion, we only need to allocate the delta. *)
  let gap_len_ := max_u64 removed_len inserted_len - inserted_len in
  let dst := offset (cursor tb0) in
  tb1 ← text_buffer_allocate_gap tb0 dst gap_len_;
  (* excerpt of text_buffer_delete_right *)
  let tb2 :=
    set_gap (main_commit tb1) (text tb1) (to_usize (text_length tb1 - inserted_len))
      (gap_off tb1) (to_usize (gap_len tb1 + inserted_len)) tb1 in
  (* excerpt of text_buffer_insert *)
  let tb3 :=
    set_gap (main_commit tb2) (memcpy (text tb2) dst (removed ch)) (text_length tb2)
      (gap_off tb2) (gap_len tb2) tb2 in
  let tb4 := text_buffer_commit_gap tb3 removed_len in
  let cursor_before := cursor tb4 in
  tb5 ← text_buffer_cursor_move_delta fuel tb4 (-1);
  let backoff_count := to_usize (offset cursor_before - offset (cursor tb5)) in
  let chunk :=
    s8_slice (text_buffer_read_forward tb5 (offset (cursor tb5))) 0
      (to_usize (backoff_count + removed_len)) in
  let after :=
    fst (ucd_measure_forward U (chunk_bytes tb5 chunk) 0 (logical_pos (cursor tb5))
           COORD_TYPE_MAX COORD_TYPE_MAX false) in
  Done (set_cursor
          (mkTextBufferCursor (to_usize (offset (cursor tb5) + Ucd.offset after))
             (pos after) (visual_pos (cursor tb5))) tb5).

(** The tail of [text_buffer_undo] and [text_buffer_redo]: the change gets
    the cursor [c] and its two slices are swapped. *)
Definition swap_change (tb : TextBuffer) (change : Z) (c : TextBufferCursor)
  : TextBuffer :=
  let ch := undo_mem tb change in
  set_undo_mem
    (store_change (undo_mem tb) change
       (mkTextBufferChange (prev ch) (next ch) c (inserted ch) (removed ch))) tb.

Definition text_buffer_undo (fuel : nat) (tb : TextBuffer) : outcome TextBuffer :=
  match undo_tail tb with
  | None => Done tb
  | Some change =>
    let tb1 := set_undo_tail (prev (undo_mem tb change)) tb in
    tb2 ← text_buffer_apply_change fuel tb1 change;
    Done (swap_change tb2 change (cursor tb2))
  end.

Definition text_buffer_redo (fuel : nat) (tb : TextBuffer) : outcome TextBuffer :=
  let change0 :=
    match undo_tail tb with
    | Some c => Some c
    | None => if undo_base tb then Some 0 else None
    end in
  match change0 with
  | None => Done tb
  | Some c0 =>
    match next (undo_mem tb c0) with
    | None => Done tb
    | Some change =>
      let cursor_ := cursor tb in
      let tb1 := set_undo_tail (Some change) tb in
      tb2 ← text_buffer_apply_change fuel tb1 change;
      Done (swap_change tb2 change cursor_)
    end
  end.

Definition text_buffer_write (tb : TextBuffer) (str : list Z) : outcome TextBuffer :=
  let str_len := Z.of_nat (length str) in
  if str_len =? 0 then Done tb
  else
    let dst := offset (cursor tb) in
    tb1 ← text_buffer_allocate_gap tb dst str_len;
    let tb2 :=
      set_gap (main_commit tb1) (memcpy (text tb1) dst str) (text_length tb1)
        (gap_off tb1) (gap_len tb1) tb1 in
    let text_ :=
      slice_bytes (text tb2) (mk_s8 0 (to_usize (gap_off tb2 + str_len)) 0) in
    let '(prev_bck, prev_fwd) :=
      if (gap_off tb2 =? 0) || (text tb2 (gap_off tb2 - 1) =? 0x09) then
        let m := mkUcdMeasurement (gap_off tb2) (logical_pos (cursor tb2)) 0 false in
        (m, m)
      else
        let b :=
          ucd_measure_backward U text_ (gap_off tb2) (logical_pos (cursor tb2)) (-1) 1 in
        (b, fst (ucd_measure_forward U text_ (Ucd.offset b) (pos b) (-1) 1 false)) in
    let next_ :=
      fst (ucd_measure_forward U text_ (Ucd.offset prev_fwd) (pos prev_fwd) (-1) (-1)
             false) in
    let '(off_beg, off_end) :=
      if overtype tb2 then
        let chunk := text_buffer_read_forward tb2 (offset (cursor tb2)) in
        let fwd :=
          fst (ucd_measure_forward U (chunk_bytes tb2 chunk) 0 (logical_pos (cursor tb2))
                 COORD_TYPE_MAX (movements next_) false) in
        let combines_with_preceding := negb (Ucd.offset prev_fwd =? gap_off tb2) in
        (if combines_with_preceding then Ucd.offset prev_bck else Ucd.offset prev_fwd,
         to_usize (gap_off tb2 + Ucd.offset fwd))
      else (offset (cursor tb2), offset (cursor tb2)) in
    tb3 ← text_buffer_record_push_change tb2 off_beg off_end str;
    let tb4 := text_buffer_commit_gap tb3 str_len in
    let tb5 :=
      set_gap (main_commit tb4) (text tb4) (text_length tb4) (gap_off tb4)
        (to_usize (gap_len tb4 + (off_end - off_beg))) tb4 in
    Done (set_cursor
            (mkTextBufferCursor (Ucd.offset next_) (pos next_)
               (visual_pos (cursor tb5))) tb5).

End WithOracle.

(** *** Runs used as examples *)

Definition contents_of (o : outcome TextBuffer) : outcome (list Z) :=
  tb ← o; Done (contents tb).
Definition cursor_of (o : outcome TextBuffer) : outcome TextBufferCursor :=
  tb ← o; Done (cursor tb).
Definition logical_pos_of (o : outcome TextBuffer) : outcome Point :=
  tb ← o; Done (logical_pos (cursor tb)).

(** The bytes of [hello]. *)
Definition hello : list Z := [104; 101; 108; 108; 111].

(** The three bytes of the wide glyph U+4E16. *)
Definition wide_glyph : list Z := [0xE4; 0xB8; 0x96].

(** A buffer with word wrap at 10 columns into which the wide glyph was
    typed. *)
Definition typed_wide_glyph (U : UcdOracle) : outcome TextBuffer :=
  tb ← text_buffer_reflow U 4 text_buffer_create 10;
  text_buffer_write U tb wide_glyph.

(** A line [abcd] that was typed as [acd], with [b] put in afterwards, so
    that the gap lies between [ab] and [cd]; the cursor was moved back to the
    start of the line. *)
Definition gap_in_line (U : UcdOracle) : outcome TextBuffer :=
  tb ← text_buffer_write U text_buffer_create [97; 99; 100];
  tb ← text_buffer_cursor_move_to_logical U 4 tb (mkPoint 1 0);
  tb ← text_buffer_write U tb [98];
  text_buffer_cursor_move_to_logical U 4 tb (mkPoint 0 0).

End Buffer.

(** ** helpers.c: rectangles *)

Definition rect_is_empty (r : Rect) : bool :=
  (left r >=? right r) || (top r >=? bottom r).

Definition rect_contains (r : Rect) (p : Point) : bool :=
  (x p >=? left r) && (x p <? right r) && (y p >=? top r) && (y p <? bottom r).

Definition rect_intersect (lhs rhs : Rect) : Rect :=
  let l := max_i32 (left lhs) (left rhs) in
  let t := max_i32 (top lhs) (top rhs) in
  let r := min_i32 (right lhs) (right rhs) in
  let b := min_i32 (bottom lhs) (bottom rhs) in
  (* Ensure that the size is non-negative. *)
  mkRect l t (max_i32 l r) (max_i32 t b).

(** ** tui.c: the UI engine *)

Module Tui.

Import Input.

Inductive UiContentType :=
| UI_NODE_CONTAINER
| UI_NODE_TEXT
| UI_NODE_TEXTAREA
| UI_NODE_SCROLLAREA.

(** [Attributes]; the float specification (two [f32] gravities and an offset)
    plays no part in what follows and is left out. *)
Record Attributes := mkAttributes {
  padding : Rect;
  grid_columns : list Z;
  bg : Z;
  fg : Z;
  floating : bool;
  bordered : bool
}.

(** [UiNode]. A pointer to a node is its index in the arena of its frame
    ([None] is [NULL]). Of the [content] union only the [scrollarea] member,
    the scroll offset, is kept. *)
Record UiNode := mkUiNode {
  stack_parent : option nat;
  id : Z;                       (* u64 *)
  parent : option nat;
  child_first : option nat;
  child_last : option nat;
  sibling_prev : option nat;
  sibling_next : option nat;
  attributes : Attributes;
  content_type : UiContentType;
  content_scrollarea : Point;
  intrinsic_size : Size;
  intrinsic_size_set : bool;
  outer : Rect;
  inner : Rect;
  outer_clipped : Rect;
  inner_clipped : Rect
}.

Definition rect_zero : Rect := mkRect 0 0 0 0.

(** A node as [arena_zalloc] returns it. *)
Definition node_zero : UiNode :=
  mkUiNode None 0 None None None None None
    (mkAttributes rect_zero [] 0 0 false false)
    UI_NODE_CONTAINER (mkPoint 0 0) (mkSize 0 0) false
    rect_zero rect_zero rect_zero rect_zero.

Definition b2z (b : bool) : Z := if b then 1 else 0.

Definition outer_to_inner (node : UiNode) (o : Rect) : Rect :=
  let a := attributes node in
  let l := b2z (bordered a) in
  let t := b2z (bordered a) in
  let r := Z.lor (b2z (bordered a))
                 (b2z (match content_type node with
                       | UI_NODE_SCROLLAREA => true | _ => false end)) in
  let b := b2z (bordered a) in
  mkRect (wrap32 (left o + wrap32 (left (padding a) + l)))
         (wrap32 (top o + wrap32 (top (padding a) + t)))
         (wrap32 (right o - wrap32 (right (padding a) + r)))
         (wrap32 (bottom o - wrap32 (bottom (padding a) + b))).

(** The arena of one frame. *)
Definition Arena := nat -> UiNode.

Definition arena_store (a : Arena) (p : nat) (n : UiNode) : Arena :=
  fun q => if Nat.eqb q p then n else a q.

Definition set_layout (o i oc ic : Rect) (n : UiNode) : UiNode :=
  mkUiNode (stack_parent n) (id n) (parent n) (child_first n) (child_last n)
    (sibling_prev n) (sibling_next n) (attributes n) (content_type n)
    (content_scrollarea n) (intrinsic_size n) (intrinsic_size_set n) o i oc ic.

Definition set_content_scrollarea (p : Point) (n : UiNode) : UiNode :=
  mkUiNode (stack_parent n) (id n) (parent n) (child_first n) (child_last n)
    (sibling_prev n) (sibling_next n) (attributes n) (content_type n)
    p (intrinsic_size n) (intrinsic_size_set n) (outer n) (inner n)
    (outer_clipped n) (inner_clipped n).

(** The branch [if (node->content_type == UI_NODE_SCROLLAREA)] of
    [ui_layout_children]: the node and its child after the layout. *)
Definition layout_scrollarea (node child : UiNode) : UiNode * UiNode :=
  (* scrollarea size *)
  let sx := wrap32 (right (inner node) - left (inner node)) in
  let sy := wrap32 (bottom (inner node) - top (inner node)) in
  (* content size *)
  let cx := max_i32 (width (intrinsic_size child)) sx in
  let cy := max_i32 (height (intrinsic_size child)) sy in
  (* offset *)
  let ox := clamp_i32 (x (content_scrollarea node)) 0 (wrap32 (cx - sx)) in
  let oy := clamp_i32 (y (content_scrollarea node)) 0 (wrap32 (cy - sy)) in
  let o_left := wrap32 (left (inner node) - ox) in
  let o_top := wrap32 (top (inner node) - oy) in
  let o := mkRect o_left o_top (wrap32 (o_left + cx)) (wrap32 (o_top + cy)) in
  let i := outer_to_inner child o in
  (set_content_scrollarea (mkPoint ox oy) node,
   set_layout o i (rect_intersect o (inner_clipped node))
     (rect_intersect i (inner_clipped node)) child).

Section Layout.

(** The grid branch of [ui_layout_children] computes column widths in [f64];
    it is a parameter here. *)
Variable layout_grid : Arena -> nat -> Rect -> Arena.

(** [ui_layout_children(ctx, node, clip)] on the arena of the frame. *)
Definition ui_layout_children (a : Arena) (node : nat) (clip : Rect) : Arena :=
  match child_first (a node) with
  | None => a
  | Some child =>
    if rect_is_empty (inner (a node)) then a
    else
      match content_type (a node) with
      | UI_NODE_SCROLLAREA =>
        let '(n', c') := layout_scrollarea (a node) (a child) in
        arena_store (arena_store a child c') node n'
      | _ => layout_grid a node clip
      end
  end.

End Layout.

(** [UiContext]. [nodes] is the arena of the frame, [nodes_prev] that of the
    frame before; the hash table [node_map] with its shift and mask is only
    copied by [ui_root_reset] and is kept as one value. *)
Record UiContext := mkUiContext {
  nodes : Arena;
  nodes_prev : Arena;
  indexed_colors : list Z;
  size : Size;
  input_text : s8;
  input_keyboard : UiInputKeyboard;
  input_mouse_action : MouseAction;
  input_mouse_position : Point;
  input_scroll_delta : Point;
  input_consumed : bool;
  focused_item_id : Z;
  root_first : option nat;
  root_last : option nat;
  attr_node : option nat;
  parent_ : option nat;          (* [parent] *)
  node_count : Z;
  autofocus_next : bool;
  node_map : list (option nat);
  finalized : bool
}.

(** [while (!node->sibling_next) { node = node->parent; if (node == root)
    goto next; } node = node->sibling_next;]. The result is [Some None] for
    [goto next] and [Some (Some s)] for the sibling the walk goes on with;
    [None]: a [NULL] parent was dereferenced, or the fuel ran out. *)
Fixpoint ascend (fuel : nat) (a : Arena) (root node : nat) : option (option nat) :=
  match sibling_next (a node) with
  | Some s => Some (Some s)
  | None =>
    match fuel with
    | O => None
    | S fuel' =>
      match parent (a node) with
      | None => None
      | Some p => if Nat.eqb p root then Some None else ascend fuel' a root p
      end
    end
  end.

(** [for (UiNode* node = root;;)]: the walk over one root; the result is
    [best]. *)
Fixpoint walk (fuel : nat) (a : Arena) (p : Point) (root node : nat)
    (best : option nat) : option (option nat) :=
  match fuel with
  | O => None
  | S fuel' =>
    let best' := if rect_contains (inner_clipped (a node)) p then Some node else best in
    match child_first (a node) with
    | Some c => walk fuel' a p root c best'
    | None =>
      match ascend fuel' a root node with
      | None => None
      | Some None => Some best'
      | Some (Some s) => walk fuel' a p root s best'
      end
    end
  end.

(** [for (UiNode* root = prev->root_first; root; root = root->sibling_next)] *)
Fixpoint walk_roots (fuel : nat) (a : Arena) (p : Point) (root : option nat)
    (best : option nat) : option (option nat) :=
  match root with
  | None => Some best
  | Some r =>
    match fuel with
    | O => None
    | S fuel' =>
      match walk fuel' a p r r best with
      | None => None
      | Some best' => walk_roots fuel' a p (sibling_next (a r)) best'
      end
    end
  end.

(** The hit test of the case [UI_INPUT_MOUSE]. *)
Definition hit_test (fuel : nat) (prev : UiContext) (p : Point)
  : option (option nat) :=
  walk_roots fuel (nodes prev) p (root_first prev) None.

Definition is_button (m : MouseAction) : bool :=
  match m with
  | MOUSE_ACTION_LEFT | MOUSE_ACTION_MIDDLE | MOUSE_ACTION_RIGHT => true
  | _ => false
  end.

Section RootReset.

(** [ui_root_finalize] returns at once when the context is finalized, as it
    is after [ui_root_render]; what it does otherwise (hash table, intrinsic
    sizes, layout) is a parameter. *)
Variable finalize_frame : UiContext -> UiContext.

Definition ui_root_finalize (ctx : UiContext) : UiContext :=
  if finalized ctx then ctx else finalize_frame ctx.

(** [UiContext* ui_root_reset(UiContext* prev, UiInput input)] *)
Definition ui_root_reset (fuel : nat) (prev0 : UiContext) (input : UiInput)
  : option UiContext :=
  let prev := ui_root_finalize prev0 in
  let colors := indexed_colors prev in
  let root_node :=
    mkUiNode None 0x0123456789abcdef None None None None None
      (mkAttributes rect_zero [] (colors !!! 0%nat) (colors !!! 15%nat) false false)
      UI_NODE_CONTAINER (mkPoint 0 0) (mkSize 0 0) false
      rect_zero rect_zero rect_zero rect_zero in
  let ctx :=
    mkUiContext (arena_store (fun _ => node_zero) 0%nat root_node) (nodes prev)
      colors (size prev) s8_zero (mkUiInputKeyboard 0 0) MOUSE_ACTION_NONE
      (input_mouse_position prev) (mkPoint 0 0) false (focused_item_id prev)
      (Some 0%nat) (Some 0%nat) (Some 0%nat) (Some 0%nat) 1 false
      (node_map prev) false in
  let upd (sz : Size) (txt : s8) (kb : UiInputKeyboard) (ma : MouseAction)
          (mp sd : Point) (consumed : bool) (focus : Z) :=
    mkUiContext (nodes ctx) (nodes_prev ctx) (indexed_colors ctx) sz txt kb ma mp sd
      consumed focus (root_first ctx) (root_last ctx) (attr_node ctx) (parent_ ctx)
      (node_count ctx) (autofocus_next ctx) (node_map ctx) (finalized ctx) in
  match input with
  | UI_INPUT_NONE =>
    Some (upd (size ctx) (input_text ctx) (input_keyboard ctx)
            (input_mouse_action prev) (input_mouse_position ctx)
            (input_scroll_delta ctx) true (focused_item_id ctx))
  | UI_INPUT_RESIZE sz =>
    Some (upd sz (input_text ctx) (input_keyboard ctx) (input_mouse_action ctx)
            (input_mouse_position ctx) (input_scroll_delta ctx)
            (input_consumed ctx) (focused_item_id ctx))
  | UI_INPUT_TEXT txt =>
    Some (upd (size ctx) txt (input_keyboard ctx) (input_mouse_action ctx)
            (input_mouse_position ctx) (input_scroll_delta ctx)
            (input_consumed ctx) (focused_item_id ctx))
  | UI_INPUT_KEYBOARD kb =>
    Some (upd (size ctx) (input_text ctx) kb (input_mouse_action ctx)
            (input_mouse_position ctx) (input_scroll_delta ctx)
            (input_consumed ctx) (focused_item_id ctx))
  | UI_INPUT_MOUSE m =>
    let p := position m in
    match hit_test fuel prev p with
    | None => None
    | Some best =>
      let mouse_action :=
        if is_button (input_mouse_action prev) &&
           match action m with MOUSE_ACTION_NONE => true | _ => false end
        then MOUSE_ACTION_RELEASE else action m in
      let focus :=
        match best, mouse_action with
        | Some b, MOUSE_ACTION_LEFT => id (nodes prev b)
        | _, _ => focused_item_id ctx
        end in
      Some (upd (size ctx) (input_text ctx) (input_keyboard ctx) mouse_action p
              (scroll m) (input_consumed ctx) focus)
    end
  end.

End RootReset.

(** *** The tree that an arena holds

    A tree names the pointer of its root and the trees of the children, in
    the order of the [sibling_next] chain. *)
#[local] Unset Elimination Schemes.
Inductive tree := Tree (p : nat) (children : list tree).
#[local] Set Elimination Schemes.

Definition tree_ptr (t : tree) : nat := match t with Tree p _ => p end.
Definition tree_children (t : tree) : list tree := match t with Tree _ cs => cs end.

Definition head_ptr (ts : list tree) : option nat :=
  match ts with t :: _ => Some (tree_ptr t) | [] => None end.

(** The nodes of a tree in the order of a depth-first walk, parents first. *)
Fixpoint preorder (t : tree) : list nat :=
  match t with
  | Tree p cs => p :: flat_map preorder cs
  end.

(** [chain a par cs]: the roots of the trees [cs] are a run of siblings that
    ends a child list of [par]: each points back at [par] and on to the one
    behind it, the last one to [NULL]. *)
Fixpoint chain (a : Arena) (par : nat) (cs : list tree) : Prop :=
  match cs with
  | [] => True
  | c :: cs' =>
    parent (a (tree_ptr c)) = Some par /\
    sibling_next (a (tree_ptr c)) = head_ptr cs' /\
    chain a par cs'
  end.

(** [holds_tree a t]: the arena holds the tree [t]: the child list of every
    node of [t] is the chain of the roots of its subtrees. Nothing is said
    about the parent and the siblings of the root of [t]. *)
Fixpoint holds_tree (a : Arena) (t : tree) : Prop :=
  match t with
  | Tree p cs =>
    child_first (a p) = head_ptr cs /\
    chain a p cs /\
    (fix all (cs : list tree) : Prop :=
       match cs with
       | [] => True
       | c :: cs' => holds_tree a c /\ all cs'
       end) cs
  end.

(** The list of roots: the document root and the floaters behind it, chained
    by [sibling_next]. *)
Fixpoint holds_roots (a : Arena) (ts : list tree) : Prop :=
  match ts with
  | [] => True
  | t :: rest =>
    sibling_next (a (tree_ptr t)) = head_ptr rest /\
    holds_tree a t /\
    holds_roots a rest
  end.

(** The candidate after a hit test that visits the nodes [l] in this order:
    the last one whose [inner_clipped] contains the pointer. *)
Definition last_hit (a : Arena) (p : Point) (l : list nat) : option nat :=
  last (filter (fun n => rect_contains (inner_clipped (a n)) p = true) l).

(** The depth of a node: the length of its chain of [parent] pointers. *)
Fixpoint node_depth (fuel : nat) (a : Arena) (n : nat) : nat :=
  match fuel with
  | O => O
  | S fuel' =>
    match parent (a n) with
    | None => O
    | Some p => S (node_depth fuel' a p)
    end
  end.

(** [hit a p b n]: the candidate after the walk has looked at the node [n]. *)
Definition hit (a : Arena) (p : Point) (b : option nat) (n : nat) : option nat :=
  if rect_contains (inner_clipped (a n)) p then Some n else b.

(** With enough fuel the walk below [root] that stands at [n] with the
    candidate [b] ends with the candidate [r]. *)
Definition walks (a : Arena) (p : Point) (root n : nat) (b r : option nat) : Prop :=
  exists fuel, walk fuel a p root n b = Some r.

Definition ascends (a : Arena) (root n : nat) (o : option nat) : Prop :=
  exists fuel, ascend fuel a root n = Some o.

(** What is left of the walk once the subtree of [n] is done with the
    candidate [b]: the climb from [n] ends the walk, or it leads to a
    sibling from which the walk goes on. *)
Definition completes (a : Arena) (p : Point) (root n : nat) (b r : option nat) : Prop :=
  (ascends a root n None /\ r = b) \/
  (exists s, ascends a root n (Some s) /\ walks a p root s b r).

Definition subtree_walk (a : Arena) (p : Point) (root : nat) (t : tree) : Prop :=
  holds_tree a t -> ~ In root (preorder t) ->
  forall b r, completes a p root (tree_ptr t) (foldl (hit a p) b (preorder t)) r ->
  walks a p root (tree_ptr t) b r.

(** A forest as the walk of [ui_root_reset] needs it: the roots are chained,
    every root has a child, and no pointer occurs twice in a tree. *)
Definition well_formed (a : Arena) (ts : list tree) : Prop :=
  holds_roots a ts /\
  Forall (fun t => tree_children t <> [] /\ NoDup (preorder t)) ts.

(** [best] is a deepest node among the nodes [l] whose [inner_clipped]
    contains the pointer, or [None] if there is none. *)
Definition deepest_hit (a : Arena) (p : Point) (l : list nat) (best : option nat)
  : Prop :=
  match best with
  | Some b =>
    rect_contains (inner_clipped (a b)) p = true /\
    forall n, In n l -> rect_contains (inner_clipped (a n)) p = true ->
      (node_depth (length l) a n <= node_depth (length l) a b)%nat
  | None => forall n, In n l -> rect_contains (inner_clipped (a n)) p = false
  end.

(** *** Frames used as examples *)

(** The coordinates for which no [i32] operation of the layout overflows. *)
Definition fits (z : Z) : Prop := - 2 ^ 30 <= z < 2 ^ 30.

(** The property of a laid-out scrollarea [node] with the child [child]:
    the outer size of the child is the larger of its intrinsic size and the
    inner size of the scrollarea, and the scroll offset lies between 0 and
    content minus viewport. [before] is the arena before the layout. *)
Definition scrollarea_claim (before after : Arena) (node child : nat) : Prop :=
  let sx := right (inner (before node)) - left (inner (before node)) in
  let sy := bottom (inner (before node)) - top (inner (before node)) in
  let cx := Z.max (width (intrinsic_size (before child))) sx in
  let cy := Z.max (height (intrinsic_size (before child))) sy in
  right (outer (after child)) - left (outer (after child)) = cx /\
  bottom (outer (after child)) - top (outer (after child)) = cy /\
  0 <= x (content_scrollarea (after node)) <= cx - sx /\
  0 <= y (content_scrollarea (after node)) <= cy - sy.

Definition example_node (par first prev_ next : option nat) (ct : UiContentType)
    (scroll_ : Point) (intrinsic : Size) (inner_ : Rect) (ident : Z) : UiNode :=
  mkUiNode par ident par first first prev_ next
    (mkAttributes rect_zero [] 0 0 false false) ct scroll_ intrinsic true
    inner_ inner_ inner_ inner_.

(** A scrollarea (node 0) with a child (node 1) of 5 by 100 cells. The
    scrollarea has the inner rectangle [inner_] and was scrolled to [y_]. *)
Definition scrollarea_frame (inner_ : Rect) (y_ : Z) : Arena :=
  arena_store
    (arena_store (fun _ => node_zero) 0%nat
       (example_node None (Some 1%nat) None None UI_NODE_SCROLLAREA (mkPoint 0 y_)
          (mkSize 0 0) inner_ 100))
    1%nat
    (example_node (Some 0%nat) None None None UI_NODE_TEXTAREA (mkPoint 0 0)
       (mkSize 5 100) rect_zero 101).

Definition cell_block : Rect := mkRect 0 0 10 10.

(** A frame with the document root 0 over the nodes 1, 2, 3, each the only
    child of the one before, and a floater 4 with the child 5; the floater
    was taken out of the child list of the root, which stays its parent.
    Every node covers the cells of [cell_block]. *)
Definition floater_frame : Arena :=
  fun n =>
    match n with
    | 0%nat => example_node None (Some 1%nat) None (Some 4%nat) UI_NODE_CONTAINER
                 (mkPoint 0 0) (mkSize 0 0) cell_block 100
    | 1%nat => example_node (Some 0%nat) (Some 2%nat) None None UI_NODE_CONTAINER
                 (mkPoint 0 0) (mkSize 0 0) cell_block 101
    | 2%nat => example_node (Some 1%nat) (Some 3%nat) None None UI_NODE_CONTAINER
                 (mkPoint 0 0) (mkSize 0 0) cell_block 102
    | 3%nat => example_node (Some 2%nat) None None None UI_NODE_CONTAINER
                 (mkPoint 0 0) (mkSize 0 0) cell_block 103
    | 4%nat => example_node (Some 0%nat) (Some 5%nat) (Some 0%nat) None UI_NODE_CONTAINER
                 (mkPoint 0 0) (mkSize 0 0) cell_block 104
    | 5%nat => example_node (Some 4%nat) None None None UI_NODE_CONTAINER
                 (mkPoint 0 0) (mkSize 0 0) cell_block 105
    | _ => node_zero
    end.

Definition floater_forest : list tree :=
  [Tree 0 [Tree 1 [Tree 2 [Tree 3 []]]]; Tree 4 [Tree 5 []]].

(** The finalized context of that frame. *)
Definition floater_context : UiContext :=
  mkUiContext floater_frame (fun _ => node_zero) (replicate 16 0) (mkSize 10 10)
    s8_zero (mkUiInputKeyboard 0 0) MOUSE_ACTION_NONE (mkPoint (-1) (-1))
    (mkPoint 0 0) false 100 (Some 0%nat) (Some 4%nat) (Some 4%nat) (Some 0%nat)
    6 false [] true.

(** A press of the left button on the cell (1, 1). *)
Definition left_press : UiInputMouse :=
  mkUiInputMouse MOUSE_ACTION_LEFT 0 (mkPoint 1 1) (mkPoint 0 0).

End Tui.

(** ** helpers.c: strings and numbers *)

Module Helpers.

(** [usize s8_find(s8 str, usize off, c8 ch)]; [rest] are the bytes from
    [off] on, [len_] is [str.len]. *)
Fixpoint s8_find_from (rest : list Z) (off len_ ch : Z) : Z :=
  match rest with
  | [] => len_
  | c :: rest' => if c =? ch then off else s8_find_from rest' (off + 1) len_ ch
  end.

Definition s8_find (str : list Z) (off ch : Z) : Z :=
  s8_find_from (drop (Z.to_nat off) str) off (Z.of_nat (length str)) ch.

(** The value of a digit of [s8_to_u64]; [None] is the [else] branch. *)
Definition digit_value (c : Z) : option Z :=
  if (0x30 <=? c) && (c <=? 0x39) then Some (c - 0x30)
  else if (0x41 <=? c) && (c <=? 0x46) then Some (c - 0x41 + 10)
  else if (0x61 <=? c) && (c <=? 0x66) then Some (c - 0x61 + 10)
  else None.

(** The [for (;;)] loop of [s8_to_u64]; [l] are the bytes from [ptr] to
    [end]. *)
Fixpoint s8_to_u64_loop (l : list Z) (accumulator base64 : Z) : Z :=
  match l with
  | [] => accumulator
  | c :: l' =>
    match digit_value c with
    | None => 0
    | Some value =>
      let acc := to_usize (to_usize (accumulator * base64) + value) in
      if acc <? accumulator then 0 else s8_to_u64_loop l' acc base64
    end
  end.

(** [u64 s8_to_u64(s8 str, int base)] *)
Definition s8_to_u64 (str : list Z) (base : Z) : Z :=
  let '(ptr, base64) :=
    if base <=? 0 then
      match str with
      | c0 :: rest =>
        if c0 =? 0x30 then
          match rest with
          | c1 :: rest' =>
            if (c1 =? 0x78) || (c1 =? 0x58) then (rest', 16) else (rest, 8)
          | [] => (rest, 8)
          end
        else (str, 10)
      | [] => (str, 10)
      end
    else (str, to_usize base) in
  match ptr with
  | [] => 0
  | _ :: _ => s8_to_u64_loop ptr 0 base64
  end.

(** [static const u64 powers_of_10[]] *)
Definition powers_of_10 : list Z :=
  [0; 10; 100; 1000; 10000; 100000; 1000000; 10000000; 100000000; 1000000000;
   10000000000; 100000000000; 1000000000000; 10000000000000; 100000000000000;
   1000000000000000; 10000000000000000; 100000000000000000;
   1000000000000000000; 10000000000000000000].

(** [u64 u64_log10(u64 v)]. With [_MSC_VER] the index is the one
    [_BitScanReverse64] stores, the position of the highest set bit; otherwise
    it is [64 - __builtin_clzll(v | 1)], one more. *)
Definition u64_log10 (msc_ver : bool) (v : Z) : Z :=
  let index :=
    if msc_ver then Z.log2 (Z.lor v 1)
    else 64 - (63 - Z.log2 (Z.lor v 1)) in
  let t := Z.shiftr ((index + 1) * 1233) 12 in
  t - (if v <? powers_of_10 !!! Z.to_nat t then 1 else 0).

(** The value of the digits [ds], the most significant one first, in the
    base [base]. *)
Definition positional (base : Z) (ds : list Z) : Z :=
  foldl (fun a d => a * base + d) 0 ds.

End Helpers.

(** ** arena.h / arena.c: the bump allocator and the string builders *)

Module ArenaC.

Import Buffer.

(** [Arena]; [base] is the address 0 of the arena: a pointer into the arena
    is its offset from [base]. *)
Record Arena := mkArena {
  capacity : Z;
  commit : Z;
  offset : Z
}.

Definition ALLOC_CHUNK_SIZE : Z := 64 * 1024.

(** [arena_malloc_raw]: the returned pointer and the arena afterwards;
    [Abort] is [abort()]. *)
Definition arena_malloc_raw (arena : Arena) (bytes alignment : Z)
  : outcome (Z * Arena) :=
  let bytes := max_u64 bytes 1 in
  let alignment := max_u64 alignment 1 in
  let offset_old := offset arena in
  let beg_ := Z.land (to_usize (offset_old + alignment - 1))
                     (Z.lnot (alignment - 1)) in
  let end_ := to_usize (beg_ + bytes) in
  if end_ >? commit arena then
    let commit_new := Z.land (to_usize (end_ + ALLOC_CHUNK_SIZE - 1))
                             (Z.lnot (ALLOC_CHUNK_SIZE - 1)) in
    if commit_new >? capacity arena then Abort
    else Done (beg_, mkArena (capacity arena) commit_new end_)
  else Done (beg_, mkArena (capacity arena) (commit arena) end_).

(** What [arena_create] establishes and every allocation keeps: the used
    part lies in the committed part, which lies in the reserved part, a whole
    number of chunks. *)
Definition arena_ok (a : Arena) : Prop :=
  0 <= offset a <= commit a /\ commit a <= capacity a < 2 ^ 62 /\
  capacity a mod ALLOC_CHUNK_SIZE = 0.

End ArenaC.

Module ArenaStr.

(** The loop of [s8_append_repeat_string]. [written] are the bytes between
    [dst_beg] and [dst_it]; [src] are the bytes that can be read at [src]:
    [rep] in the first round, later the bytes written so far. A [memcpy] of
    more than that would read what it writes: [None], as when the fuel runs
    out. *)
Fixpoint repeat_string_loop (fuel : nat) (src written : list Z)
    (remaining len_next len_ : Z) : option (list Z) :=
  match fuel with
  | O => None
  | S fuel' =>
    if len_ >? Z.of_nat (length src) then None
    else
      let written' := written ++ take (Z.to_nat len_) src in
      let remaining' := to_usize (remaining - len_) in
      if remaining' =? 0 then Some written'
      else
        let len_next' := min_u64 (to_usize (len_next + len_)) remaining' in
        repeat_string_loop fuel' written' written' remaining' len_next' len_next'
  end.

(** [s8_append_repeat_string(arena, dst, rep, count)] on the bytes of the
    string; [slice_reserve] has made room for them. *)
Definition s8_append_repeat_string (fuel : nat) (dst rep : list Z) (count : Z)
  : option (list Z) :=
  if count =? 0 then Some dst
  else
    let total_len := to_usize (Z.of_nat (length rep) * count) in
    match repeat_string_loop fuel rep [] total_len 0 (Z.of_nat (length rep)) with
    | Some bytes => Some (dst ++ bytes)
    | None => None
    end.

End ArenaStr.

(** The text of [static const u8 lut[]] of [write_decimal]. *)
Module DecimalLut.
Import String.
Definition text : string :=
  "0001020304050607080910111213141516171819" ++
  "2021222324252627282930313233343536373839" ++
  "4041424344454647484950515253545556575859" ++
  "6061626364656667686970717273747576777879" ++
  "8081828384858687888990919293949596979899".

End DecimalLut.

Module ArenaDec.

Import Helpers.

(** The bytes of a string literal. *)
Definition bytes_of (s : String.string) : list Z :=
  map (fun a => Z.of_N (Ascii.N_of_ascii a)) (String.list_ascii_of_string s).

Definition decimal_lut : list Z := bytes_of DecimalLut.text.

(** [while (digits > 1)] of [write_decimal]: the buffer, [p] as an index
    into it, [v] and [digits] after the loop. *)
Fixpoint write_digit_pairs (digits : nat) (buf : list Z) (p : nat) (v : Z)
  : list Z * nat * Z * nat :=
  match digits with
  | S (S digits') =>
    let s := Z.to_nat (v mod 100 * 2) in
    let buf1 := <[(p - 1)%nat := decimal_lut !!! S s]> buf in
    let buf2 := <[(p - 2)%nat := decimal_lut !!! s]> buf1 in
    write_digit_pairs digits' buf2 (p - 2) (to_usize (v / 100))
  | _ => (buf, p, v, digits)
  end.

(** [write_decimal(arena, dst, v, neg)] on the bytes of the string.
    [slice_reserve] makes room behind [dst] and [dst->len = new_len] makes
    it part of the string; [room i] is the byte that the memory holds at the
    [i]-th place behind the old end. *)
Definition write_decimal (msc_ver : bool) (dst : list Z) (room : Z -> Z) (v : Z)
    (neg : bool) : list Z :=
  let log10 := u64_log10 msc_ver v in
  let digits := to_usize (log10 + 1) in
  let new_len := to_usize (Z.of_nat (length dst) + digits + (if neg then 1 else 0)) in
  let buf := dst ++ map room (seqZ 0 (new_len - Z.of_nat (length dst))) in
  let '(buf1, p1, v1, digits1) :=
    write_digit_pairs (Z.to_nat digits) buf (Z.to_nat new_len) v in
  let '(buf2, p2) :=
    if Nat.odd digits1
    then (<[(p1 - 1)%nat := (0x30 + v1) mod 256]> buf1, (p1 - 1)%nat)
    else (buf1, p1) in
  if neg then <[p2 := 0x2d]> buf2 else buf2.

(** [s8_append_u64] *)
Definition s8_append_u64 (msc_ver : bool) (dst : list Z) (room : Z -> Z) (value : Z)
  : list Z :=
  write_decimal msc_ver dst room value false.

(** [s8_append_i64]; [-value] is taken in [i64] and converted to [u64]. *)
Definition s8_append_i64 (msc_ver : bool) (dst : list Z) (room : Z -> Z) (value : Z)
  : list Z :=
  write_decimal msc_ver dst room
    (to_usize (if value <? 0 then - value else value)) (value <? 0).

(** The [n] low decimal digits of [v] in ASCII, the most significant one
    first. *)
Fixpoint decimal_digits (n : nat) (v : Z) : list Z :=
  match n with
  | O => []
  | S n' => decimal_digits n' (v / 10) ++ [0x30 + v mod 10]
  end.

End ArenaDec.

(** ** vt.c: what the tokenizer keeps *)

Module VtInv.

Import Vt.

(** The CSI state as the parser keeps it: all 32 parameter slots are there,
    every parameter lies between 0 and 65535, and the count is an [i32]. *)
Definition csi_ok (c : CsiState) : Prop :=
  length (params c) = 32%nat /\ Forall (fun p => 0 <= p <= 0xffff) (params c) /\
  - 2 ^ 31 <= param_count c < 2 ^ 31.

(** [ESC \[], [n] times [;], [m], and the introducer of a second sequence. *)
Definition separators_then_csi (n : nat) : list Z :=
  [0x1b; 0x5b] ++ replicate n 0x3b ++ [0x6d; 0x1b; 0x5b].

(** The parser after [ESC \[ 3 5 ~] was fed to it. *)
Definition after_csi_35_tilde : VtParserState :=
  match vt_parse_next_token vt_parser_state_zero 0 [0x1b; 0x5b; 0x33; 0x35; 0x7e] with
  | Some (st, _, _) => st
  | None => vt_parser_state_zero
  end.

End VtInv.

(** ** buffer.c: what the text store keeps *)

Module BufferInv.

Import Ucd Buffer.

(** The gap buffer as the operations keep it: the gap lies inside the text,
    and the struct, the text and the gap lie in the committed memory, of
    which there is at most 2 GiB. *)
Definition gap_ok (tb : TextBuffer) : Prop :=
  0 <= gap_off tb <= text_length tb /\ 0 <= gap_len tb /\
  sizeof_TextBuffer + text_length tb + gap_len tb <= main_commit tb /\
  main_commit tb <= TEXT_BUFFER_ALLOC_MAX_BYTES.

(** The byte of the document at the offset [i]: bytes behind the gap are
    stored [gap_len] places further on. *)
Definition byte_at (tb : TextBuffer) (i : Z) : Z :=
  text tb (if i <? gap_off tb then i else i + gap_len tb).

(** Everything but the four fields of the gap buffer proper and the
    committed size. *)
Definition same_but_gap (tb tb' : TextBuffer) : Prop :=
  tb' = set_gap (main_commit tb') (text tb') (text_length tb') (gap_off tb')
          (gap_len tb') tb.

(** The undo region as [text_buffer_record_push_change] keeps it: the
    allocator hands the rounded size back through [usage_next], so all that
    is committed counts as used. *)
Definition undo_ok (tb : TextBuffer) : Prop :=
  undo_usage tb = undo_commit tb /\ 0 <= undo_usage tb <= TEXT_BUFFER_ALLOC_MAX_BYTES /\
  undo_usage tb mod TEXT_BUFFER_ALLOC_CHUNK_BYTES = 0.

(** What a cursor movement may do to a buffer: return it with another
    cursor, or still be running when the fuel is used up. *)
Definition moves_cursor_only (tb : TextBuffer) (o : outcome TextBuffer) : Prop :=
  match o with
  | Done tb' => tb' = set_cursor (cursor tb') tb
  | Abort => False
  | OutOfFuel => True
  end.

(** *** Buffers used as examples *)

(** The line [abcd] with the gap between [ab] and [cd] and the cursor at its
    start: what [gap_in_line] returns with the oracle of the examples. *)
Definition example_buffer : TextBuffer :=
  match gap_in_line SpecUcd.oracle with Done tb => tb | _ => text_buffer_create end.

(** That buffer after [x] was typed. *)
Definition example_written : TextBuffer :=
  match text_buffer_write SpecUcd.oracle example_buffer [120] with
  | Done tb => tb
  | _ => example_buffer
  end.

(** That buffer after the cursor went one step to the right. *)
Definition example_moved : TextBuffer :=
  match text_buffer_cursor_move_delta SpecUcd.oracle 4 example_buffer 1 with
  | Done tb => tb
  | _ => example_buffer
  end.

End BufferInv.

(** ** buffer.c: deleting and saving *)

Module BufferEdit.

Import Ucd Buffer BufferInv.

(** [text_buffer_delete]; the [memset] of the debug build is compiled out
    (NDEBUG). *)
Definition text_buffer_delete (U : UcdOracle) (fuel : nat)
    (tb : TextBuffer) (cursor_movements : Z) : outcome TextBuffer :=
  let cursor_beg := cursor tb in
  tb1 ← text_buffer_cursor_move_delta U fuel tb cursor_movements;
  let cursor_end := cursor tb1 in
  if offset cursor_beg =? offset cursor_end then Done tb1
  else
    let '(cursor_beg, cursor_end) :=
      if offset cursor_beg >? offset cursor_end then (cursor_end, cursor_beg)
      else (cursor_beg, cursor_end) in
    let tb2 := set_cursor cursor_beg tb1 in
    tb3 ← text_buffer_allocate_gap tb2 (offset cursor_beg) 0;
    tb4 ← text_buffer_record_push_change tb3 (offset cursor_beg) (offset cursor_end) [];
    let count := to_usize (offset cursor_end - offset cursor_beg) in
    Done (set_gap (main_commit tb4) (text tb4) (to_usize (text_length tb4 - count))
            (gap_off tb4) (to_usize (gap_len tb4 + count)) tb4).

Definition set_dirty (d : bool) (tb : TextBuffer) : TextBuffer :=
  mkTextBuffer (main_commit tb) (text tb) (text_length tb) (gap_off tb) (gap_len tb)
    (undo_base tb) (undo_mem tb) (undo_tail tb) (undo_usage tb) (undo_commit tb)
    (stats_lines tb) (cursor tb) (selection tb) (word_wrap_columns tb) d (overtype tb).

(** [text_buffer_write_file]. [opened] tells whether
    [os_open_file_for_writing] returned a file; the result lists the bytes
    of every call of [os_write_file]. *)
Definition text_buffer_write_file (opened : bool) (tb : TextBuffer)
  : list (list Z) * TextBuffer :=
  let before_gap := 0 in
  let before_gap_len := gap_off tb in
  let after_gap := to_usize (before_gap + gap_off tb + gap_len tb) in
  let after_gap_len := to_usize (text_length tb - gap_off tb) in
  if opened then
    ([slice_bytes (text tb) (mk_s8 before_gap before_gap_len 0);
      slice_bytes (text tb) (mk_s8 after_gap after_gap_len 0)],
     set_dirty false tb)
  else ([], tb).

(** The example buffer after the letter behind the cursor was deleted. *)
Definition example_deleted : TextBuffer :=
  match text_buffer_delete SpecUcd.oracle 4 example_buffer 1 with
  | Done tb => tb
  | _ => example_buffer
  end.

End BufferEdit.

(** ** tui.c: the child lists of the nodes *)

Module TuiTree.

Import Tui.

Definition set_links (par first last_ prev_ next_ : option nat) (n : UiNode) : UiNode :=
  mkUiNode (stack_parent n) (id n) par first last_ prev_ next_ (attributes n)
    (content_type n) (content_scrollarea n) (intrinsic_size n) (intrinsic_size_set n)
    (outer n) (inner n) (outer_clipped n) (inner_clipped n).

Definition set_parent (p : option nat) (n : UiNode) : UiNode :=
  set_links p (child_first n) (child_last n) (sibling_prev n) (sibling_next n) n.
Definition set_child_first (p : option nat) (n : UiNode) : UiNode :=
  set_links (parent n) p (child_last n) (sibling_prev n) (sibling_next n) n.
Definition set_child_last (p : option nat) (n : UiNode) : UiNode :=
  set_links (parent n) (child_first n) p (sibling_prev n) (sibling_next n) n.
Definition set_sibling_prev (p : option nat) (n : UiNode) : UiNode :=
  set_links (parent n) (child_first n) (child_last n) p (sibling_next n) n.
Definition set_sibling_next (p : option nat) (n : UiNode) : UiNode :=
  set_links (parent n) (child_first n) (child_last n) (sibling_prev n) p n.

(** [node->field = v] for a node of the arena. *)
Definition arena_update (a : Arena) (p : nat) (f : UiNode -> UiNode) : Arena :=
  arena_store a p (f (a p)).

(** [p == q] for a pointer [p] that may be [NULL]. *)
Definition ptr_is (p : option nat) (q : nat) : bool :=
  match p with Some n => Nat.eqb n q | None => false end.

(** [ui_node_append_child(parent, child)], one store after the other. *)
Definition ui_node_append_child (a : Arena) (parent_ child : nat) : Arena :=
  let a := arena_update a child (set_parent (Some parent_)) in
  let a := arena_update a child (set_sibling_prev (child_last (a parent_))) in
  let a :=
    match child_last (a parent_) with
    | Some l => arena_update a l (set_sibling_next (Some child))
    | None => a
    end in
  let a :=
    match child_first (a parent_) with
    | None => arena_update a parent_ (set_child_first (Some child))
    | Some _ => a
    end in
  arena_update a parent_ (set_child_last (Some child)).

(** [ui_node_remove(child)]; [None]: the parent is [NULL]. *)
Definition ui_node_remove (a : Arena) (child : nat) : option Arena :=
  match parent (a child) with
  | None => None
  | Some parent_ =>
    let a :=
      match sibling_prev (a child) with
      | Some s => arena_update a s (set_sibling_next (sibling_next (a child)))
      | None => a
      end in
    let a :=
      match sibling_next (a child) with
      | Some s => arena_update a s (set_sibling_prev (sibling_prev (a child)))
      | None => a
      end in
    let a :=
      if ptr_is (child_first (a parent_)) child
      then arena_update a parent_ (set_child_first (sibling_next (a child)))
      else a in
    let a :=
      if ptr_is (child_last (a parent_)) child
      then arena_update a parent_ (set_child_last (sibling_prev (a child)))
      else a in
    let a := arena_update a child (set_parent None) in
    let a := arena_update a child (set_sibling_prev None) in
    Some (arena_update a child (set_sibling_next None))
  end.

(** The nodes [l] are a run of siblings below [par] that follows [prev_] and
    ends the list. *)
Fixpoint siblings (a : Arena) (par : nat) (prev_ : option nat) (l : list nat) : Prop :=
  match l with
  | [] => True
  | c :: l' =>
    parent (a c) = Some par /\ sibling_prev (a c) = prev_ /\
    sibling_next (a c) = head l' /\ siblings a par (Some c) l'
  end.

(** [l] is the list of the children of [par], first to last. *)
Definition child_list (a : Arena) (par : nat) (l : list nat) : Prop :=
  child_first (a par) = head l /\ child_last (a par) = last l /\
  siblings a par None l /\ NoDup l /\ par ∉ l.

End TuiTree.

(** ** tui.c: a scrollarea from frame to frame *)

Module TuiScroll.

Import Input Tui TuiTree.

Definition set_stack_parent (p : option nat) (n : UiNode) : UiNode :=
  mkUiNode p (id n) (parent n) (child_first n) (child_last n) (sibling_prev n)
    (sibling_next n) (attributes n) (content_type n) (content_scrollarea n)
    (intrinsic_size n) (intrinsic_size_set n) (outer n) (inner n) (outer_clipped n)
    (inner_clipped n).

Definition set_id (v : Z) (n : UiNode) : UiNode :=
  mkUiNode (stack_parent n) v (parent n) (child_first n) (child_last n) (sibling_prev n)
    (sibling_next n) (attributes n) (content_type n) (content_scrollarea n)
    (intrinsic_size n) (intrinsic_size_set n) (outer n) (inner n) (outer_clipped n)
    (inner_clipped n).

Definition set_content_type (t : UiContentType) (n : UiNode) : UiNode :=
  mkUiNode (stack_parent n) (id n) (parent n) (child_first n) (child_last n)
    (sibling_prev n) (sibling_next n) (attributes n) t (content_scrollarea n)
    (intrinsic_size n) (intrinsic_size_set n) (outer n) (inner n) (outer_clipped n)
    (inner_clipped n).

Definition set_intrinsic_size (s : Size) (is_set : bool) (n : UiNode) : UiNode :=
  mkUiNode (stack_parent n) (id n) (parent n) (child_first n) (child_last n)
    (sibling_prev n) (sibling_next n) (attributes n) (content_type n)
    (content_scrollarea n) s is_set (outer n) (inner n) (outer_clipped n)
    (inner_clipped n).

(** The fields of the context that are written while the tree is built. *)
Definition set_tree (a : Arena) (focus : Z) (attr par : option nat) (count : Z)
    (autofocus : bool) (ctx : UiContext) : UiContext :=
  mkUiContext a (nodes_prev ctx) (indexed_colors ctx) (size ctx) (input_text ctx)
    (input_keyboard ctx) (input_mouse_action ctx) (input_mouse_position ctx)
    (input_scroll_delta ctx) (input_consumed ctx) focus (root_first ctx)
    (root_last ctx) attr par count autofocus (node_map ctx) (finalized ctx).

Definition set_nodes (a : Arena) (ctx : UiContext) : UiContext :=
  set_tree a (focused_item_id ctx) (attr_node ctx) (parent_ ctx) (node_count ctx)
    (autofocus_next ctx) ctx.

Definition set_attr_node (p : option nat) (ctx : UiContext) : UiContext :=
  set_tree (nodes ctx) (focused_item_id ctx) p (parent_ ctx) (node_count ctx)
    (autofocus_next ctx) ctx.

(** [void ui_container_begin(UiContext* ctx, u64 id)]. [node] is the pointer
    that [arena_zalloc] returns. [None]: [ctx->parent] is [NULL]. *)
Definition ui_container_begin (ctx : UiContext) (node : nat) (id_ : Z)
  : option UiContext :=
  match parent_ ctx with
  | None => None
  | Some par =>
    let a := arena_store (nodes ctx) node node_zero in
    let a := arena_update a node (set_stack_parent (Some par)) in
    let a := arena_update a node (set_id id_) in
    let a := arena_update a node (set_parent (Some par)) in
    let a := ui_node_append_child a par node in
    let focus :=
      if autofocus_next ctx && (focused_item_id ctx =? id (a par)) then id_
      else focused_item_id ctx in
    Some (set_tree a focus (Some node) (Some node) (to_usize (node_count ctx + 1))
            false ctx)
  end.

(** [void ui_container_end(UiContext* ctx)] *)
Definition ui_container_end (ctx : UiContext) : option UiContext :=
  match parent_ ctx with
  | None => None
  | Some par =>
    Some (set_tree (nodes ctx) (focused_item_id ctx) (Some par)
            (stack_parent (nodes ctx par)) (node_count ctx) false ctx)
  end.

(** [void ui_focus_next_by_default(UiContext* ctx)] *)
Definition ui_focus_next_by_default (ctx : UiContext) : UiContext :=
  set_tree (nodes ctx) (focused_item_id ctx) (attr_node ctx) (parent_ ctx)
    (node_count ctx) true ctx.

(** [MouseAction ui_input_mouse(UiContext* ctx)] *)
Definition ui_input_mouse (ctx : UiContext) : MouseAction :=
  if input_consumed ctx then MOUSE_ACTION_NONE else input_mouse_action ctx.

Definition is_scroll (m : MouseAction) : bool :=
  match m with MOUSE_ACTION_SCROLL => true | _ => false end.

(** [S("inner")] *)
Definition inner_name : list Z := [0x69; 0x6e; 0x6e; 0x65; 0x72].

Section Scrollarea.

(** [u64 hash_s8(u64 seed, s8 str)] of helpers.c gives a node its
    identifier. What follows uses only that it is a function of the seed and
    the bytes, so it holds for any. *)
Variable hash_s8 : Z -> list Z -> Z.

(** [ctx->node_map_shift] and [ctx->node_map_mask]: [UiContext] keeps the
    hash table as the one value [node_map]; its shift and its mask are given
    here. *)
Variables node_map_shift node_map_mask : Z.

(** The probing loop of [get_prev_node]. The table holds pointers into the
    arena of the previous frame. [None]: a read behind the table, or the fuel
    ran out. *)
Fixpoint get_prev_node_loop (fuel : nat) (ctx : UiContext) (id_ slot : Z)
  : option (option nat) :=
  match fuel with
  | O => None
  | S fuel' =>
    match node_map ctx !! Z.to_nat slot with
    | None => None
    | Some None => Some None
    | Some (Some node) =>
      if id (nodes_prev ctx node) =? id_ then Some (Some node)
      else get_prev_node_loop fuel' ctx id_ (Z.land (to_usize (slot + 1)) node_map_mask)
    end
  end.

(** [static UiNode* get_prev_node(UiContext* ctx, u64 id)]; a shift of a
    [u64] by 64 or more is undefined: [None]. *)
Definition get_prev_node (fuel : nat) (ctx : UiContext) (id_ : Z)
  : option (option nat) :=
  if 64 <=? node_map_shift then None
  else get_prev_node_loop fuel ctx id_
         (Z.land (Z.shiftr id_ node_map_shift) node_map_mask).

(** [bool ui_is_hovering(UiContext* ctx)] *)
Definition ui_is_hovering (fuel : nat) (ctx : UiContext) : option bool :=
  match attr_node ctx with
  | None => None
  | Some n =>
    match get_prev_node fuel ctx (id (nodes ctx n)) with
    | None => None
    | Some None => Some false
    | Some (Some node) =>
      Some (rect_contains (outer (nodes_prev ctx node)) (input_mouse_position ctx))
    end
  end.

(** [void ui_container_begin_named(UiContext* ctx, s8 id)] *)
Definition ui_container_begin_named (ctx : UiContext) (node : nat) (name : list Z)
  : option UiContext :=
  match parent_ ctx with
  | None => None
  | Some par => ui_container_begin ctx node (hash_s8 (id (nodes ctx par)) name)
  end.

(** [void ui_scrollarea_begin(UiContext* ctx, s8 name, Size intrinsic_size)];
    [outer_] and [inner_] are the pointers that the two allocations return. *)
Definition ui_scrollarea_begin (fuel : nat) (ctx : UiContext) (outer_ inner_ : nat)
    (name : list Z) (intrinsic : Size) : option UiContext :=
  match ui_container_begin_named ctx outer_ name with
  | None => None
  | Some ctx =>
    match attr_node ctx with
    | None => None
    | Some o =>
      let id_ := id (nodes ctx o) in
      let a := arena_update (nodes ctx) o (set_content_type UI_NODE_SCROLLAREA) in
      match get_prev_node fuel ctx id_ with
      | None => None
      | Some outer_prev =>
        let a :=
          match outer_prev with
          | Some p =>
            arena_update a o
              (set_content_scrollarea (content_scrollarea (nodes_prev ctx p)))
          | None => a
          end in
        let a :=
          if (width intrinsic >? 0) || (height intrinsic >? 0)
          then arena_update a o (set_intrinsic_size intrinsic true)
          else a in
        let ctx := ui_focus_next_by_default (set_nodes a ctx) in
        match ui_container_begin_named ctx inner_ inner_name with
        | None => None
        | Some ctx =>
          (* Ensure that attribute modifications apply to the outer container. *)
          Some (set_attr_node (Some o) ctx)
        end
      end
    end
  end.

(** [void ui_scrollarea_end(UiContext* ctx)] *)
Definition ui_scrollarea_end (fuel : nat) (ctx : UiContext) : option UiContext :=
  match ui_container_end ctx with
  | None => None
  | Some ctx =>
    match ui_container_end ctx with
    | None => None
    | Some ctx =>
      match ui_is_hovering fuel ctx with
      | None => None
      | Some hovering =>
        if hovering && is_scroll (ui_input_mouse ctx) then
          match attr_node ctx with
          | None => None
          | Some o =>
            let d := input_scroll_delta ctx in
            let a :=
              arena_update (nodes ctx) o
                (fun n => set_content_scrollarea
                            (mkPoint (wrap32 (x (content_scrollarea n) + x d))
                                     (y (content_scrollarea n))) n) in
            let a :=
              arena_update a o
                (fun n => set_content_scrollarea
                            (mkPoint (x (content_scrollarea n))
                                     (wrap32 (y (content_scrollarea n) + y d))) n) in
            Some (set_nodes a ctx)
          end
        else Some ctx
      end
    end
  end.

(** The grid branch of [ui_layout_children], as in [Tui]. *)
Variable layout_grid : Arena -> nat -> Rect -> Arena.

(** What one frame does to a scrollarea. [ctx] is the context at the call of
    [ui_scrollarea_begin]; [body] is the code between that call and the call
    of [ui_scrollarea_end], which builds the content; [rest] is what becomes
    of the arena between [ui_scrollarea_end] and the call of
    [ui_layout_children] for the scrollarea: the rest of the tree, the
    intrinsic sizes, the layout of the nodes above. The result is the arena
    after the layout of the scrollarea. *)
Definition scrollarea_in_frame (fuel : nat) (ctx : UiContext) (outer_ inner_ : nat)
    (name : list Z) (intrinsic : Size) (body : UiContext -> UiContext)
    (rest : Arena -> Arena) (clip : Rect) : option Arena :=
  match ui_scrollarea_begin fuel ctx outer_ inner_ name intrinsic with
  | None => None
  | Some ctx1 =>
    match ui_scrollarea_end fuel (body ctx1) with
    | None => None
    | Some ctx2 => Some (ui_layout_children layout_grid (rest (nodes ctx2)) outer_ clip)
    end
  end.

(** [n'] is the scrollarea node [n] with its identifier, its content type,
    its scroll offset and its first child as they were. *)
Definition same_scrollarea (n n' : UiNode) : Prop :=
  id n' = id n /\ content_type n' = content_type n /\
  content_scrollarea n' = content_scrollarea n /\ child_first n' = child_first n.

(** The content of the scrollarea [outer_] is built below its node [inner_]:
    when [body] is done the stack of parents is where it was, the scrollarea
    node has its identifier, its offset and its child, and the table of the
    previous frame and the pointer position are untouched. *)
Definition builds_content (outer_ inner_ : nat) (ctx ctx' : UiContext) : Prop :=
  parent_ ctx' = Some inner_ /\
  stack_parent (nodes ctx' inner_) = Some outer_ /\
  same_scrollarea (nodes ctx outer_) (nodes ctx' outer_) /\
  node_map ctx' = node_map ctx /\ nodes_prev ctx' = nodes_prev ctx /\
  input_mouse_position ctx' = input_mouse_position ctx.

(** The offset that [ui_scrollarea_begin] finds, and whether the pointer is
    over the scrollarea, when the lookup of the node of the previous frame
    has returned [prev]. *)
Definition found_offset (ctx : UiContext) (prev : option nat) : Point :=
  match prev with
  | Some q => content_scrollarea (nodes_prev ctx q)
  | None => mkPoint 0 0
  end.

Definition found_hover (ctx : UiContext) (prev : option nat) : bool :=
  match prev with
  | Some q => rect_contains (outer (nodes_prev ctx q)) (input_mouse_position ctx)
  | None => false
  end.

(** A frame with the scrollarea [name] below the node [par]: the lookup of
    the node of the previous frame returns [prev]; the nodes [outer_] and
    [inner_] are fresh; when the content is built the mouse input is
    [action] and [delta], [consumed] or not; at the layout the scrollarea
    has an inner rectangle of [viewport] cells that is not empty and a child
    of the intrinsic size [content]. *)
Definition frame_of (fuel : nat) (ctx : UiContext) (outer_ inner_ : nat)
    (name : list Z) (intrinsic : Size) (body : UiContext -> UiContext)
    (rest : Arena -> Arena) (prev : option nat) (consumed : bool)
    (action : MouseAction) (delta : Point) (content viewport : Size) : Prop :=
  exists par,
    parent_ ctx = Some par /\ outer_ <> par /\ inner_ <> par /\ outer_ <> inner_ /\
    get_prev_node fuel ctx (hash_s8 (id (nodes ctx par)) name) = Some prev /\
    (forall ctx1, ui_scrollarea_begin fuel ctx outer_ inner_ name intrinsic = Some ctx1 ->
       builds_content outer_ inner_ ctx1 (body ctx1) /\
       input_consumed (body ctx1) = consumed /\
       input_mouse_action (body ctx1) = action /\
       input_scroll_delta (body ctx1) = delta) /\
    (forall ctx1 ctx2,
       ui_scrollarea_begin fuel ctx outer_ inner_ name intrinsic = Some ctx1 ->
       ui_scrollarea_end fuel (body ctx1) = Some ctx2 ->
       let a := rest (nodes ctx2) in
       same_scrollarea (nodes ctx2 outer_) (a outer_) /\
       rect_is_empty (inner (a outer_)) = false /\
       fits (left (inner (a outer_))) /\ fits (right (inner (a outer_))) /\
       fits (top (inner (a outer_))) /\ fits (bottom (inner (a outer_))) /\
       right (inner (a outer_)) - left (inner (a outer_)) = width viewport /\
       bottom (inner (a outer_)) - top (inner (a outer_)) = height viewport /\
       intrinsic_size (a inner_) = content).

(** [scroll_run fuel delta content viewport o n o']: [n] frames in a row
    scroll a scrollarea by [delta]: in each one the node of the previous
    frame is found with the pointer over it, and the mouse input is an
    unconsumed SCROLL by [delta]. The first frame finds the offset [o], each
    one after it the offset that the frame before has stored, and the last
    one stores [o']. *)
Inductive scroll_run (fuel : nat) (delta : Point) (content viewport : Size) (o : Point)
  : nat -> Point -> Prop :=
| scroll_run_O : scroll_run fuel delta content viewport o 0 o
| scroll_run_S n o1 ctx outer_ inner_ name intrinsic body rest clip q a :
    scroll_run fuel delta content viewport o n o1 ->
    frame_of fuel ctx outer_ inner_ name intrinsic body rest (Some q) false
      MOUSE_ACTION_SCROLL delta content viewport ->
    found_offset ctx (Some q) = o1 ->
    found_hover ctx (Some q) = true ->
    scrollarea_in_frame fuel ctx outer_ inner_ name intrinsic body rest clip = Some a ->
    scroll_run fuel delta content viewport o (S n) (content_scrollarea (a outer_)).

End Scrollarea.

(** A store that changes only the links of a node. *)
Definition links_only (f : UiNode -> UiNode) : Prop :=
  forall n, stack_parent (f n) = stack_parent n /\ id (f n) = id n /\
            content_type (f n) = content_type n /\
            content_scrollarea (f n) = content_scrollarea n /\
            intrinsic_size (f n) = intrinsic_size n.

(** Two arenas hold the same nodes up to their links and their layout. *)
Definition same_data (a a' : Arena) : Prop :=
  forall n, stack_parent (a' n) = stack_parent (a n) /\ id (a' n) = id (a n) /\
            content_type (a' n) = content_type (a n) /\
            content_scrollarea (a' n) = content_scrollarea (a n) /\
            intrinsic_size (a' n) = intrinsic_size (a n).

(** The mouse input of two contexts is the same. *)
Definition same_input (c c' : UiContext) : Prop :=
  input_mouse_position c' = input_mouse_position c /\
  input_consumed c' = input_consumed c /\
  input_mouse_action c' = input_mouse_action c /\
  input_scroll_delta c' = input_scroll_delta c.

(** The offset [o] after a scroll by [delta], if [scrolled], clamped as the
    layout of a scrollarea does whose child has the size [content] and whose
    inner rectangle has the size [viewport]. *)
Definition clamped (scrolled : bool) (o delta : Point) (content viewport : Size) : Point :=
  mkPoint
    (clamp_i32 (if scrolled then wrap32 (x o + x delta) else x o) 0
       (Z.max (width content) (width viewport) - width viewport))
    (clamp_i32 (if scrolled then wrap32 (y o + y delta) else y o) 0
       (Z.max (height content) (height viewport) - height viewport)).

(** *** A frame used as an example

    The frame before held the root 0, the scrollarea 1, scrolled to the row
    [y_], and its child 2; the table has 16 slots, and the three identifiers
    fall into the slots 0, 1 and 2. *)
Definition root_id : Z := 0x0123456789abcdef.

Definition example_hash (seed : Z) (str : list Z) : Z :=
  to_usize (seed + Z.of_nat (length str)).

Definition view_name : list Z := [0x76; 0x69; 0x65; 0x77].

Definition scrolled_prev (y_ : Z) : Arena :=
  fun n =>
    match n with
    | 0%nat => example_node None (Some 1%nat) None None UI_NODE_CONTAINER
                 (mkPoint 0 0) (mkSize 0 0) cell_block root_id
    | 1%nat => example_node (Some 0%nat) (Some 2%nat) None None UI_NODE_SCROLLAREA
                 (mkPoint 0 y_) (mkSize 0 0) cell_block (root_id + 4)
    | 2%nat => example_node (Some 1%nat) None None None UI_NODE_TEXTAREA
                 (mkPoint 0 0) (mkSize 0 100) cell_block (root_id + 9)
    | _ => node_zero
    end.

(** The context of the next frame as [ui_root_reset] leaves it after a
    turn of the wheel by three rows with the pointer on the cell (1, 1). *)
Definition scroll_context (y_ : Z) : UiContext :=
  mkUiContext
    (arena_store (fun _ => node_zero) 0%nat
       (example_node None None None None UI_NODE_CONTAINER (mkPoint 0 0) (mkSize 0 0)
          rect_zero root_id))
    (scrolled_prev y_) (replicate 16 0) (mkSize 10 10) s8_zero (mkUiInputKeyboard 0 0)
    MOUSE_ACTION_SCROLL (mkPoint 1 1) (mkPoint 0 3) false root_id
    (Some 0%nat) (Some 0%nat) (Some 0%nat) (Some 0%nat) 1 false
    ([Some 0%nat; Some 1%nat; Some 2%nat] ++ replicate 13 None) false.

(** The content as [ui_textarea] sets it up: a text of 100 lines. *)
Definition example_body (c : UiContext) : UiContext :=
  set_nodes
    (arena_update (nodes c) 2%nat
       (fun n => set_intrinsic_size (mkSize 0 100) true
                   (set_content_type UI_NODE_TEXTAREA n)))
    c.

(** The layout of the root gives the scrollarea ten rows of nine cells. *)
Definition example_rest (a : Arena) : Arena :=
  arena_update a 1%nat
    (set_layout cell_block (mkRect 0 0 9 10) cell_block (mkRect 0 0 9 10)).

End TuiScroll.

(** * Theorems *)

(** ** The VT tokenizer *)

Module VtFacts.

Import Vt.

(** Induction on the length of a byte list. *)
Lemma list_len_ind (P : list Z -> Prop) :
  (forall l, (forall l', (length l' < length l)%nat -> P l') -> P l) -> forall l, P l.
Proof.
  intros H l. remember (length l) as n eqn:Hn. revert l Hn.
  induction n as [n IH] using lt_wf_ind. intros l Hn. apply H.
  intros l' Hl'. apply (IH (length l')); [lia|reflexivity].
Qed.

Lemma text_run_it it l it' r :
  text_run it l = (it', r) -> it' = it + Z.of_nat (length l) - Z.of_nat (length r) /\ (length r <= length l)%nat.
Proof.
  revert it. induction l as [|c l IH]; intros it H; simpl in H.
  - inversion H; subst. simpl. lia.
  - destruct (is_text_byte c).
    + apply IH in H. simpl. lia.
    + inversion H; subst. simpl. lia.
Qed.



Lemma csi_loop_it st it l st1 it1 r1 :
  csi_loop st it l = (st1, it1, r1) ->
  it1 = it + Z.of_nat (length l) - Z.of_nat (length r1) /\ (length r1 <= length l)%nat
  /\ (l <> [] -> (length r1 < length l)%nat).
Proof.
  revert st it. induction l as [|c l IH]; intros st it H; simpl in H.
  - inversion H; subst. simpl. split; [lia|]. split; [lia|]. congruence.
  - destruct (is_digit c).
    + apply IH in H. simpl. lia.
    + destruct ((0x40 <=? c) && (c <=? 0x7e)).
      * inversion H; subst. simpl. lia.
      * apply IH in H. simpl. lia.
Qed.

Lemma csi_loop_cases st it l st1 it1 r1 :
  csi_loop st it l = (st1, it1, r1) ->
  (_state st1 = VT_PARSER_STATE_KIND_GROUND /\ kind st1 = VT_TOKEN_KIND_CSI)
  \/ (_state st1 = _state st /\ kind st1 = kind st /\ r1 = []).
Proof.
  revert st it. induction l as [|c l IH]; intros st it H; simpl in H.
  - inversion H; subst. right. auto.
  - destruct (is_digit c).
    + apply IH in H. simpl in H. exact H.
    + destruct ((0x40 <=? c) && (c <=? 0x7e)).
      * inversion H; subst. left. auto.
      * apply IH in H. simpl in H. exact H.
Qed.




Lemma osc_loop_it st it l st1 it1 r1 :
  osc_loop st it l = (st1, it1, r1) ->
  it1 = it + Z.of_nat (length l) - Z.of_nat (length r1) /\ (length r1 <= length l)%nat
  /\ (l <> [] -> (length r1 < length l)%nat).
Proof.
  revert st it. induction l as [l IHl] using list_len_ind.
  intros st it H. destruct l as [|c l]; simpl in H.
  - inversion H; subst. simpl. split; [lia|]. split; [lia|]. congruence.
  - destruct (c =? 0x07).
    + inversion H; subst. simpl. lia.
    + destruct (c =? 0x1b).
      * destruct l as [|d l'].
        -- inversion H; subst. simpl. lia.
        -- destruct (d =? 0x5c).
           ++ inversion H; subst. simpl. lia.
           ++ apply IHl in H; [|simpl; lia]. simpl in *. lia.
      * apply IHl in H; [|simpl; lia]. simpl in *. lia.
Qed.



Ltac vt_it_done H :=
  inversion H; subst; simpl; (split; [lia|]); (split; [lia|]); intros _; lia.

Lemma vt_loop_it st it l st1 it1 r1 :
  vt_loop st it l = Some (st1, it1, r1) ->
  it1 = it + Z.of_nat (length l) - Z.of_nat (length r1)
  /\ (length r1 <= length l)%nat
  /\ (l <> [] -> (length r1 < length l)%nat).
Proof.
  revert st it. induction l as [|c l IH]; intros st it H.
  - simpl in H. inversion H; subst. simpl. split; [lia|]. split; [lia|congruence].
  - assert (Hgoal : forall st' , vt_loop st' (it + 1) l = Some (st1, it1, r1) ->
       it1 = it + Z.of_nat (length (c :: l)) - Z.of_nat (length r1)
       /\ (length r1 <= length (c :: l))%nat
       /\ (c :: l <> [] -> (length r1 < length (c :: l))%nat)).
    { intros st' H'. apply IH in H'. destruct H' as (H1 & H2 & H3). simpl. lia. }
    assert (Hcsi : forall st', Some (csi_loop st' it (c :: l)) = Some (st1, it1, r1) ->
       it1 = it + Z.of_nat (length (c :: l)) - Z.of_nat (length r1)
       /\ (length r1 <= length (c :: l))%nat
       /\ (c :: l <> [] -> (length r1 < length (c :: l))%nat)).
    { intros st' H'. assert (E : csi_loop st' it (c :: l) = (st1, it1, r1)) by congruence.
      apply csi_loop_it in E. exact E. }
    assert (Hosc : forall st', Some (osc_loop st' it (c :: l)) = Some (st1, it1, r1) ->
       it1 = it + Z.of_nat (length (c :: l)) - Z.of_nat (length r1)
       /\ (length r1 <= length (c :: l))%nat
       /\ (c :: l <> [] -> (length r1 < length (c :: l))%nat)).
    { intros st' H'. assert (E : osc_loop st' it (c :: l) = (st1, it1, r1)) by congruence.
      apply osc_loop_it in E. exact E. }
    cbn [vt_loop] in H. destruct (_state st).
    + destruct (c =? 0x1b); [eauto|].
      destruct ((c <? 0x20) || (c =? 0x7f)) eqn:Hctl.
      * vt_it_done H.
      * destruct (text_run it (c :: l)) as [it' rest] eqn:Ht.
        inversion H; subst.
        pose proof (text_run_it _ _ _ _ Ht) as [Ha Hb].
        split; [exact Ha|]. split; [exact Hb|]. intros _.
        simpl in Ht. destruct (is_text_byte c) eqn:Hc.
        -- apply text_run_it in Ht. simpl. lia.
        -- exfalso. unfold is_text_byte in Hc.
           apply orb_false_iff in Hctl. destruct Hctl as [E1 E2]. rewrite E2 in Hc.
           apply Z.ltb_ge in E1. simpl in Hc. rewrite andb_true_r in Hc.
           apply Z.leb_gt in Hc. lia.
    + destruct (c =? 0x5b).
      { destruct (csi_reset (csi st)); [eauto|discriminate]. }
      destruct (c =? 0x5d); [eauto|].
      destruct (c =? 0x4f); [eauto|].
      destruct (c =? 0x50); [eauto|].
      vt_it_done H.
    + vt_it_done H.
    + apply (Hcsi st). exact H.
    + apply (Hosc st). exact H.
    + apply (Hosc st). exact H.
    + destruct (c =? 0x5c); [vt_it_done H|].
      eapply Hosc. exact H.
    + destruct (c =? 0x5c); [vt_it_done H|].
      eapply Hosc. exact H.
Qed.











End VtFacts.

(** ** The input classifier *)

Module InputFacts.

Import Vt Input.

(** A CSI token with the final byte [t] and [params[0] = 8] is classified as
    a resize event; width and height are only bounded from below. *)
Lemma classify_resize (st : VtParserState) :
  kind st = VT_TOKEN_KIND_CSI ->
  final_byte (csi st) = 0x74 ->
  params (csi st) !!! 0%nat = 8 ->
  classify st =
  Event (UI_INPUT_RESIZE (mkSize (max_i32 (params (csi st) !!! 2%nat) 1)
                                 (max_i32 (params (csi st) !!! 1%nat) 1))).
Proof.
  intros Hk Hf Hp. unfold classify, classify_csi. rewrite Hk, Hf, Hp. reflexivity.
Qed.

(** C4 (the code at the failing input). The bytes [ESC \[ 8 ; 1 ; 40000 t]
    are classified as a resize event of width 40000: the width is not below
    32768, and the condition of the [assert] in [get_next_ui_input] is
    false. *)
Theorem resize_exceeds_assert :
  event_of (get_next_ui_input 12 vt_parser_state_zero 0 resize_40000)
    = Some (UI_INPUT_RESIZE (mkSize 40000 1)) /\
  resize_asserts (mkSize 40000 1) = false.
Proof. split; vm_compute; reflexivity. Qed.

End InputFacts.

(** ** The text store *)

Module BufferFacts.

Import Ucd Buffer.

(** C3. [text_buffer_selection_update] takes the states NONE and DONE to
    MAYBE, sets [beg] to the position and keeps [end]; it takes MAYBE and
    ACTIVE to ACTIVE, sets [end] and keeps [beg]. [text_buffer_selection_end]
    returns true and sets the state DONE when the state was ACTIVE, and
    returns false and sets the state NONE otherwise. *)
Theorem selection_transitions (tb : TextBuffer) (p : Point) :
  let s := selection tb in
  let s1 := selection (text_buffer_selection_update tb p) in
  let r := fst (text_buffer_selection_end tb) in
  let s2 := selection (snd (text_buffer_selection_end tb)) in
  (sel_state s = TEXT_BUFFER_SELECTION_NONE \/ sel_state s = TEXT_BUFFER_SELECTION_DONE ->
     sel_state s1 = TEXT_BUFFER_SELECTION_MAYBE /\ sel_beg s1 = p /\ sel_end s1 = sel_end s) /\
  (sel_state s = TEXT_BUFFER_SELECTION_MAYBE \/ sel_state s = TEXT_BUFFER_SELECTION_ACTIVE ->
     sel_state s1 = TEXT_BUFFER_SELECTION_ACTIVE /\ sel_end s1 = p /\ sel_beg s1 = sel_beg s) /\
  (sel_state s = TEXT_BUFFER_SELECTION_ACTIVE ->
     r = true /\ sel_state s2 = TEXT_BUFFER_SELECTION_DONE) /\
  (sel_state s <> TEXT_BUFFER_SELECTION_ACTIVE ->
     r = false /\ sel_state s2 = TEXT_BUFFER_SELECTION_NONE).
Proof.
  unfold text_buffer_selection_update, text_buffer_selection_end. cbn zeta.
  destruct (sel_state (selection tb)) eqn:E; cbn;
    repeat split; try reflexivity; intros; intuition congruence.
Qed.

(** A first update on a fresh buffer anchors the selection. *)
Lemma selection_transitions_witness :
  let s1 := selection (text_buffer_selection_update text_buffer_create (mkPoint 3 4)) in
  sel_state s1 = TEXT_BUFFER_SELECTION_MAYBE /\ sel_beg s1 = mkPoint 3 4 /\
  sel_end s1 = mkPoint 0 0.
Proof.
  apply (proj1 (selection_transitions text_buffer_create (mkPoint 3 4))).
  left. reflexivity.
Defined.

(** C9. [text_buffer_write] with an empty string returns the buffer as it
    was: no undo entry, and dirty flag, gap, text length, cursor and
    selection as before. *)
Theorem write_empty (U : UcdOracle) (tb : TextBuffer) :
  text_buffer_write U tb [] = Done tb.
Proof. reflexivity. Qed.

(** C10. [text_buffer_undo] with [undo_tail = NULL] returns the buffer as it
    was, and so does [text_buffer_redo] when the [next] pointer of the tail
    is [NULL]. *)
Theorem undo_redo_nothing_to_do (U : UcdOracle) (fuel : nat) (tb : TextBuffer) :
  (undo_tail tb = None -> text_buffer_undo U fuel tb = Done tb) /\
  (forall tail, undo_tail tb = Some tail -> next (undo_mem tb tail) = None ->
     text_buffer_redo U fuel tb = Done tb).
Proof.
  split.
  - intros H. unfold text_buffer_undo. rewrite H. reflexivity.
  - intros tail H Hn. unfold text_buffer_redo. rewrite H, Hn. reflexivity.
Qed.

(** Undo on a fresh buffer. *)
Lemma undo_redo_nothing_to_do_witness :
  text_buffer_undo SpecUcd.oracle 0 text_buffer_create = Done text_buffer_create.
Proof.
  apply (proj1 (undo_redo_nothing_to_do SpecUcd.oracle 0 text_buffer_create)).
  reflexivity.
Defined.

(** C1 (the code at the failing input). On a fresh buffer, with any oracle:
    after [write(hello)] the document is [hello]; after the undo it is empty;
    after the redo it is still empty, not [hello]. *)
Theorem write_undo_redo_fresh (U : UcdOracle) (fuel : nat) :
  let written := text_buffer_write U text_buffer_create hello in
  let undone := tb ← written; text_buffer_undo U (S fuel) tb in
  let redone := tb ← undone; text_buffer_redo U (S fuel) tb in
  contents_of written = Done hello /\
  contents_of undone = Done [] /\
  contents_of redone = Done [].
Proof.
  destruct U as [mf mb nf nb]. split; [|split]; vm_compute; reflexivity.
Qed.

(** C6 (the code at the failing input). The oracle of the examples measures
    the wide glyph as one grapheme of two cells. After the glyph was typed
    into a buffer that wraps at 10 columns the logical position is (2, 0);
    after [reflow(10); reflow(-1)] it is (1, 0). *)
Theorem reflow_after_wide_glyph :
  let U := SpecUcd.oracle in
  let before := typed_wide_glyph U in
  let after :=
    tb ← before; tb' ← text_buffer_reflow U 4 tb 10;
    text_buffer_reflow U 4 tb' (-1) in
  fst (ucd_measure_forward U wide_glyph 0 (mkPoint 0 0) (-1) (-1) false)
    = mkUcdMeasurement 3 (mkPoint 2 0) 1 false /\
  fst (ucd_measure_forward U wide_glyph 0 (mkPoint 0 0) (-1) 2 false)
    = mkUcdMeasurement 3 (mkPoint 2 0) 1 false /\
  contents_of before = Done wide_glyph /\
  logical_pos_of before = Done (mkPoint 2 0) /\
  logical_pos_of after = Done (mkPoint 1 0).
Proof. repeat split; vm_compute; reflexivity. Qed.

(** C7 (the code at the failing input). In the line [abcd] with the gap
    between [ab] and [cd] and the cursor at its start, the first
    [text_buffer_cursor_move_to_logical((3, 0))] puts the cursor at offset 3
    and logical position (3, 0), the second one at offset 4 and logical
    position (2, 0). *)
Theorem move_to_logical_twice_differs :
  let U := SpecUcd.oracle in
  let start := gap_in_line U in
  let once := tb ← start; text_buffer_cursor_move_to_logical U 4 tb (mkPoint 3 0) in
  let twice := tb ← once; text_buffer_cursor_move_to_logical U 4 tb (mkPoint 3 0) in
  contents_of start = Done [97; 98; 99; 100] /\
  (tb ← start; Done (gap_off tb)) = Done 2 /\
  cursor_of start = Done cursor_zero /\
  cursor_of once = Done (mkTextBufferCursor 3 (mkPoint 3 0) (mkPoint 3 0)) /\
  cursor_of twice = Done (mkTextBufferCursor 4 (mkPoint 2 0) (mkPoint 2 0)).
Proof. repeat split; vm_compute; reflexivity. Qed.

End BufferFacts.

(** ** The UI engine *)

Module TuiFacts.

Import Input Tui.

Lemma wrap32_small z : - 2 ^ 31 <= z < 2 ^ 31 -> wrap32 z = z.
Proof.
  intros H. unfold wrap32.
  rewrite Z.mod_small; lia.
Qed.

Lemma max_i32_max a b : max_i32 a b = Z.max a b.
Proof. unfold max_i32. destruct (a >? b) eqn:E; lia. Qed.

Lemma clamp_i32_range v lo hi : lo <= hi -> lo <= clamp_i32 v lo hi <= hi.
Proof.
  intros H. unfold clamp_i32.
  destruct (v <? lo) eqn:E1; [lia|]. destruct (v >? hi) eqn:E2; lia.
Qed.

(** [layout_scrollarea] on a scrollarea with inner cells, in coordinates
    for which no [i32] operation overflows. *)
Lemma layout_scrollarea_claim (node child : UiNode) :
  rect_is_empty (inner node) = false ->
  fits (left (inner node)) -> fits (right (inner node)) ->
  fits (top (inner node)) -> fits (bottom (inner node)) ->
  fits (width (intrinsic_size child)) -> fits (height (intrinsic_size child)) ->
  let sx := right (inner node) - left (inner node) in
  let sy := bottom (inner node) - top (inner node) in
  let cx := Z.max (width (intrinsic_size child)) sx in
  let cy := Z.max (height (intrinsic_size child)) sy in
  right (outer (snd (layout_scrollarea node child)))
    - left (outer (snd (layout_scrollarea node child))) = cx /\
  bottom (outer (snd (layout_scrollarea node child)))
    - top (outer (snd (layout_scrollarea node child))) = cy /\
  0 <= x (content_scrollarea (fst (layout_scrollarea node child))) <= cx - sx /\
  0 <= y (content_scrollarea (fst (layout_scrollarea node child))) <= cy - sy.
Proof.
  unfold rect_is_empty, fits. intros He Hl Hr Ht Hb Hw Hh.
  apply orb_false_iff in He. destruct He as [He1 He2].
  assert (left (inner node) < right (inner node)) by lia.
  assert (top (inner node) < bottom (inner node)) by lia.
  unfold layout_scrollarea. cbn [fst snd set_layout set_content_scrollarea outer
    content_scrollarea x y left right top bottom].
  rewrite !max_i32_max.
  set (sx := right (inner node) - left (inner node)).
  set (sy := bottom (inner node) - top (inner node)).
  rewrite (wrap32_small sx) by (unfold sx; lia).
  rewrite (wrap32_small sy) by (unfold sy; lia).
  set (cx := Z.max (width (intrinsic_size child)) sx).
  set (cy := Z.max (height (intrinsic_size child)) sy).
  rewrite (wrap32_small (cx - sx)) by (unfold cx, sx; lia).
  rewrite (wrap32_small (cy - sy)) by (unfold cy, sy; lia).
  pose proof (clamp_i32_range (x (content_scrollarea node)) 0 (cx - sx) ltac:(lia)) as Hox.
  pose proof (clamp_i32_range (y (content_scrollarea node)) 0 (cy - sy) ltac:(lia)) as Hoy.
  set (ox := clamp_i32 (x (content_scrollarea node)) 0 (cx - sx)) in *.
  set (oy := clamp_i32 (y (content_scrollarea node)) 0 (cy - sy)) in *.
  rewrite (wrap32_small (left (inner node) - ox)) by (unfold cx, sx in *; lia).
  rewrite (wrap32_small (top (inner node) - oy)) by (unfold cy, sy in *; lia).
  rewrite (wrap32_small (left (inner node) - ox + cx)) by (unfold cx, sx in *; lia).
  rewrite (wrap32_small (top (inner node) - oy + cy)) by (unfold cy, sy in *; lia).
  repeat split; lia.
Qed.

(** C5 (as stated) fails: a scrollarea without inner cells is left as it
    is. Scrolled up to row -3, it keeps the offset -3, and its child keeps an
    outer height of 0 instead of 100. *)
Lemma scrollarea_empty_inner :
  ~ scrollarea_claim (scrollarea_frame rect_zero (-3))
      (ui_layout_children (fun a _ _ => a) (scrollarea_frame rect_zero (-3)) 0 rect_zero)
      0 1.
Proof.
  unfold scrollarea_claim. vm_compute. intros (_ & H & _). discriminate H.
Qed.

Lemma list_last_cons {A} (l : list A) (x d : A) : List.last (x :: l) d = List.last l x.
Proof.
  revert x d. induction l as [|y l IH]; intros x d; [reflexivity|].
  change (List.last (x :: y :: l) d) with (List.last (y :: l) d).
  rewrite (IH y d), (IH y x). reflexivity.
Qed.

Lemma tree_ind' (P : tree -> Prop) :
  (forall n cs, Forall P cs -> P (Tree n cs)) -> forall t, P t.
Proof.
  intros H. fix IH 1. intros [n cs]. apply H.
  revert cs. fix IHl 1. intros [|c cs]; constructor; [apply IH|apply IHl].
Qed.

Lemma holds_tree_unfold a n cs :
  holds_tree a (Tree n cs) <->
  child_first (a n) = head_ptr cs /\ chain a n cs /\ Forall (holds_tree a) cs.
Proof.
  cbn [holds_tree]. 
  assert (H : forall l, (fix all (cs0 : list tree) : Prop :=
       match cs0 with [] => True | c :: cs' => holds_tree a c /\ all cs' end) l
       <-> Forall (holds_tree a) l).
  { induction l as [|c l IH]; [split; [constructor|trivial]|].
    rewrite Forall_cons. rewrite IH. reflexivity. }
  rewrite H. reflexivity.
Qed.

Section Walk.

Variables (a : Arena) (p : Point) (root : nat).


Lemma ascend_mono fuel : forall fuel' n o,
  (fuel <= fuel')%nat -> ascend fuel a root n = Some o -> ascend fuel' a root n = Some o.
Proof.
  induction fuel as [|f IH]; intros fuel' n o Hle H.
  - destruct fuel'; cbn [ascend] in *; destruct (sibling_next (a n)); congruence.
  - destruct fuel' as [|f']; [lia|]. cbn [ascend] in *.
    destruct (sibling_next (a n)); [exact H|].
    destruct (parent (a n)) as [q|]; [|discriminate].
    destruct (Nat.eqb q root); [exact H|]. apply IH; [lia|exact H].
Qed.

Lemma walk_mono fuel : forall fuel' n b r,
  (fuel <= fuel')%nat -> walk fuel a p root n b = Some r -> walk fuel' a p root n b = Some r.
Proof.
  induction fuel as [|f IH]; intros fuel' n b r Hle H; [discriminate|].
  destruct fuel' as [|f']; [lia|]. cbn [walk] in *.
  destruct (child_first (a n)) as [c|].
  - apply IH; [lia|exact H].
  - destruct (ascend f a root n) as [[s|]|] eqn:E; [| |discriminate].
    + rewrite (ascend_mono f f' n (Some s)) by (lia || exact E). apply IH; [lia|exact H].
    + rewrite (ascend_mono f f' n None) by (lia || exact E). exact H.
Qed.

Lemma walks_child n c b r :
  child_first (a n) = Some c -> walks a p root c (hit a p b n) r -> walks a p root n b r.
Proof.
  intros Hc [f H]. exists (S f). cbn [walk]. rewrite Hc. exact H.
Qed.

Lemma walks_leaf n b r :
  child_first (a n) = None -> completes a p root n (hit a p b n) r -> walks a p root n b r.
Proof.
  intros Hc [[[f H] ->]|[s [[f1 H1] [f2 H2]]]].
  - exists (S f). cbn [walk]. rewrite Hc, H. reflexivity.
  - exists (S (Nat.max f1 f2)). cbn [walk]. rewrite Hc.
    rewrite (ascend_mono f1 (Nat.max f1 f2) n (Some s)) by (lia || exact H1).
    apply (walk_mono f2); [lia|exact H2].
Qed.

Lemma ascends_sibling n s : sibling_next (a n) = Some s -> ascends a root n (Some s).
Proof. intros H. exists O. cbn [ascend]. rewrite H. reflexivity. Qed.

Lemma ascends_root n :
  sibling_next (a n) = None -> parent (a n) = Some root -> ascends a root n None.
Proof.
  intros H1 H2. exists 1%nat. cbn [ascend]. rewrite H1, H2, Nat.eqb_refl. reflexivity.
Qed.

Lemma ascends_parent n q o :
  sibling_next (a n) = None -> parent (a n) = Some q -> q <> root ->
  ascends a root q o -> ascends a root n o.
Proof.
  intros H1 H2 H3 [f H]. exists (S f). cbn [ascend]. rewrite H1, H2.
  apply Nat.eqb_neq in H3. rewrite H3. exact H.
Qed.

Lemma completes_last_child n q b r :
  sibling_next (a n) = None -> parent (a n) = Some q -> q <> root ->
  completes a p root q b r -> completes a p root n b r.
Proof.
  intros H1 H2 H3 [[Ha ->]|[s [Ha Hw]]].
  - left. split; [|reflexivity]. eapply ascends_parent; eauto.
  - right. exists s. split; [|exact Hw]. eapply ascends_parent; eauto.
Qed.

(** A run of siblings: the walk that enters at the first one goes through
    all their subtrees. *)
Lemma siblings_walk par cs :
  Forall (subtree_walk a p root) cs ->
  forall c0, chain a par (c0 :: cs) -> Forall (holds_tree a) (c0 :: cs) ->
  subtree_walk a p root c0 ->
  ~ In root (flat_map preorder (c0 :: cs)) ->
  forall b r,
  completes a p root (tree_ptr (List.last cs c0))
    (foldl (hit a p) b (flat_map preorder (c0 :: cs))) r ->
  walks a p root (tree_ptr c0) b r.
Proof.
  induction 1 as [|c1 cs Hc1 Hcs IH]; intros c0 Hch Hh H0 Hr b r Hcomp.
  - cbn [List.last flat_map] in Hcomp. rewrite app_nil_r in Hcomp.
    apply Forall_cons in Hh. destruct Hh as [Hh0 _].
    apply H0; [exact Hh0| |exact Hcomp].
    intros Hin. apply Hr. cbn [flat_map]. rewrite app_nil_r. exact Hin.
  - cbn [chain] in Hch. destruct Hch as (Hp0 & Hs0 & Hch).
    apply Forall_cons in Hh. destruct Hh as [Hh0 Hh].
    cbn [flat_map] in Hr, Hcomp. rewrite foldl_app in Hcomp.
    apply H0; [exact Hh0| |].
    { intros Hin. apply Hr. apply in_or_app. left. exact Hin. }
    right. exists (tree_ptr c1). split; [apply ascends_sibling; exact Hs0|].
    apply IH; [exact Hch|exact Hh|exact Hc1| |].
    { intros Hin. apply Hr. apply in_or_app. right. exact Hin. }
    rewrite list_last_cons in Hcomp. exact Hcomp.
Qed.

Lemma chain_last par c0 cs :
  chain a par (c0 :: cs) ->
  parent (a (tree_ptr (List.last cs c0))) = Some par /\
  sibling_next (a (tree_ptr (List.last cs c0))) = None.
Proof.
  revert c0. induction cs as [|c1 cs IH]; intros c0 H.
  - cbn [chain List.last head_ptr] in *. destruct H as (H1 & H2 & _). auto.
  - cbn [chain] in H. destruct H as (_ & _ & H).
    change (List.last (c1 :: cs) c0) with (List.last (c1 :: cs) c0).
    rewrite list_last_cons. apply IH. exact H.
Qed.

Lemma subtree_walk_all t : subtree_walk a p root t.
Proof.
  induction t as [n cs IH] using tree_ind'. unfold subtree_walk.
  rewrite holds_tree_unfold. intros (Hc & Hch & Hall) Hr b r Hcomp.
  cbn [tree_ptr preorder] in *. cbn [foldl] in Hcomp.
  destruct cs as [|c0 cs].
  - cbn [flat_map foldl] in Hcomp. apply walks_leaf; [exact Hc|exact Hcomp].
  - apply (walks_child n (tree_ptr c0)); [exact Hc|].
    apply Forall_cons in IH. destruct IH as [IH0 IH].
    apply (siblings_walk n cs IH c0 Hch Hall IH0).
    { intros Hin. apply Hr. right. exact Hin. }
    destruct (chain_last _ _ _ Hch) as [Hp Hs].
    apply (completes_last_child _ n); [exact Hs|exact Hp| |exact Hcomp].
    intros ->. apply Hr. left. reflexivity.
Qed.

End Walk.

(** The walk over one root that has children visits its tree in preorder. *)
Lemma root_walk a p t b :
  holds_tree a t -> tree_children t <> [] -> NoDup (preorder t) ->
  exists fuel, walk fuel a p (tree_ptr t) (tree_ptr t) b
               = Some (foldl (hit a p) b (preorder t)).
Proof.
  destruct t as [n cs]. rewrite holds_tree_unfold. cbn [tree_children tree_ptr preorder].
  intros (Hc & Hch & Hall) Hne Hnd. destruct cs as [|c0 cs]; [congruence|]. clear Hne.
  apply NoDup_cons in Hnd. destruct Hnd as [Hn _].
  assert (Hn' : ~ In n (flat_map preorder (c0 :: cs))).
  { intros Hin. apply Hn. apply list_elem_of_In. exact Hin. }
  cbn [foldl]. apply (walks_child a p n n (tree_ptr c0)); [exact Hc|].
  assert (Hsub : Forall (subtree_walk a p n) (c0 :: cs)).
  { apply Forall_forall. intros t _. apply subtree_walk_all. }
  apply Forall_cons in Hsub. destruct Hsub as [H0 Hsub].
  apply (siblings_walk a p n n cs Hsub c0 Hch Hall H0 Hn').
  destruct (chain_last _ _ _ _ Hch) as [Hp Hs].
  left. split; [|reflexivity]. apply ascends_root; assumption.
Qed.

Lemma walk_roots_mono a p fuel : forall fuel' r b res,
  (fuel <= fuel')%nat -> walk_roots fuel a p r b = Some res ->
  walk_roots fuel' a p r b = Some res.
Proof.
  induction fuel as [|f IH]; intros fuel' r b res Hle H.
  - destruct r; [discriminate|]. destruct fuel'; exact H.
  - destruct fuel' as [|f']; [lia|]. destruct r as [r|]; [|exact H].
    cbn [walk_roots] in *.
    destruct (walk f a p r r b) as [b'|] eqn:E; [|discriminate].
    rewrite (walk_mono a p r f f' r b b') by (lia || exact E).
    apply IH; [lia|exact H].
Qed.

Lemma walk_roots_forest a p ts : 
  well_formed a ts -> forall b,
  exists fuel, walk_roots fuel a p (head_ptr ts) b
               = Some (foldl (hit a p) b (flat_map preorder ts)).
Proof.
  intros [Hh Hf]. induction ts as [|t ts IH]; intros b.
  - exists O. reflexivity.
  - cbn [holds_roots] in Hh. destruct Hh as (Hs & Ht & Hh).
    apply Forall_cons in Hf. destruct Hf as [[Hne Hnd] Hf].
    destruct (root_walk a p t b Ht Hne Hnd) as [f1 H1].
    destruct (IH Hh Hf (foldl (hit a p) b (preorder t))) as [f2 H2].
    exists (S (Nat.max f1 f2)). cbn [head_ptr walk_roots].
    rewrite (walk_mono a p (tree_ptr t) f1 (Nat.max f1 f2) _ _ _ ltac:(lia) H1).
    rewrite Hs. cbn [flat_map]. rewrite foldl_app.
    apply (walk_roots_mono a p f2); [lia|exact H2].
Qed.

Lemma foldl_upd_last_hit a p l b :
  foldl (hit a p) b l =
  match last_hit a p l with Some n => Some n | None => b end.
Proof.
  unfold last_hit. revert b. induction l as [|n l IH]; intros b; [reflexivity|].
  cbn [foldl]. rewrite IH. rewrite filter_cons. unfold hit.
  destruct (rect_contains (inner_clipped (a n)) p) eqn:E.
  - rewrite decide_True by reflexivity.
    set (f := filter (fun n0 : nat => rect_contains (inner_clipped (a n0)) p = true) l).
    destruct f as [|m l']; [reflexivity|].
    rewrite last_cons_cons. destruct (last (m :: l')) eqn:L; [reflexivity|].
    rewrite last_cons in L. destruct (last l'); discriminate.
  - rewrite decide_False by discriminate. reflexivity.
Qed.

(** The hit test on a well-formed forest: with enough fuel the candidate is
    the last node, in the order of the walk, whose [inner_clipped] contains
    the pointer. *)
Lemma hit_test_last_in_preorder (prev : UiContext) (ts : list tree) (p : Point) :
  well_formed (nodes prev) ts -> root_first prev = head_ptr ts ->
  exists fuel0, forall fuel, (fuel0 <= fuel)%nat ->
    hit_test fuel prev p = Some (last_hit (nodes prev) p (flat_map preorder ts)).
Proof.
  intros Hwf Hroot. destruct (walk_roots_forest (nodes prev) p ts Hwf None) as [f H].
  exists f. intros fuel Hle. unfold hit_test. rewrite Hroot.
  rewrite (walk_roots_mono _ _ f fuel _ _ _ Hle H).
  rewrite foldl_upd_last_hit. destruct (last_hit _ _ _); reflexivity.
Qed.

(** C8 (amended). For every previous frame that holds a forest in which
    every root has a child, and every mouse event: [ui_root_reset] returns;
    its candidate is the last node, in the depth-first order of the walk
    over all roots, whose [inner_clipped] contains the pointer; on a LEFT
    press with a candidate the new [focused_item_id] is the id of the
    candidate; and when the previous action was a button press and the new
    one is NONE, the stored action is RELEASE. *)
Theorem ui_root_reset_mouse (finalize_frame : UiContext -> UiContext)
    (prev0 : UiContext) (ts : list tree) (m : UiInputMouse) :
  let prev := ui_root_finalize finalize_frame prev0 in
  well_formed (nodes prev) ts -> root_first prev = head_ptr ts ->
  exists fuel0, forall fuel, (fuel0 <= fuel)%nat ->
    let best := last_hit (nodes prev) (position m) (flat_map preorder ts) in
    hit_test fuel prev (position m) = Some best /\
    exists ctx,
      ui_root_reset finalize_frame fuel prev0 (UI_INPUT_MOUSE m) = Some ctx /\
      (forall b, action m = MOUSE_ACTION_LEFT -> best = Some b ->
         focused_item_id ctx = id (nodes prev b)) /\
      (is_button (input_mouse_action prev) = true -> action m = MOUSE_ACTION_NONE ->
         input_mouse_action ctx = MOUSE_ACTION_RELEASE).
Proof.
  intros prev Hwf Hroot.
  destruct (hit_test_last_in_preorder prev ts (position m) Hwf Hroot) as [f0 H].
  exists f0. intros fuel Hle best. specialize (H fuel Hle). fold best in H.
  split; [exact H|].
  unfold ui_root_reset. fold prev. cbv zeta. rewrite H.
  eexists. split; [reflexivity|]. cbn [focused_item_id input_mouse_action]. split.
  - intros b Ha Hb. rewrite Hb, Ha.
    destruct (is_button (input_mouse_action prev)); reflexivity.
  - intros Hbtn Ha. rewrite Hbtn, Ha. reflexivity.
Qed.

Lemma floater_forest_well_formed : well_formed floater_frame floater_forest.
Proof.
  split.
  - cbn. repeat split.
  - repeat constructor; cbn; try discriminate;
      rewrite ?elem_of_cons, ?elem_of_nil; lia.
Qed.

(** The left press on the frame with the floater: the candidate is node 5,
    the child of the floater, and the focus moves to its id. *)
Lemma ui_root_reset_mouse_witness :
  exists fuel0, forall fuel, (fuel0 <= fuel)%nat ->
    hit_test fuel floater_context (mkPoint 1 1) = Some (Some 5%nat) /\
    exists ctx,
      ui_root_reset (fun c => c) fuel floater_context (UI_INPUT_MOUSE left_press)
        = Some ctx /\
      focused_item_id ctx = 105.
Proof.
  destruct (ui_root_reset_mouse (fun c => c) floater_context floater_forest left_press
              floater_forest_well_formed eq_refl) as [f0 H].
  exists f0. intros fuel Hle. destruct (H fuel Hle) as (Hh & ctx & Hr & Hf & _).
  split; [exact Hh|]. exists ctx. split; [exact Hr|].
  apply (Hf 5%nat); reflexivity.
Defined.

(** C8 (as stated) fails: on the frame with the floater the candidate for
    the cell (1, 1) is node 5 at depth 2, although node 3 at depth 3 also
    contains the cell. *)
Lemma hit_test_not_deepest :
  hit_test 10 floater_context (mkPoint 1 1) = Some (Some 5%nat) /\
  ~ deepest_hit floater_frame (mkPoint 1 1) (flat_map preorder floater_forest)
      (Some 5%nat).
Proof.
  split; [vm_compute; reflexivity|].
  unfold deepest_hit. intros [_ H].
  specialize (H 3%nat). cbn in H.
  assert (Hle : (3 <= 2)%nat) by (apply H; [tauto|reflexivity]). lia.
Qed.

End TuiFacts.

(** ** A scrollarea from frame to frame *)

Module ScrollFacts.

Import Input Tui TuiTree TuiScroll TuiFacts.

Lemma store_eq (a : Arena) (p : nat) (n : UiNode) : arena_store a p n p = n.
Proof. unfold arena_store. rewrite Nat.eqb_refl. reflexivity. Qed.

Lemma store_ne (a : Arena) (p q : nat) (n : UiNode) :
  q <> p -> arena_store a p n q = a q.
Proof. intros H. unfold arena_store. destruct (Nat.eqb_spec q p); [contradiction|reflexivity]. Qed.

Lemma update_eq (a : Arena) (p : nat) (f : UiNode -> UiNode) :
  arena_update a p f p = f (a p).
Proof. unfold arena_update. apply store_eq. Qed.

Lemma update_ne (a : Arena) (p q : nat) (f : UiNode -> UiNode) :
  q <> p -> arena_update a p f q = a q.
Proof. unfold arena_update. apply store_ne. Qed.

Lemma same_data_refl a : same_data a a.
Proof. intros n. repeat split. Qed.

Lemma same_data_trans a b c : same_data a b -> same_data b c -> same_data a c.
Proof.
  intros H1 H2 n. destruct (H1 n) as (?&?&?&?&?), (H2 n) as (?&?&?&?&?).
  repeat split; congruence.
Qed.

Lemma same_data_update a p f : links_only f -> same_data a (arena_update a p f).
Proof.
  intros H n. destruct (Nat.eq_dec n p) as [->|Hne].
  - rewrite update_eq. apply H.
  - rewrite update_ne by exact Hne. repeat split.
Qed.

Lemma links_only_set_links par first last_ prev_ next_ :
  links_only (fun n => set_links (par n) (first n) (last_ n) (prev_ n) (next_ n) n).
Proof. intros n. repeat split. Qed.

Lemma same_data_step a b p f :
  links_only f -> same_data a b -> same_data a (arena_update b p f).
Proof. intros Hf H. eapply same_data_trans; [exact H|apply same_data_update, Hf]. Qed.

Lemma append_child_data a par c : same_data a (ui_node_append_child a par c).
Proof.
  unfold ui_node_append_child. cbv zeta.
  repeat first
    [ apply same_data_refl
    | apply same_data_step; [intros ?; repeat split|]
    | match goal with
      | |- same_data _ (match ?x with _ => _ end) => destruct x
      end ].
Qed.

Lemma append_child_first a par c n :
  c <> par ->
  child_first (ui_node_append_child a par c n)
  = if Nat.eqb n par
    then match child_first (a par) with None => Some c | s => s end
    else child_first (a n).
Proof.
  intros Hne. unfold ui_node_append_child. cbv zeta.
  assert (Hpc : par <> c) by congruence.
  destruct (Nat.eqb_spec n par) as [->|Hn].
  - rewrite update_eq. cbn [set_child_last set_links child_first].
    rewrite !(update_ne _ c par) by exact Hpc.
    destruct (child_last (a par)) as [l|] eqn:El.
    + assert (Hf : child_first (arena_update
                (arena_update (arena_update a c (set_parent (Some par))) c
                   (set_sibling_prev (Some l))) l (set_sibling_next (Some c)) par)
              = child_first (a par)).
      { destruct (Nat.eq_dec par l) as [<-|Hl].
        - rewrite update_eq. cbn [set_sibling_next set_links child_first].
          rewrite !(update_ne _ c par) by exact Hpc. reflexivity.
        - rewrite update_ne by exact Hl. rewrite !(update_ne _ c par) by exact Hpc.
          reflexivity. }
      rewrite Hf. destruct (child_first (a par)) eqn:Ef.
      * exact Hf.
      * rewrite update_eq. reflexivity.
    + rewrite !(update_ne _ c par) by exact Hpc.
      destruct (child_first (a par)) eqn:Ef.
      * rewrite !(update_ne _ c par) by exact Hpc. exact Ef.
      * rewrite update_eq. reflexivity.
  - rewrite update_ne by exact Hn.
    assert (Hstep : forall (b : Arena) p f,
              (forall m, child_first (f m) = child_first m) ->
              child_first (arena_update b p f n) = child_first (b n)).
    { intros b p f Hf. destruct (Nat.eq_dec n p) as [->|Hp].
      - rewrite update_eq. apply Hf.
      - rewrite update_ne by exact Hp. reflexivity. }
    match goal with
    | |- child_first (match ?x with _ => _ end n) = _ => destruct x
    end.
    + match goal with
      | |- child_first (match ?x with _ => _ end n) = _ => destruct x
      end; rewrite ?update_ne by exact Hn;
        rewrite !Hstep by (intros m; reflexivity); reflexivity.
    + rewrite update_ne by exact Hn.
      match goal with
      | |- child_first (match ?x with _ => _ end n) = _ => destruct x
      end; rewrite !Hstep by (intros m; reflexivity); reflexivity.
Qed.

(** [ui_container_begin] with a fresh node. *)
Lemma container_begin_spec (ctx : UiContext) (node : nat) (id_ : Z) (par : nat) :
  parent_ ctx = Some par -> node <> par ->
  exists c,
    ui_container_begin ctx node id_ = Some c /\
    parent_ c = Some node /\ attr_node c = Some node /\
    node_map c = node_map ctx /\ nodes_prev c = nodes_prev ctx /\
    same_input ctx c /\
    stack_parent (nodes c node) = Some par /\ id (nodes c node) = id_ /\
    content_scrollarea (nodes c node) = mkPoint 0 0 /\
    child_first (nodes c node) = None /\
    (forall n, n <> node ->
       id (nodes c n) = id (nodes ctx n) /\
       stack_parent (nodes c n) = stack_parent (nodes ctx n) /\
       content_type (nodes c n) = content_type (nodes ctx n) /\
       content_scrollarea (nodes c n) = content_scrollarea (nodes ctx n)) /\
    child_first (nodes c par)
    = match child_first (nodes ctx par) with None => Some node | s => s end.
Proof.
  intros Hp Hne. unfold ui_container_begin. rewrite Hp. cbv zeta.
  eexists. split; [reflexivity|].
  unfold same_input.
  cbn [set_tree parent_ attr_node node_map nodes_prev input_mouse_position nodes
       input_consumed input_mouse_action input_scroll_delta].
  set (a0 := arena_update _ node (set_parent (Some par))).
  pose proof (append_child_data a0 par node) as Hd.
  assert (H0 : a0 node = set_parent (Some par) (set_id id_ (set_stack_parent (Some par) node_zero))).
  { unfold a0. rewrite !update_eq, store_eq. reflexivity. }
  assert (H0' : forall n, n <> node -> a0 n = nodes ctx n).
  { intros n Hn. unfold a0. rewrite !update_ne by exact Hn. apply store_ne, Hn. }
  repeat split.
  - destruct (Hd node) as (-> & _). rewrite H0. reflexivity.
  - destruct (Hd node) as (_ & -> & _). rewrite H0. reflexivity.
  - destruct (Hd node) as (_ & _ & _ & -> & _). rewrite H0. reflexivity.
  - rewrite append_child_first by exact Hne.
    destruct (Nat.eqb_spec node par); [contradiction|]. rewrite H0. reflexivity.
  - destruct (Hd n) as (_ & -> & _). rewrite H0' by assumption. reflexivity.
  - destruct (Hd n) as (-> & _). rewrite H0' by assumption. reflexivity.
  - destruct (Hd n) as (_ & _ & -> & _). rewrite H0' by assumption. reflexivity.
  - destruct (Hd n) as (_ & _ & _ & -> & _). rewrite H0' by assumption. reflexivity.
  - rewrite append_child_first by exact Hne. rewrite Nat.eqb_refl.
    rewrite H0' by congruence. reflexivity.
Qed.

Section Scrollarea.

Variable hash_s8 : Z -> list Z -> Z.
Variables node_map_shift node_map_mask : Z.
Variable layout_grid : Arena -> nat -> Rect -> Arena.

Local Abbreviation get_prev_node := (get_prev_node node_map_shift node_map_mask).
Local Abbreviation ui_is_hovering := (ui_is_hovering node_map_shift node_map_mask).
Local Abbreviation ui_scrollarea_begin := (ui_scrollarea_begin hash_s8 node_map_shift node_map_mask).
Local Abbreviation ui_scrollarea_end := (ui_scrollarea_end node_map_shift node_map_mask).
Local Abbreviation scrollarea_in_frame :=
  (scrollarea_in_frame hash_s8 node_map_shift node_map_mask layout_grid).
Local Abbreviation frame_of := (frame_of hash_s8 node_map_shift node_map_mask).
Local Abbreviation scroll_run := (scroll_run hash_s8 node_map_shift node_map_mask layout_grid).

(** The lookup reads the table and the arena of the previous frame only. *)
Lemma get_prev_node_ext (fuel : nat) (c c' : UiContext) (id_ : Z) :
  node_map c' = node_map c -> nodes_prev c' = nodes_prev c ->
  get_prev_node fuel c' id_ = get_prev_node fuel c id_.
Proof.
  intros Hm Hp. unfold TuiScroll.get_prev_node.
  destruct (64 <=? node_map_shift); [reflexivity|].
  generalize (Z.land (Z.shiftr id_ node_map_shift) node_map_mask).
  induction fuel as [|fuel IH]; intros slot; [reflexivity|].
  cbn [get_prev_node_loop]. rewrite Hm, Hp.
  destruct (node_map c !! Z.to_nat slot) as [[node|]|]; try reflexivity.
  destruct (id (nodes_prev c node) =? id_); [reflexivity|]. apply IH.
Qed.

(** [ui_scrollarea_begin] below the node [par], with fresh nodes, when the
    lookup of the node of the previous frame returns [prev]. *)
Lemma scrollarea_begin_spec (fuel : nat) (ctx : UiContext) (outer_ inner_ : nat)
    (name : list Z) (intrinsic : Size) (par : nat) (prev : option nat) :
  parent_ ctx = Some par -> outer_ <> par -> inner_ <> par -> outer_ <> inner_ ->
  get_prev_node fuel ctx (hash_s8 (id (nodes ctx par)) name) = Some prev ->
  exists c1,
    ui_scrollarea_begin fuel ctx outer_ inner_ name intrinsic = Some c1 /\
    parent_ c1 = Some inner_ /\ attr_node c1 = Some outer_ /\
    node_map c1 = node_map ctx /\ nodes_prev c1 = nodes_prev ctx /\
    same_input ctx c1 /\
    stack_parent (nodes c1 inner_) = Some outer_ /\
    id (nodes c1 outer_) = hash_s8 (id (nodes ctx par)) name /\
    content_type (nodes c1 outer_) = UI_NODE_SCROLLAREA /\
    content_scrollarea (nodes c1 outer_) = found_offset ctx prev /\
    child_first (nodes c1 outer_) = Some inner_.
Proof.
  intros Hp Hop Hip Hoi Hprev.
  unfold TuiScroll.ui_scrollarea_begin, ui_container_begin_named. rewrite Hp.
  destruct (container_begin_spec ctx outer_ (hash_s8 (id (nodes ctx par)) name) par Hp Hop)
    as (c & -> & Hpc & Hac & Hmc & Hnc & Hic & Hsp & Hid & Hcs & Hcf & Hother & _).
  rewrite Hac. cbv zeta. rewrite Hid.
  rewrite (get_prev_node_ext fuel ctx c _ Hmc Hnc), Hprev.
  match goal with
  | |- context [ui_focus_next_by_default (set_nodes ?a c)] => set (a1 := a)
  end.
  set (c' := ui_focus_next_by_default (set_nodes a1 c)).
  assert (Hpc' : parent_ c' = Some outer_) by exact Hpc.
  rewrite Hpc'.
  destruct (container_begin_spec c' inner_ (hash_s8 (id (nodes c' outer_)) inner_name)
              outer_ Hpc' (not_eq_sym Hoi))
    as (c1 & -> & Hp1 & Ha1 & Hm1 & Hn1 & Hi1 & Hsp1 & Hid1 & Hcs1 & Hcf1 & Hother1 & Hfirst1).
  eexists. split; [reflexivity|].
  unfold same_input in *.
  cbn [set_attr_node set_tree parent_ attr_node node_map nodes_prev input_mouse_position
       nodes input_consumed input_mouse_action input_scroll_delta].
  destruct Hic as (Hic1 & Hic2 & Hic3 & Hic4). destruct Hi1 as (Hi11 & Hi12 & Hi13 & Hi14).
  destruct (Hother1 outer_ Hoi) as (Ho1 & Ho2 & Ho3 & Ho4).
  assert (Ha1o : nodes c' outer_ = a1 outer_) by reflexivity.
  assert (Hdata : id (a1 outer_) = hash_s8 (id (nodes ctx par)) name /\
                  content_type (a1 outer_) = UI_NODE_SCROLLAREA /\
                  content_scrollarea (a1 outer_) = found_offset ctx prev /\
                  child_first (a1 outer_) = None).
  { unfold a1.
    destruct ((width intrinsic >? 0) || (height intrinsic >? 0)); destruct prev as [q|];
      rewrite !update_eq;
      cbn [set_intrinsic_size set_content_scrollarea set_content_type id content_type
           content_scrollarea child_first found_offset];
      rewrite ?Hnc, ?Hcs; repeat split; assumption. }
  destruct Hdata as (Hd1 & Hd2 & Hd3 & Hd4).
  repeat split; try congruence.
  - rewrite Hm1. exact Hmc.
  - rewrite Hn1. exact Hnc.
  - rewrite Hi11. exact Hic1.
  - rewrite Hi12. exact Hic2.
  - rewrite Hi13. exact Hic3.
  - rewrite Hi14. exact Hic4.
  - rewrite Hfirst1, Ha1o, Hd4. reflexivity.
Qed.

Lemma scrollarea_end_spec (fuel : nat) (cb : UiContext) (outer_ inner_ : nat)
    (prev : option nat) :
  parent_ cb = Some inner_ -> stack_parent (nodes cb inner_) = Some outer_ ->
  get_prev_node fuel cb (id (nodes cb outer_)) = Some prev ->
  exists c2,
    ui_scrollarea_end fuel cb = Some c2 /\
    id (nodes c2 outer_) = id (nodes cb outer_) /\
    content_type (nodes c2 outer_) = content_type (nodes cb outer_) /\
    child_first (nodes c2 outer_) = child_first (nodes cb outer_) /\
    (forall n, n <> outer_ -> nodes c2 n = nodes cb n) /\
    content_scrollarea (nodes c2 outer_)
    = let o := content_scrollarea (nodes cb outer_) in
      let d := input_scroll_delta cb in
      if found_hover cb prev && is_scroll (ui_input_mouse cb)
      then mkPoint (wrap32 (x o + x d)) (wrap32 (y o + y d)) else o.
Proof.
  intros Hp Hsp Hprev.
  unfold TuiScroll.ui_scrollarea_end, ui_container_end. rewrite Hp.
  cbn [set_tree parent_ nodes]. rewrite Hsp.
  unfold TuiScroll.ui_is_hovering.
  cbn [set_tree attr_node nodes nodes_prev input_mouse_position].
  match goal with
  | |- context [get_prev_node fuel ?c ?i] =>
    replace (get_prev_node fuel c i) with (Some prev)
      by (rewrite <- Hprev; symmetry; apply get_prev_node_ext; reflexivity)
  end.
  assert (Hh : match prev with
               | Some node =>
                 Some (rect_contains (outer (nodes_prev cb node)) (input_mouse_position cb))
               | None => Some false
               end = Some (found_hover cb prev)) by (destruct prev; reflexivity).
  rewrite Hh. unfold ui_input_mouse. cbn [set_tree input_consumed input_mouse_action].
  destruct (found_hover cb prev && is_scroll _).
  - eexists. split; [reflexivity|].
    cbn [set_nodes set_tree nodes input_scroll_delta]. rewrite !update_eq.
    repeat split. intros n Hn. rewrite !update_ne by exact Hn. reflexivity.
  - eexists. split; [reflexivity|]. repeat split.
Qed.

(** The offset that the layout of a scrollarea stores. *)
Lemma layout_offset (a : Arena) (node child : nat) (clip : Rect) :
  child_first (a node) = Some child -> node <> child ->
  content_type (a node) = UI_NODE_SCROLLAREA ->
  rect_is_empty (inner (a node)) = false ->
  fits (left (inner (a node))) -> fits (right (inner (a node))) ->
  fits (top (inner (a node))) -> fits (bottom (inner (a node))) ->
  fits (width (intrinsic_size (a child))) -> fits (height (intrinsic_size (a child))) ->
  content_scrollarea (ui_layout_children layout_grid a node clip node)
  = clamped false (content_scrollarea (a node)) (mkPoint 0 0) (intrinsic_size (a child))
      (mkSize (right (inner (a node)) - left (inner (a node)))
              (bottom (inner (a node)) - top (inner (a node)))).
Proof.
  intros Hc Hne Ht He Hl Hr Htop Hb Hw Hh.
  unfold ui_layout_children. rewrite Hc, He, Ht.
  unfold layout_scrollarea. rewrite store_eq.
  cbn [set_content_scrollarea content_scrollarea clamped width height].
  unfold rect_is_empty, fits in *.
  apply orb_false_iff in He. destruct He as [He1 He2].
  rewrite !max_i32_max.
  set (sx := right (inner (a node)) - left (inner (a node))).
  set (sy := bottom (inner (a node)) - top (inner (a node))).
  rewrite (wrap32_small sx) by (unfold sx; lia).
  rewrite (wrap32_small sy) by (unfold sy; lia).
  rewrite (wrap32_small (Z.max _ sx - sx)) by (unfold sx; lia).
  rewrite (wrap32_small (Z.max _ sy - sy)) by (unfold sy; lia).
  reflexivity.
Qed.

(** One frame: [scrollarea_in_frame] returns, and the offset it leaves is the
    offset found, plus the scroll delta if the pointer is over the
    scrollarea and the mouse input is an unconsumed SCROLL, clamped. *)
Lemma scrollarea_in_frame_spec (fuel : nat) (ctx : UiContext) (outer_ inner_ : nat)
    (name : list Z) (intrinsic : Size) (body : UiContext -> UiContext)
    (rest : Arena -> Arena) (clip : Rect) (prev : option nat) (consumed : bool)
    (action : MouseAction) (delta : Point) (content viewport : Size) :
  frame_of fuel ctx outer_ inner_ name intrinsic body rest prev consumed action delta
    content viewport ->
  fits (width content) -> fits (height content) ->
  exists a,
    scrollarea_in_frame fuel ctx outer_ inner_ name intrinsic body rest clip = Some a /\
    content_scrollarea (a outer_)
    = clamped (found_hover ctx prev && negb consumed && is_scroll action)
        (found_offset ctx prev) delta content viewport.
Proof.
  intros (par & Hp & Hop & Hip & Hoi & Hprev & Hbody & Hrest) Hw Hh.
  destruct (scrollarea_begin_spec fuel ctx outer_ inner_ name intrinsic par prev
              Hp Hop Hip Hoi Hprev)
    as (c1 & Hb & Hp1 & Ha1 & Hm1 & Hn1 & (Hi1 & _) & Hsp1 & Hid1 & Hct1 & Hcs1 & Hcf1).
  destruct (Hbody c1 Hb) as ((Hbp & Hbs & (Hbid & Hbct & Hbcs & Hbcf) & Hbm & Hbn & Hbi)
                             & Hcons & Hact & Hdel).
  assert (Hprev' : get_prev_node fuel (body c1) (id (nodes (body c1) outer_)) = Some prev).
  { rewrite Hbid, Hid1, <- Hprev. apply get_prev_node_ext; congruence. }
  destruct (scrollarea_end_spec fuel (body c1) outer_ inner_ prev Hbp Hbs Hprev')
    as (c2 & He & Hid2 & Hct2 & Hcf2 & _ & Hcs2).
  destruct (Hrest c1 c2 Hb He)
    as ((Hrid & Hrct & Hrcs & Hrcf) & Hemp & Hl & Hr & Ht & Hbt & Hvw & Hvh & Hcont).
  unfold TuiScroll.scrollarea_in_frame. rewrite Hb, He.
  eexists. split; [reflexivity|].
  rewrite layout_offset with (child := inner_); try assumption; try congruence.
  rewrite Hvw, Hvh, Hcont, Hrcs, Hcs2. cbv zeta.
    rewrite Hbcs, Hcs1, Hdel.
    assert (Hg : found_hover (body c1) prev && is_scroll (ui_input_mouse (body c1))
                 = found_hover ctx prev && negb consumed && is_scroll action).
    { unfold ui_input_mouse, found_hover. rewrite Hcons, Hact, Hbn, Hn1, Hbi, Hi1.
      destruct prev as [q|]; [|reflexivity].
      destruct (rect_contains _ _), consumed, action; reflexivity. }
    rewrite Hg. destruct (found_hover ctx prev && negb consumed && is_scroll action);
      reflexivity.
Qed.

(** Scrolling by a delta that is not negative: the clamp is a minimum. *)
Lemma clamp_scrolled (o d limit : Z) :
  0 <= o <= limit -> 0 <= d < 2 ^ 30 -> limit < 2 ^ 30 ->
  clamp_i32 (wrap32 (o + d)) 0 limit = Z.min (o + d) limit.
Proof.
  intros Ho Hd Hl. rewrite wrap32_small by lia. unfold clamp_i32.
  destruct (o + d <? 0) eqn:E1; [lia|]. destruct (o + d >? limit) eqn:E2; lia.
Qed.

Lemma scroll_run_spec (fuel : nat) (delta : Point) (content viewport : Size)
    (o : Point) (n : nat) (o' : Point) :
  scroll_run fuel delta content viewport o n o' ->
  fits (width content) -> fits (height content) ->
  0 <= x delta < 2 ^ 30 -> 0 <= y delta < 2 ^ 30 ->
  0 <= x o <= Z.max (width content) (width viewport) - width viewport ->
  0 <= y o <= Z.max (height content) (height viewport) - height viewport ->
  x o' = Z.min (x o + Z.of_nat n * x delta)
           (Z.max (width content) (width viewport) - width viewport) /\
  y o' = Z.min (y o + Z.of_nat n * y delta)
           (Z.max (height content) (height viewport) - height viewport).
Proof.
  intros Hrun Hw Hh Hdx Hdy Hox Hoy.
  induction Hrun as [|n o1 ctx outer_ inner_ name intrinsic body rest clip q a Hrun IH
                      Hframe Hfound Hhover Hres].
  - change (Z.of_nat 0) with 0. lia.
  - destruct IH as [IHx IHy].
    assert (Hvw : 0 <= width viewport < 2 ^ 31 /\ 0 <= height viewport < 2 ^ 31).
    { destruct Hframe as (par & Hp & Hop & Hip & Hoi & Hprev & Hbody & Hrest).
      destruct (scrollarea_begin_spec fuel ctx outer_ inner_ name intrinsic par (Some q)
                  Hp Hop Hip Hoi Hprev) as (c1 & Hb & _).
      unfold TuiScroll.scrollarea_in_frame in Hres. rewrite Hb in Hres.
      destruct (TuiScroll.ui_scrollarea_end _ _ fuel (body c1)) as [c2|] eqn:He;
        [|discriminate].
      destruct (Hrest c1 c2 Hb He) as (_ & Hemp & Hl & Hr & Ht & Hbt & Hvw & Hvh & _).
      unfold rect_is_empty, fits in *.
      apply orb_false_iff in Hemp. lia. }
    destruct (scrollarea_in_frame_spec fuel ctx outer_ inner_ name intrinsic body rest clip
                (Some q) false MOUSE_ACTION_SCROLL delta content viewport Hframe Hw Hh)
      as (a' & Ha' & Hoff).
    rewrite Hres in Ha'. inversion Ha'; subst a'. clear Ha'.
    rewrite Hoff, Hhover, Hfound. cbn [andb negb is_scroll clamped x y].
    unfold fits in *.
    rewrite !clamp_scrolled by lia.
    rewrite Nat2Z.inj_succ. nia.
Qed.

End Scrollarea.

(** C5 (amended). The layout of a scrollarea with one child and an inner
    rectangle that is not empty, in coordinates for which the [i32]
    arithmetic does not overflow, gives the child the larger of its
    intrinsic size and the inner size of the scrollarea, and it stores the
    scroll offset clamped to the range from 0 to content minus viewport. A
    scrollarea whose inner rectangle is empty is not laid out: the arena
    stays as it is. In a frame, [ui_scrollarea_begin] takes the offset of
    the node of the previous frame, and [ui_scrollarea_end] adds the scroll
    delta if the pointer is over that node and the mouse input is an
    unconsumed SCROLL; if the rest of the frame leaves the offset alone
    ([frame_of]), the layout clamps that sum. So [n] such frames in a row
    that scroll by a delta that is not negative, starting from an offset [o]
    in range, store the smaller of [o + n * delta] and content minus
    viewport: the offset saturates there (at 90 for a content of 100 and a
    viewport of 10). *)
Theorem scrollarea_layout_clamps (hash_s8 : Z -> list Z -> Z)
    (node_map_shift node_map_mask : Z) (layout_grid : Arena -> nat -> Rect -> Arena)
    (fuel : nat) :
  (forall (a : Arena) (node child : nat) (clip : Rect),
     child_first (a node) = Some child -> node <> child ->
     content_type (a node) = UI_NODE_SCROLLAREA ->
     rect_is_empty (inner (a node)) = false ->
     fits (left (inner (a node))) -> fits (right (inner (a node))) ->
     fits (top (inner (a node))) -> fits (bottom (inner (a node))) ->
     fits (width (intrinsic_size (a child))) ->
     fits (height (intrinsic_size (a child))) ->
     let after := ui_layout_children layout_grid a node clip in
     scrollarea_claim a after node child /\
     content_scrollarea (after node)
     = clamped false (content_scrollarea (a node)) (mkPoint 0 0)
         (intrinsic_size (a child))
         (mkSize (right (inner (a node)) - left (inner (a node)))
                 (bottom (inner (a node)) - top (inner (a node))))) /\
  (forall (a : Arena) (node : nat) (clip : Rect),
     rect_is_empty (inner (a node)) = true ->
     ui_layout_children layout_grid a node clip = a) /\
  (forall ctx outer_ inner_ name intrinsic body rest clip prev consumed action delta
          content viewport,
     frame_of hash_s8 node_map_shift node_map_mask fuel ctx outer_ inner_ name intrinsic
       body rest prev consumed action delta content viewport ->
     fits (width content) -> fits (height content) ->
     exists a,
       scrollarea_in_frame hash_s8 node_map_shift node_map_mask layout_grid fuel ctx
         outer_ inner_ name intrinsic body rest clip = Some a /\
       content_scrollarea (a outer_)
       = clamped (found_hover ctx prev && negb consumed && is_scroll action)
           (found_offset ctx prev) delta content viewport) /\
  (forall delta content viewport o n o',
     scroll_run hash_s8 node_map_shift node_map_mask layout_grid fuel delta content
       viewport o n o' ->
     fits (width content) -> fits (height content) ->
     0 <= x delta < 2 ^ 30 -> 0 <= y delta < 2 ^ 30 ->
     0 <= x o <= Z.max (width content) (width viewport) - width viewport ->
     0 <= y o <= Z.max (height content) (height viewport) - height viewport ->
     x o' = Z.min (x o + Z.of_nat n * x delta)
              (Z.max (width content) (width viewport) - width viewport) /\
     y o' = Z.min (y o + Z.of_nat n * y delta)
              (Z.max (height content) (height viewport) - height viewport)).
Proof.
  split; [|split; [|split]].
  - intros a node child clip Hc Hne Ht He Hl Hr Htop Hb Hw Hh after. split.
    + unfold after, scrollarea_claim, ui_layout_children. rewrite Hc, He, Ht.
      pose proof (layout_scrollarea_claim (a node) (a child) He Hl Hr Htop Hb Hw Hh) as H.
      destruct (layout_scrollarea (a node) (a child)) as [n' c'] eqn:E.
      cbn [fst snd] in H. rewrite store_eq.
      rewrite store_ne by congruence. rewrite store_eq. exact H.
    + apply layout_offset; assumption.
  - intros a node clip He. unfold ui_layout_children. rewrite He.
    destruct (child_first (a node)); reflexivity.
  - intros. eapply scrollarea_in_frame_spec; eassumption.
  - intros. eapply scroll_run_spec; eassumption.
Qed.

(** The example frame scrolls. *)
Lemma example_frame_of (y_ : Z) :
  frame_of example_hash 60 15 32 (scroll_context y_) 1 2 view_name (mkSize 0 0)
    example_body example_rest (Some 1%nat) false MOUSE_ACTION_SCROLL (mkPoint 0 3)
    (mkSize 0 100) (mkSize 9 10).
Proof.
  exists 0%nat.
  assert (Hprev : get_prev_node 60 15 32 (scroll_context y_)
                    (example_hash (id (nodes (scroll_context y_) 0%nat)) view_name)
                  = Some (Some 1%nat)) by (vm_compute; reflexivity).
  destruct (scrollarea_begin_spec example_hash 60 15 32 (scroll_context y_) 1 2 view_name
              (mkSize 0 0) 0 (Some 1%nat) eq_refl ltac:(lia) ltac:(lia) ltac:(lia) Hprev)
    as (c1 & Hb & Hp1 & Ha1 & Hm1 & Hn1 & (Hi1 & Hi2 & Hi3 & Hi4) & Hsp1 & Hid1 & Hct1
        & Hcs1 & Hcf1).
  split; [reflexivity|]. do 3 (split; [lia|]). split; [exact Hprev|]. split.
  - intros ctx1 Hb'. rewrite Hb in Hb'. inversion Hb'; subst ctx1. clear Hb'.
    unfold example_body, builds_content, same_scrollarea.
    cbn [set_nodes set_tree parent_ nodes node_map nodes_prev input_mouse_position
         input_consumed input_mouse_action input_scroll_delta].
    rewrite update_eq, update_ne by lia.
    repeat split; try assumption.
  - intros ctx1 ctx2 Hb' He. rewrite Hb in Hb'. inversion Hb'; subst ctx1. clear Hb'.
    unfold example_rest. cbv zeta. rewrite update_eq, update_ne by lia.
    assert (Hprev' : get_prev_node 60 15 32 (example_body c1)
                       (id (nodes (example_body c1) 1%nat)) = Some (Some 1%nat)).
    { unfold example_body at 2. cbn [set_nodes set_tree nodes].
      rewrite update_ne by lia. rewrite Hid1, <- Hprev.
      apply get_prev_node_ext; [exact Hm1|exact Hn1]. }
    destruct (scrollarea_end_spec 60 15 32 (example_body c1) 1 2 (Some 1%nat))
      as (c2 & He' & Hid2 & Hct2 & Hcf2 & Hoth & Hcs2).
    { exact Hp1. }
    { unfold example_body. cbn [set_nodes set_tree nodes]. rewrite update_eq. exact Hsp1. }
    { exact Hprev'. }
    rewrite He in He'. inversion He'; subst c2. clear He'.
    assert (Hin : intrinsic_size (nodes ctx2 2%nat) = mkSize 0 100).
    { rewrite Hoth by lia. unfold example_body. cbn [set_nodes set_tree nodes].
      rewrite update_eq. reflexivity. }
    unfold same_scrollarea, fits. cbn. repeat split; try lia. exact Hin.
Qed.

(** A scrollarea of 10 rows, scrolled to row 95 of a content of 100 rows,
    is laid out at row 90; scrolled to row 88, a turn of the wheel by three
    rows takes it to row 90 as well. *)
Lemma scrollarea_layout_clamps_witness :
  scrollarea_claim (scrollarea_frame cell_block 95)
    (ui_layout_children (fun a _ _ => a) (scrollarea_frame cell_block 95) 0 cell_block)
    0 1 /\
  content_scrollarea
    (ui_layout_children (fun a _ _ => a) (scrollarea_frame cell_block 95) 0 cell_block
       0%nat)
  = mkPoint 0 90 /\
  exists a,
    scrollarea_in_frame example_hash 60 15 (fun a _ _ => a) 32 (scroll_context 88) 1 2
      view_name (mkSize 0 0) example_body example_rest cell_block = Some a /\
    content_scrollarea (a 1%nat) = mkPoint 0 90 /\
    y (content_scrollarea (a 1%nat)) = Z.min (88 + Z.of_nat 1 * 3) (Z.max 100 10 - 10).
Proof.
  destruct (scrollarea_layout_clamps example_hash 60 15 (fun a _ _ => a) 32)
    as (Hlayout & _ & Hframe & Hrun).
  destruct (Hlayout (scrollarea_frame cell_block 95) 0%nat 1%nat cell_block)
    as [H1 H2]; try reflexivity; try discriminate; try (unfold fits; cbn; lia).
  split; [exact H1|]. split; [rewrite H2; vm_compute; reflexivity|].
  destruct (Hframe (scroll_context 88) 1%nat 2%nat view_name (mkSize 0 0) example_body
              example_rest cell_block (Some 1%nat) false MOUSE_ACTION_SCROLL (mkPoint 0 3)
              (mkSize 0 100) (mkSize 9 10) (example_frame_of 88))
    as (a & Ha & Hoff); try (unfold fits; cbn; lia).
  exists a. split; [exact Ha|]. split; [rewrite Hoff; vm_compute; reflexivity|].
  apply (Hrun (mkPoint 0 3) (mkSize 0 100) (mkSize 9 10) (mkPoint 0 88) 1%nat
           (content_scrollarea (a 1%nat)));
    try (unfold fits; cbn; lia).
  eapply scroll_run_S with (q := 1%nat);
    [apply scroll_run_O|apply (example_frame_of 88)|reflexivity|reflexivity|exact Ha].
Defined.

End ScrollFacts.

(** ** Lemmas shared by the sections that follow *)

Module Basics.

Lemma to_usize_small z : 0 <= z < 2 ^ 64 -> to_usize z = z.
Proof. intros H. unfold to_usize. apply Z.mod_small. exact H. Qed.

Lemma min_u64_min a b : min_u64 a b = Z.min a b.
Proof. unfold min_u64. destruct (a <? b) eqn:E; lia. Qed.

Lemma max_u64_max a b : max_u64 a b = Z.max a b.
Proof. unfold max_u64. destruct (a >? b) eqn:E; lia. Qed.

Lemma min_i32_min a b : min_i32 a b = Z.min a b.
Proof. unfold min_i32. destruct (a <? b) eqn:E; lia. Qed.

Lemma lookup_seqZ_eq (m n : Z) (i : nat) :
  seqZ m n !! i = if decide (Z.of_nat i < n) then Some (m + Z.of_nat i) else None.
Proof.
  destruct (decide _); [apply lookup_seqZ_lt|apply lookup_seqZ_ge]; lia.
Qed.

Lemma seqZ_take (n : nat) (m k : Z) :
  take n (seqZ m k) = seqZ m (Z.min (Z.of_nat n) k).
Proof.
  apply list_eq. intros i. rewrite lookup_take, !lookup_seqZ_eq.
  repeat destruct (decide _); try reflexivity; lia.
Qed.

Lemma seqZ_drop (n : nat) (m k : Z) :
  drop n (seqZ m k) = seqZ (m + Z.of_nat n) (k - Z.of_nat n).
Proof.
  apply list_eq. intros i. rewrite lookup_drop, !lookup_seqZ_eq.
  repeat destruct (decide _); try (f_equal; lia); lia.
Qed.

(** Closed goals about numbers are settled by evaluation. *)
Ltac by_eval :=
  repeat split; vm_compute; first [reflexivity | discriminate].

End Basics.

(** ** helpers.c *)

Module HelpersFacts.

Import Buffer Helpers Basics TuiFacts.

Lemma rect_contains_spec r p :
  rect_contains r p = true <->
  left r <= x p < right r /\ top r <= y p < bottom r.
Proof. unfold rect_contains. rewrite !andb_true_iff. lia. Qed.

Lemma rect_intersect_contains_eq (a b : Rect) (p : Point) :
  rect_contains (rect_intersect a b) p = rect_contains a p && rect_contains b p.
Proof.
  apply eq_true_iff_eq. rewrite andb_true_iff, !rect_contains_spec.
  unfold rect_intersect. cbn [left top right bottom].
  rewrite !max_i32_max, !min_i32_min. lia.
Qed.

(** X1. [rect_intersect] is the intersection of two rectangles: a point lies
    in the result exactly when it lies in both of them; the result never has a
    negative width or height; the order of the two arguments does not matter;
    and the result is empty ([rect_is_empty]) exactly when the two rectangles
    have no point in common. *)
Theorem rect_intersect_is_intersection (a b : Rect) :
  (forall p, rect_contains (rect_intersect a b) p = rect_contains a p && rect_contains b p) /\
  left (rect_intersect a b) <= right (rect_intersect a b) /\
  top (rect_intersect a b) <= bottom (rect_intersect a b) /\
  rect_intersect a b = rect_intersect b a /\
  (rect_is_empty (rect_intersect a b) = true <->
   forall p, rect_contains a p && rect_contains b p = false).
Proof.
  split; [intros p; apply rect_intersect_contains_eq|].
  split; [|split; [|split]].
  - unfold rect_intersect. cbn [left right]. rewrite !max_i32_max. lia.
  - unfold rect_intersect. cbn [top bottom]. rewrite !max_i32_max. lia.
  - unfold rect_intersect. rewrite !max_i32_max, !min_i32_min.
    f_equal; lia.
  - split.
    + intros He p. rewrite <- rect_intersect_contains_eq.
      apply not_true_iff_false. rewrite rect_contains_spec.
      unfold rect_is_empty in He. apply orb_true_iff in He. lia.
    + intros H.
      specialize (H (mkPoint (left (rect_intersect a b)) (top (rect_intersect a b)))).
      rewrite <- rect_intersect_contains_eq in H.
      apply not_true_iff_false in H. rewrite rect_contains_spec in H.
      cbn [x y] in H. unfold rect_is_empty. apply orb_true_iff. lia.
Qed.

(** X2. [s8_slice(str, beg, end)] cuts both indices off at the length of
    [str]: its bytes are the bytes of [str] from index [beg] up to, not
    including, index [end] (none when [beg] is not below [end]), and the slice
    never leaves the memory of [str]. *)
Theorem s8_slice_sublist (mem : Z -> Z) (str : s8) (beg_ end_ : Z) :
  0 <= beg_ -> 0 <= end_ -> 0 <= len str ->
  slice_bytes mem (s8_slice str beg_ end_)
  = drop (Z.to_nat beg_) (take (Z.to_nat end_) (slice_bytes mem str)) /\
  beg str <= beg (s8_slice str beg_ end_) /\
  beg (s8_slice str beg_ end_) + len (s8_slice str beg_ end_) <= beg str + len str.
Proof.
  intros Hb He Hl. unfold s8_slice, slice_bytes. cbn [beg len].
  rewrite !min_u64_min. split; [|lia].
  rewrite <- fmap_take, <- fmap_drop. f_equal.
  rewrite seqZ_take, seqZ_drop.
  destruct (decide (beg_ <= Z.min end_ (len str))).
  - f_equal; lia.
  - rewrite !seqZ_nil by lia. reflexivity.
Qed.

Lemma s8_slice_sublist_witness :
  slice_bytes (fun a => a) (s8_slice (mk_s8 10 5 5) 1 3) = [11; 12] /\
  slice_bytes (fun a => a) (s8_slice (mk_s8 10 5 5) 4 2) = [] /\
  slice_bytes (fun a => a) (s8_slice (mk_s8 10 5 5) 3 9) = [13; 14].
Proof.
  split; [|split].
  - apply (s8_slice_sublist (fun a => a) (mk_s8 10 5 5) 1 3); cbn; lia.
  - apply (s8_slice_sublist (fun a => a) (mk_s8 10 5 5) 4 2); cbn; lia.
  - apply (s8_slice_sublist (fun a => a) (mk_s8 10 5 5) 3 9); cbn; lia.
Defined.

Lemma s8_find_from_spec (rest : list Z) (off len_ ch : Z) :
  off + Z.of_nat (length rest) = len_ ->
  let r := s8_find_from rest off len_ ch in
  off <= r <= len_ /\
  (r < len_ -> rest !! Z.to_nat (r - off) = Some ch) /\
  (forall i, off <= i < r -> rest !! Z.to_nat (i - off) <> Some ch).
Proof.
  revert off. induction rest as [|c rest IH]; intros off Hlen; cbn [s8_find_from].
  - cbn [length] in Hlen. cbn zeta. split; [lia|]. split; [lia|]. intros i Hi. lia.
  - cbn [length] in Hlen. destruct (c =? ch) eqn:E.
    + apply Z.eqb_eq in E. subst c. cbn zeta. split; [lia|]. split.
      * intros _. replace (off - off) with 0 by lia. reflexivity.
      * intros i Hi. lia.
    + apply Z.eqb_neq in E. specialize (IH (off + 1) ltac:(lia)).
      cbn zeta in *. destruct IH as (H1 & H2 & H3). split; [lia|]. split.
      * intros Hr. specialize (H2 Hr).
        replace (Z.to_nat (s8_find_from rest (off + 1) len_ ch - off))
          with (S (Z.to_nat (s8_find_from rest (off + 1) len_ ch - (off + 1)))) by lia.
        exact H2.
      * intros i Hi. destruct (decide (i = off)) as [->|Hne].
        -- replace (off - off) with 0 by lia. change (Some c <> Some ch). congruence.
        -- replace (Z.to_nat (i - off)) with (S (Z.to_nat (i - (off + 1)))) by lia.
           apply H3. lia.
Qed.

(** X3. [s8_find(str, off, ch)] returns the index of the first byte [ch] at or
    behind [off]: the byte at the result is [ch], no byte between [off] and
    the result is; it returns [str.len] when there is no such byte or when
    [off] is not below the length. *)
Theorem s8_find_first (str : list Z) (off ch : Z) :
  0 <= off ->
  let r := s8_find str off ch in
  let n := Z.of_nat (length str) in
  Z.min off n <= r <= n /\
  (n <= off -> r = n) /\
  (r < n -> str !! Z.to_nat r = Some ch) /\
  (forall i, off <= i < r -> str !! Z.to_nat i <> Some ch).
Proof.
  intros Hoff r n. unfold r, s8_find. fold n.
  destruct (decide (n <= off)) as [Hge|Hlt].
  - rewrite drop_ge by lia. cbn [s8_find_from]. repeat split; try lia.
  - pose proof (s8_find_from_spec (drop (Z.to_nat off) str) off n ch) as H.
    cbn zeta in H. rewrite length_drop in H. specialize (H ltac:(lia)).
    destruct H as (H1 & H2 & H3). split; [lia|]. split; [lia|]. split.
    + intros Hr. specialize (H2 Hr). rewrite lookup_drop in H2.
      replace (Z.to_nat off + Z.to_nat (s8_find_from (drop (Z.to_nat off) str) off n ch - off))%nat
        with (Z.to_nat (s8_find_from (drop (Z.to_nat off) str) off n ch)) in H2 by lia.
      exact H2.
    + intros i Hi. specialize (H3 i Hi). rewrite lookup_drop in H3.
      replace (Z.to_nat off + Z.to_nat (i - off))%nat with (Z.to_nat i) in H3 by lia.
      exact H3.
Qed.

Lemma s8_find_first_witness :
  let str := [0x61; 0x3d; 0x62; 0x3d] in
  str !! Z.to_nat (s8_find str 2 0x3d) = Some 0x3d /\
  (forall i, 2 <= i < s8_find str 2 0x3d -> str !! Z.to_nat i <> Some 0x3d) /\
  s8_find str 7 0x3d = 4.
Proof.
  intros str.
  destruct (s8_find_first str 2 0x3d) as (_ & _ & H1 & H2); [lia|].
  destruct (s8_find_first str 7 0x3d) as (_ & H3 & _); [lia|].
  split; [apply H1; vm_compute; reflexivity|]. split; [exact H2|].
  apply H3. vm_compute. discriminate.
Defined.

Lemma digit_value_range c d : digit_value c = Some d -> 0 <= d < 16.
Proof.
  unfold digit_value.
  destruct ((0x30 <=? c) && (c <=? 0x39)) eqn:E1; [intros [= <-]; lia|].
  destruct ((0x41 <=? c) && (c <=? 0x46)) eqn:E2; [intros [= <-]; lia|].
  destruct ((0x61 <=? c) && (c <=? 0x66)) eqn:E3; [intros [= <-]; lia|].
  discriminate.
Qed.

Lemma foldl_positional_ge (base : Z) (ds : list Z) (a : Z) :
  1 <= base -> 0 <= a -> Forall (fun d => 0 <= d) ds ->
  a <= foldl (fun a d => a * base + d) a ds.
Proof.
  intros Hb. revert a. induction ds as [|d ds IH]; intros a Ha Hds; cbn [foldl]; [lia|].
  apply Forall_cons in Hds. destruct Hds as [Hd Hds].
  specialize (IH (a * base + d) ltac:(nia) Hds). nia.
Qed.

Lemma s8_to_u64_loop_value (base : Z) (l ds : list Z) (acc : Z) :
  1 <= base -> 0 <= acc ->
  Forall2 (fun c d => digit_value c = Some d) l ds ->
  foldl (fun a d => a * base + d) acc ds < 2 ^ 64 ->
  s8_to_u64_loop l acc base = foldl (fun a d => a * base + d) acc ds.
Proof.
  intros Hb Ha H. revert acc Ha. induction H as [|c d l ds Hc H IH]; intros acc Ha Hlt.
  - reflexivity.
  - cbn [s8_to_u64_loop foldl] in *. rewrite Hc.
    pose proof (digit_value_range c d Hc) as Hd.
    assert (Hds : Forall (fun d => 0 <= d) ds).
    { clear -H. induction H as [|c' d' l' ds' Hc' _ IH']; constructor; [|exact IH'].
      apply digit_value_range in Hc'. lia. }
    pose proof (foldl_positional_ge base ds (acc * base + d) Hb ltac:(nia) Hds) as Hge.
    unfold to_usize. rewrite (Z.mod_small (acc * base)) by nia.
    rewrite Z.mod_small by nia.
    destruct (acc * base + d <? acc) eqn:E; [apply Z.ltb_lt in E; nia|].
    apply IH; [nia|exact Hlt].
Qed.

Lemma s8_to_u64_positional (str ds : list Z) (base : Z) :
  0 < base < 2 ^ 31 ->
  Forall2 (fun c d => digit_value c = Some d) str ds ->
  positional base ds < 2 ^ 64 ->
  s8_to_u64 str base = positional base ds.
Proof.
  intros Hb H Hlt. unfold s8_to_u64.
  destruct (base <=? 0) eqn:E; [apply Z.leb_le in E; lia|].
  unfold to_usize. rewrite Z.mod_small by lia.
  destruct str as [|c str].
  - inversion H. reflexivity.
  - apply s8_to_u64_loop_value; [lia|lia|exact H|exact Hlt].
Qed.

Lemma s8_to_u64_loop_from_zero (base : Z) (l ds : list Z) :
  1 <= base ->
  Forall2 (fun c d => digit_value c = Some d) l ds ->
  positional base ds < 2 ^ 64 ->
  match l with [] => 0 | _ :: _ => s8_to_u64_loop l 0 base end = positional base ds.
Proof.
  intros Hb H Hlt. destruct l as [|c l].
  - inversion H. reflexivity.
  - apply s8_to_u64_loop_value; [lia|lia|exact H|exact Hlt].
Qed.

(** X4. [s8_to_u64] on a string of the digits [0-9], [A-F], [a-f]: with a base
    from 1 to 2^31 - 1 the result is the value of the digits in that base,
    when that is below 2^64. With a base of 0 or less the base is read off the
    string: after [0x] or [0X] the digits count in base 16, after [0] in base
    8, and a string that does not start with [0] counts in base 10. A digit is
    not compared with the base: [9] counts as nine in base 8 as well. *)
Theorem s8_to_u64_value (str ds : list Z) (base : Z) :
  Forall2 (fun c d => digit_value c = Some d) str ds ->
  (0 < base < 2 ^ 31 -> positional base ds < 2 ^ 64 ->
   s8_to_u64 str base = positional base ds) /\
  (base <= 0 -> positional 16 ds < 2 ^ 64 ->
   s8_to_u64 (0x30 :: 0x78 :: str) base = positional 16 ds /\
   s8_to_u64 (0x30 :: 0x58 :: str) base = positional 16 ds) /\
  (base <= 0 -> positional 8 ds < 2 ^ 64 ->
   s8_to_u64 (0x30 :: str) base = positional 8 ds) /\
  (base <= 0 -> head str <> Some 0x30 -> positional 10 ds < 2 ^ 64 ->
   s8_to_u64 str base = positional 10 ds).
Proof.
  intros H. split; [|split; [|split]].
  - intros Hb Hlt. apply s8_to_u64_positional; assumption.
  - intros Hb Hlt. unfold s8_to_u64.
    destruct (Z.leb_spec base 0); [|lia]. cbn.
    split; apply s8_to_u64_loop_from_zero; (lia || assumption).
  - intros Hb Hlt. unfold s8_to_u64.
    destruct (Z.leb_spec base 0); [|lia]. cbn [Z.eqb Pos.eqb].
    change (48 =? 48) with true. cbv iota.
    destruct H as [|c d l ds' Hc H]; [reflexivity|].
    assert (Hx : (c =? 0x78) || (c =? 0x58) = false).
    { apply orb_false_iff. split; apply Z.eqb_neq; intros ->; discriminate Hc. }
    rewrite Hx. apply (s8_to_u64_loop_from_zero 8 (c :: l) (d :: ds')); [lia| |exact Hlt].
    constructor; assumption.
  - intros Hb Hh Hlt. unfold s8_to_u64.
    destruct (Z.leb_spec base 0); [|lia].
    destruct H as [|c d l ds' Hc H]; [reflexivity|].
    destruct (Z.eqb_spec c 0x30) as [->|_]; [cbn in Hh; congruence|].
    apply (s8_to_u64_loop_from_zero 10 (c :: l) (d :: ds')); [lia| |exact Hlt].
    constructor; assumption.
Qed.

Lemma s8_to_u64_value_witness :
  s8_to_u64 [0x34; 0x30; 0x39; 0x36] 10 = 4096 /\
  s8_to_u64 [0x30; 0x78; 0x66; 0x46] 0 = 255 /\
  s8_to_u64 [0x30; 0x31; 0x39] 0 = 17.
Proof.
  assert (H1 : Forall2 (fun c d => digit_value c = Some d) [0x34; 0x30; 0x39; 0x36] [4; 0; 9; 6])
    by (repeat constructor).
  assert (H2 : Forall2 (fun c d => digit_value c = Some d) [0x66; 0x46] [15; 15])
    by (repeat constructor).
  assert (H3 : Forall2 (fun c d => digit_value c = Some d) [0x31; 0x39] [1; 9])
    by (repeat constructor).
  destruct (s8_to_u64_value _ _ 10 H1) as (A & _).
  destruct (s8_to_u64_value _ _ 0 H2) as (_ & B & _).
  destruct (s8_to_u64_value _ _ 0 H3) as (_ & _ & C & _).
  split; [|split].
  - apply A; [lia|vm_compute; reflexivity].
  - apply B; [lia|vm_compute; reflexivity].
  - apply C; [lia|vm_compute; reflexivity].
Defined.

Lemma s8_to_u64_loop_invalid (base : Z) (l : list Z) (acc : Z) :
  Exists (fun c => digit_value c = None) l -> s8_to_u64_loop l acc base = 0.
Proof.
  intros H. revert acc. induction H as [c l Hc|c l H IH]; intros acc; cbn [s8_to_u64_loop].
  - rewrite Hc. reflexivity.
  - destruct (digit_value c); [|reflexivity].
    destruct (_ <? _); [reflexivity|apply IH].
Qed.

(** X5. [s8_to_u64] returns 0 for the empty string and, with a positive base,
    for every string that holds a byte that is not one of [0-9], [A-F], [a-f]. *)
Theorem s8_to_u64_rejects (str : list Z) (base : Z) :
  s8_to_u64 [] base = 0 /\
  (0 < base -> Exists (fun c => digit_value c = None) str -> s8_to_u64 str base = 0).
Proof.
  split.
  - unfold s8_to_u64. destruct (base <=? 0); reflexivity.
  - intros Hb H. unfold s8_to_u64.
    destruct (base <=? 0) eqn:E; [apply Z.leb_le in E; lia|].
    destruct str as [|c str]; [reflexivity|].
    apply s8_to_u64_loop_invalid. exact H.
Qed.

Lemma s8_to_u64_rejects_witness : s8_to_u64 [0x31; 0x32; 0x67] 16 = 0.
Proof.
  apply (s8_to_u64_rejects [0x31; 0x32; 0x67] 16); [lia|].
  apply Exists_cons_tl, Exists_cons_tl, Exists_cons_hd. reflexivity.
Defined.

Lemma lor_1 (v : Z) : 0 <= v -> Z.lor v 1 = 2 * (v / 2) + 1.
Proof.
  intros Hv. apply Z.bits_inj'. intros n Hn. rewrite Z.lor_spec.
  destruct (decide (n = 0)) as [->|Hne].
  - rewrite Z.testbit_odd_0. change (Z.testbit 1 0) with true. apply orb_true_r.
  - replace n with (Z.succ (n - 1)) by lia.
    rewrite Z.testbit_odd_succ by lia.
    rewrite Z.div2_bits by lia.
    replace (Z.testbit 1 (Z.succ (n - 1))) with false; [apply orb_false_r|].
    symmetry. apply Z.bits_above_log2; cbn; lia.
Qed.

(** The table behind [u64_log10]: for every position [k] of the highest set
    bit and both ways to count it, the guess [t] is the number of decimal
    digits of [2 ^ k] or one less than that of [2 ^ (k + 1) - 1]. *)
Lemma log10_table :
  forallb (fun k : nat =>
    forallb (fun d : Z =>
      let t := Z.shiftr ((Z.of_nat k + d + 1) * 1233) 12 in
      (0 <=? t) && (t <=? 19) &&
      (powers_of_10 !!! Z.to_nat t =? (if t =? 0 then 0 else 10 ^ t)) &&
      ((t <? 1) || (10 ^ (t - 1) <=? 2 ^ Z.of_nat k)) &&
      (2 ^ (Z.of_nat k + 1) <=? 10 ^ (t + 1))) [0; 1]) (seq 0 64) = true.
Proof. vm_compute. reflexivity. Qed.

Lemma log10_bounds (k : nat) (d : Z) :
  (k < 64)%nat -> d = 0 \/ d = 1 ->
  let t := Z.shiftr ((Z.of_nat k + d + 1) * 1233) 12 in
  0 <= t <= 19 /\
  powers_of_10 !!! Z.to_nat t = (if t =? 0 then 0 else 10 ^ t) /\
  (1 <= t -> 10 ^ (t - 1) <= 2 ^ Z.of_nat k) /\
  2 ^ (Z.of_nat k + 1) <= 10 ^ (t + 1).
Proof.
  intros Hk Hd t.
  pose proof log10_table as H. rewrite forallb_forall in H.
  specialize (H k). rewrite in_seq in H. specialize (H ltac:(lia)).
  rewrite forallb_forall in H. specialize (H d).
  assert (Hin : In d [0; 1]) by (cbn; lia). specialize (H Hin).
  cbv zeta in H. fold t in H.
  rewrite !andb_true_iff, orb_true_iff in H.
  destruct H as ((((H1 & H2) & H3) & H4) & H5).
  apply Z.leb_le in H1, H2, H5. apply Z.eqb_eq in H3.
  split; [lia|]. split; [exact H3|]. split; [|exact H5].
  intros Ht. destruct H4 as [H4|H4]; [apply Z.ltb_lt in H4; lia|apply Z.leb_le in H4; exact H4].
Qed.

Lemma u64_log10_spec (msc_ver : bool) (v : Z) :
  0 <= v < 2 ^ 64 ->
  let r := u64_log10 msc_ver v in
  0 <= r <= 19 /\ (v = 0 -> r = 0) /\ (1 <= v -> 10 ^ r <= v < 10 ^ (r + 1)).
Proof.
  intros Hv r. subst r.
  pose proof (Z.div_mod v 2 ltac:(lia)) as Hdm.
  pose proof (Z.mod_pos_bound v 2 ltac:(lia)) as Hm.
  assert (Hw : Z.lor v 1 = 2 * (v / 2) + 1) by (apply lor_1; lia).
  assert (Hw1 : 1 <= Z.lor v 1 < 2 ^ 64).
  { rewrite Hw. change (2 ^ 64) with 18446744073709551616 in *. lia. }
  pose proof (Z.log2_spec (Z.lor v 1) ltac:(lia)) as Hlog.
  pose proof (Z.log2_nonneg (Z.lor v 1)) as Hk0.
  assert (Hk : Z.log2 (Z.lor v 1) < 64).
  { apply Z.log2_lt_pow2; lia. }
  set (k := Z.log2 (Z.lor v 1)) in *.
  set (d := if msc_ver then 0 else 1).
  assert (Hd : d = 0 \/ d = 1) by (unfold d; destruct msc_ver; auto).
  pose proof (log10_bounds (Z.to_nat k) d ltac:(lia) Hd) as Hb.
  rewrite Z2Nat.id in Hb by lia. cbv zeta in Hb.
  unfold u64_log10. fold k.
  replace ((if msc_ver then k else 64 - (63 - k)) + 1) with (k + d + 1)
    by (unfold d; destruct msc_ver; lia).
  set (t := Z.shiftr ((k + d + 1) * 1233) 12) in *.
  destruct Hb as (Ht & Hp & Hlo & Hhi). rewrite Hp.
  rewrite Z.pow_succ_r in Hlog by lia. rewrite (Z.pow_add_r 2 k 1) in Hhi by lia. change (2 ^ 1) with 2 in Hhi.
  assert (Hpk : 0 < 2 ^ k) by (apply Z.pow_pos_nonneg; lia).
  split.
  { destruct (t =? 0) eqn:Et.
    - apply Z.eqb_eq in Et. rewrite Et.
      destruct (v <? 0) eqn:E; [apply Z.ltb_lt in E; lia|lia].
    - apply Z.eqb_neq in Et. destruct (v <? 10 ^ t); lia. }
  split.
  - intros ->. change (0 / 2) with 0 in *. 
    assert (k = 0).
    { unfold k. change (Z.lor 0 1) with 1. reflexivity. }
    subst t. rewrite H. destruct Hd as [-> | ->]; reflexivity.
  - intros H1.
    assert (Hvk : 2 ^ k <= v < 2 * 2 ^ k).
    { rewrite Hw in Hlog. destruct (decide (k = 0)) as [E|E].
      - rewrite E in *. change (2 ^ 0) with 1 in *. lia.
      - replace k with (Z.succ (k - 1)) in Hlog |- * by lia.
        rewrite Z.pow_succ_r in Hlog |- * by lia. lia. }
    destruct (t =? 0) eqn:Et.
    + apply Z.eqb_eq in Et. rewrite Et in *.
      destruct (v <? 0) eqn:E; [apply Z.ltb_lt in E; lia|].
      change (0 - 0) with 0. change (10 ^ 0) with 1. change (0 + 1) with 1 in *.
      change (10 ^ (0 + 1)) with 10. change (10 ^ 1) with 10 in Hhi. lia.
    + apply Z.eqb_neq in Et. specialize (Hlo ltac:(lia)).
      destruct (v <? 10 ^ t) eqn:E.
      * apply Z.ltb_lt in E. replace (t - 1 + 1) with t by lia. lia.
      * apply Z.ltb_ge in E. replace (t - 0) with t by lia. lia.
Qed.

(** X6. [u64_log10(v)] is the decimal logarithm of a 64-bit [v], rounded down:
    it is 0 for [v = 0] and otherwise the [r] with 10^r <= v < 10^(r+1), so [r
    + 1] is the number of decimal digits. The two bit-scan intrinsics give the
    same result. *)
Theorem u64_log10_digits (msc_ver : bool) (v : Z) :
  0 <= v < 2 ^ 64 ->
  let r := u64_log10 msc_ver v in
  0 <= r <= 19 /\ (v = 0 -> r = 0) /\ (1 <= v -> 10 ^ r <= v < 10 ^ (r + 1)) /\
  u64_log10 true v = u64_log10 false v.
Proof.
  intros Hv r.
  destruct (u64_log10_spec msc_ver v Hv) as (H1 & H2 & H3). fold r in H1, H2, H3.
  split; [exact H1|]. split; [exact H2|]. split; [exact H3|].
  destruct (u64_log10_spec true v Hv) as (A1 & A2 & A3).
  destruct (u64_log10_spec false v Hv) as (B1 & B2 & B3).
  set (a := u64_log10 true v) in *. set (b := u64_log10 false v) in *.
  destruct (decide (v = 0)) as [E|E]; [rewrite A2, B2 by exact E; reflexivity|].
  specialize (A3 ltac:(lia)). specialize (B3 ltac:(lia)).
  destruct (Z.lt_trichotomy a b) as [Hlt|[Heq|Hgt]]; [|exact Heq|].
  - pose proof (Z.pow_le_mono_r 10 (a + 1) b ltac:(lia) ltac:(lia)). lia.
  - pose proof (Z.pow_le_mono_r 10 (b + 1) a ltac:(lia) ltac:(lia)). lia.
Qed.

Lemma u64_log10_digits_witness :
  10 ^ u64_log10 true 4096 <= 4096 < 10 ^ (u64_log10 true 4096 + 1).
Proof.
  apply (u64_log10_digits true 4096); lia.
Defined.

End HelpersFacts.

(** ** arena.c *)

Module ArenaFacts.

Import Buffer Helpers ArenaC ArenaStr ArenaDec Basics HelpersFacts.

(** Rounding down to a multiple of a power of two with a mask. *)
Lemma land_lnot_pow2 (x : Z) (k : Z) :
  0 <= k -> Z.land x (Z.lnot (2 ^ k - 1)) = x / 2 ^ k * 2 ^ k.
Proof.
  intros Hk. rewrite <- Z.ldiff_land.
  replace (2 ^ k - 1) with (Z.ones k) by (rewrite Z.ones_equiv; lia).
  rewrite Z.ldiff_ones_r by lia.
  rewrite Z.shiftl_mul_pow2, Z.shiftr_div_pow2 by lia. reflexivity.
Qed.

(** Rounding up: the result is the least multiple of [2 ^ k] that is not
    below [x]. *)
Lemma round_up_pow2 (x k : Z) :
  0 <= k -> 0 <= x ->
  let r := Z.land (x + 2 ^ k - 1) (Z.lnot (2 ^ k - 1)) in
  r mod 2 ^ k = 0 /\ x <= r < x + 2 ^ k.
Proof.
  intros Hk Hx r. subst r. rewrite land_lnot_pow2 by lia.
  assert (Hp : 0 < 2 ^ k) by (apply Z.pow_pos_nonneg; lia).
  split; [apply Z.mod_mul; lia|].
  pose proof (Z.div_mod (x + 2 ^ k - 1) (2 ^ k) ltac:(lia)) as Hdm.
  pose proof (Z.mod_pos_bound (x + 2 ^ k - 1) (2 ^ k) Hp) as Hm.
  nia.
Qed.

(** X7. [arena_malloc_raw] with a power of two as alignment returns the first
    aligned offset at or behind the used part of the arena, moves the end of
    the used part [max(bytes, 1)] bytes behind it, only ever grows the
    committed part, and keeps the arena well formed (used within committed
    within reserved). It aborts only when the block does not fit in the
    reserved capacity. *)
Theorem arena_malloc_raw_block (a : Arena) (bytes alignment k : Z) :
  arena_ok a -> 0 <= bytes < 2 ^ 62 ->
  0 <= k < 32 -> alignment = 2 ^ k ->
  match arena_malloc_raw a bytes alignment with
  | Done (p, a') =>
    p mod alignment = 0 /\ offset a <= p < offset a + alignment /\
    offset a' = p + Z.max bytes 1 /\
    commit a <= commit a' /\ capacity a' = capacity a /\ arena_ok a'
  | Abort =>
    exists p, p mod alignment = 0 /\ offset a <= p < offset a + alignment /\
              capacity a < p + Z.max bytes 1
  | OutOfFuel => False
  end.
Proof.
  intros (Ho & Hc & Hcap) Hb Hk ->. unfold arena_malloc_raw, ALLOC_CHUNK_SIZE in *.
  rewrite !max_u64_max.
  assert (Hp : 1 <= 2 ^ k < 2 ^ 32).
  { split; [pose proof (Z.pow_pos_nonneg 2 k); lia|apply Z.pow_lt_mono_r; lia]. }
  replace (Z.max (2 ^ k) 1) with (2 ^ k) by lia.
  change (2 ^ 62) with 4611686018427387904 in *.
  change (2 ^ 32) with 4294967296 in *.
  unfold to_usize. change (2 ^ 64) with 18446744073709551616.
  rewrite (Z.mod_small (offset a + 2 ^ k - 1)) by lia.
  pose proof (round_up_pow2 (offset a) k ltac:(lia) ltac:(lia)) as Hr.
  cbv zeta in Hr. set (p := Z.land (offset a + 2 ^ k - 1) (Z.lnot (2 ^ k - 1))) in *.
  rewrite (Z.mod_small (p + Z.max bytes 1)) by lia.
  set (e := p + Z.max bytes 1).
  destruct (e >? commit a) eqn:E1.
  - rewrite (Z.mod_small (e + 64 * 1024 - 1)) by lia.
    pose proof (round_up_pow2 e 16 ltac:(lia) ltac:(lia)) as Hr2.
    cbv zeta in Hr2. change (2 ^ 16) with (64 * 1024) in Hr2.
    set (c := Z.land (e + 64 * 1024 - 1) (Z.lnot (64 * 1024 - 1))) in *.
    destruct (c >? capacity a) eqn:E2.
    + (* capacity is a whole number of chunks, so is [c]: c > capacity means e > capacity *)
      rewrite Z.gtb_ltb in E2. apply Z.ltb_lt in E2.
      destruct Hr2 as (Hm & Hlo & Hhi).
      apply Z.mod_divide in Hm; [|lia]. destruct Hm as [m Hm].
      apply Z.mod_divide in Hcap; [|lia]. destruct Hcap as [n Hn].
      exists p. unfold e in *. lia.
    + rewrite Z.gtb_ltb in E1, E2. apply Z.ltb_lt in E1. apply Z.ltb_ge in E2.
      cbn [offset commit capacity]. unfold arena_ok. cbn [offset commit capacity].
      unfold e, ALLOC_CHUNK_SIZE in *. change (2 ^ 62) with 4611686018427387904. lia.
  - rewrite Z.gtb_ltb in E1. apply Z.ltb_ge in E1.
    cbn [offset commit capacity]. unfold arena_ok. cbn [offset commit capacity].
    unfold e, ALLOC_CHUNK_SIZE in *. change (2 ^ 62) with 4611686018427387904. lia.
Qed.

Lemma arena_malloc_raw_block_witness :
  match arena_malloc_raw (mkArena 131072 65536 65530) 24 16 with
  | Done (p, a') =>
    p mod 16 = 0 /\ 65530 <= p < 65530 + 16 /\ offset a' = p + 24 /\
    65536 <= commit a' /\ capacity a' = 131072 /\ arena_ok a'
  | Abort => exists p, p mod 16 = 0 /\ 65530 <= p < 65530 + 16 /\ 131072 < p + 24
  | OutOfFuel => False
  end.
Proof.
  apply (arena_malloc_raw_block (mkArena 131072 65536 65530) 24 16 4).
  - unfold arena_ok. cbn. repeat split; lia.
  - lia.
  - lia.
  - reflexivity.
Defined.

Lemma length_copies {A} (rep : list A) (j : nat) :
  length (concat (replicate j rep)) = (j * length rep)%nat.
Proof.
  induction j as [|j IHj]; [reflexivity|].
  cbn [replicate concat]. rewrite length_app, IHj. lia.
Qed.

Lemma take_copies {A} (rep : list A) (m k : nat) :
  (m <= k)%nat ->
  take (m * length rep) (concat (replicate k rep)) = concat (replicate m rep).
Proof.
  intros H. replace k with (m + (k - m))%nat by lia.
  rewrite replicate_add, concat_app.
  apply take_app_length'. symmetry. apply length_copies.
Qed.

Lemma concat_replicate_add {A} (rep : list A) (k m : nat) :
  concat (replicate k rep) ++ concat (replicate m rep) = concat (replicate (k + m) rep).
Proof. rewrite replicate_add, concat_app. reflexivity. Qed.

(** The rounds after the first: [k] copies are written, [m] copies are
    copied next. *)
Lemma repeat_string_loop_copies (rep : list Z) (c : nat) :
  Z.of_nat (length rep) * Z.of_nat c < 2 ^ 64 -> (0 < length rep)%nat ->
  forall (fuel k m : nat),
  (1 <= m <= k)%nat -> (k + m <= c)%nat -> (c - k <= fuel)%nat ->
  repeat_string_loop fuel (concat (replicate k rep)) (concat (replicate k rep))
    (Z.of_nat ((c - k) * length rep)) (Z.of_nat (m * length rep))
    (Z.of_nat (m * length rep))
  = Some (concat (replicate c rep)).
Proof.
  intros Hlt Hn. induction fuel as [|fuel IH]; intros k m Hm Hkm Hf; [lia|].
  cbn [repeat_string_loop].
  rewrite length_copies.
  destruct (Z.of_nat (m * length rep) >? Z.of_nat (k * length rep)) eqn:E.
  { rewrite Z.gtb_ltb in E. apply Z.ltb_lt in E. nia. }
  rewrite Nat2Z.id, take_copies by lia. rewrite concat_replicate_add.
  assert (Hrem : to_usize (Z.of_nat ((c - k) * length rep) - Z.of_nat (m * length rep))
                 = Z.of_nat ((c - (k + m)) * length rep)).
  { rewrite to_usize_small; nia. }
  rewrite Hrem.
  destruct (Z.of_nat ((c - (k + m)) * length rep) =? 0) eqn:E0.
  - apply Z.eqb_eq in E0. f_equal. f_equal. f_equal. nia.
  - apply Z.eqb_neq in E0.
    rewrite min_u64_min.
    set (m' := Nat.min (m + m) (c - (k + m))).
    assert (Hm' : Z.min (to_usize (Z.of_nat (m * length rep) + Z.of_nat (m * length rep)))
                    (Z.of_nat ((c - (k + m)) * length rep))
                  = Z.of_nat (m' * length rep)).
    { rewrite to_usize_small by nia. unfold m'.
      destruct (Nat.min_spec (m + m) (c - (k + m))) as [[Hlt' ->]|[Hge' ->]]; nia. }
    rewrite Hm'. apply IH; unfold m'; nia.
Qed.

(** X8. [s8_append_repeat_string(dst, rep, count)] appends [count] copies of
    [rep] to [dst], whatever the length of [rep] and however the doubling loop
    cuts the last round; a count of 0 leaves [dst] as it is. *)
Theorem s8_append_repeat_string_copies (fuel : nat) (dst rep : list Z) (count : Z) :
  0 <= count -> Z.of_nat (length rep) * count < 2 ^ 64 ->
  (Z.to_nat count <= fuel)%nat ->
  s8_append_repeat_string fuel dst rep count
  = Some (dst ++ concat (replicate (Z.to_nat count) rep)).
Proof.
  intros Hc Hlt Hf. unfold s8_append_repeat_string.
  destruct (count =? 0) eqn:E0.
  { apply Z.eqb_eq in E0. subst count. cbn. rewrite app_nil_r. reflexivity. }
  apply Z.eqb_neq in E0.
  set (c := Z.to_nat count). assert (Hcc : count = Z.of_nat c) by (unfold c; lia).
  rewrite Hcc in Hlt |- *.
  destruct fuel as [|fuel]; [lia|].
  cbn [repeat_string_loop].
  destruct (Z.of_nat (length rep) >? Z.of_nat (length rep)) eqn:E.
  { rewrite Z.gtb_ltb in E. apply Z.ltb_lt in E. lia. }
  rewrite Nat2Z.id, firstn_all. cbn [app].
  rewrite (to_usize_small (Z.of_nat (length rep) * Z.of_nat c)) by nia.
  destruct (decide (length rep = 0%nat)) as [Hz|Hnz].
  - rewrite Hz. cbn [Z.of_nat]. rewrite Z.mul_0_l, Z.sub_0_r.
    change (to_usize 0 =? 0) with true. cbv iota.
    apply length_zero_iff_nil in Hz. subst rep. f_equal. f_equal.
    clear. induction c as [|c IH]; [reflexivity|]. cbn. exact IH.
  - assert (Hrem : to_usize (Z.of_nat (length rep) * Z.of_nat c - Z.of_nat (length rep))
                   = Z.of_nat ((c - 1) * length rep)).
    { rewrite to_usize_small; nia. }
    rewrite Hrem.
    destruct (Z.of_nat ((c - 1) * length rep) =? 0) eqn:E1.
    + apply Z.eqb_eq in E1. assert (H : c = 1%nat) by nia. rewrite H.
      cbn. rewrite app_nil_r. reflexivity.
    + apply Z.eqb_neq in E1. assert (Hc2 : (2 <= c)%nat) by nia.
      rewrite min_u64_min.
      assert (Hm : Z.min (to_usize (0 + Z.of_nat (length rep))) (Z.of_nat ((c - 1) * length rep))
                   = Z.of_nat (1 * length rep)).
      { rewrite to_usize_small by nia. nia. }
      rewrite Hm.
      pose proof (repeat_string_loop_copies rep c Hlt ltac:(lia) fuel 1 1
                    ltac:(lia) ltac:(lia) ltac:(unfold c in *; lia)) as H.
      cbn [replicate concat] in H. rewrite app_nil_r in H.
      rewrite H. reflexivity.
Qed.

Lemma s8_append_repeat_string_copies_witness :
  s8_append_repeat_string 5 [0x3e] [0x61; 0x62] 5
  = Some ([0x3e] ++ concat (replicate (Z.to_nat 5) [0x61; 0x62])).
Proof.
  apply (s8_append_repeat_string_copies 5 [0x3e] [0x61; 0x62] 5); [lia|vm_compute; reflexivity|cbn; lia].
Defined.

Lemma decimal_lut_pairs :
  forallb (fun i : nat =>
    (decimal_lut !!! (2 * i)%nat =? 0x30 + Z.of_nat i / 10) &&
    (decimal_lut !!! S (2 * i) =? 0x30 + Z.of_nat i mod 10)) (seq 0 100) = true.
Proof. vm_compute. reflexivity. Qed.

Lemma decimal_lut_pair (w : Z) :
  0 <= w < 100 ->
  decimal_lut !!! Z.to_nat (w * 2) = 0x30 + w / 10 /\
  decimal_lut !!! S (Z.to_nat (w * 2)) = 0x30 + w mod 10.
Proof.
  intros Hw. pose proof decimal_lut_pairs as H. rewrite forallb_forall in H.
  specialize (H (Z.to_nat w)). rewrite in_seq in H. specialize (H ltac:(lia)).
  apply andb_true_iff in H. destruct H as [H1 H2].
  apply Z.eqb_eq in H1, H2. rewrite Z2Nat.id in H1, H2 by lia.
  replace (Z.to_nat (w * 2)) with (2 * Z.to_nat w)%nat by lia. auto.
Qed.

Lemma length_decimal_digits n v : length (decimal_digits n v) = n.
Proof.
  revert v. induction n as [|n IH]; intros v; [reflexivity|].
  cbn [decimal_digits]. rewrite length_app, IH. cbn. lia.
Qed.

Lemma decimal_digits_app (a b : nat) (v : Z) :
  decimal_digits (a + b) v = decimal_digits a (v / 10 ^ Z.of_nat b) ++ decimal_digits b v.
Proof.
  revert v. induction b as [|b IH]; intros v.
  - rewrite Nat.add_0_r. cbn [decimal_digits Z.of_nat]. rewrite Z.pow_0_r, Z.div_1_r, app_nil_r.
    reflexivity.
  - replace (a + S b)%nat with (S (a + b)) by lia. cbn [decimal_digits].
    rewrite IH, app_assoc. f_equal. f_equal.
    rewrite Nat2Z.inj_succ, Z.pow_succ_r by lia.
    rewrite Z.div_div by lia. reflexivity.
Qed.

Lemma decimal_digits_2 (v : Z) :
  decimal_digits 2 v = [0x30 + v mod 100 / 10; 0x30 + v mod 100 mod 10].
Proof.
  cbn [decimal_digits app].
  pose proof (Z.rem_mul_r v 10 10 ltac:(lia) ltac:(lia)) as H.
  change (10 * 10) with 100 in H. rewrite H.
  pose proof (Z.mod_pos_bound v 10 ltac:(lia)) as Ha.
  pose proof (Z.mod_pos_bound (v / 10) 10 ltac:(lia)) as Hm.
  set (a := v mod 10) in *. set (m := v / 10 mod 10) in *.
  assert (H1 : (a + 10 * m) / 10 = m) by (Z.to_euclidean_division_equations; lia).
  assert (H2 : (a + 10 * m) mod 10 = a) by (Z.to_euclidean_division_equations; lia).
  rewrite H1, H2. reflexivity.
Qed.

Lemma pair_stored (buf : list Z) (p : nat) (a b : Z) :
  (2 <= p <= length buf)%nat ->
  <[(p - 2)%nat := a]> (<[(p - 1)%nat := b]> buf)
  = take (p - 2) buf ++ [a; b] ++ drop p buf.
Proof.
  intros Hp. apply list_eq. intros i.
  destruct (decide (i = (p - 2)%nat)) as [->|H1].
  - rewrite list_lookup_insert_eq by (rewrite length_insert; lia).
    rewrite lookup_app_r by (rewrite length_take; lia).
    rewrite length_take. replace (p - 2 - (p - 2) `min` length buf)%nat with 0%nat by lia.
    reflexivity.
  - rewrite list_lookup_insert_ne by lia.
    destruct (decide (i = (p - 1)%nat)) as [->|H2].
    + rewrite list_lookup_insert_eq by lia.
      rewrite lookup_app_r by (rewrite length_take; lia).
      rewrite length_take. replace (p - 1 - (p - 2) `min` length buf)%nat with 1%nat by lia.
      reflexivity.
    + rewrite list_lookup_insert_ne by lia.
      destruct (decide (i < p - 2)%nat).
      * rewrite lookup_app_l by (rewrite length_take; lia).
        rewrite lookup_take_lt by lia. reflexivity.
      * rewrite lookup_app_r by (rewrite length_take; lia).
        rewrite length_take.
        replace (i - (p - 2) `min` length buf)%nat with (S (S (i - p))) by lia.
        cbn [app]. change ((a :: b :: drop p buf) !! S (S (i - p))) with (drop p buf !! (i - p)%nat).
        rewrite lookup_drop. f_equal. lia.
Qed.

Lemma write_digit_pairs_spec (k r : nat) :
  (r < 2)%nat ->
  forall (buf : list Z) (p : nat) (v : Z),
  (2 * k <= p <= length buf)%nat -> 0 <= v < 2 ^ 64 ->
  write_digit_pairs (2 * k + r) buf p v
  = (take (p - 2 * k) buf ++ decimal_digits (2 * k) v ++ drop p buf,
     (p - 2 * k)%nat, v / 100 ^ Z.of_nat k, r).
Proof.
  intros Hr. induction k as [|k IH]; intros buf p v Hp Hv.
  - replace (2 * 0 + r)%nat with r by lia.
    replace (write_digit_pairs r buf p v) with (buf, p, v, r)
      by (destruct r as [|[|r]]; [reflexivity|reflexivity|lia]).
    replace (2 * 0)%nat with 0%nat by lia.
    cbn [decimal_digits Z.of_nat app]. rewrite Nat.sub_0_r, take_drop.
    rewrite Z.pow_0_r, Z.div_1_r. reflexivity.
  - replace (2 * S k + r)%nat with (S (S (2 * k + r))) by lia.
    cbn [write_digit_pairs].
    pose proof (Z.mod_pos_bound v 100 ltac:(lia)) as Hm.
    destruct (decimal_lut_pair (v mod 100) Hm) as [H1 H2]. rewrite H1, H2.
    rewrite pair_stored by lia. rewrite <- decimal_digits_2.
    assert (Hv' : 0 <= v / 100 < 2 ^ 64).
    { change (2 ^ 64) with 18446744073709551616 in *.
      Z.to_euclidean_division_equations; lia. }
    unfold to_usize. rewrite (Z.mod_small (v / 100)) by exact Hv'.
    pose proof (length_decimal_digits 2 v) as Hl2.
    rewrite IH; [|rewrite !length_app, length_take, length_drop; lia|exact Hv'].
    assert (E1 : take (p - 2 - 2 * k)
                   (take (p - 2) buf ++ decimal_digits 2 v ++ drop p buf)
                 ++ decimal_digits (2 * k) (v / 100)
                 ++ drop (p - 2) (take (p - 2) buf ++ decimal_digits 2 v ++ drop p buf)
                 = take (p - 2 * S k) buf ++ decimal_digits (2 * S k) v ++ drop p buf).
    { rewrite take_app_le by (rewrite length_take; lia).
      rewrite take_take. replace ((p - 2 - 2 * k) `min` (p - 2))%nat with (p - 2 * S k)%nat by lia.
      rewrite drop_app_length' by (rewrite length_take; lia).
      replace (2 * S k)%nat with (2 * k + 2)%nat by lia.
      rewrite decimal_digits_app. change (10 ^ Z.of_nat 2) with 100.
      rewrite <- !app_assoc. reflexivity. }
    assert (E2 : (p - 2 - 2 * k = p - 2 * S k)%nat) by lia.
    assert (E3 : v / 100 / 100 ^ Z.of_nat k = v / 100 ^ Z.of_nat (S k)).
    { rewrite Nat2Z.inj_succ, Z.pow_succ_r by lia. rewrite Z.div_div by lia. reflexivity. }
    rewrite E1, E2, E3. reflexivity.
Qed.

Lemma decimal_digits_are_digits (n : nat) (v : Z) :
  Forall2 (fun c d => digit_value c = Some d) (decimal_digits n v)
    (map (fun c => c - 0x30) (decimal_digits n v)).
Proof.
  revert v. induction n as [|n IH]; intros v; [constructor|].
  cbn [decimal_digits]. rewrite map_app. apply Forall2_app; [apply IH|].
  constructor; [|constructor].
  unfold digit_value.
  pose proof (Z.mod_pos_bound v 10 ltac:(lia)) as Hm.
  destruct ((48 <=? 48 + v mod 10) && (48 + v mod 10 <=? 57)) eqn:E; [reflexivity|].
  apply andb_false_iff in E. destruct E as [E|E]; apply Z.leb_gt in E; lia.
Qed.

Lemma positional_decimal_digits (n : nat) (v : Z) :
  positional 10 (map (fun c => c - 0x30) (decimal_digits n v)) = v mod 10 ^ Z.of_nat n.
Proof.
  unfold positional. revert v. induction n as [|n IH]; intros v.
  - cbn. rewrite Z.mod_1_r. reflexivity.
  - cbn [decimal_digits]. rewrite map_app, foldl_app. cbn [map foldl].
    rewrite IH.
    rewrite Nat2Z.inj_succ, Z.pow_succ_r by lia.
    assert (Hp : 0 < 10 ^ Z.of_nat n) by (apply Z.pow_pos_nonneg; lia).
    rewrite (Z.rem_mul_r v 10 (10 ^ Z.of_nat n)) by lia. lia.
Qed.

Lemma write_decimal_bytes (msc_ver : bool) (dst : list Z) (room : Z -> Z) (v : Z)
    (neg : bool) :
  0 <= v < 2 ^ 64 -> Z.of_nat (length dst) + 21 < 2 ^ 64 ->
  write_decimal msc_ver dst room v neg
  = if neg
    then dst ++ [room 0] ++
         <[0%nat := 0x2d]> (decimal_digits (Z.to_nat (u64_log10 msc_ver v + 1)) v)
    else dst ++ decimal_digits (Z.to_nat (u64_log10 msc_ver v + 1)) v.
Proof.
  intros Hv Hdst.
  destruct (u64_log10_spec msc_ver v Hv) as (HL & H0 & H1).
  unfold write_decimal. set (L := u64_log10 msc_ver v) in *.
  set (s := if neg then 1 else 0). set (sn := if neg then 1%nat else 0%nat).
  assert (Hs : s = Z.of_nat sn) by (unfold s, sn; destruct neg; reflexivity).
  assert (Hsn : (sn <= 1)%nat) by (unfold sn; destruct neg; lia).
  change (2 ^ 64) with 18446744073709551616 in *.
  rewrite (to_usize_small (L + 1)) by (change (2 ^ 64) with 18446744073709551616; lia).
  rewrite to_usize_small by (change (2 ^ 64) with 18446744073709551616; lia).
  replace (Z.of_nat (length dst) + (L + 1) + s - Z.of_nat (length dst)) with (L + 1 + s) by lia.
  set (nn := Z.to_nat (L + 1)).
  set (buf := dst ++ map room (seqZ 0 (L + 1 + s))).
  assert (Hbuf : length buf = (length dst + sn + nn)%nat).
  { unfold buf. rewrite length_app, length_map, length_seqZ. unfold nn. lia. }
  replace (Z.to_nat (Z.of_nat (length dst) + (L + 1) + s)) with (length dst + sn + nn)%nat
    by (unfold nn; lia).
  set (k := (nn / 2)%nat). set (r := (nn mod 2)%nat).
  assert (Hnn : nn = (2 * k + r)%nat) by (unfold k, r; apply Nat.div_mod_eq).
  assert (Hr : (r < 2)%nat) by (unfold r; apply Nat.mod_upper_bound; lia).
  rewrite Hnn at 1.
  rewrite (write_digit_pairs_spec k r Hr buf (length dst + sn + nn) v)
    by (change (2 ^ 64) with 18446744073709551616; lia).
  assert (Hdrop : drop (length dst + sn + nn) buf = []) by (apply drop_ge; lia).
  rewrite Hdrop, app_nil_r.
  assert (Hlt : v < 10 ^ Z.of_nat nn).
  { unfold nn. rewrite Z2Nat.id by lia.
    destruct (decide (v = 0)) as [->|Hne]; [apply Z.pow_pos_nonneg; lia|].
    apply H1. lia. }
  assert (Hsign : take (length dst + sn) buf = dst ++ map room (seqZ 0 s)).
  { unfold buf. rewrite take_app_ge by lia.
    replace (length dst + sn - length dst)%nat with sn by lia.
    rewrite <- fmap_take, seqZ_take.
    replace (Z.of_nat sn `min` (L + 1 + s)) with s by lia. reflexivity. }
  cbv beta iota zeta.
  assert (Hdigits :
    (if Nat.odd r
     then (<[(length dst + sn + nn - 2 * k - 1)%nat := (48 + v / 100 ^ Z.of_nat k) mod 256]>
             (take (length dst + sn + nn - 2 * k) buf ++ decimal_digits (2 * k) v),
           (length dst + sn + nn - 2 * k - 1)%nat)
     else (take (length dst + sn + nn - 2 * k) buf ++ decimal_digits (2 * k) v,
           (length dst + sn + nn - 2 * k)%nat))
    = (dst ++ map room (seqZ 0 s) ++ decimal_digits nn v, (length dst + sn)%nat)).
  { destruct r as [|[|r]]; [| |lia].
    - cbn [Nat.odd]. rewrite Nat.add_0_r in Hnn.
      replace (length dst + sn + nn - 2 * k)%nat with (length dst + sn)%nat by lia.
      rewrite Hsign, <- Hnn, <- app_assoc. reflexivity.
    - change (Nat.odd 1) with true. cbv iota.
      replace (length dst + sn + nn - 2 * k)%nat with (S (length dst + sn)) by lia.
      replace (S (length dst + sn) - 1)%nat with (length dst + sn)%nat by lia.
      assert (Htake : take (S (length dst + sn)) buf
                      = (dst ++ map room (seqZ 0 s)) ++ [room s]).
      { rewrite <- Hsign. erewrite take_S_r; [reflexivity|].
        unfold buf. rewrite lookup_app_r by lia.
        rewrite list_lookup_fmap, lookup_seqZ_lt by lia.
        cbn. f_equal. f_equal. lia. }
      rewrite Htake.
      assert (Hl : length (dst ++ map room (seqZ 0 s)) = (length dst + sn)%nat).
      { rewrite length_app, length_map, length_seqZ. lia. }
      rewrite <- (app_assoc (dst ++ map room (seqZ 0 s))).
      rewrite insert_app_r_alt by lia. rewrite Hl.
      replace (length dst + sn - (length dst + sn))%nat with 0%nat by lia.
      cbn [app]. change (<[0%nat:=?x]> (?y :: ?l)) with (x :: l).
      rewrite <- app_assoc. f_equal. f_equal. f_equal.
      rewrite Hnn. replace (2 * k + 1)%nat with (1 + 2 * k)%nat by lia.
      rewrite decimal_digits_app. cbn [decimal_digits app]. f_equal. 
      assert (H100 : 100 ^ Z.of_nat k = 10 ^ Z.of_nat (2 * k)).
      { rewrite Nat2Z.inj_mul, Z.pow_mul_r by lia. reflexivity. }
      rewrite H100.
      assert (Hq : 0 <= v / 10 ^ Z.of_nat (2 * k) < 10).
      { assert (Hp : 0 < 10 ^ Z.of_nat (2 * k)) by (apply Z.pow_pos_nonneg; lia).
        split; [apply Z.div_pos; lia|].
        apply Z.div_lt_upper_bound; [lia|].
        rewrite Hnn in Hlt. replace (Z.of_nat (2 * k + 1)) with (Z.succ (Z.of_nat (2 * k))) in Hlt by lia.
        rewrite Z.pow_succ_r in Hlt by lia. lia. }
      rewrite (Z.mod_small (v / _) 10) by exact Hq.
      rewrite Z.mod_small by lia. reflexivity. }
  rewrite Hdigits. clear Hdigits.
  unfold s, sn. destruct neg.
  - rewrite seqZ_cons, (seqZ_nil _ (Z.pred 1)) by lia. cbn [map].
    rewrite insert_app_r_alt by lia.
    replace (length dst + 1 - length dst)%nat with 1%nat by lia. reflexivity.
  - rewrite seqZ_nil by lia. reflexivity.
Qed.

(** X9. [s8_append_u64] appends the decimal digits of the value, [u64_log10(v)
    + 1] of them and nothing else, in front of which [dst] is as before;
    reading the appended digits back with [s8_to_u64] in base 10 gives the
    value again. *)
Theorem s8_append_u64_round_trip (msc_ver : bool) (dst : list Z) (room : Z -> Z) (v : Z) :
  0 <= v < 2 ^ 64 -> Z.of_nat (length dst) + 21 < 2 ^ 64 ->
  exists ds,
    s8_append_u64 msc_ver dst room v = dst ++ ds /\
    Z.of_nat (length ds) = u64_log10 msc_ver v + 1 /\
    Forall (fun c => 0x30 <= c <= 0x39) ds /\
    s8_to_u64 ds 10 = v.
Proof.
  intros Hv Hdst.
  destruct (u64_log10_spec msc_ver v Hv) as (HL & H0 & H1).
  exists (decimal_digits (Z.to_nat (u64_log10 msc_ver v + 1)) v).
  split; [unfold s8_append_u64; apply (write_decimal_bytes msc_ver dst room v false); assumption|].
  split; [rewrite length_decimal_digits; lia|].
  split.
  - clear. generalize (Z.to_nat (u64_log10 msc_ver v + 1)). intros n. revert v.
    induction n as [|n IH]; intros v; [constructor|].
    cbn [decimal_digits]. apply Forall_app. split; [apply IH|].
    constructor; [|constructor]. pose proof (Z.mod_pos_bound v 10 ltac:(lia)). lia.
  - rewrite (s8_to_u64_positional _ _ 10 ltac:(lia) (decimal_digits_are_digits _ v)).
    + rewrite positional_decimal_digits. apply Z.mod_small.
      rewrite Z2Nat.id by lia.
      destruct (decide (v = 0)) as [->|Hne]; [split; [lia|apply Z.pow_pos_nonneg; lia]|].
      specialize (H1 ltac:(lia)). lia.
    + rewrite positional_decimal_digits.
      pose proof (Z.mod_pos_bound v (10 ^ Z.of_nat (Z.to_nat (u64_log10 msc_ver v + 1)))
                    ltac:(apply Z.pow_pos_nonneg; lia)) as Hm.
      assert (Hle : v mod 10 ^ Z.of_nat (Z.to_nat (u64_log10 msc_ver v + 1)) <= v).
      { apply Z.mod_le; [lia|apply Z.pow_pos_nonneg; lia]. }
      lia.
Qed.

Lemma s8_append_u64_round_trip_witness :
  exists ds,
    s8_append_u64 false [0x78; 0x3d] (fun _ => 0) 65535 = [0x78; 0x3d] ++ ds /\
    Z.of_nat (length ds) = u64_log10 false 65535 + 1 /\
    Forall (fun c => 0x30 <= c <= 0x39) ds /\
    s8_to_u64 ds 10 = 65535.
Proof.
  assert (H1 : 0 <= 65535 < 2 ^ 64) by (split; [discriminate|reflexivity]).
  assert (H2 : Z.of_nat (length [0x78; 0x3d]) + 21 < 2 ^ 64) by reflexivity.
  exact (s8_append_u64_round_trip false [0x78; 0x3d] (fun _ => 0) 65535 H1 H2).
Defined.

(** X10. [s8_append_i64] of a value that is not negative appends its decimal
    digits. For a negative value the string grows by one byte more than there
    are digits, but the minus sign is stored at the place of the leading digit
    and not in front of it: the first new byte keeps whatever the memory held,
    and the leading digit is lost ([-42] gives that byte followed by [-2]). *)
Theorem s8_append_i64_sign (msc_ver : bool) (dst : list Z) (room : Z -> Z) (value : Z) :
  - 2 ^ 63 < value < 2 ^ 63 -> Z.of_nat (length dst) + 21 < 2 ^ 64 ->
  let digits := decimal_digits (Z.to_nat (u64_log10 msc_ver (Z.abs value) + 1)) (Z.abs value) in
  s8_append_i64 msc_ver dst room value
  = if value <? 0 then dst ++ [room 0] ++ <[0%nat := 0x2d]> digits else dst ++ digits.
Proof.
  intros Hv Hdst digits. unfold s8_append_i64.
  change (2 ^ 63) with 9223372036854775808 in *.
  assert (Habs : to_usize (if value <? 0 then - value else value) = Z.abs value).
  { destruct (value <? 0) eqn:E;
      [apply Z.ltb_lt in E|apply Z.ltb_ge in E];
      (rewrite to_usize_small by (change (2 ^ 64) with 18446744073709551616; lia)); lia. }
  rewrite Habs. apply write_decimal_bytes; [|exact Hdst].
  change (2 ^ 64) with 18446744073709551616. lia.
Qed.

Lemma s8_append_i64_sign_witness :
  s8_append_i64 false [0x78; 0x3d] (fun _ => 0x3f) (-42) = [0x78; 0x3d; 0x3f; 0x2d; 0x32].
Proof.
  assert (H1 : - 2 ^ 63 < -42 < 2 ^ 63) by (split; reflexivity).
  assert (H2 : Z.of_nat (length [0x78; 0x3d]) + 21 < 2 ^ 64) by reflexivity.
  exact (s8_append_i64_sign false [0x78; 0x3d] (fun _ => 0x3f) (-42) H1 H2).
Defined.

End ArenaFacts.

(** ** vt.c: every token *)

Module VtMore.

Import Vt VtInv VtFacts Basics TuiFacts.

Lemma text_run_pre it l it' r :
  text_run it l = (it', r) ->
  exists run, l = run ++ r /\ Forall (fun c => is_text_byte c = true) run /\
              starts_with_text r = false /\ it' = it + Z.of_nat (length run).
Proof.
  revert it. induction l as [|c l IH]; intros it H; cbn [text_run] in H.
  - inversion H; subst. exists [].
    split; [reflexivity|]. split; [constructor|]. split; [reflexivity|cbn [length]; lia].
  - destruct (is_text_byte c) eqn:E.
    + apply IH in H. destruct H as (run & -> & Hall & Hr & ->).
      exists (c :: run).
      split; [reflexivity|]. split; [constructor; assumption|]. split; [exact Hr|cbn [length]; lia].
    + inversion H; subst. exists [].
      split; [reflexivity|]. split; [constructor|]. split; [exact E|cbn [length]; lia].
Qed.

Lemma csi_loop_pre st it l st1 it1 r1 :
  csi_loop st it l = (st1, it1, r1) -> exists pre, l = pre ++ r1.
Proof.
  revert st it. induction l as [|c l IH]; intros st it H; cbn [csi_loop] in H.
  - inversion H; subst. exists []. reflexivity.
  - destruct (is_digit c).
    { apply IH in H. destruct H as [pre ->]. exists (c :: pre). reflexivity. }
    destruct ((0x40 <=? c) && (c <=? 0x7e)).
    { inversion H; subst. exists [c]. reflexivity. }
    apply IH in H. destruct H as [pre ->]. exists (c :: pre). reflexivity.
Qed.

Lemma osc_loop_pre st it l st1 it1 r1 :
  osc_loop st it l = (st1, it1, r1) -> exists pre, l = pre ++ r1.
Proof.
  revert st it st1 it1 r1. induction l as [l IH] using list_len_ind.
  intros st it st1 it1 r1 H. destruct l as [|c l]; cbn [osc_loop] in H.
  - inversion H; subst. exists []. reflexivity.
  - destruct (c =? 0x07).
    { inversion H; subst. exists [c]. reflexivity. }
    destruct (c =? 0x1b).
    + destruct l as [|d l].
      { inversion H; subst. exists [c]. reflexivity. }
      destruct (d =? 0x5c).
      { inversion H; subst. exists [c; d]. reflexivity. }
      apply IH in H; [|cbn [length]; lia]. destruct H as [pre E]. rewrite E.
      exists (c :: pre). reflexivity.
    + apply IH in H; [|cbn [length]; lia]. destruct H as [pre E]. rewrite E.
      exists (c :: pre). reflexivity.
Qed.

Lemma vt_loop_pre st it l st1 it1 r1 :
  vt_loop st it l = Some (st1, it1, r1) -> exists pre, l = pre ++ r1.
Proof.
  revert st it. induction l as [|c l IH]; intros st it H.
  - cbn [vt_loop] in H. inversion H; subst. exists []. reflexivity.
  - assert (Hrec : forall st', vt_loop st' (it + 1) l = Some (st1, it1, r1) ->
                   exists pre, c :: l = pre ++ r1).
    { intros st' H'. apply IH in H'. destruct H' as [pre ->]. exists (c :: pre). reflexivity. }
    assert (Hone : forall x y, Some (x, y, l) = Some (st1, it1, r1) ->
                   exists pre, c :: l = pre ++ r1).
    { intros x y H'. inversion H'; subst. exists [c]. reflexivity. }
    assert (Hcsi : forall st', Some (csi_loop st' it (c :: l)) = Some (st1, it1, r1) ->
                   exists pre, c :: l = pre ++ r1).
    { intros st' H'. assert (E : csi_loop st' it (c :: l) = (st1, it1, r1)) by congruence.
      apply csi_loop_pre in E. exact E. }
    assert (Hosc : forall st', Some (osc_loop st' it (c :: l)) = Some (st1, it1, r1) ->
                   exists pre, c :: l = pre ++ r1).
    { intros st' H'. assert (E : osc_loop st' it (c :: l) = (st1, it1, r1)) by congruence.
      apply osc_loop_pre in E. exact E. }
    cbn [vt_loop] in H. destruct (_state st).
    + destruct (c =? 0x1b); [eauto|].
      destruct ((c <? 0x20) || (c =? 0x7f)); [eauto|].
      destruct (text_run it (c :: l)) as [it' rest] eqn:Ht.
      inversion H; subst. apply text_run_pre in Ht.
      destruct Ht as (run & E & _). exists run. exact E.
    + destruct (c =? 0x5b).
      { destruct (csi_reset (csi st)); [eauto|discriminate]. }
      destruct (c =? 0x5d); [eauto|].
      destruct (c =? 0x4f); [eauto|].
      destruct (c =? 0x50); [eauto|].
      eauto.
    + eauto.
    + eauto.
    + eauto.
    + eauto.
    + destruct (c =? 0x5c); eauto.
    + destruct (c =? 0x5c); eauto.
Qed.

(** X11. Whenever [vt_parse_next_token] returns, the returned pointer lies
    between [beg] and [end], it lies behind [beg] if the input is not empty,
    and what is left of the input is the input without the bytes in front of
    that pointer: the tokenizer never goes back and never skips. *)
Theorem vt_parse_next_token_advances st it l st1 it1 r1 :
  vt_parse_next_token st it l = Some (st1, it1, r1) ->
  it <= it1 <= it + Z.of_nat (length l) /\
  (l <> [] -> it < it1) /\
  r1 = drop (Z.to_nat (it1 - it)) l.
Proof.
  unfold vt_parse_next_token. intros H.
  destruct (vt_loop_it _ _ _ _ _ _ H) as (H1 & H2 & H3).
  destruct (vt_loop_pre _ _ _ _ _ _ H) as [pre E].
  split; [lia|]. split; [intros Hne; specialize (H3 Hne); lia|].
  subst l. rewrite length_app in H1.
  replace (Z.to_nat (it1 - it)) with (length pre) by lia.
  rewrite drop_app_length. reflexivity.
Qed.

Lemma vt_parse_next_token_advances_witness :
  100 <= 103 <= 100 + Z.of_nat (length [0x1b; 0x5b; 0x41; 0x61]) /\
  ([0x1b; 0x5b; 0x41; 0x61] <> [] -> 100 < 103) /\
  [0x61] = drop (Z.to_nat (103 - 100)) [0x1b; 0x5b; 0x41; 0x61].
Proof.
  eapply (vt_parse_next_token_advances vt_parser_state_zero 100 [0x1b; 0x5b; 0x41; 0x61]).
  vm_compute. reflexivity.
Defined.

(* ---- the CSI parameters ---- *)

Lemma clear_params_ok n ps :
  length ps = 32%nat -> Forall (fun p => 0 <= p <= 0xffff) ps ->
  length (clear_params n ps) = 32%nat /\
  Forall (fun p => 0 <= p <= 0xffff) (clear_params n ps).
Proof.
  revert ps. induction n as [|n IH]; intros ps Hl Hf; cbn [clear_params]; [auto|].
  apply IH; [rewrite length_insert; exact Hl|].
  apply Forall_insert; [exact Hf|lia].
Qed.

Lemma wrap32_range z : - 2 ^ 31 <= wrap32 z < 2 ^ 31.
Proof.
  unfold wrap32. pose proof (Z.mod_pos_bound (z + 2 ^ 31) (2 ^ 32) ltac:(lia)).
  change (2 ^ 32) with (2 * 2 ^ 31) in *. lia.
Qed.

Lemma csi_digit_ok c cs :
  is_digit c = true -> csi_ok cs -> csi_ok (csi_digit c cs).
Proof.
  intros Hd (Hl & Hf & Hc). unfold csi_digit.
  destruct (to_usize (param_count cs) <? 32) eqn:E; [|exact (conj Hl (conj Hf Hc))].
  split; [|split]; cbn [params param_count]; [rewrite length_insert; exact Hl| |exact Hc].
  apply Forall_insert; [exact Hf|].
  unfold is_digit in Hd. apply andb_true_iff in Hd. destruct Hd as [D1 D2].
  apply Z.leb_le in D1, D2.
  assert (Hlt : (Z.to_nat (param_count cs) < length (params cs))%nat).
  { apply Z.ltb_lt in E. unfold to_usize in E.
    change (2 ^ 31) with 2147483648 in Hc.
    destruct (decide (0 <= param_count cs)) as [Hn|Hn].
    - rewrite Z.mod_small in E; [lia|]. change (2 ^ 64) with 18446744073709551616. lia.
    - exfalso. 
      replace (param_count cs) with (param_count cs + 2 ^ 64 + (-1) * 2 ^ 64) in E by lia.
      rewrite Z.mod_add in E by lia.
      rewrite Z.mod_small in E; change (2 ^ 64) with 18446744073709551616 in *; lia. }
  destruct (lookup_lt_is_Some_2 _ _ Hlt) as [p Hp].
  rewrite (list_lookup_total_correct _ _ _ Hp).
  pose proof (Forall_lookup_1 _ _ _ _ Hf Hp) as Hr. cbv beta in Hr.
  rewrite (wrap32_small (p * 10)) by (change (2 ^ 31) with 2147483648; lia).
  rewrite wrap32_small by (change (2 ^ 31) with 2147483648; lia).
  unfold min_i32. destruct (p * 10 + (c - 48) <? 65535) eqn:E2; [|lia].
  apply Z.ltb_lt in E2. lia.
Qed.

Lemma csi_loop_ok st it l :
  csi_ok (csi st) -> csi_ok (csi (csi_loop st it l).1.1).
Proof.
  revert st it. induction l as [|c l IH]; intros st it Hok; cbn [csi_loop]; [exact Hok|].
  destruct (is_digit c) eqn:Hd.
  { apply IH. cbn [csi set_csi]. apply csi_digit_ok; assumption. }
  destruct Hok as (Hl & Hf & Hc).
  destruct ((0x40 <=? c) && (c <=? 0x7e)).
  { cbn [fst csi set_csi]. split; [|split]; cbn [params param_count]; try assumption.
    apply wrap32_range. }
  apply IH. cbn [csi set_csi].
  destruct (c =? 0x3b); destruct ((0x3c <=? c) && (c <=? 0x3f));
    (split; [|split]); cbn [params param_count]; try assumption; apply wrap32_range.
Qed.

Lemma osc_loop_csi st it l : csi (osc_loop st it l).1.1 = csi st.
Proof.
  revert st it. induction l as [l IH] using list_len_ind. intros st it.
  destruct l as [|c l]; cbn [osc_loop]; [reflexivity|].
  destruct (c =? 0x07); [reflexivity|].
  destruct (c =? 0x1b).
  - destruct l as [|d l]; [reflexivity|].
    destruct (d =? 0x5c); [reflexivity|].
    rewrite IH by (cbn [length]; lia). reflexivity.
  - rewrite IH by (cbn [length]; lia). reflexivity.
Qed.

Lemma csi_reset_ok cs cs' : csi_ok cs -> csi_reset cs = Some cs' -> csi_ok cs'.
Proof.
  intros (Hl & Hf & Hc). unfold csi_reset.
  destruct (param_count cs >? 32); [discriminate|]. intros [= <-].
  destruct (clear_params_ok (Z.to_nat (param_count cs)) (params cs) Hl Hf) as [H1 H2].
  split; [|split]; cbn [params param_count]; try assumption.
  destruct (param_count cs >? 0); lia.
Qed.

Lemma vt_loop_csi_ok st it l st1 it1 r1 :
  vt_loop st it l = Some (st1, it1, r1) -> csi_ok (csi st) -> csi_ok (csi st1).
Proof.
  revert st it. induction l as [|c l IH]; intros st it H Hok.
  - cbn [vt_loop] in H. inversion H; subst. exact Hok.
  - assert (Hcsi : forall st', csi_ok (csi st') ->
                   Some (csi_loop st' it (c :: l)) = Some (st1, it1, r1) -> csi_ok (csi st1)).
    { intros st' Hok' H'. pose proof (csi_loop_ok st' it (c :: l) Hok') as Hr.
      assert (E : csi_loop st' it (c :: l) = (st1, it1, r1)) by congruence.
      rewrite E in Hr. exact Hr. }
    assert (Hosc : forall st', csi st' = csi st ->
                   Some (osc_loop st' it (c :: l)) = Some (st1, it1, r1) -> csi_ok (csi st1)).
    { intros st' Heq H'. pose proof (osc_loop_csi st' it (c :: l)) as Hr.
      assert (E : osc_loop st' it (c :: l) = (st1, it1, r1)) by congruence.
      rewrite E in Hr. cbn [fst] in Hr. rewrite Hr, Heq. exact Hok. }
    assert (Hone : forall st' x y, csi st' = csi st ->
                   Some (st', x, y) = Some (st1, it1, r1) -> csi_ok (csi st1)).
    { intros st' x y Heq H'. inversion H'; subst. rewrite Heq. exact Hok. }
    cbn [vt_loop] in H. destruct (_state st).
    + destruct (c =? 0x1b); [eapply IH; [exact H|exact Hok]|].
      destruct ((c <? 0x20) || (c =? 0x7f)); [eapply Hone; [|exact H]; reflexivity|].
      destruct (text_run it (c :: l)) as [it' rest].
      eapply Hone; [|exact H]; reflexivity.
    + destruct (c =? 0x5b).
      { destruct (csi_reset (csi st)) as [cs|] eqn:Er; [|discriminate].
        eapply IH; [exact H|]. cbn [csi set_csi set_state]. eapply csi_reset_ok; eassumption. }
      destruct (c =? 0x5d); [eapply IH; [exact H|exact Hok]|].
      destruct (c =? 0x4f); [eapply IH; [exact H|exact Hok]|].
      destruct (c =? 0x50); [eapply IH; [exact H|exact Hok]|].
      eapply Hone; [|exact H]; reflexivity.
    + eapply Hone; [|exact H]; reflexivity.
    + eapply Hcsi; [exact Hok|exact H].
    + eapply Hosc; [|exact H]; reflexivity.
    + eapply Hosc; [|exact H]; reflexivity.
    + destruct (c =? 0x5c); [eapply Hone; [|exact H]; reflexivity|].
      eapply Hosc; [|exact H]; reflexivity.
    + destruct (c =? 0x5c); [eapply Hone; [|exact H]; reflexivity|].
      eapply Hosc; [|exact H]; reflexivity.
Qed.

(** X12. [vt_parse_next_token] keeps the CSI state well formed: if every one
    of the 32 parameters lies between 0 and 65535 before the call, then so
    after it, whatever the input (digits saturate at 65535). *)
Theorem vt_parse_next_token_params st it l st1 it1 r1 :
  vt_parse_next_token st it l = Some (st1, it1, r1) ->
  csi_ok (csi st) -> csi_ok (csi st1).
Proof.
  unfold vt_parse_next_token. intros H Hok.
  apply (vt_loop_csi_ok _ _ _ _ _ _ H). exact Hok.
Qed.



Lemma csi_ok_zero : csi_ok csi_zero.
Proof.
  split; [reflexivity|]. split; [|cbn; lia].
  unfold csi_zero. cbn [params]. apply Forall_replicate. lia.
Qed.

(** [ESC \[ 8 ; 1 ; 9 9 9 9 9 t]: the third parameter saturates. *)
Lemma vt_parse_next_token_params_witness :
  exists st1,
    vt_parse_next_token vt_parser_state_zero 0
      [0x1b; 0x5b; 0x38; 0x3b; 0x31; 0x3b; 0x39; 0x39; 0x39; 0x39; 0x39; 0x74]
    = Some (st1, 12, []) /\
    csi_ok (csi st1) /\ params (csi st1) !!! 2%nat = 0xffff.
Proof.
  eexists. split; [vm_compute; reflexivity|]. split; [|vm_compute; reflexivity].
  eapply (vt_parse_next_token_params vt_parser_state_zero 0
            [0x1b; 0x5b; 0x38; 0x3b; 0x31; 0x3b; 0x39; 0x39; 0x39; 0x39; 0x39; 0x74]).
  - vm_compute. reflexivity.
  - exact csi_ok_zero.
Defined.


(* ---- TEXT tokens ---- *)

Lemma osc_loop_kind2 st it l :
  kind (osc_loop st it l).1.1 = VT_TOKEN_KIND_OSC \/
  kind (osc_loop st it l).1.1 = VT_TOKEN_KIND_DCS.
Proof.
  assert (Hm : forall i s, kind (osc_mark i s) = VT_TOKEN_KIND_OSC \/
                           kind (osc_mark i s) = VT_TOKEN_KIND_DCS).
  { intros i s. unfold osc_mark. cbn [kind set_osc set_kind]. destruct (_state s); auto. }
  revert st it. induction l as [l IH] using list_len_ind. intros st it.
  destruct l as [|c l]; cbn [osc_loop]; [apply Hm|].
  destruct (c =? 0x07); [cbn [fst kind set_state]; apply Hm|].
  destruct (c =? 0x1b).
  - destruct l as [|d l]; [cbn [fst kind set_state]; apply Hm|].
    destruct (d =? 0x5c); [cbn [fst kind set_state]; apply Hm|].
    apply IH. cbn [length]. lia.
  - apply IH. cbn [length]. lia.
Qed.

Lemma vt_loop_no_text st it l st1 it1 r1 :
  vt_loop st it l = Some (st1, it1, r1) ->
  _state st <> VT_PARSER_STATE_KIND_GROUND -> kind st <> VT_TOKEN_KIND_TEXT ->
  kind st1 <> VT_TOKEN_KIND_TEXT.
Proof.
  revert st it. induction l as [|c l IH]; intros st it H Hs Hk.
  - cbn [vt_loop] in H. inversion H; subst. exact Hk.
  - assert (Hcsi : forall st', kind st' <> VT_TOKEN_KIND_TEXT ->
                   Some (csi_loop st' it (c :: l)) = Some (st1, it1, r1) ->
                   kind st1 <> VT_TOKEN_KIND_TEXT).
    { intros st' Hk' H'.
      assert (E : csi_loop st' it (c :: l) = (st1, it1, r1)) by congruence.
      destruct (csi_loop_cases _ _ _ _ _ _ E) as [[_ Hc]|(_ & Hc & _)]; congruence. }
    assert (Hosc : forall st',
                   Some (osc_loop st' it (c :: l)) = Some (st1, it1, r1) ->
                   kind st1 <> VT_TOKEN_KIND_TEXT).
    { intros st' H'. pose proof (osc_loop_kind2 st' it (c :: l)) as Hr.
      assert (E : osc_loop st' it (c :: l) = (st1, it1, r1)) by congruence.
      rewrite E in Hr. cbn [fst] in Hr. destruct Hr; congruence. }
    assert (Hrec : forall st', _state st' <> VT_PARSER_STATE_KIND_GROUND ->
                   kind st' = kind st ->
                   vt_loop st' (it + 1) l = Some (st1, it1, r1) ->
                   kind st1 <> VT_TOKEN_KIND_TEXT).
    { intros st' Hs' Hk' H'. eapply IH; [exact H'|exact Hs'|congruence]. }
    cbn [vt_loop] in H. destruct (_state st) eqn:Es; [congruence| | | | | | |].
    + destruct (c =? 0x5b).
      { destruct (csi_reset (csi st)) as [cs|]; [|discriminate].
        eapply Hrec; [| |exact H]; [discriminate|reflexivity]. }
      destruct (c =? 0x5d); [eapply Hrec; [| |exact H]; [discriminate|reflexivity]|].
      destruct (c =? 0x4f); [eapply Hrec; [| |exact H]; [discriminate|reflexivity]|].
      destruct (c =? 0x50); [eapply Hrec; [| |exact H]; [discriminate|reflexivity]|].
      inversion H; subst. discriminate.
    + inversion H; subst. discriminate.
    + eapply Hcsi; [exact Hk|exact H].
    + eapply Hosc; exact H.
    + eapply Hosc; exact H.
    + destruct (c =? 0x5c); [|eapply Hosc; exact H].
      inversion H; subst. cbn [kind set_osc set_kind]. discriminate.
    + destruct (c =? 0x5c); [|eapply Hosc; exact H].
      inversion H; subst. cbn [kind set_osc set_kind]. discriminate.
Qed.

(** X14. A token of kind TEXT is a longest run of text bytes: the slice [text]
    starts at [beg], it is not empty, all its bytes are text bytes (at least
    0x20 and not 0x7f), the byte behind it, if there is one, is not a text
    byte, the returned pointer is the end of the run, and the parser is in its
    ground state. *)
Theorem vt_text_token st it l st1 it1 r1 :
  Z.of_nat (length l) < 2 ^ 64 ->
  vt_parse_next_token st it l = Some (st1, it1, r1) ->
  kind st1 = VT_TOKEN_KIND_TEXT ->
  exists run,
    run <> [] /\ l = run ++ r1 /\
    Forall (fun c => is_text_byte c = true) run /\
    starts_with_text r1 = false /\
    text st1 = mk_s8 it (Z.of_nat (length run)) (cap (text st)) /\
    it1 = it + Z.of_nat (length run) /\
    _state st1 = VT_PARSER_STATE_KIND_GROUND.
Proof.
  unfold vt_parse_next_token. intros Hlen H Hk.
  destruct l as [|c l].
  { cbn [vt_loop] in H. inversion H; subst. discriminate Hk. }
  destruct (_state st) eqn:Es.
  2-8: exfalso;
       refine (vt_loop_no_text _ _ _ _ _ _ H _ _ Hk);
       cbn [_state kind set_kind]; [rewrite Es|]; discriminate.
  cbn [vt_loop] in H. cbn [_state set_kind] in H. rewrite Es in H.
  destruct (c =? 0x1b).
  { exfalso. refine (vt_loop_no_text _ _ _ _ _ _ H _ _ Hk); cbn; discriminate. }
  destruct ((c <? 0x20) || (c =? 0x7f)) eqn:Hctl.
  { inversion H; subst. discriminate Hk. }
  destruct (text_run it (c :: l)) as [it' rest] eqn:Ht.
  inversion H; subst. clear H.
  destruct (text_run_pre _ _ _ _ Ht) as (run & E & Hall & Hr & Hit).
  exists run.
  assert (Hne : run <> []).
  { intros ->. cbn [app] in E. subst r1. cbn [starts_with_text] in Hr.
    unfold is_text_byte in Hr. apply orb_false_iff in Hctl. destruct Hctl as [E1 E2].
    rewrite E2 in Hr. apply Z.ltb_ge in E1. cbn [negb] in Hr. rewrite andb_true_r in Hr.
    apply Z.leb_gt in Hr. lia. }
  split; [exact Hne|]. split; [exact E|]. split; [exact Hall|]. split; [exact Hr|].
  cbn [text set_text _state set_kind]. split; [|split; [exact Hit|exact Es]].
  f_equal. rewrite Hit. unfold to_usize. rewrite Z.mod_small; [lia|].
  split; [lia|]. rewrite E, length_app in Hlen. lia.
Qed.

(** The text [hi] in front of a line feed. *)
Lemma vt_text_token_witness :
  exists run,
    run <> [] /\ [0x68; 0x69; 0x0a] = run ++ [0x0a] /\
    Forall (fun c => is_text_byte c = true) run /\
    starts_with_text [0x0a] = false /\
    mk_s8 7 2 0 = mk_s8 7 (Z.of_nat (length run)) (cap (text vt_parser_state_zero)) /\
    9 = 7 + Z.of_nat (length run) /\
    VT_PARSER_STATE_KIND_GROUND = VT_PARSER_STATE_KIND_GROUND.
Proof.
  refine (vt_text_token vt_parser_state_zero 7 [0x68; 0x69; 0x0a]
            (mkVtParserState VT_PARSER_STATE_KIND_GROUND VT_TOKEN_KIND_TEXT (mk_s8 7 2 0)
               0 0 0 csi_zero s8_zero s8_zero) 9 [0x0a] _ _ _).
  - vm_compute. reflexivity.
  - vm_compute. reflexivity.
  - reflexivity.
Defined.

(* ---- more separators than parameter slots ---- *)

Lemma csi_loop_separators (n : nat) : forall st it rest,
  0 <= param_count (csi st) -> param_count (csi st) + Z.of_nat n + 1 < 2 ^ 31 ->
  csi_loop st it (replicate n 0x3b ++ 0x6d :: rest)
  = (set_csi (mkCsiState (params (csi st)) (param_count (csi st) + Z.of_nat n + 1)
                (private_byte (csi st)) 0x6d)
       (set_kind VT_TOKEN_KIND_CSI (set_state VT_PARSER_STATE_KIND_GROUND st)),
     it + Z.of_nat n + 1, rest).
Proof.
  induction n as [|n IH]; intros st it rest H0 Hlt.
  - cbn [replicate app csi_loop]. change (is_digit 109) with false. cbv iota.
    change ((64 <=? 109) && (109 <=? 126)) with true. cbv iota.
    rewrite wrap32_small by (change (2 ^ 31) with 2147483648 in *; lia).
    cbn [Z.of_nat]. rewrite !Z.add_0_r. reflexivity.
  - cbn [replicate app csi_loop]. change (is_digit 59) with false. cbv iota.
    change ((64 <=? 59) && (59 <=? 126)) with false. cbv iota.
    change (59 =? 59) with true. cbv iota.
    change ((60 <=? 59) && (59 <=? 63)) with false. cbv iota.
    rewrite IH; cbn [csi set_csi param_count params private_byte final_byte];
      rewrite ?wrap32_small by (change (2 ^ 31) with 2147483648 in *; lia); try lia.
    replace (param_count (csi st) + 1 + Z.of_nat n + 1)
      with (param_count (csi st) + Z.of_nat (S n) + 1) by lia.
    replace (it + 1 + Z.of_nat n + 1) with (it + Z.of_nat (S n) + 1) by lia.
    destruct st as [s k t c e s3 cs o d]. reflexivity.
Qed.

Lemma vt_loop_in_csi st it l :
  _state st = VT_PARSER_STATE_KIND_CSI -> vt_loop st it l = Some (csi_loop st it l).
Proof.
  intros Hs. destruct l as [|c l]; [reflexivity|]. cbn [vt_loop]. rewrite Hs. reflexivity.
Qed.

(** X15. The number of parameters of a CSI sequence is not bounded by the 32
    slots: after [ESC \[], [n] semicolons and a final byte, [param_count] is
    [n + 1], and the next [ESC \[] clears [params] from index [param_count -
    1] down. The model has no result (a store behind the end of the array)
    exactly when [n] is 32 or more. *)
Theorem csi_separators_overflow (n : nat) :
  Z.of_nat n + 1 < 2 ^ 31 ->
  (vt_feed vt_parser_state_zero 0 (separators_then_csi n) = None <-> (32 <= n)%nat).
Proof.
  intros Hn. unfold separators_then_csi, vt_feed.
  set (fuel := length _).
  assert (Hfuel : (2 <= fuel)%nat).
  { unfold fuel. rewrite !length_app. cbn [length]. lia. }
  destruct fuel as [|[|fuel]]; [lia|lia|]. clear Hfuel.
  cbn [app]. cbn [vt_tokens]. unfold vt_parse_next_token at 1.
  cbn [vt_loop _state set_kind vt_parser_state_zero set_state].
  change (27 =? 27) with true. cbv iota. change (91 =? 91) with true. cbv iota.
  change (csi_reset (csi _)) with (Some csi_zero). cbv iota.
  cbn [_state set_csi set_state].
  rewrite vt_loop_in_csi by reflexivity.
  rewrite csi_loop_separators; cbn [csi set_csi param_count csi_zero]; [|lia|lia].
  cbv beta iota.
  match goal with
  | |- context [vt_parse_next_token ?s _ _] => set (st1 := s)
  end.
  assert (Hs1 : _state st1 = VT_PARSER_STATE_KIND_GROUND) by reflexivity.
  assert (Hc1 : param_count (csi st1) = 0 + Z.of_nat n + 1) by reflexivity.
  unfold vt_parse_next_token. cbn [vt_loop _state set_kind]. rewrite Hs1.
  change (27 =? 27) with true. cbv iota. cbn [_state set_state].
  change (91 =? 91) with true. cbv iota.
  unfold csi_reset. cbn [csi set_state set_kind]. rewrite Hc1.
  destruct (0 + Z.of_nat n + 1 >? 32) eqn:E.
  - rewrite Z.gtb_ltb in E. apply Z.ltb_lt in E. split; [intros _; lia|reflexivity].
  - rewrite Z.gtb_ltb in E. apply Z.ltb_ge in E. cbn [vt_loop].
    destruct fuel; cbn [vt_tokens]; split; try discriminate; lia.
Qed.

Lemma csi_separators_overflow_witness :
  vt_feed vt_parser_state_zero 0 (separators_then_csi 32) = None /\
  exists r, vt_feed vt_parser_state_zero 0 (separators_then_csi 31) = Some r.
Proof.
  split.
  - apply (csi_separators_overflow 32); [vm_compute; reflexivity|lia].
  - destruct (vt_feed vt_parser_state_zero 0 (separators_then_csi 31)) as [r|] eqn:E;
      [exists r; reflexivity|].
    apply (csi_separators_overflow 31) in E; [lia|vm_compute; reflexivity].
Defined.

(** The string terminator [ESC \\] of an OSC or DCS string that is split
    between two reads: the call that finds the [\\] returns the string, but
    it leaves the parser in the state OSC_ESC or DCS_ESC, so what follows is
    read as part of a string again. [ESC \] 0 ESC] and [\\ a b] give three
    OSC tokens; in one buffer the same bytes give one OSC token and the text
    [ab]. *)
Lemma osc_terminator_split :
  (forall st it l,
     _state st = VT_PARSER_STATE_KIND_OSC_ESC \/ _state st = VT_PARSER_STATE_KIND_DCS_ESC ->
     exists st',
       vt_parse_next_token st it (0x5c :: l) = Some (st', it + 1, l) /\
       _state st' = _state st /\
       (kind st' = VT_TOKEN_KIND_OSC \/ kind st' = VT_TOKEN_KIND_DCS)) /\
  tokens_of (vt_feed_then vt_parser_state_zero 0 [0x1b; 0x5d; 0x30; 0x1b] [0x5c; 0x61; 0x62])
  = Some [TokOsc (mk_s8 2 1 0); TokOsc (mk_s8 2 3 0); TokOsc (mk_s8 2 5 0)] /\
  tokens_of (vt_feed vt_parser_state_zero 0 ([0x1b; 0x5d; 0x30; 0x1b] ++ [0x5c; 0x61; 0x62]))
  = Some [TokOsc (mk_s8 2 1 0); TokText (mk_s8 5 2 0)].
Proof.
  split; [|split; vm_compute; reflexivity].
  intros st it l [H|H]; unfold vt_parse_next_token; cbn [vt_loop];
    change (_state (set_kind VT_TOKEN_KIND_PENDING st)) with (_state st); rewrite H;
    change (92 =? 92) with true; cbv iota;
    (eexists; split; [reflexivity|]); cbn; rewrite H; auto.
Qed.

End VtMore.

(** ** input.c: every input *)

Module InputMore.

Import Vt Input VtInv VtFacts VtMore Basics.

Lemma classify_event_not_none st i : classify st = Event i -> i <> UI_INPUT_NONE.
Proof.
  unfold classify, classify_csi, parse_modifiers. intros H Hn. subst i.
  repeat match type of H with
         | context [match ?x with _ => _ end] => destruct x; try discriminate
         end.
Qed.

Lemma get_next_ui_input_suffix fuel : forall st it l ev st1 it1 r1,
  get_next_ui_input fuel st it l = Some (ev, st1, it1, r1) ->
  (exists pre, l = pre ++ r1 /\ it1 = it + Z.of_nat (length pre) /\ (l <> [] -> pre <> [])) /\
  (ev = UI_INPUT_NONE -> r1 = []).
Proof.
  induction fuel as [|fuel IH]; intros st it l ev st1 it1 r1 H.
  - destruct l as [|c l]; cbn [get_next_ui_input] in H; [|discriminate].
    inversion H; subst. split; [|reflexivity]. exists []. cbn [length app]. split; [reflexivity|].
    split; [lia|congruence].
  - destruct l as [|c l]; cbn [get_next_ui_input] in H.
    { inversion H; subst. split; [|reflexivity]. exists []. cbn [length app].
      split; [reflexivity|]. split; [lia|congruence]. }
    destruct (vt_parse_next_token st it (c :: l)) as [[[st' it'] l']|] eqn:Ev; [|discriminate].
    unfold vt_parse_next_token in Ev.
    destruct (vt_loop_it _ _ _ _ _ _ Ev) as (H1 & H2 & H3).
    destruct (vt_loop_pre _ _ _ _ _ _ Ev) as [pre E].
    assert (Hpre : pre <> []).
    { intros ->. cbn [app] in E. subst l'. specialize (H3 ltac:(discriminate)). lia. }
    assert (Hit : it' = it + Z.of_nat (length pre)).
    { rewrite E, length_app in H1. lia. }
    destruct (classify st') as [i| |] eqn:Ec; [| |discriminate].
    + inversion H; subst. split.
      * exists pre. split; [exact E|]. split; [exact Hit|]. intros _. exact Hpre.
      * intros Hn. exfalso. exact (classify_event_not_none _ _ Ec Hn).
    + apply IH in H. destruct H as [(pre2 & E2 & Hit2 & _) Hnone]. split; [|exact Hnone].
      exists (pre ++ pre2). rewrite E, E2, app_assoc. split; [reflexivity|].
      split; [rewrite length_app; lia|]. intros _ Hnil. apply app_eq_nil in Hnil. tauto.
Qed.

(** X16. Whenever [get_next_ui_input] returns, it has consumed a prefix of the
    input, at least one byte if the input was not empty, and nothing but that
    prefix; and it returns [UI_INPUT_NONE] only when the whole input is
    consumed. *)
Theorem get_next_ui_input_consumes fuel st it l ev st1 it1 r1 :
  get_next_ui_input fuel st it l = Some (ev, st1, it1, r1) ->
  it <= it1 <= it + Z.of_nat (length l) /\
  (l <> [] -> it < it1) /\
  r1 = drop (Z.to_nat (it1 - it)) l /\
  (ev = UI_INPUT_NONE -> r1 = []).
Proof.
  intros H. destruct (get_next_ui_input_suffix _ _ _ _ _ _ _ _ H) as [(pre & E & Hit & Hne) Hn].
  subst l. rewrite length_app. split; [lia|]. split.
  - intros Hl. specialize (Hne Hl). destruct pre; [congruence|cbn [length] in Hit; lia].
  - split; [|exact Hn].
    replace (Z.to_nat (it1 - it)) with (length pre) by lia.
    rewrite drop_app_length. reflexivity.
Qed.

(** [ESC \[ A] in front of the text [x]: one key, and [x] is left. *)
Lemma get_next_ui_input_consumes_witness :
  0 <= 3 <= 0 + Z.of_nat (length [0x1b; 0x5b; 0x41; 0x78]) /\
  ([0x1b; 0x5b; 0x41; 0x78] <> [] -> 0 < 3) /\
  [0x78] = drop (Z.to_nat (3 - 0)) [0x1b; 0x5b; 0x41; 0x78] /\
  (UI_INPUT_KEYBOARD (mkUiInputKeyboard VK_UP 0) = UI_INPUT_NONE -> [0x78] = []).
Proof.
  eapply (get_next_ui_input_consumes 4 vt_parser_state_zero 0 [0x1b; 0x5b; 0x41; 0x78]).
  vm_compute. reflexivity.
Defined.

(** X17. With a well-formed CSI state the classifier of [get_next_ui_input]
    reads outside its two key tables in exactly two cases: a CSI token with a
    final byte below [A] (this is [@], the only final byte below [A] that the
    tokenizer accepts), which reads in front of the table of the cursor keys,
    and [CSI 35 ~], which reads one entry behind the table of the keys that
    end in a tilde. *)
Theorem classify_undefined st :
  csi_ok (csi st) ->
  (classify st = Undefined <->
   kind st = VT_TOKEN_KIND_CSI /\
   (final_byte (csi st) < 0x41 \/
    (final_byte (csi st) = 0x7e /\ params (csi st) !!! 0%nat = 35))).
Proof.
  intros (Hl & Hf & _).
  assert (Hp0 : 0 <= params (csi st) !!! 0%nat <= 0xffff).
  { destruct (lookup_lt_is_Some_2 (params (csi st)) 0) as [p Hp]; [lia|].
    rewrite (list_lookup_total_correct _ _ _ Hp).
    exact (Forall_lookup_1 _ _ _ _ Hf Hp). }
  unfold classify. destruct (kind st) eqn:Ek.
  1-4,6-8:
    split; [|intros [? _]; discriminate];
    repeat match goal with
           | |- context [if ?b then _ else _] => destruct b
           end; discriminate.
  unfold classify_csi. set (fb := final_byte (csi st)). set (p0 := params (csi st) !!! 0%nat) in *.
  destruct (fb <=? 0x48) eqn:E1.
  { apply Z.leb_le in E1.
    destruct (fb <? 0x41) eqn:E2.
    - apply Z.ltb_lt in E2. destruct (lut_cursor_keys !! Z.to_nat (fb - 65)); split; auto.
    - apply Z.ltb_ge in E2.
      destruct (lookup_lt_is_Some_2 lut_cursor_keys (Z.to_nat (fb - 65))) as [vk Hvk].
      { cbn [lut_cursor_keys length]. lia. }
      rewrite Hvk. split.
      + destruct (vk =? 0); discriminate.
      + intros [_ [H|[H _]]]; lia. }
  apply Z.leb_gt in E1.
  destruct (fb =? 0x7e) eqn:E3.
  { apply Z.eqb_eq in E3.
    rewrite (to_usize_small p0) by (change (2 ^ 64) with 18446744073709551616; lia).
    destruct (p0 <=? 35) eqn:E4.
    - apply Z.leb_le in E4. destruct (decide (p0 = 35)) as [E5|E5].
      + rewrite E5. change (lut_tilde !! Z.to_nat 35) with (@None Z). split; auto.
      + destruct (lookup_lt_is_Some_2 lut_tilde (Z.to_nat p0)) as [vk Hvk].
        { cbn [lut_tilde length]. lia. }
        rewrite Hvk. split.
        * destruct (vk =? 0); discriminate.
        * intros [_ [H|[_ H]]]; lia.
    - apply Z.leb_gt in E4. split; [discriminate|]. intros [_ [H|[_ H]]]; lia. }
  apply Z.eqb_neq in E3.
  split; [|intros [_ [H|[H _]]]; lia].
  repeat match goal with
         | |- context [if ?b then _ else _] => destruct b
         end; try discriminate.
  all: destruct (if Z.testbit p0 6 then _ else _); discriminate.
Qed.

(** [ESC \[ 3 5 ~] reads one entry past the end of the table of the keys
    that end in a tilde. *)
Lemma classify_undefined_witness : classify after_csi_35_tilde = Undefined.
Proof.
  apply (classify_undefined after_csi_35_tilde).
  - split; [reflexivity|]. split; [|vm_compute; split; [discriminate|reflexivity]].
    vm_compute. repeat (apply List.Forall_cons; [split; discriminate|]).
    apply List.Forall_nil.
  - split; [reflexivity|]. right. split; reflexivity.
Defined.

End InputMore.

(** ** buffer.c: the gap buffer, editing and the undo log *)

Module BufferMore.

Import Ucd Buffer BufferInv BufferEdit Basics ArenaFacts.

Lemma map_seqZ_ext (f g : Z -> Z) (m n : Z) :
  (forall i, m <= i < m + n -> f i = g i) -> map f (seqZ m n) = map g (seqZ m n).
Proof.
  intros H. apply map_ext_in. intros i Hi.
  apply list_elem_of_In, elem_of_seqZ in Hi. apply H. exact Hi.
Qed.

Lemma map_seqZ_shift (f : Z -> Z) (m n d : Z) :
  map f (seqZ (m + d) n) = map (fun i => f (i + d)) (seqZ m n).
Proof.
  apply list_eq. intros i.
  change (map ?f ?l) with (f <$> l).
  rewrite !list_lookup_fmap, !lookup_seqZ_eq.
  destruct (decide _); [|reflexivity]. cbn. f_equal. f_equal. lia.
Qed.

Lemma extract_byte_at (tb : TextBuffer) (b e : Z) :
  gap_ok tb -> 0 <= b -> b <= e <= text_length tb ->
  text_buffer_extract tb b e = map (byte_at tb) (seqZ b (e - b)).
Proof.
  intros (Hg & Hl & _) Hb He. unfold text_buffer_extract.
  destruct (b >=? e) eqn:E1.
  { assert (b = e) by lia. subst. rewrite orb_true_l, Z.sub_diag. reflexivity. }
  destruct (e >? text_length tb) eqn:E2; [lia|]. cbn [orb].
  rewrite min_u64_min, max_u64_max. unfold slice_bytes. cbn [beg len].
  replace (e - b) with (Z.max 0 (Z.min e (gap_off tb) - b) + Z.max 0 (e - Z.max b (gap_off tb)))
    by lia.
  rewrite seqZ_app by lia. rewrite map_app. f_equal.
  - destruct (b <? gap_off tb) eqn:E3.
    + replace (Z.max 0 (Z.min e (gap_off tb) - b)) with (Z.min e (gap_off tb) - b) by lia.
      apply map_seqZ_ext. intros i Hi. unfold byte_at.
      destruct (i <? gap_off tb) eqn:E4; [reflexivity|lia].
    + rewrite seqZ_nil by lia. reflexivity.
  - destruct (e >? gap_off tb) eqn:E3.
    + replace (Z.max 0 (e - Z.max b (gap_off tb))) with (e - Z.max b (gap_off tb)) by lia.
      replace (b + Z.max 0 (Z.min e (gap_off tb) - b)) with (Z.max b (gap_off tb)) by lia.
      replace (gap_len tb + Z.max b (gap_off tb)) with (Z.max b (gap_off tb) + gap_len tb) by lia.
      rewrite map_seqZ_shift. apply map_seqZ_ext. intros i Hi. unfold byte_at.
      destruct (i <? gap_off tb) eqn:E4; [lia|reflexivity].
    + rewrite seqZ_nil by lia. reflexivity.
Qed.

Lemma contents_byte_at (tb : TextBuffer) :
  gap_ok tb -> contents tb = map (byte_at tb) (seqZ 0 (text_length tb)).
Proof.
  intros H. unfold contents. rewrite extract_byte_at; [|exact H|lia|].
  - rewrite Z.sub_0_r. reflexivity.
  - destruct H as (? & ? & ?). lia.
Qed.

Lemma length_contents (tb : TextBuffer) :
  gap_ok tb -> Z.of_nat (length (contents tb)) = text_length tb.
Proof.
  intros H. rewrite contents_byte_at by exact H. rewrite length_map, length_seqZ.
  destruct H as (? & ? & ?). lia.
Qed.

(** X18. [text_buffer_extract(tb, beg, end)] copies the bytes of the document
    from offset [beg] up to, not including, [end], wherever the gap lies:
    the byte at an offset before the gap is read at that offset of the
    memory, a byte behind the gap [gap_len] places further on. It copies
    nothing when [beg] is not below [end] or [end] lies behind the end of
    the document. So the whole document, [contents], is the bytes before the
    gap followed by the bytes behind it. *)
Theorem text_buffer_extract_bytes (tb : TextBuffer) (b e : Z) :
  gap_ok tb -> 0 <= b ->
  text_buffer_extract tb b e
  = (if (b <? e) && (e <=? text_length tb)
     then map (fun i => text tb (if i <? gap_off tb then i else i + gap_len tb))
            (seqZ b (e - b))
     else []) /\
  contents tb
  = map (text tb) (seqZ 0 (gap_off tb))
    ++ map (text tb) (seqZ (gap_off tb + gap_len tb) (text_length tb - gap_off tb)).
Proof.
  intros H Hb. split.
  - destruct ((b <? e) && (e <=? text_length tb)) eqn:E.
    + apply andb_true_iff in E. destruct E as [E1 E2].
      apply Z.ltb_lt in E1. apply Z.leb_le in E2.
      rewrite extract_byte_at by (try exact H; lia). reflexivity.
    + unfold text_buffer_extract.
      destruct (b >=? e) eqn:E1; [reflexivity|].
      destruct (e >? text_length tb) eqn:E2; [reflexivity|].
      apply andb_false_iff in E. destruct E as [E|E];
        [apply Z.ltb_ge in E|apply Z.leb_gt in E]; lia.
  - rewrite contents_byte_at by exact H.
    destruct H as (Hg & Hl & _).
    replace (text_length tb) with (gap_off tb + (text_length tb - gap_off tb)) at 1 by lia.
    rewrite seqZ_app by lia. rewrite map_app. f_equal.
    + apply map_seqZ_ext. intros i Hi. unfold byte_at.
      destruct (Z.ltb_spec i (gap_off tb)); [reflexivity|lia].
    + rewrite Z.add_0_l, map_seqZ_shift. apply map_seqZ_ext. intros i Hi. unfold byte_at.
      destruct (Z.ltb_spec i (gap_off tb)); [lia|reflexivity].
Qed.


(** An operation returned the buffer that an example names. *)
Ltac returns_example :=
  match goal with
  | |- ?f = Done ?x =>
    unfold x; destruct f eqn:E; [reflexivity| |];
    apply (f_equal (fun o => match o with Done _ => true | _ => false end)) in E;
    vm_compute in E; discriminate E
  end.

(** A buffer is well formed when it is created. *)
Lemma text_buffer_create_ok : gap_ok text_buffer_create /\ undo_ok text_buffer_create.
Proof. by_eval. Qed.

Lemma example_buffer_ok : gap_ok example_buffer /\ undo_ok example_buffer.
Proof. by_eval. Qed.

(** The bytes [b] and [c] of [abcd] lie on either side of the gap. *)
Lemma text_buffer_extract_bytes_witness :
  gap_off example_buffer = 2 /\ text_buffer_extract example_buffer 1 3 = [0x62; 0x63].
Proof.
  split; [vm_compute; reflexivity|].
  destruct (text_buffer_extract_bytes example_buffer 1 3) as [H _];
    [apply example_buffer_ok|lia|].
  rewrite H. vm_compute. reflexivity.
Defined.

Lemma allocator_realloc_spec (n : Z) :
  0 <= n < 2 ^ 62 ->
  match allocator_realloc n with
  | Done c => n <= c < n + TEXT_BUFFER_ALLOC_CHUNK_BYTES /\
              c mod TEXT_BUFFER_ALLOC_CHUNK_BYTES = 0 /\
              c <= TEXT_BUFFER_ALLOC_MAX_BYTES
  | Abort => TEXT_BUFFER_ALLOC_MAX_BYTES < n
  | OutOfFuel => False
  end.
Proof.
  intros Hn. unfold allocator_realloc, TEXT_BUFFER_ALLOC_CHUNK_BYTES, TEXT_BUFFER_ALLOC_MAX_BYTES.
  change (2 ^ 62) with 4611686018427387904 in Hn.
  rewrite to_usize_small by (change (2 ^ 64) with 18446744073709551616; lia).
  pose proof (round_up_pow2 n 16 ltac:(lia) ltac:(lia)) as H. cbv zeta in H.
  change (2 ^ 16) with 65536 in H.
  set (c := Z.land (n + 65536 - 1) (Z.lnot (65536 - 1))) in *.
  destruct (c >? 2147483648) eqn:E; [|lia].
  destruct H as [H1 H2]. apply Z.mod_divide in H1; [|lia].
  destruct H1 as [q Hq]. lia.
Qed.

Lemma gap_moved (tb : TextBuffer) (o i : Z) :
  0 <= gap_off tb <= text_length tb -> 0 <= gap_len tb ->
  0 <= o <= text_length tb -> 0 <= i < text_length tb ->
  (if negb (o =? gap_off tb) && (gap_len tb >? 0) then
      let left_ := o <? gap_off tb in
      let move_src := if left_ then o else gap_off tb + gap_len tb in
      let move_dst := if left_ then o + gap_len tb else gap_off tb in
      let move_len := if left_ then gap_off tb - o else o - gap_off tb in
      memmove (text tb) move_dst move_src move_len
    else text tb) (if i <? o then i else i + gap_len tb) = byte_at tb i.
Proof.
  intros Hg Hl Ho Hi. unfold byte_at, memmove. cbv zeta.
  destruct (Z.eqb_spec o (gap_off tb)) as [->|Hne]; [reflexivity|].
  cbn [negb andb].
  destruct (gap_len tb >? 0) eqn:E2.
  - destruct (Z.ltb_spec o (gap_off tb)); destruct (Z.ltb_spec i o);
      destruct (Z.ltb_spec i (gap_off tb)); try lia;
      match goal with
      | |- (if (?a <=? ?b) && (?c <? ?d) then _ else _) = _ =>
        destruct (Z.leb_spec a b); destruct (Z.ltb_spec c d); cbn [andb]
      end; try lia; f_equal; lia.
  - assert (gap_len tb = 0) as -> by lia. rewrite Z.add_0_r.
    destruct (i <? o), (i <? gap_off tb); reflexivity.
Qed.

Lemma allocate_gap_impl_spec (tb : TextBuffer) (off len_ : Z) :
  gap_ok tb -> 0 <= off -> 0 <= len_ < 2 ^ 31 ->
  match text_buffer_allocate_gap_impl tb off len_ with
  | Done tb' =>
    (forall i, 0 <= i < text_length tb -> byte_at tb' i = byte_at tb i) /\
    text_length tb' = text_length tb /\
    gap_off tb' = Z.min off (text_length tb) /\
    len_ <= gap_len tb' /\ gap_len tb <= gap_len tb' /\
    gap_ok tb' /\ same_but_gap tb tb'
  | Abort => gap_len tb < len_ /\
             2 ^ 31 - 2 ^ 13 < sizeof_TextBuffer + text_length tb + len_
  | OutOfFuel => False
  end.
Proof.
  intros (Hg & Hl & Hc & Hm) Ho Hlen.
  unfold sizeof_TextBuffer, TEXT_BUFFER_ALLOC_MAX_BYTES in *.
  change (2 ^ 31) with 2147483648 in *. change (2 ^ 13) with 8192.
  unfold text_buffer_allocate_gap_impl.
  rewrite min_u64_min. set (o := Z.min off (text_length tb)).
  rewrite (to_usize_small (gap_off tb + gap_len tb))
    by (change (2 ^ 64) with 18446744073709551616; lia).
  rewrite (to_usize_small (o + gap_len tb))
    by (change (2 ^ 64) with 18446744073709551616; unfold o; lia).
  pose proof (fun i => gap_moved tb o i Hg Hl ltac:(unfold o; lia)) as H1.
  cbv zeta in H1.
  set (data1 := if negb (o =? gap_off tb) && (gap_len tb >? 0) then _ else text tb) in *.
  destruct (len_ >? gap_len tb) eqn:E.
  - unfold TEXT_BUFFER_GAP_CHUNK_BYTES, sizeof_TextBuffer.
    change (4096 / 2) with 2048.
    rewrite (to_usize_small (len_ + 2048 + 4096 - 1))
      by (change (2 ^ 64) with 18446744073709551616; lia).
    pose proof (round_up_pow2 (len_ + 2048) 12 ltac:(lia) ltac:(lia)) as H. cbv zeta in H.
    change (2 ^ 12) with 4096 in H.
    set (G := Z.land (len_ + 2048 + 4096 - 1) (Z.lnot (4096 - 1))) in *.
    rewrite (to_usize_small (160 + text_length tb + G))
      by (change (2 ^ 64) with 18446744073709551616; lia).
    set (bytes_new := 160 + text_length tb + G).
    assert (Hc' : match (if bytes_new >? main_commit tb then allocator_realloc bytes_new
                          else Done (main_commit tb)) with
                  | Done c => bytes_new <= c /\ c <= 2147483648
                  | Abort => 2147483648 < bytes_new
                  | OutOfFuel => False
                  end).
    { destruct (bytes_new >? main_commit tb) eqn:E1; [|lia].
      pose proof (allocator_realloc_spec bytes_new) as H2.
      unfold TEXT_BUFFER_ALLOC_MAX_BYTES, TEXT_BUFFER_ALLOC_CHUNK_BYTES in H2.
      change (2 ^ 62) with 4611686018427387904 in H2.
      destruct (allocator_realloc bytes_new);
        [assert (0 <= bytes_new < 4611686018427387904) as H3 by (unfold bytes_new; lia);
         specialize (H2 H3); lia
        |apply H2; unfold bytes_new; lia|apply H2; unfold bytes_new; lia]. }
    destruct (if bytes_new >? main_commit tb then _ else _) as [c| |];
      cbn [mbind outcome_bind]; [|unfold bytes_new in Hc'; lia|exact Hc'].
    unfold gap_ok, same_but_gap, sizeof_TextBuffer, TEXT_BUFFER_ALLOC_MAX_BYTES.
    cbn [set_gap text_length gap_off gap_len main_commit text].
    split; [|unfold bytes_new in Hc'; repeat split; try reflexivity; unfold o; lia].
    intros i Hi. rewrite <- (H1 i Hi). unfold byte_at at 1.
    cbn [set_gap text_length gap_off gap_len main_commit text]. unfold memmove at 1.
    destruct (Z.ltb_spec i o);
      match goal with
      | |- (if (?a <=? ?b) && (?c <? ?d) then _ else _) = _ =>
        destruct (Z.leb_spec a b); destruct (Z.ltb_spec c d); cbn [andb]
      end; try lia; f_equal; lia.
  - cbn [mbind outcome_bind].
    unfold gap_ok, same_but_gap, sizeof_TextBuffer, TEXT_BUFFER_ALLOC_MAX_BYTES.
    cbn [set_gap text_length gap_off gap_len main_commit text].
    split; [|repeat split; try reflexivity; unfold o; lia].
    intros i Hi. rewrite <- (H1 i Hi). reflexivity.
Qed.

Lemma contents_ext (tb tb' : TextBuffer) :
  gap_ok tb -> gap_ok tb' -> text_length tb' = text_length tb ->
  (forall i, 0 <= i < text_length tb -> byte_at tb' i = byte_at tb i) ->
  contents tb' = contents tb.
Proof.
  intros H H' Hl Hb. rewrite !contents_byte_at by assumption. rewrite Hl.
  apply map_seqZ_ext. intros i Hi. apply Hb. lia.
Qed.

Lemma allocate_gap_spec (tb : TextBuffer) (off len_ : Z) :
  gap_ok tb -> 0 <= off -> 0 <= len_ < 2 ^ 31 ->
  match text_buffer_allocate_gap tb off len_ with
  | Done tb' =>
    (forall i, 0 <= i < text_length tb -> byte_at tb' i = byte_at tb i) /\
    text_length tb' = text_length tb /\
    gap_off tb' = Z.min off (text_length tb) /\
    len_ <= gap_len tb' /\ gap_len tb <= gap_len tb' /\
    gap_ok tb' /\ same_but_gap tb tb'
  | Abort => gap_len tb < len_ /\
             2 ^ 31 - 2 ^ 13 < sizeof_TextBuffer + text_length tb + len_
  | OutOfFuel => False
  end.
Proof.
  intros H Ho Hlen. unfold text_buffer_allocate_gap.
  destruct (negb (off =? gap_off tb) || (len_ >? gap_len tb)) eqn:E.
  - apply allocate_gap_impl_spec; assumption.
  - apply orb_false_iff in E. destruct E as [E1 E2].
    apply negb_false_iff, Z.eqb_eq in E1.
    pose proof H as (Hg & Hl & Hc & Hm).
    repeat split; try lia; try apply H.
    destruct tb; reflexivity.
Qed.

(** X19. [text_buffer_allocate_gap(tb, off, len)] does not change the
    document: afterwards the gap lies at [off] (at the end of the text if
    [off] lies behind it) and has room for at least [len] bytes, the text is
    the same, nothing but the gap, the memory and its committed size has
    changed, and the buffer is well formed. It aborts only when the gap has to
    grow and struct, text and the new gap come within 8 KiB of the 2 GiB that
    may be committed. *)
Theorem text_buffer_allocate_gap_keeps_text (tb : TextBuffer) (off len_ : Z) :
  gap_ok tb -> 0 <= off -> 0 <= len_ < 2 ^ 31 ->
  match text_buffer_allocate_gap tb off len_ with
  | Done tb' =>
    contents tb' = contents tb /\ text_length tb' = text_length tb /\
    gap_off tb' = Z.min off (text_length tb) /\ len_ <= gap_len tb' /\
    gap_ok tb' /\ same_but_gap tb tb'
  | Abort => gap_len tb < len_ /\
             2 ^ 31 - 2 ^ 13 < sizeof_TextBuffer + text_length tb + len_
  | OutOfFuel => False
  end.
Proof.
  intros H Ho Hlen. pose proof (allocate_gap_spec tb off len_ H Ho Hlen) as Hs.
  destruct (text_buffer_allocate_gap tb off len_) as [tb'| |]; [|exact Hs|exact Hs].
  destruct Hs as (Hb & Hl & Hoff & Hge & _ & Hok & Hsame).
  repeat split; try assumption; try apply Hok.
  apply contents_ext; assumption.
Qed.

Lemma text_buffer_allocate_gap_keeps_text_witness :
  match text_buffer_allocate_gap example_buffer 4 5000 with
  | Done tb' =>
    contents tb' = contents example_buffer /\
    text_length tb' = text_length example_buffer /\
    gap_off tb' = Z.min 4 (text_length example_buffer) /\ 5000 <= gap_len tb' /\
    gap_ok tb' /\ same_but_gap example_buffer tb'
  | Abort => gap_len example_buffer < 5000 /\
             2 ^ 31 - 2 ^ 13 < sizeof_TextBuffer + text_length example_buffer + 5000
  | OutOfFuel => False
  end.
Proof.
  apply (text_buffer_allocate_gap_keeps_text example_buffer 4 5000);
    [apply example_buffer_ok|lia|lia].
Defined.

Lemma same_but_gap_fields (tb tb' : TextBuffer) :
  same_but_gap tb tb' ->
  cursor tb' = cursor tb /\ overtype tb' = overtype tb /\
  undo_usage tb' = undo_usage tb /\ undo_commit tb' = undo_commit tb /\
  undo_tail tb' = undo_tail tb /\ undo_mem tb' = undo_mem tb /\
  undo_base tb' = undo_base tb /\ selection tb' = selection tb /\
  word_wrap_columns tb' = word_wrap_columns tb /\ dirty tb' = dirty tb /\
  stats_lines tb' = stats_lines tb.
Proof. intros H. rewrite H. cbn. repeat split. Qed.

Lemma record_push_change_spec (tb : TextBuffer) (b e : Z) (repl : list Z) :
  undo_ok tb -> 0 <= b <= e -> e <= text_length tb -> text_length tb <= 2 ^ 31 ->
  Z.of_nat (length repl) < 2 ^ 31 ->
  let space := sizeof_TextBufferChange + (e - b) + Z.of_nat (length repl) in
  match text_buffer_record_push_change tb b e repl with
  | Done tb' =>
    tb' = mkTextBuffer (main_commit tb) (text tb) (text_length tb) (gap_off tb)
            (gap_len tb) true (undo_mem tb') (Some (undo_usage tb)) (undo_usage tb')
            (undo_usage tb') (stats_lines tb) (cursor tb) (selection tb)
            (word_wrap_columns tb) true (overtype tb) /\
    undo_ok tb' /\
    undo_usage tb + space <= undo_usage tb' < undo_usage tb + space + TEXT_BUFFER_ALLOC_CHUNK_BYTES /\
    undo_mem tb' (undo_usage tb)
    = mkTextBufferChange (undo_tail tb) None (cursor tb) (text_buffer_extract tb b e) repl /\
    (undo_tail tb <> None -> 0 < undo_usage tb ->
     prev (undo_mem tb' 0) = None /\ change_cursor (undo_mem tb' 0) = cursor_zero /\
     removed (undo_mem tb' 0) = [] /\ inserted (undo_mem tb' 0) = [])
  | Abort => TEXT_BUFFER_ALLOC_MAX_BYTES < undo_usage tb + space
  | OutOfFuel => False
  end.
Proof.
  intros (Hu & Hr & Hm) Hb He Hl Hn space.
  unfold TEXT_BUFFER_ALLOC_MAX_BYTES, TEXT_BUFFER_ALLOC_CHUNK_BYTES, sizeof_TextBufferChange in *.
  change (2 ^ 31) with 2147483648 in *.
  unfold text_buffer_record_push_change.
  destruct (b >? e) eqn:E1; [lia|]. destruct (e >? text_length tb) eqn:E2; [lia|].
  cbn [orb]. unfold sizeof_TextBufferChange.
  rewrite (to_usize_small (88 + (e - b) + Z.of_nat (length repl)))
    by (change (2 ^ 64) with 18446744073709551616; lia).
  fold space.
  rewrite (to_usize_small (undo_usage tb + space))
    by (change (2 ^ 64) with 18446744073709551616; unfold space; lia).
  destruct (undo_usage tb + space >? undo_commit tb) eqn:E3; [|unfold space in *; lia].
  pose proof (allocator_realloc_spec (undo_usage tb + space)) as Ha.
  unfold TEXT_BUFFER_ALLOC_MAX_BYTES, TEXT_BUFFER_ALLOC_CHUNK_BYTES in Ha.
  change (2 ^ 62) with 4611686018427387904 in Ha.
  destruct (allocator_realloc (undo_usage tb + space)) as [l| |];
    cbn [mbind outcome_bind]; [|apply Ha; unfold space; lia|apply Ha; unfold space; lia].
  assert (0 <= undo_usage tb + space < 4611686018427387904) as H3 by (unfold space; lia).
  specialize (Ha H3). clear H3.
  unfold undo_ok, TEXT_BUFFER_ALLOC_MAX_BYTES, TEXT_BUFFER_ALLOC_CHUNK_BYTES.
  cbn [undo_usage undo_commit undo_mem undo_tail].
  split; [reflexivity|]. split; [unfold space in *; lia|]. split; [lia|].
  unfold store_change at 1. rewrite Z.eqb_refl. split; [reflexivity|].
  intros Ht Hpos. unfold store_change.
  destruct (Z.eqb_spec 0 (undo_usage tb)); [lia|].
  destruct (undo_tail tb) as [t|]; [|congruence].
  destruct (Z.eqb_spec 0 t) as [<-|]; cbn; repeat split; reflexivity.
Qed.


(** X20. [text_buffer_record_push_change] stores the change with the removed
    bytes of the document, the replacement and the cursor at the old end of
    the undo region and makes it the tail. The allocator hands the rounded
    size back through [usage_next], so every change takes at least 64 KiB of
    the region however small it is, and the push aborts once 2 GiB are used;
    and whenever a tail exists already, the change at the start of the region
    is wiped (no predecessor, no bytes, the zero cursor). *)
Theorem record_push_change_takes_chunks (tb : TextBuffer) (b e : Z) (repl : list Z) :
  undo_ok tb -> 0 <= b <= e -> e <= text_length tb -> text_length tb <= 2 ^ 31 ->
  Z.of_nat (length repl) < 2 ^ 31 ->
  match text_buffer_record_push_change tb b e repl with
  | Done tb' =>
    undo_ok tb' /\
    undo_usage tb + TEXT_BUFFER_ALLOC_CHUNK_BYTES <= undo_usage tb' /\
    undo_tail tb' = Some (undo_usage tb) /\ dirty tb' = true /\
    undo_mem tb' (undo_usage tb)
    = mkTextBufferChange (undo_tail tb) None (cursor tb) (text_buffer_extract tb b e) repl /\
    (undo_tail tb <> None -> 0 < undo_usage tb ->
     prev (undo_mem tb' 0) = None /\ change_cursor (undo_mem tb' 0) = cursor_zero /\
     removed (undo_mem tb' 0) = [] /\ inserted (undo_mem tb' 0) = [])
  | Abort =>
    TEXT_BUFFER_ALLOC_MAX_BYTES
    < undo_usage tb + sizeof_TextBufferChange + (e - b) + Z.of_nat (length repl)
  | OutOfFuel => False
  end.
Proof.
  intros Hu Hb He Hl Hn.
  pose proof (record_push_change_spec tb b e repl Hu Hb He Hl Hn) as H. cbv zeta in H.
  destruct (text_buffer_record_push_change tb b e repl) as [tb'| |]; [|lia|exact H].
  destruct H as (Heq & Hu' & Hgrow & Hrec & Hwipe).
  split; [exact Hu'|]. split; [|split; [rewrite Heq; reflexivity|split;
    [rewrite Heq; reflexivity|split; [exact Hrec|exact Hwipe]]]].
  destruct Hu as (_ & _ & Hm). destruct Hu' as (_ & _ & Hm').
  unfold TEXT_BUFFER_ALLOC_CHUNK_BYTES, sizeof_TextBufferChange in *.
  apply Z.mod_divide in Hm; [|lia]. apply Z.mod_divide in Hm'; [|lia].
  destruct Hm as [q Hq]. destruct Hm' as [q' Hq']. lia.
Qed.

Lemma record_push_change_takes_chunks_witness :
  match text_buffer_record_push_change example_buffer 1 3 [120] with
  | Done tb' =>
    undo_ok tb' /\
    undo_usage example_buffer + TEXT_BUFFER_ALLOC_CHUNK_BYTES <= undo_usage tb' /\
    undo_tail tb' = Some (undo_usage example_buffer) /\ dirty tb' = true /\
    undo_mem tb' (undo_usage example_buffer)
    = mkTextBufferChange (undo_tail example_buffer) None (cursor example_buffer)
        (text_buffer_extract example_buffer 1 3) [120] /\
    (undo_tail example_buffer <> None -> 0 < undo_usage example_buffer ->
     prev (undo_mem tb' 0) = None /\ change_cursor (undo_mem tb' 0) = cursor_zero /\
     removed (undo_mem tb' 0) = [] /\ inserted (undo_mem tb' 0) = [])
  | Abort =>
    TEXT_BUFFER_ALLOC_MAX_BYTES
    < undo_usage example_buffer + sizeof_TextBufferChange + (3 - 1) + Z.of_nat (length [120])
  | OutOfFuel => False
  end.
Proof.
  apply (record_push_change_takes_chunks example_buffer 1 3 [120]);
    try apply example_buffer_ok; by_eval.
Defined.

Lemma push_fields (tb tb' : TextBuffer) (m : Z -> TextBufferChange) (t : option Z)
    (u : Z) :
  tb' = mkTextBuffer (main_commit tb) (text tb) (text_length tb) (gap_off tb)
          (gap_len tb) true m t u u (stats_lines tb) (cursor tb) (selection tb)
          (word_wrap_columns tb) true (overtype tb) ->
  main_commit tb' = main_commit tb /\ text tb' = text tb /\
  text_length tb' = text_length tb /\ gap_off tb' = gap_off tb /\
  gap_len tb' = gap_len tb /\ cursor tb' = cursor tb /\
  overtype tb' = overtype tb /\ undo_tail tb' = t /\ dirty tb' = true.
Proof. intros ->. cbn. repeat split. Qed.

Lemma take_contents (tb : TextBuffer) (o : Z) :
  gap_ok tb -> 0 <= o <= text_length tb ->
  take (Z.to_nat o) (contents tb) = map (byte_at tb) (seqZ 0 o).
Proof.
  intros H Ho. rewrite contents_byte_at by exact H.
  change (map ?f ?l) with (f <$> l).
  rewrite <- fmap_take, seqZ_take. f_equal. f_equal. lia.
Qed.

Lemma drop_contents (tb : TextBuffer) (o : Z) :
  gap_ok tb -> 0 <= o <= text_length tb ->
  drop (Z.to_nat o) (contents tb) = map (byte_at tb) (seqZ o (text_length tb - o)).
Proof.
  intros H Ho. rewrite contents_byte_at by exact H.
  change (map ?f ?l) with (f <$> l).
  rewrite <- fmap_drop, seqZ_drop. f_equal. f_equal; lia.
Qed.

Lemma map_lookup_seqZ (l : list Z) (o : Z) :
  map (fun i => l !!! Z.to_nat (i - o)) (seqZ o (Z.of_nat (length l))) = l.
Proof.
  apply list_eq. intros i. change (map ?f ?l) with (f <$> l).
  rewrite list_lookup_fmap, lookup_seqZ_eq.
  destruct (decide _) as [Hi|Hi]; cbn.
  - replace (Z.to_nat (o + Z.of_nat i - o)) with i by lia.
    symmetry. apply list_lookup_lookup_total_lt. lia.
  - symmetry. apply lookup_ge_None. lia.
Qed.

(** The document after the [k] bytes at [o] were replaced. *)
Lemma contents_replaced (tb tb' : TextBuffer) (o k : Z) (str : list Z) :
  gap_ok tb -> gap_ok tb' -> 0 <= o -> 0 <= k -> o + k <= text_length tb ->
  text_length tb' = text_length tb - k + Z.of_nat (length str) ->
  (forall i, 0 <= i < text_length tb' ->
     byte_at tb' i
     = if i <? o then byte_at tb i
       else if i <? o + Z.of_nat (length str) then str !!! Z.to_nat (i - o)
       else byte_at tb (i - Z.of_nat (length str) + k)) ->
  contents tb'
  = take (Z.to_nat o) (contents tb) ++ str ++ drop (Z.to_nat (o + k)) (contents tb).
Proof.
  intros H H' Ho Hk Hok Hl Hb. set (n := Z.of_nat (length str)) in *.
  rewrite take_contents, drop_contents by (try assumption; lia).
  rewrite (contents_byte_at tb') by assumption. rewrite Hl.
  replace (text_length tb - k + n) with (o + (n + (text_length tb - (o + k)))) by lia.
  rewrite seqZ_app by lia. rewrite seqZ_app by lia. rewrite !map_app.
  rewrite Z.add_0_l.
  f_equal; [|f_equal].
  - apply map_seqZ_ext. intros i Hi. rewrite Hb by lia.
    destruct (Z.ltb_spec i o); [reflexivity|lia].
  - etransitivity; [|apply (map_lookup_seqZ str o)]. fold n.
    apply map_seqZ_ext. intros i Hi. rewrite Hb by lia.
    destruct (Z.ltb_spec i o); [lia|]. destruct (Z.ltb_spec i (o + n)); [reflexivity|lia].
  - replace (o + n) with (o + k + (n - k)) by lia.
    rewrite map_seqZ_shift. apply map_seqZ_ext. intros i Hi. rewrite Hb by lia.
    destruct (Z.ltb_spec (i + (n - k)) o); [lia|].
    destruct (Z.ltb_spec (i + (n - k)) (o + n)); [lia|]. f_equal. lia.
Qed.

Lemma write_spec (U : UcdOracle) (tb : TextBuffer) (str : list Z) :
  gap_ok tb -> undo_ok tb -> overtype tb = false ->
  0 <= offset (cursor tb) <= text_length tb ->
  str <> [] -> Z.of_nat (length str) < 2 ^ 31 ->
  let o := offset (cursor tb) in
  let n := Z.of_nat (length str) in
  match text_buffer_write U tb str with
  | Done tb' =>
    gap_ok tb' /\ undo_ok tb' /\ text_length tb' = text_length tb + n /\
    gap_off tb' = o + n /\
    (forall i, 0 <= i < text_length tb' ->
       byte_at tb' i
       = if i <? o then byte_at tb i
         else if i <? o + n then str !!! Z.to_nat (i - o)
         else byte_at tb (i - n)) /\
    undo_tail tb' = Some (undo_usage tb) /\
    undo_mem tb' (undo_usage tb)
    = mkTextBufferChange (undo_tail tb) None (cursor tb) [] str /\
    dirty tb' = true /\ overtype tb' = false
  | Abort =>
    2 ^ 31 - 2 ^ 13 < sizeof_TextBuffer + text_length tb + n \/
    TEXT_BUFFER_ALLOC_MAX_BYTES < undo_usage tb + sizeof_TextBufferChange + n
  | OutOfFuel => False
  end.
Proof.
  intros Hok Hu Hov Ho Hne Hlen o n.
  unfold text_buffer_write. fold n. fold o.
  destruct (Z.eqb_spec n 0) as [E|E].
  { destruct str; [congruence|]. cbn in n. lia. }
  pose proof (allocate_gap_spec tb o n Hok ltac:(lia) ltac:(lia)) as Ha.
  destruct (text_buffer_allocate_gap tb o n) as [tb1| |]; cbn [mbind outcome_bind];
    [|left; apply Ha|exact Ha].
  destruct Ha as (Hb1 & Hl1 & Hoff1 & Hge1 & _ & Hok1 & Hsame).
  apply same_but_gap_fields in Hsame.
  destruct Hsame as (Hc1 & Hov1 & Huu1 & Huc1 & Hut1 & Hum1 & _).
  cbv zeta.
  match goal with
  | |- context [let '(_, _) := ?X in _] => destruct X as [prev_bck prev_fwd]
  end.
  cbn [overtype set_gap cursor]. rewrite Hov1, Hov, Hc1. fold o.
  set (tb2 := set_gap (main_commit tb1) (memcpy (text tb1) o str) (text_length tb1)
                (gap_off tb1) (gap_len tb1) tb1).
  pose proof (record_push_change_spec tb2 o o str) as Hp.
  pose proof Hok as (Hg & Hgl & Hcm & Hmx).
  pose proof Hok1 as (Hg1 & Hgl1 & Hcm1 & Hmx1).
  unfold sizeof_TextBuffer, TEXT_BUFFER_ALLOC_MAX_BYTES, sizeof_TextBufferChange in *.
  change (2 ^ 31) with 2147483648 in *.
  assert (Hu2 : undo_ok tb2).
  { unfold undo_ok, tb2. cbn [set_gap undo_usage undo_commit]. rewrite Huu1, Huc1. exact Hu. }
  specialize (Hp Hu2 ltac:(lia) ltac:(unfold tb2; cbn [set_gap text_length]; lia)
                ltac:(unfold tb2; cbn [set_gap text_length]; lia) ltac:(lia)).
  cbv zeta in Hp. unfold sizeof_TextBufferChange in Hp.
  replace (text_buffer_extract tb2 o o) with (@nil Z) in Hp
    by (unfold text_buffer_extract; destruct (o >=? o) eqn:E1; [reflexivity|lia]).
  destruct (text_buffer_record_push_change tb2 o o str) as [tb3| |];
    cbn [mbind outcome_bind];
    [|right; unfold tb2 in Hp; cbn [set_gap undo_usage] in Hp; fold n in Hp; lia|exact Hp].
  destruct Hp as (Heq & Hu3 & Hgrow & Hrec & _).
  apply push_fields in Heq.
  destruct Heq as (Hm3 & Ht3 & Hl3 & Hgo3 & Hgl3 & Hc3 & Hov3 & Hut3 & Hd3).
  unfold tb2 in Hm3, Ht3, Hl3, Hgo3, Hgl3, Hc3, Hov3, Hut3, Hrec.
  cbn [set_gap main_commit text text_length gap_off gap_len cursor overtype undo_tail
       undo_usage] in Hm3, Ht3, Hl3, Hgo3, Hgl3, Hc3, Hov3, Hut3, Hrec.
  unfold text_buffer_commit_gap.
  rewrite min_u64_min, Hgl3, Z.min_l by lia.
  cbn [set_gap set_cursor main_commit text text_length gap_off gap_len cursor overtype
       undo_tail undo_usage undo_commit undo_mem dirty].
  rewrite Hm3, Ht3, Hl3, Hgo3, Hl1, Hoff1, Z.min_l by lia.
  rewrite (to_usize_small (text_length tb + n))
    by (change (2 ^ 64) with 18446744073709551616; lia).
  rewrite (to_usize_small (o + n))
    by (change (2 ^ 64) with 18446744073709551616; lia).
  rewrite (to_usize_small (gap_len tb1 - n))
    by (change (2 ^ 64) with 18446744073709551616; lia).
  rewrite (to_usize_small (gap_len tb1 - n + (o - o)))
    by (change (2 ^ 64) with 18446744073709551616; lia).
  unfold gap_ok, sizeof_TextBuffer, TEXT_BUFFER_ALLOC_MAX_BYTES.
  cbn [set_gap set_cursor main_commit text text_length gap_off gap_len cursor overtype
       undo_tail undo_usage undo_commit undo_mem dirty].
  split; [lia|]. split; [exact Hu3|]. split; [reflexivity|]. split; [reflexivity|].
  split.
  - intros i Hi. unfold byte_at at 1.
    cbn [set_gap set_cursor main_commit text text_length gap_off gap_len].
    unfold memcpy. fold n.
    destruct (Z.ltb_spec i (o + n)).
    + destruct (Z.ltb_spec i o).
      * destruct (Z.leb_spec o i); [lia|]. cbn [andb].
        rewrite <- Hb1 by lia. unfold byte_at. rewrite Hoff1, Z.min_l by lia.
        destruct (Z.ltb_spec i o); [reflexivity|lia].
      * destruct (Z.leb_spec o i); [|lia]. destruct (Z.ltb_spec i (o + n)); [|lia].
        reflexivity.
    + destruct (Z.ltb_spec i o); [lia|].
      destruct (Z.leb_spec o (i + (gap_len tb1 - n + (o - o)))); [|lia].
      destruct (Z.ltb_spec (i + (gap_len tb1 - n + (o - o))) (o + n)); [lia|].
      cbn [andb]. rewrite <- Hb1 by lia. unfold byte_at. rewrite Hoff1, Z.min_l by lia.
      destruct (Z.ltb_spec (i - n) o); [lia|]. f_equal. lia.
  - rewrite Hut3, Huu1, Hut1, Hc1 in *. rewrite Hov3, Hov1, Hov.
    repeat split; try assumption.
Qed.


(** X21. With overtype off, [text_buffer_write(tb, str)] puts [str] into the
    document at the offset of the cursor: the document is what was in front of
    the cursor, [str], and what was behind it; the buffer stays well formed,
    and for a [str] that is not empty the buffer is dirty and the undo log
    ends with a change that holds the cursor, nothing removed and [str]
    inserted. It aborts only when the text memory or the undo region is used
    up. *)
Theorem text_buffer_write_inserts (U : UcdOracle) (tb : TextBuffer) (str : list Z) :
  gap_ok tb -> undo_ok tb -> overtype tb = false ->
  0 <= offset (cursor tb) <= text_length tb ->
  Z.of_nat (length str) < 2 ^ 31 ->
  let o := Z.to_nat (offset (cursor tb)) in
  let n := Z.of_nat (length str) in
  match text_buffer_write U tb str with
  | Done tb' =>
    contents tb' = take o (contents tb) ++ str ++ drop o (contents tb) /\
    text_length tb' = text_length tb + n /\
    gap_ok tb' /\ undo_ok tb' /\
    (str <> [] ->
     dirty tb' = true /\ undo_tail tb' = Some (undo_usage tb) /\
     undo_mem tb' (undo_usage tb)
     = mkTextBufferChange (undo_tail tb) None (cursor tb) [] str)
  | Abort =>
    2 ^ 31 - 2 ^ 13 < sizeof_TextBuffer + text_length tb + n \/
    TEXT_BUFFER_ALLOC_MAX_BYTES < undo_usage tb + sizeof_TextBufferChange + n
  | OutOfFuel => False
  end.
Proof.
  intros Hok Hu Hov Ho Hlen o n.
  destruct (decide (str = [])) as [->|Hne].
  { subst o n. cbn. rewrite take_drop.
    repeat split; try assumption; try apply Hok; try apply Hu; try lia; congruence. }
  pose proof (write_spec U tb str Hok Hu Hov Ho Hne Hlen) as Hw. cbv zeta in Hw.
  destruct (text_buffer_write U tb str) as [tb'| |]; [|exact Hw|exact Hw].
  destruct Hw as (Hok' & Hu' & Hl' & Hoff' & Hb' & Ht' & Hm' & Hd' & _).
  split; [|repeat split; try assumption; try apply Hok'; try apply Hu'].
  pose proof (contents_replaced tb tb' (offset (cursor tb)) 0 str Hok Hok') as Hc.
  rewrite Z.add_0_r in Hc. apply Hc; try lia.
  intros i Hi. rewrite Hb' by exact Hi. rewrite Z.add_0_r. reflexivity.
Qed.

Lemma text_buffer_write_inserts_witness :
  match text_buffer_write SpecUcd.oracle example_buffer [120] with
  | Done tb' =>
    contents tb' = [] ++ [120] ++ contents example_buffer /\
    text_length tb' = text_length example_buffer + 1 /\
    gap_ok tb' /\ undo_ok tb' /\
    ([120] <> [] ->
     dirty tb' = true /\ undo_tail tb' = Some (undo_usage example_buffer) /\
     undo_mem tb' (undo_usage example_buffer)
     = mkTextBufferChange (undo_tail example_buffer) None (cursor example_buffer) [] [120])
  | Abort =>
    2 ^ 31 - 2 ^ 13 < sizeof_TextBuffer + text_length example_buffer + 1 \/
    TEXT_BUFFER_ALLOC_MAX_BYTES < undo_usage example_buffer + sizeof_TextBufferChange + 1
  | OutOfFuel => False
  end.
Proof.
  apply (text_buffer_write_inserts SpecUcd.oracle example_buffer [120]);
    try apply example_buffer_ok; by_eval.
Defined.

(** X22. [text_buffer_read_forward] at an offset of the document returns the
    bytes from that offset up to the gap or, behind the gap, up to the end of
    the document, and [text_buffer_read_backward] the bytes from the gap or
    the start up to the offset; a forward chunk is empty only at the end of
    the document and a backward chunk only at its start. *)
Theorem text_buffer_read_chunks (tb : TextBuffer) (off : Z) :
  gap_ok tb -> 0 <= off <= text_length tb ->
  let fwd := text_buffer_read_forward tb off in
  let bwd := text_buffer_read_backward tb off in
  let stop := if off <? gap_off tb then gap_off tb else text_length tb in
  let start := if off <=? gap_off tb then 0 else gap_off tb in
  slice_bytes (text tb) fwd
  = drop (Z.to_nat off) (take (Z.to_nat stop) (contents tb)) /\
  slice_bytes (text tb) bwd
  = drop (Z.to_nat start) (take (Z.to_nat off) (contents tb)) /\
  len fwd = stop - off /\ len bwd = off - start /\
  (len fwd = 0 <-> off = text_length tb) /\
  (len bwd = 0 <-> off = 0).
Proof.
  intros Hok Ho fwd bwd stop start.
  pose proof Hok as (Hg & Hgl & Hcm & Hmx).
  unfold sizeof_TextBuffer, TEXT_BUFFER_ALLOC_MAX_BYTES in *.
  assert (Hfwd : fwd = mk_s8 (if off <? gap_off tb then off else off + gap_len tb)
                         (stop - off) (stop - off)).
  { unfold fwd, stop, text_buffer_read_forward.
    destruct (Z.ltb_spec off (gap_off tb));
      rewrite ?to_usize_small by (change (2 ^ 64) with 18446744073709551616; lia);
      reflexivity. }
  assert (Hbwd : bwd = mk_s8 (if off <=? gap_off tb then 0 else gap_off tb + gap_len tb)
                         (off - start) (off - start)).
  { unfold bwd, start, text_buffer_read_backward.
    destruct (Z.leb_spec off (gap_off tb));
      rewrite ?to_usize_small by (change (2 ^ 64) with 18446744073709551616; lia);
      rewrite ?Z.sub_0_r; reflexivity. }
  assert (Hsub : forall b e, 0 <= b <= e -> e <= text_length tb ->
            drop (Z.to_nat b) (take (Z.to_nat e) (contents tb))
            = map (byte_at tb) (seqZ b (e - b))).
  { intros b e Hb He. rewrite take_contents by (try assumption; lia).
    change (map ?f ?l) with (f <$> l). rewrite <- fmap_drop, seqZ_drop.
    f_equal. f_equal; lia. }
  rewrite Hfwd, Hbwd. unfold slice_bytes. cbn [beg len].
  rewrite !Hsub by (unfold stop, start;
    destruct (Z.ltb_spec off (gap_off tb)); destruct (Z.leb_spec off (gap_off tb)); lia).
  split; [|split; [|split; [reflexivity|split; [reflexivity|]]]].
  - unfold stop. destruct (Z.ltb_spec off (gap_off tb)).
    + apply map_seqZ_ext. intros i Hi. unfold byte_at.
      destruct (Z.ltb_spec i (gap_off tb)); [reflexivity|lia].
    + rewrite map_seqZ_shift. apply map_seqZ_ext. intros i Hi. unfold byte_at.
      destruct (Z.ltb_spec i (gap_off tb)); [lia|reflexivity].
  - unfold start. destruct (Z.leb_spec off (gap_off tb)).
    + apply map_seqZ_ext. intros i Hi. unfold byte_at.
      destruct (Z.ltb_spec i (gap_off tb)); [reflexivity|lia].
    + rewrite map_seqZ_shift. apply map_seqZ_ext. intros i Hi. unfold byte_at.
      destruct (Z.ltb_spec i (gap_off tb)); [lia|reflexivity].
  - unfold stop, start.
    destruct (Z.ltb_spec off (gap_off tb)); destruct (Z.leb_spec off (gap_off tb)); lia.
Qed.

Lemma text_buffer_read_chunks_witness :
  slice_bytes (text example_buffer) (text_buffer_read_forward example_buffer 1) = [98] /\
  slice_bytes (text example_buffer) (text_buffer_read_backward example_buffer 3) = [99].
Proof.
  destruct (text_buffer_read_chunks example_buffer 1) as (H1 & _);
    [apply example_buffer_ok|by_eval|].
  destruct (text_buffer_read_chunks example_buffer 3) as (_ & H2 & _);
    [apply example_buffer_ok|by_eval|].
  split; [exact H1|exact H2].
Defined.

Section Frame.
Variable U : UcdOracle.

Lemma goto_line_forward_no_abort (fuel : nat) (tb : TextBuffer) (y_ : Z)
    (c : TextBufferCursor) :
  goto_line_forward U fuel tb y_ c <> Abort.
Proof.
  revert c. induction fuel as [|fuel IH]; intros c; cbn.
  - destruct (y_ >? y (logical_pos c)); discriminate.
  - destruct (y_ >? y (logical_pos c)); [|discriminate].
    destruct (len (text_buffer_read_forward tb (offset c)) =? 0); [discriminate|].
    destruct (ucd_newlines_forward U _ _ _ _) as [n line]. apply IH.
Qed.

Lemma goto_line_backward_no_abort (fuel : nat) (tb : TextBuffer) (y_ : Z)
    (c : TextBufferCursor) :
  goto_line_backward U fuel tb y_ c <> Abort.
Proof.
  revert c. induction fuel as [|fuel IH]; intros c; cbn; [discriminate|].
  destruct (len (text_buffer_read_backward tb (offset c)) =? 0); [discriminate|].
  destruct (ucd_newlines_backward U _ _ _ _) as [n line].
  destruct (y_ <? line); [apply IH|discriminate].
Qed.

Lemma count_wrapped_lines_no_abort (fuel : nat) (tb : TextBuffer) (p : Point)
    (off goal delta : Z) :
  count_wrapped_lines U fuel tb p off goal delta <> Abort.
Proof.
  revert off delta. induction fuel as [|fuel IH]; intros off delta; cbn; [discriminate|].
  destruct (len (text_buffer_read_forward tb off) =? 0); [discriminate|].
  destruct (_ >=? goal); [discriminate|apply IH].
Qed.

Lemma move_in_line_no_abort (fuel : nat) (tb : TextBuffer) (x_ : Z)
    (c : TextBufferCursor) :
  move_in_line U fuel tb x_ c <> Abort.
Proof.
  revert c. induction fuel as [|fuel IH]; intros c; cbn.
  - destruct (x_ >? x (logical_pos c)); discriminate.
  - destruct (x_ >? x (logical_pos c)); [|discriminate].
    destruct (len (text_buffer_read_forward tb (offset c)) =? 0); [discriminate|].
    destruct (_ <? _); [discriminate|apply IH].
Qed.

Lemma move_in_line_wrapped_no_abort (fuel : nat) (tb : TextBuffer) (x_ : Z)
    (c : TextBufferCursor) :
  move_in_line_wrapped U fuel tb x_ c <> Abort.
Proof.
  revert c. induction fuel as [|fuel IH]; intros c; cbn; [discriminate|].
  destruct (len (text_buffer_read_forward tb (offset c)) =? 0); [discriminate|].
  destruct (ucd_measure_forward U _ _ _ _ _ _) as [m wrap].
  destruct (_ <? _); [discriminate|apply IH].
Qed.

Lemma set_cursor_set_cursor (c c' : TextBufferCursor) (tb : TextBuffer) :
  set_cursor c (set_cursor c' tb) = set_cursor c tb.
Proof. reflexivity. Qed.

Lemma moves_cursor_only_trans (tb tb1 : TextBuffer) (o : outcome TextBuffer) :
  tb1 = set_cursor (cursor tb1) tb -> moves_cursor_only tb1 o -> moves_cursor_only tb o.
Proof.
  intros H1 H2. destruct o as [tb2| |]; cbn in *; try assumption.
  rewrite H2, H1. reflexivity.
Qed.

Lemma goto_line_start_frame (fuel : nat) (tb : TextBuffer) (y_ : Z) :
  moves_cursor_only tb (text_buffer_goto_line_start U fuel tb y_).
Proof.
  unfold text_buffer_goto_line_start.
  match goal with
  | |- moves_cursor_only _ (mbind _ ?m) =>
    assert (Hm : m <> Abort); [|destruct m as [c1| |]; [|congruence|exact I]]
  end.
  { destruct (y_ >? y (logical_pos (cursor tb))).
    - pose proof (goto_line_forward_no_abort fuel tb y_ (cursor tb)) as H.
      destruct (goto_line_forward U fuel tb y_ (cursor tb)) as [c| |];
        cbn [mbind outcome_bind]; try congruence.
      destruct (negb _); [discriminate|apply goto_line_backward_no_abort].
    - apply goto_line_backward_no_abort. }
  cbn [mbind outcome_bind]. cbv zeta.
  destruct (word_wrap_columns tb <? 0); [reflexivity|].
  match goal with
  | |- context [let '(_, _) := ?X in _] => destruct X as [[p off] goal]
  end.
  match goal with
  | |- moves_cursor_only _ (mbind _ ?m) =>
    assert (Hd : m <> Abort); [|destruct m as [d| |]; [|congruence|exact I]]
  end.
  { destruct (off <? goal); [apply count_wrapped_lines_no_abort|discriminate]. }
  reflexivity.
Qed.

Lemma move_to_logical_frame (fuel : nat) (tb : TextBuffer) (p : Point) :
  moves_cursor_only tb (text_buffer_cursor_move_to_logical U fuel tb p).
Proof.
  unfold text_buffer_cursor_move_to_logical.
  pose proof (goto_line_start_frame fuel tb (max_i32 (y p) 0)) as H.
  destruct (text_buffer_goto_line_start U fuel tb (max_i32 (y p) 0)) as [tb1| |];
    cbn [mbind outcome_bind]; [|exact H|exact I].
  cbn in H.
  match goal with
  | |- moves_cursor_only _ (mbind _ ?m) =>
    assert (Hm : m <> Abort); [|destruct m as [c| |]; [|congruence|exact I]]
  end.
  { destruct (word_wrap_columns tb1 <? 0); [apply move_in_line_no_abort|].
    destruct (_ >? _); [apply move_in_line_wrapped_no_abort|discriminate]. }
  cbn. rewrite H. reflexivity.
Qed.

Lemma move_delta_frame (fuel : nat) (tb : TextBuffer) (n : Z) :
  moves_cursor_only tb (text_buffer_cursor_move_delta U fuel tb n).
Proof.
  unfold text_buffer_cursor_move_delta.
  destruct (n <? 0); [|destruct (n >? 0)].
  - match goal with
    | |- moves_cursor_only _ (mbind _ (text_buffer_cursor_move_to_logical U fuel tb ?p)) =>
      pose proof (move_to_logical_frame fuel tb p) as H;
      destruct (text_buffer_cursor_move_to_logical U fuel tb p) as [tb1| |];
      cbn [mbind outcome_bind]; [|exact H|exact I]
    end.
    cbn in H. destruct (_ =? _); [|exact H].
    eapply moves_cursor_only_trans; [exact H|apply move_to_logical_frame].
  - match goal with
    | |- moves_cursor_only _ (mbind _ (text_buffer_cursor_move_to_logical U fuel tb ?p)) =>
      pose proof (move_to_logical_frame fuel tb p) as H;
      destruct (text_buffer_cursor_move_to_logical U fuel tb p) as [tb1| |];
      cbn [mbind outcome_bind]; [|exact H|exact I]
    end.
    cbn in H. destruct (_ =? _); [|exact H].
    eapply moves_cursor_only_trans; [exact H|apply move_to_logical_frame].
  - cbn. destruct tb; reflexivity.
Qed.


(** X23. Moving the cursor changes nothing but the cursor:
    [text_buffer_goto_line_start], [text_buffer_cursor_move_to_logical] and
    [text_buffer_cursor_move_delta] never abort and return the buffer with
    another cursor, whatever the Unicode functions return;
    [text_buffer_reflow] changes the wrap column as well.
    [text_buffer_cursor_move_delta] looks at the sign of its argument only: it
    moves by one step, or not at all. *)
Theorem cursor_moves_keep_buffer (fuel : nat) (tb : TextBuffer) (p : Point) (n w : Z) :
  moves_cursor_only tb (text_buffer_goto_line_start U fuel tb (y p)) /\
  moves_cursor_only tb (text_buffer_cursor_move_to_logical U fuel tb p) /\
  moves_cursor_only tb (text_buffer_cursor_move_delta U fuel tb n) /\
  text_buffer_cursor_move_delta U fuel tb n
  = text_buffer_cursor_move_delta U fuel tb (Z.sgn n) /\
  match text_buffer_reflow U fuel tb w with
  | Done tb' =>
    tb' = set_cursor (cursor tb') (set_word_wrap_columns (word_wrap_columns tb') tb)
  | Abort => False
  | OutOfFuel => True
  end.
Proof.
  split; [apply goto_line_start_frame|]. split; [apply move_to_logical_frame|].
  split; [apply move_delta_frame|].
  split.
  { unfold text_buffer_cursor_move_delta.
    destruct (Z.ltb_spec n 0); destruct (Z.ltb_spec (Z.sgn n) 0); try lia; [reflexivity|].
    destruct (Z.gtb_spec n 0); destruct (Z.gtb_spec (Z.sgn n) 0); try lia; reflexivity. }
  unfold text_buffer_reflow.
  destruct (word_wrap_columns tb =? _); [destruct tb; reflexivity|].
  match goal with
  | |- context [text_buffer_cursor_move_to_logical U fuel ?t ?q] =>
    pose proof (move_to_logical_frame fuel t q) as H;
    destruct (text_buffer_cursor_move_to_logical U fuel t q) as [tb1| |];
    [|exact H|exact I]
  end.
  cbn in H.
  assert (Hw : word_wrap_columns tb1 = if w <=? 0 then -1 else w)
    by (rewrite H; reflexivity).
  rewrite Hw. exact H.
Qed.

Lemma apply_change_spec (fuel : nat) (tb : TextBuffer) (change : Z) :
  let ch := undo_mem tb change in
  let o := offset (change_cursor ch) in
  let r := Z.of_nat (length (removed ch)) in
  let k := Z.of_nat (length (inserted ch)) in
  let restored (tb' : TextBuffer) :=
    gap_ok tb' /\
    contents tb'
    = take (Z.to_nat o) (contents tb) ++ removed ch ++ drop (Z.to_nat (o + k)) (contents tb) /\
    tb' = set_gap (main_commit tb') (text tb') (text_length tb') (gap_off tb')
            (gap_len tb') (set_cursor (cursor tb') tb) in
  gap_ok tb -> 0 <= o -> o + k <= text_length tb -> r < 2 ^ 31 ->
  match text_buffer_apply_change U fuel tb change with
  | Done tb' => restored tb'
  | Abort => gap_len tb < r - k /\
             2 ^ 31 - 2 ^ 13 < sizeof_TextBuffer + text_length tb + (r - k)
  | OutOfFuel =>
    exists tb', restored tb' /\ text_buffer_cursor_move_delta U fuel tb' (-1) = OutOfFuel
  end.
Proof.
  intros ch o r k restored Hok Ho Hk Hr.
  pose proof Hok as (Hg & Hgl & Hcm & Hmx).
  unfold text_buffer_apply_change. fold ch. fold r. fold k.
  cbn [cursor set_cursor]. fold o.
  set (tb0 := set_cursor (change_cursor ch) tb).
  rewrite max_u64_max.
  assert (Hok0 : gap_ok tb0) by exact Hok.
  unfold sizeof_TextBuffer, TEXT_BUFFER_ALLOC_MAX_BYTES in *.
  change (2 ^ 31) with 2147483648 in *.
  assert (Hk0 : 0 <= k) by (unfold k; lia). assert (Hr0 : 0 <= r) by (unfold r; lia).
  pose proof (allocate_gap_spec tb0 o (Z.max r k - k) Hok0 Ho
                ltac:(change (2 ^ 31) with 2147483648; lia)) as Ha.
  change (2 ^ 31) with 2147483648 in Ha. change (2 ^ 13) with 8192 in *.
  unfold sizeof_TextBuffer in Ha.
  destruct (text_buffer_allocate_gap tb0 o (Z.max r k - k)) as [tb1| |];
    cbn [mbind outcome_bind]; [|cbn [text_length gap_len tb0 set_cursor] in Ha; lia|contradiction].
  destruct Ha as (Hb1 & Hl1 & Hoff1 & Hge1 & _ & Hok1 & Hsame).
  pose proof Hok1 as (Hg1 & Hgl1 & Hcm1 & Hmx1).
  unfold sizeof_TextBuffer, TEXT_BUFFER_ALLOC_MAX_BYTES in *.
  assert (Hb1' : forall i, 0 <= i < text_length tb -> byte_at tb1 i = byte_at tb i)
    by exact Hb1.
  clear Hb1. rename Hb1' into Hb1.
  change (text_length tb0) with (text_length tb) in Hl1, Hoff1.
  rewrite Z.min_l in Hoff1 by lia.
  cbv zeta.
  set (tb4 := text_buffer_commit_gap _ r).
  assert (H4 : restored tb4).
  { unfold restored, tb4, text_buffer_commit_gap.
    cbn [set_gap main_commit text text_length gap_off gap_len cursor].
    rewrite min_u64_min, Hl1, Hoff1.
    rewrite (to_usize_small (text_length tb - k))
      by (change (2 ^ 64) with 18446744073709551616; lia).
    rewrite (to_usize_small (gap_len tb1 + k))
      by (change (2 ^ 64) with 18446744073709551616; lia).
    rewrite Z.min_l by lia.
    rewrite (to_usize_small (text_length tb - k + r))
      by (change (2 ^ 64) with 18446744073709551616; lia).
    rewrite (to_usize_small (o + r))
      by (change (2 ^ 64) with 18446744073709551616; lia).
    rewrite (to_usize_small (gap_len tb1 + k - r))
      by (change (2 ^ 64) with 18446744073709551616; lia).
    match goal with |- gap_ok ?t /\ _ => set (t4 := t) end.
    assert (Hok4 : gap_ok t4).
    { unfold gap_ok, t4, sizeof_TextBuffer, TEXT_BUFFER_ALLOC_MAX_BYTES.
      cbn [set_gap main_commit text text_length gap_off gap_len]. lia. }
    split; [exact Hok4|]. split.
    - apply contents_replaced; try assumption; try lia.
      + unfold t4. cbn [set_gap text_length]. fold r. lia.
      + unfold t4 at 1. cbn [set_gap text_length]. intros i Hi. fold r.
        unfold byte_at at 1, t4.
        cbn [set_gap main_commit text text_length gap_off gap_len].
        unfold memcpy. fold r.
        destruct (Z.ltb_spec i (o + r)).
        * destruct (Z.ltb_spec i o).
          -- destruct (Z.leb_spec o i); [lia|]. cbn [andb].
             rewrite <- Hb1 by lia. unfold byte_at. rewrite Hoff1.
             destruct (Z.ltb_spec i o); [reflexivity|lia].
          -- destruct (Z.leb_spec o i); [|lia]. destruct (Z.ltb_spec i (o + r)); [|lia].
             reflexivity.
        * destruct (Z.ltb_spec i o); [lia|].
          destruct (Z.leb_spec o (i + (gap_len tb1 + k - r))); [|lia].
          destruct (Z.ltb_spec (i + (gap_len tb1 + k - r)) (o + r)); [lia|].
          cbn [andb]. rewrite <- Hb1 by lia. unfold byte_at. rewrite Hoff1.
          destruct (Z.ltb_spec (i - r + k) o); [lia|]. f_equal. lia.
    - unfold t4. cbn [set_gap main_commit text text_length gap_off gap_len cursor].
      apply same_but_gap_fields in Hsame. unfold tb0 in Hsame.
      cbn [set_cursor cursor overtype undo_usage undo_commit undo_tail undo_mem undo_base
           selection word_wrap_columns dirty stats_lines] in Hsame.
      destruct Hsame as (Hc1 & Hov1 & Huu1 & Huc1 & Hut1 & Hum1 & Hub1 & Hs1 & Hw1 & Hd1 & Hst1).
      unfold set_gap, set_cursor.
      cbn [cursor overtype undo_usage undo_commit undo_tail undo_mem undo_base
           selection word_wrap_columns dirty stats_lines].
      rewrite Hov1, Huu1, Huc1, Hut1, Hum1, Hub1, Hs1, Hw1, Hd1, Hst1. reflexivity. }
  pose proof (move_delta_frame fuel tb4 (-1)) as Hm.
  destruct (text_buffer_cursor_move_delta U fuel tb4 (-1)) as [tb5| |] eqn:E5;
    cbn [mbind outcome_bind]; [|contradiction|exists tb4; split; [exact H4|exact E5]].
  cbn in Hm. destruct H4 as (Hok4 & Hc4 & Heq4).
  unfold restored. rewrite Hm.
  cbn [set_cursor main_commit text text_length gap_off gap_len cursor set_gap].
  split; [exact Hok4|]. split; [exact Hc4|].
  match goal with |- set_cursor ?C _ = _ => generalize C end.
  intros C. rewrite Heq4 at 1. reflexivity.
Qed.


Lemma splice_out (c str : list Z) (o : nat) :
  (o <= length c)%nat ->
  take o (take o c ++ str ++ drop o c)
  ++ drop (o + length str) (take o c ++ str ++ drop o c) = c.
Proof.
  intros H. assert (Hl : o = length (take o c)) by (rewrite length_take; lia).
  rewrite take_app_length' by exact Hl.
  rewrite (app_assoc (take o c) str).
  rewrite drop_app_length' by (rewrite length_app; lia).
  apply take_drop.
Qed.

Lemma splice_in (c : list Z) (b e : nat) :
  (b <= e)%nat -> (e <= length c)%nat ->
  take b (take b c ++ drop e c) ++ drop b (take e c) ++ drop b (take b c ++ drop e c) = c.
Proof.
  intros Hb He. assert (Hl : b = length (take b c)) by (rewrite length_take; lia).
  rewrite take_app_length' by exact Hl.
  rewrite drop_app_length' by exact Hl.
  rewrite <- (take_drop e c) at 4.
  rewrite <- (take_drop b (take e c)) at 2.
  rewrite take_take, Nat.min_l by lia.
  rewrite <- app_assoc. reflexivity.
Qed.

Lemma length_contents_nat (tb : TextBuffer) :
  gap_ok tb -> length (contents tb) = Z.to_nat (text_length tb).
Proof. intros H. pose proof (length_contents tb H). lia. Qed.

(** Undoing the tail change: the bytes it put in, which are [k] bytes at the
    offset of its cursor, make way for the bytes it took out. *)
Lemma undo_spec (fuel : nat) (tb : TextBuffer) (t : Z) :
  let ch := undo_mem tb t in
  let o := offset (change_cursor ch) in
  let r := Z.of_nat (length (removed ch)) in
  let k := Z.of_nat (length (inserted ch)) in
  let restored (tb' : TextBuffer) :=
    gap_ok tb' /\
    contents tb'
    = take (Z.to_nat o) (contents tb) ++ removed ch ++ drop (Z.to_nat (o + k)) (contents tb) in
  undo_tail tb = Some t ->
  gap_ok tb -> 0 <= o -> o + k <= text_length tb -> r < 2 ^ 31 ->
  match text_buffer_undo U fuel tb with
  | Done tb' =>
    restored tb' /\ undo_tail tb' = prev ch /\ dirty tb' = dirty tb /\
    undo_usage tb' = undo_usage tb /\ undo_commit tb' = undo_commit tb /\
    undo_mem tb' t
    = mkTextBufferChange (prev ch) (next ch) (cursor tb') (inserted ch) (removed ch)
  | Abort => gap_len tb < r - k /\
             2 ^ 31 - 2 ^ 13 < sizeof_TextBuffer + text_length tb + (r - k)
  | OutOfFuel =>
    exists tb', restored tb' /\ text_buffer_cursor_move_delta U fuel tb' (-1) = OutOfFuel
  end.
Proof.
  intros ch o r k restored Ht Hok Ho Hk Hr.
  unfold text_buffer_undo. rewrite Ht. fold ch.
  set (tb1 := set_undo_tail (prev ch) tb).
  pose proof (apply_change_spec fuel tb1 t) as Ha. cbv zeta in Ha.
  change (undo_mem tb1 t) with ch in Ha. fold o r k in Ha.
  change (text_length tb1) with (text_length tb) in Ha.
  change (contents tb1) with (contents tb) in Ha.
  specialize (Ha Hok Ho Hk Hr).
  destruct (text_buffer_apply_change U fuel tb1 t) as [tb2| |];
    cbn [mbind outcome_bind].
  - destruct Ha as (Hok2 & Hc2 & Heq2).
    unfold restored, swap_change.
    assert (Hm2 : undo_mem tb2 = undo_mem tb) by (rewrite Heq2; reflexivity).
    assert (Ht2 : undo_tail tb2 = prev ch) by (rewrite Heq2; reflexivity).
    assert (Hd2 : dirty tb2 = dirty tb) by (rewrite Heq2; reflexivity).
    assert (Hu2 : undo_usage tb2 = undo_usage tb) by (rewrite Heq2; reflexivity).
    assert (Hu2' : undo_commit tb2 = undo_commit tb) by (rewrite Heq2; reflexivity).
    cbn [set_undo_mem undo_tail dirty undo_mem undo_usage undo_commit].
    unfold store_change. rewrite Z.eqb_refl, Hm2. fold ch.
    repeat split; try assumption; apply Hok2.
  - exact Ha.
  - destruct Ha as (tb' & (Hok' & Hc' & _) & Hm). exists tb'. split; [split|]; assumption.
Qed.

(** X24. With overtype off, [text_buffer_undo] after [text_buffer_write] of a
    string gives back the document and the tail of the undo log as they were
    before the write; the buffer stays dirty, and the undone change now holds
    the string as removed. The undo never aborts; it does not return only if
    the cursor movement at its end does not, which then runs on the restored
    document. *)
Theorem write_undo_restores (fuel : nat) (tb tb1 : TextBuffer) (str : list Z) :
  gap_ok tb -> undo_ok tb -> overtype tb = false ->
  0 <= offset (cursor tb) <= text_length tb ->
  str <> [] -> Z.of_nat (length str) < 2 ^ 31 ->
  text_buffer_write U tb str = Done tb1 ->
  match text_buffer_undo U fuel tb1 with
  | Done tb2 =>
    contents tb2 = contents tb /\ gap_ok tb2 /\ undo_tail tb2 = undo_tail tb /\
    dirty tb2 = true /\
    removed (undo_mem tb2 (undo_usage tb)) = str /\
    inserted (undo_mem tb2 (undo_usage tb)) = []
  | Abort => False
  | OutOfFuel =>
    exists tb', contents tb' = contents tb /\
      text_buffer_cursor_move_delta U fuel tb' (-1) = OutOfFuel
  end.
Proof.
  intros Hok Hu Hov Ho Hne Hlen Hw.
  pose proof (write_spec U tb str Hok Hu Hov Ho Hne Hlen) as Hs. cbv zeta in Hs.
  rewrite Hw in Hs.
  destruct Hs as (Hok1 & Hu1 & Hl1 & Hoff1 & Hb1 & Ht1 & Hm1 & Hd1 & _).
  pose proof (contents_replaced tb tb1 (offset (cursor tb)) 0 str Hok Hok1) as Hc1.
  rewrite Z.add_0_r in Hc1.
  specialize (Hc1 ltac:(lia) ltac:(lia) ltac:(lia) ltac:(lia)).
  assert (Hc : contents tb1
               = take (Z.to_nat (offset (cursor tb))) (contents tb) ++ str
                 ++ drop (Z.to_nat (offset (cursor tb))) (contents tb)).
  { apply Hc1. intros i Hi. rewrite Hb1 by exact Hi. rewrite Z.add_0_r. reflexivity. }
  clear Hc1.
  pose proof (undo_spec fuel tb1 (undo_usage tb)) as Hun. cbv zeta in Hun.
  rewrite Hm1 in Hun. cbn [change_cursor removed inserted prev next length] in Hun.
  specialize (Hun Ht1 Hok1 ltac:(lia) ltac:(lia) ltac:(change (2 ^ 31) with 2147483648; lia)).
  set (o := offset (cursor tb)) in *. set (n := Z.of_nat (length str)) in *.
  assert (Hr : take (Z.to_nat o) (contents tb1) ++ []
               ++ drop (Z.to_nat (o + n)) (contents tb1) = contents tb).
  { pose proof (length_contents_nat tb Hok) as Hlc.
    rewrite Hc. cbn [app].
    replace (Z.to_nat (o + n)) with (Z.to_nat o + length str)%nat by (unfold n; lia).
    apply splice_out. lia. }
  rewrite Hr in Hun.
  destruct (text_buffer_undo U fuel tb1) as [tb2| |].
  - destruct Hun as ((Hok2 & Hc2) & Ht2 & Hd2 & _ & _ & Hm2).
    rewrite Hm2. cbn [removed inserted].
    repeat split; try assumption; try apply Hok2. congruence.
  - destruct Hok1 as (_ & Hgl1 & _). cbn in Hun. lia.
  - destruct Hun as (tb' & (_ & Hc') & Hm). exists tb'. split; assumption.
Qed.

End Frame.

Lemma write_undo_restores_witness :
  match text_buffer_undo SpecUcd.oracle 4 example_written with
  | Done tb2 =>
    contents tb2 = contents example_buffer /\ gap_ok tb2 /\
    undo_tail tb2 = undo_tail example_buffer /\ dirty tb2 = true /\
    removed (undo_mem tb2 (undo_usage example_buffer)) = [120] /\
    inserted (undo_mem tb2 (undo_usage example_buffer)) = []
  | Abort => False
  | OutOfFuel =>
    exists tb', contents tb' = contents example_buffer /\
      text_buffer_cursor_move_delta SpecUcd.oracle 4 tb' (-1) = OutOfFuel
  end.
Proof.
  apply (write_undo_restores SpecUcd.oracle 4 example_buffer example_written [120]);
    try apply example_buffer_ok; try returns_example; by_eval.
Defined.

Section Delete.
Variable U : UcdOracle.

Lemma delete_spec (fuel : nat) (tb tb1 : TextBuffer) (n : Z) :
  gap_ok tb -> undo_ok tb ->
  text_buffer_cursor_move_delta U fuel tb n = Done tb1 ->
  let b := Z.min (offset (cursor tb)) (offset (cursor tb1)) in
  let e := Z.max (offset (cursor tb)) (offset (cursor tb1)) in
  0 <= b -> e <= text_length tb -> b < e ->
  match text_buffer_delete U fuel tb n with
  | Done tb' =>
    gap_ok tb' /\ undo_ok tb' /\
    contents tb' = take (Z.to_nat b) (contents tb) ++ drop (Z.to_nat e) (contents tb) /\
    text_length tb' = text_length tb - (e - b) /\ e - b <= gap_len tb' /\
    offset (cursor tb') = b /\ dirty tb' = true /\
    undo_tail tb' = Some (undo_usage tb) /\
    undo_mem tb' (undo_usage tb)
    = mkTextBufferChange (undo_tail tb) None (cursor tb')
        (drop (Z.to_nat b) (take (Z.to_nat e) (contents tb))) []
  | Abort =>
    TEXT_BUFFER_ALLOC_MAX_BYTES < undo_usage tb + sizeof_TextBufferChange + (e - b)
  | OutOfFuel => False
  end.
Proof.
  intros Hok Hu Hm b e Hb He Hbe.
  pose proof Hok as (Hg & Hgl & Hcm & Hmx).
  unfold sizeof_TextBuffer, TEXT_BUFFER_ALLOC_MAX_BYTES, sizeof_TextBufferChange in *.
  pose proof (move_delta_frame U fuel tb n) as Hf. rewrite Hm in Hf. cbn in Hf.
  unfold text_buffer_delete. rewrite Hm. cbn [mbind outcome_bind].
  destruct (Z.eqb_spec (offset (cursor tb)) (offset (cursor tb1))) as [E|E]; [lia|].
  set (cs := if offset (cursor tb) >? offset (cursor tb1) then _ else _).
  assert (Hcs : offset cs.1 = b /\ offset cs.2 = e).
  { unfold cs. destruct (offset (cursor tb) >? offset (cursor tb1)) eqn:E1; cbn; lia. }
  destruct cs as [cb ce]. cbn [fst snd] in Hcs. destruct Hcs as [Hcb Hce].
  rewrite Hcb, Hce.
  set (tb2 := set_cursor cb tb1).
  assert (Hok2 : gap_ok tb2) by (unfold tb2; rewrite Hf; exact Hok).
  assert (Hb2 : forall i, byte_at tb2 i = byte_at tb i)
    by (intros i; unfold tb2; rewrite Hf; reflexivity).
  assert (Hl2 : text_length tb2 = text_length tb) by (unfold tb2; rewrite Hf; reflexivity).
  assert (Hu2 : undo_ok tb2) by (unfold tb2; rewrite Hf; exact Hu).
  assert (Hf2 : undo_usage tb2 = undo_usage tb /\ undo_tail tb2 = undo_tail tb /\
                cursor tb2 = cb) by (unfold tb2; rewrite Hf; repeat split).
  destruct Hf2 as (Huu2 & Hut2 & Hc2).
  clearbody tb2. clear Hf Hm.
  pose proof (allocate_gap_spec tb2 b 0 Hok2 Hb ltac:(lia)) as Ha.
  destruct (text_buffer_allocate_gap tb2 b 0) as [tb3| |]; cbn [mbind outcome_bind];
    [|destruct Hok2 as (_ & ? & _); lia|exact Ha].
  destruct Ha as (Hb3 & Hl3 & Hoff3 & _ & _ & Hok3 & Hsame).
  rewrite Hl2 in Hl3, Hoff3, Hb3. rewrite Z.min_l in Hoff3 by lia.
  apply same_but_gap_fields in Hsame.
  destruct Hsame as (Hc3 & _ & Huu3 & Huc3 & Hut3 & _).
  pose proof Hok3 as (Hg3 & Hgl3 & Hcm3 & Hmx3).
  unfold sizeof_TextBuffer, TEXT_BUFFER_ALLOC_MAX_BYTES in *.
  assert (Hu3 : undo_ok tb3).
  { unfold undo_ok. rewrite Huu3, Huc3. exact Hu2. }
  pose proof (record_push_change_spec tb3 b e [] Hu3 ltac:(lia) ltac:(lia)
                ltac:(change (2 ^ 31) with 2147483648; lia) ltac:(cbn; lia)) as Hp.
  cbv zeta in Hp. unfold sizeof_TextBufferChange, TEXT_BUFFER_ALLOC_MAX_BYTES in Hp.
  cbn [length] in Hp.
  destruct (text_buffer_record_push_change tb3 b e []) as [tb4| |];
    cbn [mbind outcome_bind]; [|rewrite Huu3, Huu2 in Hp; lia|exact Hp].
  destruct Hp as (Heq & Hu4 & _ & Hrec & _).
  apply push_fields in Heq.
  destruct Heq as (Hm4 & Ht4 & Hl4 & Hgo4 & Hgl4 & Hc4 & _ & Hut4 & Hd4).
  rewrite Hm4, Ht4, Hl4, Hgo4, Hgl4, Hl3, Hoff3.
  rewrite (to_usize_small (e - b)) by (change (2 ^ 64) with 18446744073709551616; lia).
  rewrite (to_usize_small (text_length tb - (e - b)))
    by (change (2 ^ 64) with 18446744073709551616; lia).
  rewrite (to_usize_small (gap_len tb3 + (e - b)))
    by (change (2 ^ 64) with 18446744073709551616; lia).
  match goal with |- gap_ok ?t /\ _ => set (t5 := t) end.
  assert (Hok5 : gap_ok t5).
  { unfold gap_ok, t5, sizeof_TextBuffer, TEXT_BUFFER_ALLOC_MAX_BYTES.
    cbn [set_gap main_commit text text_length gap_off gap_len]. lia. }
  assert (Hsub : drop (Z.to_nat b) (take (Z.to_nat e) (contents tb))
                 = text_buffer_extract tb3 b e).
  { rewrite extract_byte_at by (try assumption; lia).
    rewrite take_contents by (try assumption; lia).
    change (map ?f ?l) with (f <$> l). rewrite <- fmap_drop, seqZ_drop.
    replace (0 + Z.of_nat (Z.to_nat b)) with b by lia.
    replace (e - Z.of_nat (Z.to_nat b)) with (e - b) by lia.
    apply map_seqZ_ext. intros i Hi. rewrite Hb3 by lia. symmetry. apply Hb2. }
  split; [exact Hok5|]. split; [exact Hu4|].
  split; [|split; [reflexivity|split; [unfold t5; cbn [set_gap gap_len]; lia|]]].
  - pose proof (contents_replaced tb t5 b (e - b) [] Hok Hok5) as Hc.
    cbn [length app] in Hc. change (Z.of_nat 0) with 0 in Hc.
    rewrite Z.add_0_r in Hc. replace (b + (e - b)) with e in Hc by lia.
    apply Hc; try lia.
    + unfold t5. cbn [set_gap text_length]. lia.
    + unfold t5 at 1. cbn [set_gap text_length]. intros i Hi.
      unfold byte_at at 1, t5. cbn [set_gap text gap_off gap_len].
      rewrite Z.add_0_r.
      destruct (Z.ltb_spec i b).
      * rewrite <- Hb2, <- Hb3 by lia. unfold byte_at.
        rewrite Hoff3. destruct (Z.ltb_spec i b); [reflexivity|lia].
      * rewrite <- Hb2, <- Hb3 by lia. unfold byte_at.
        rewrite Hoff3. destruct (Z.ltb_spec (i - 0 + (e - b)) b); [lia|].
        f_equal. lia.
  - unfold t5. cbn [set_gap cursor dirty undo_tail undo_mem].
    rewrite Huu3, Huu2, Hut3, Hut2, Hc3, Hc2 in Hrec.
    rewrite Hc4, Hc3, Hc2, Hut4, Huu3, Huu2, Hd4, Hrec, Hsub.
    repeat split. exact Hcb.
Qed.

(** X25. [text_buffer_delete] takes out the bytes between the cursor and the
    place that [text_buffer_cursor_move_delta] takes it to: the document is
    what was in front of the smaller and what was behind the larger of the two
    offsets, the cursor is the one with the smaller offset, the buffer stays
    well formed, and if the cursor moved, the undo log ends with a change that
    holds the bytes taken out. It aborts only when the undo region is used up. *)
Theorem text_buffer_delete_removes (fuel : nat) (tb tb1 : TextBuffer)
    (n : Z) :
  gap_ok tb -> undo_ok tb ->
  text_buffer_cursor_move_delta U fuel tb n = Done tb1 ->
  let b := Z.min (offset (cursor tb)) (offset (cursor tb1)) in
  let e := Z.max (offset (cursor tb)) (offset (cursor tb1)) in
  0 <= b -> e <= text_length tb ->
  match text_buffer_delete U fuel tb n with
  | Done tb' =>
    contents tb' = take (Z.to_nat b) (contents tb) ++ drop (Z.to_nat e) (contents tb) /\
    text_length tb' = text_length tb - (e - b) /\
    offset (cursor tb') = b /\ gap_ok tb' /\ undo_ok tb' /\
    (b < e ->
     dirty tb' = true /\ undo_tail tb' = Some (undo_usage tb) /\
     undo_mem tb' (undo_usage tb)
     = mkTextBufferChange (undo_tail tb) None (cursor tb')
         (drop (Z.to_nat b) (take (Z.to_nat e) (contents tb))) [])
  | Abort =>
    b < e /\
    TEXT_BUFFER_ALLOC_MAX_BYTES < undo_usage tb + sizeof_TextBufferChange + (e - b)
  | OutOfFuel => False
  end.
Proof.
  intros Hok Hu Hm b e Hb He.
  destruct (Z.eq_dec b e) as [Hbe|Hbe].
  - assert (E : offset (cursor tb) = offset (cursor tb1)) by lia.
    unfold text_buffer_delete. rewrite Hm. cbn [mbind outcome_bind].
    rewrite E, Z.eqb_refl.
    pose proof (move_delta_frame U fuel tb n) as Hf. rewrite Hm in Hf. cbn in Hf.
    rewrite <- Hbe, take_drop.
    assert (H1 : gap_ok tb1) by (rewrite Hf; exact Hok).
    assert (H2 : undo_ok tb1) by (rewrite Hf; exact Hu).
    assert (H3 : contents tb1 = contents tb) by (rewrite Hf; reflexivity).
    assert (H4 : text_length tb1 = text_length tb) by (rewrite Hf; reflexivity).
    repeat split; try apply H1; try apply H2; try assumption; lia.
  - pose proof (delete_spec fuel tb tb1 n Hok Hu Hm Hb He ltac:(lia)) as Hd.
    destruct (text_buffer_delete U fuel tb n) as [tb'| |]; [|split; [lia|exact Hd]|exact Hd].
    destruct Hd as (Hok' & Hu' & Hc & Hl & _ & Ho & Hd & Ht & Hr).
    repeat split; try assumption; try apply Hok'; try apply Hu'.
Qed.

(** X26. [text_buffer_undo] after a [text_buffer_delete] that took bytes out
    gives back the document and the tail of the undo log as they were before;
    the buffer stays dirty. The undo never aborts; it does not return only if
    the cursor movement at its end does not, which then runs on the restored
    document. *)
Theorem delete_undo_restores (fuel fuel' : nat) (tb tb1 tb2 : TextBuffer)
    (n : Z) :
  gap_ok tb -> undo_ok tb ->
  text_buffer_cursor_move_delta U fuel tb n = Done tb1 ->
  let b := Z.min (offset (cursor tb)) (offset (cursor tb1)) in
  let e := Z.max (offset (cursor tb)) (offset (cursor tb1)) in
  0 <= b -> e <= text_length tb -> b < e ->
  text_buffer_delete U fuel tb n = Done tb2 ->
  match text_buffer_undo U fuel' tb2 with
  | Done tb3 =>
    contents tb3 = contents tb /\ gap_ok tb3 /\ undo_tail tb3 = undo_tail tb /\
    dirty tb3 = true
  | Abort => False
  | OutOfFuel =>
    exists tb', contents tb' = contents tb /\
      text_buffer_cursor_move_delta U fuel' tb' (-1) = OutOfFuel
  end.
Proof.
  intros Hok Hu Hm b e Hb He Hbe Hdel.
  pose proof (delete_spec fuel tb tb1 n Hok Hu Hm Hb He Hbe) as Hd.
  rewrite Hdel in Hd.
  destruct Hd as (Hok2 & Hu2 & Hc2 & Hl2 & Hgl2 & Ho2 & Hd2 & Ht2 & Hr2).
  fold b e in Hc2, Hl2, Hgl2, Ho2, Hr2.
  pose proof (length_contents_nat tb Hok) as Hlc.
  pose proof Hok as (Hg & Hgl & Hcm & Hmx).
  unfold sizeof_TextBuffer, TEXT_BUFFER_ALLOC_MAX_BYTES in *.
  assert (Hlr : Z.of_nat (length (drop (Z.to_nat b) (take (Z.to_nat e) (contents tb))))
                = e - b) by (rewrite length_drop, length_take; lia).
  pose proof (undo_spec U fuel' tb2 (undo_usage tb)) as Hun. cbv zeta in Hun.
  rewrite Hr2 in Hun. cbn [change_cursor removed inserted prev next] in Hun.
  rewrite Hlr, Ho2 in Hun. cbn [length] in Hun. change (Z.of_nat 0) with 0 in Hun.
  rewrite Z.add_0_r in Hun.
  specialize (Hun Ht2 Hok2 Hb ltac:(lia) ltac:(change (2 ^ 31) with 2147483648; lia)).
  assert (Hr : take (Z.to_nat b) (contents tb2)
               ++ drop (Z.to_nat b) (take (Z.to_nat e) (contents tb))
               ++ drop (Z.to_nat b) (contents tb2) = contents tb).
  { rewrite Hc2. apply splice_in; lia. }
  rewrite Hr in Hun.
  destruct (text_buffer_undo U fuel' tb2) as [tb3| |].
  - destruct Hun as ((Hok3 & Hc3) & Ht3 & Hd3 & _).
    repeat split; try assumption; try apply Hok3. congruence.
  - lia.
  - destruct Hun as (tb' & (_ & Hc') & Hm'). exists tb'. split; assumption.
Qed.

End Delete.

(** X27. [text_buffer_write_file] writes the document and nothing else: the
    bytes of its two [os_write_file] calls, the text in front of the gap and
    the text behind it, are together the document, and the buffer is no longer
    dirty. If the file cannot be opened nothing is written and the buffer
    stays as it is. *)
Theorem text_buffer_write_file_writes_document (opened : bool) (tb : TextBuffer) :
  gap_ok tb ->
  let '(written, tb') := text_buffer_write_file opened tb in
  if opened
  then concat written = contents tb /\ tb' = set_dirty false tb
  else written = [] /\ tb' = tb.
Proof.
  intros Hok. pose proof Hok as (Hg & Hgl & Hcm & Hmx).
  unfold sizeof_TextBuffer, TEXT_BUFFER_ALLOC_MAX_BYTES in *.
  unfold text_buffer_write_file. destruct opened; [|split; reflexivity].
  split; [|reflexivity].
  rewrite (to_usize_small (0 + gap_off tb + gap_len tb))
    by (change (2 ^ 64) with 18446744073709551616; lia).
  rewrite (to_usize_small (text_length tb - gap_off tb))
    by (change (2 ^ 64) with 18446744073709551616; lia).
  cbn [concat]. rewrite app_nil_r. unfold slice_bytes. cbn [beg len].
  rewrite contents_byte_at by exact Hok.
  replace (text_length tb) with (gap_off tb + (text_length tb - gap_off tb)) at 2 by lia.
  rewrite seqZ_app by lia. rewrite map_app. f_equal.
  - apply map_seqZ_ext. intros i Hi. unfold byte_at.
    destruct (Z.ltb_spec i (gap_off tb)); [reflexivity|lia].
  - rewrite map_seqZ_shift. apply map_seqZ_ext. intros i Hi. unfold byte_at.
    destruct (Z.ltb_spec i (gap_off tb)); [lia|]. f_equal; lia.
Qed.

Lemma text_buffer_write_file_writes_document_witness :
  concat (fst (text_buffer_write_file true example_buffer)) = contents example_buffer.
Proof.
  apply (text_buffer_write_file_writes_document true example_buffer).
  apply example_buffer_ok.
Defined.

Lemma text_buffer_delete_removes_witness :
  match text_buffer_delete SpecUcd.oracle 4 example_buffer 1 with
  | Done tb' =>
    contents tb' = take 0 (contents example_buffer) ++ drop 1 (contents example_buffer) /\
    text_length tb' = text_length example_buffer - (1 - 0) /\
    offset (cursor tb') = 0 /\ gap_ok tb' /\ undo_ok tb' /\
    (0 < 1 ->
     dirty tb' = true /\ undo_tail tb' = Some (undo_usage example_buffer) /\
     undo_mem tb' (undo_usage example_buffer)
     = mkTextBufferChange (undo_tail example_buffer) None (cursor tb')
         (drop 0 (take 1 (contents example_buffer))) [])
  | Abort =>
    0 < 1 /\
    TEXT_BUFFER_ALLOC_MAX_BYTES
    < undo_usage example_buffer + sizeof_TextBufferChange + (1 - 0)
  | OutOfFuel => False
  end.
Proof.
  apply (text_buffer_delete_removes SpecUcd.oracle 4 example_buffer example_moved 1);
    try apply example_buffer_ok; try returns_example; by_eval.
Defined.

Lemma delete_undo_restores_witness :
  match text_buffer_undo SpecUcd.oracle 4 example_deleted with
  | Done tb3 =>
    contents tb3 = contents example_buffer /\ gap_ok tb3 /\
    undo_tail tb3 = undo_tail example_buffer /\ dirty tb3 = true
  | Abort => False
  | OutOfFuel =>
    exists tb', contents tb' = contents example_buffer /\
      text_buffer_cursor_move_delta SpecUcd.oracle 4 tb' (-1) = OutOfFuel
  end.
Proof.
  apply (delete_undo_restores SpecUcd.oracle 4 4 example_buffer example_moved
           example_deleted 1);
    try apply example_buffer_ok; try returns_example; by_eval.
Defined.

End BufferMore.

(** ** tui.c: scrollareas and child lists *)

Module TuiMore.

Import Tui TuiTree TuiFacts Basics HelpersFacts.

(** X28. After the layout of a scrollarea whose inner rectangle is not empty
    the child covers the viewport: every cell of the inner rectangle of the
    scrollarea lies in the outer rectangle of the child, wherever the content
    was scrolled to; and the child is clipped to the scrollarea: a cell lies
    in a clipped rectangle of the child exactly when it lies in that rectangle
    and in the clipped inner rectangle of the scrollarea. *)
Theorem scrollarea_child_covers_viewport (node child : UiNode) (p : Point) :
  rect_is_empty (inner node) = false ->
  fits (left (inner node)) -> fits (right (inner node)) ->
  fits (top (inner node)) -> fits (bottom (inner node)) ->
  fits (width (intrinsic_size child)) -> fits (height (intrinsic_size child)) ->
  let c' := snd (layout_scrollarea node child) in
  (rect_contains (inner node) p = true -> rect_contains (outer c') p = true) /\
  rect_contains (outer_clipped c') p
  = rect_contains (outer c') p && rect_contains (inner_clipped node) p /\
  rect_contains (inner_clipped c') p
  = rect_contains (inner c') p && rect_contains (inner_clipped node) p.
Proof.
  intros He Hl Hr Ht Hb Hw Hh c'. unfold rect_is_empty, fits in *.
  apply orb_false_iff in He. destruct He as [He1 He2].
  assert (left (inner node) < right (inner node)) by lia.
  assert (top (inner node) < bottom (inner node)) by lia.
  subst c'. unfold layout_scrollarea.
  cbn [fst snd set_layout outer inner outer_clipped inner_clipped].
  rewrite !rect_intersect_contains_eq.
  split; [|split; reflexivity].
  rewrite !max_i32_max.
  set (sx := right (inner node) - left (inner node)).
  set (sy := bottom (inner node) - top (inner node)).
  rewrite (wrap32_small sx) by (unfold sx; lia).
  rewrite (wrap32_small sy) by (unfold sy; lia).
  set (cx := Z.max (width (intrinsic_size child)) sx).
  set (cy := Z.max (height (intrinsic_size child)) sy).
  rewrite (wrap32_small (cx - sx)) by (unfold cx, sx; lia).
  rewrite (wrap32_small (cy - sy)) by (unfold cy, sy; lia).
  pose proof (clamp_i32_range (x (content_scrollarea node)) 0 (cx - sx) ltac:(lia)) as Hox.
  pose proof (clamp_i32_range (y (content_scrollarea node)) 0 (cy - sy) ltac:(lia)) as Hoy.
  set (ox := clamp_i32 (x (content_scrollarea node)) 0 (cx - sx)) in *.
  set (oy := clamp_i32 (y (content_scrollarea node)) 0 (cy - sy)) in *.
  rewrite (wrap32_small (left (inner node) - ox)) by (unfold cx, sx in *; lia).
  rewrite (wrap32_small (top (inner node) - oy)) by (unfold cy, sy in *; lia).
  rewrite (wrap32_small (left (inner node) - ox + cx)) by (unfold cx, sx in *; lia).
  rewrite (wrap32_small (top (inner node) - oy + cy)) by (unfold cy, sy in *; lia).
  rewrite !rect_contains_spec. cbn [left top right bottom].
  unfold sx, sy in *. lia.
Qed.


Ltac eqb_cases :=
  repeat match goal with
         | |- context [Nat.eqb ?u ?v] => destruct (Nat.eqb_spec u v); try subst
         | H : context [Nat.eqb ?u ?v] |- _ => destruct (Nat.eqb_spec u v); try subst
         end.

Lemma last_elem_of (l : list nat) (x : nat) : last l = Some x -> x ∈ l.
Proof.
  intros H. apply last_Some in H. destruct H as [l' ->].
  apply elem_of_app. right. apply list_elem_of_singleton. reflexivity.
Qed.

Lemma head_elem_of (l : list nat) (x : nat) : head l = Some x -> x ∈ l.
Proof. destruct l; cbn; [discriminate|]. intros [= ->]. apply list_elem_of_here. Qed.

Lemma siblings_ext (a a' : Arena) (par : nat) (prev_ : option nat) (l : list nat) :
  (forall q, q ∈ l -> a' q = a q) -> siblings a par prev_ l -> siblings a' par prev_ l.
Proof.
  revert prev_. induction l as [|c l IH]; intros prev_ He; cbn; [tauto|].
  intros (H1 & H2 & H3 & H4). rewrite He by apply list_elem_of_here.
  repeat split; try assumption. apply IH; [|exact H4].
  intros q Hq. apply He. apply list_elem_of_further. exact Hq.
Qed.

Lemma arena_update_eq (a : Arena) (p : nat) (f : UiNode -> UiNode) :
  arena_update a p f p = f (a p).
Proof. unfold arena_update, arena_store. rewrite Nat.eqb_refl. reflexivity. Qed.

Lemma arena_update_ne (a : Arena) (p q : nat) (f : UiNode -> UiNode) :
  q <> p -> arena_update a p f q = a q.
Proof.
  intros H. unfold arena_update, arena_store.
  destruct (Nat.eqb_spec q p); [contradiction|reflexivity].
Qed.

Ltac upd :=
  repeat first
    [ rewrite arena_update_eq
    | rewrite arena_update_ne by (assumption || (apply not_eq_sym; assumption)) ].

Lemma append_child_at (a : Arena) (par child : nat) (l : list nat) :
  child_list a par l -> child ∉ l -> child <> par ->
  let a' := ui_node_append_child a par child in
  child_first (a' par) = head (l ++ [child]) /\ child_last (a' par) = Some child /\
  parent (a' child) = Some par /\ sibling_prev (a' child) = last l /\
  sibling_next (a' child) = sibling_next (a child) /\
  (forall lst, last l = Some lst -> a' lst = set_sibling_next (Some child) (a lst)) /\
  (forall q, q <> par -> q <> child -> Some q <> last l -> a' q = a q).
Proof.
  intros (Hf & Hl & Hs & Hnd & Hpar) Hc Hne a'. subst a'.
  unfold ui_node_append_child. upd. rewrite Hl.
  destruct (last l) as [lst|] eqn:El.
  - assert (Hin : lst ∈ l) by (apply last_elem_of; exact El).
    assert (H1 : lst <> par) by (intros ->; contradiction).
    assert (H2 : lst <> child) by (intros ->; contradiction).
    upd. rewrite Hf.
    destruct l as [|c0 l0]; [discriminate|]. cbn [head app].
    upd. cbn.
    repeat split.
    + rewrite Hf. reflexivity.
    + intros x [= <-]. upd. reflexivity.
    + intros q H3 H4 H5. assert (q <> lst) by congruence. upd. reflexivity.
  - apply last_None in El. subst l. cbn [head app] in *.
    upd. rewrite Hf. upd. cbn.
    repeat split.
    + intros x [=].
    + intros q H3 H4 H5. upd. reflexivity.
Qed.

Lemma siblings_append (a a' : Arena) (par child : nat) (l : list nat)
    (prev_ : option nat) :
  siblings a par prev_ l -> NoDup l ->
  (forall q, q ∈ l -> Some q <> last l -> a' q = a q) ->
  (forall lst, last l = Some lst -> a' lst = set_sibling_next (Some child) (a lst)) ->
  parent (a' child) = Some par ->
  sibling_prev (a' child) = match last l with Some x => Some x | None => prev_ end ->
  sibling_next (a' child) = None ->
  siblings a' par prev_ (l ++ [child]).
Proof.
  revert prev_. induction l as [|c l IH]; intros prev_ Hs Hnd Hq Hlst Hp Hsp Hsn.
  - cbn in *. repeat split; assumption.
  - cbn [app siblings] in *. destruct Hs as (H1 & H2 & H3 & H4).
    apply NoDup_cons in Hnd. destruct Hnd as [Hc Hnd].
    destruct l as [|c2 l2].
    + cbn [app head siblings] in *.
      rewrite (Hlst c eq_refl). cbn.
      repeat split; assumption.
    + assert (Hl : last (c :: c2 :: l2) = last (c2 :: l2)) by reflexivity.
      rewrite Hl in *.
      assert (Hne : Some c <> last (c2 :: l2)).
      { intros E. symmetry in E. apply last_elem_of in E. contradiction. }
      rewrite (Hq c) by (try apply list_elem_of_here; exact Hne).
      split; [exact H1|]. split; [exact H2|]. split; [exact H3|].
      apply IH; try assumption.
      * intros q Hin. apply Hq. apply list_elem_of_further. exact Hin.
      * destruct (last (c2 :: l2)) eqn:E; [exact Hsp|].
        apply last_None in E. discriminate.
Qed.

Lemma append_child_spec (a : Arena) (par child : nat) (l : list nat) :
  child_list a par l -> child ∉ l -> child <> par ->
  sibling_next (a child) = None ->
  let a' := ui_node_append_child a par child in
  child_list a' par (l ++ [child]) /\
  (forall q, q <> par -> q <> child -> Some q <> last l -> a' q = a q).
Proof.
  intros Hcl Hc Hne Hn a'.
  pose proof (append_child_at a par child l Hcl Hc Hne) as H. cbv zeta in H. fold a' in H.
  destruct H as (H1 & H2 & H3 & H4 & H5 & H6 & H7).
  destruct Hcl as (Hf & Hl & Hs & Hnd & Hpar).
  split; [|exact H7].
  unfold child_list. rewrite last_snoc.
  split; [exact H1|]. split; [exact H2|]. split; [|split].
  - apply (siblings_append a); try assumption.
    + intros q Hin Hq. apply H7; [intros ->; contradiction|intros ->; contradiction|exact Hq].
    + rewrite H4. destruct (last l); reflexivity.
    + rewrite H5. exact Hn.
  - apply NoDup_app. split; [exact Hnd|]. split; [|apply NoDup_singleton].
    intros x Hx Hx'. apply list_elem_of_singleton in Hx'. subst. contradiction.
  - intros Hin. apply elem_of_app in Hin. destruct Hin as [Hin|Hin]; [contradiction|].
    apply list_elem_of_singleton in Hin. congruence.
Qed.


Lemma siblings_mid (a : Arena) (par c : nat) (l1 l2 : list nat) (prev_ : option nat) :
  siblings a par prev_ (l1 ++ c :: l2) ->
  parent (a c) = Some par /\
  sibling_prev (a c) = match last l1 with Some x => Some x | None => prev_ end /\
  sibling_next (a c) = head l2.
Proof.
  revert prev_. induction l1 as [|d l1 IH]; intros prev_; cbn [app siblings].
  - intros (H1 & H2 & H3 & _). repeat split; assumption.
  - intros (_ & _ & _ & H4). apply IH in H4. destruct H4 as (H1 & H2 & H3).
    split; [exact H1|]. split; [|exact H3].
    rewrite H2. destruct l1 as [|d2 l1']; [reflexivity|].
    change (last (d :: d2 :: l1')) with (last (d2 :: l1')).
    destruct (last (d2 :: l1')) eqn:E; [reflexivity|].
    apply last_None in E. discriminate.
Qed.

Lemma ptr_is_true (p : option nat) (q : nat) : ptr_is p q = true <-> p = Some q.
Proof.
  destruct p as [n|]; cbn; [|split; discriminate].
  rewrite Nat.eqb_eq. split; congruence.
Qed.

Lemma head_app_mid (l1 l2 : list nat) (c : nat) :
  NoDup (l1 ++ c :: l2) ->
  ptr_is (head (l1 ++ c :: l2)) c = true /\ l1 = [] \/
  ptr_is (head (l1 ++ c :: l2)) c = false /\ l1 <> [] /\ head (l1 ++ c :: l2) = head (l1 ++ l2).
Proof.
  intros Hnd. destruct l1 as [|d l1]; cbn.
  - left. rewrite Nat.eqb_refl. split; reflexivity.
  - right. split; [|split; [discriminate|reflexivity]].
    apply Nat.eqb_neq. intros ->. cbn in Hnd. apply NoDup_cons in Hnd.
    destruct Hnd as [Hd _]. apply Hd. apply elem_of_app. right. apply list_elem_of_here.
Qed.

Lemma last_app_mid (l1 l2 : list nat) (c : nat) :
  NoDup (l1 ++ c :: l2) ->
  ptr_is (last (l1 ++ c :: l2)) c = true /\ l2 = [] \/
  ptr_is (last (l1 ++ c :: l2)) c = false /\ l2 <> [] /\ last (l1 ++ c :: l2) = last (l1 ++ l2).
Proof.
  intros Hnd. rewrite last_app_cons.
  destruct l2 as [|d l2].
  - left. cbn. rewrite Nat.eqb_refl. split; reflexivity.
  - right. split; [|split; [discriminate|]].
    + destruct (ptr_is (last (c :: d :: l2)) c) eqn:E; [|reflexivity].
      apply ptr_is_true in E. change (last (c :: d :: l2)) with (last (d :: l2)) in E.
      apply last_elem_of in E.
      apply NoDup_app in Hnd. destruct Hnd as (_ & _ & Hnd).
      apply NoDup_cons in Hnd. destruct Hnd as [Hc _]. contradiction.
    + change (last (c :: d :: l2)) with (last (d :: l2)).
      rewrite last_app. destruct (last (d :: l2)) eqn:E; [reflexivity|].
      apply last_None in E. discriminate.
Qed.


Lemma option_eta {A} (o : option A) : match o with Some x => Some x | None => None end = o.
Proof. destruct o; reflexivity. Qed.

Lemma remove_at (a : Arena) (par c : nat) (l1 l2 : list nat) :
  child_list a par (l1 ++ c :: l2) ->
  exists a', ui_node_remove a c = Some a' /\
    child_first (a' par) = head (l1 ++ l2) /\ child_last (a' par) = last (l1 ++ l2) /\
    parent (a' c) = None /\ sibling_prev (a' c) = None /\ sibling_next (a' c) = None /\
    (forall s, last l1 = Some s -> a' s = set_sibling_next (head l2) (a s)) /\
    (forall s, head l2 = Some s -> a' s = set_sibling_prev (last l1) (a s)) /\
    (forall q, q <> par -> q <> c -> Some q <> last l1 -> Some q <> head l2 -> a' q = a q).
Proof.
  intros (Hf & Hl & Hs & Hnd & Hpar).
  apply siblings_mid in Hs. rewrite option_eta in Hs. destruct Hs as (Hp & Hsp & Hsn).
  assert (Hcp : c <> par).
  { intros ->. apply Hpar. apply elem_of_app. right. apply list_elem_of_here. }
  pose proof Hnd as Hnd'. apply NoDup_app in Hnd'. destruct Hnd' as (Hn1 & Hn12 & Hn2).
  apply NoDup_cons in Hn2. destruct Hn2 as [Hc2 Hn2].
  assert (Hc1 : c ∉ l1) by (intros H; apply (Hn12 c H); apply list_elem_of_here).
  assert (Hl1 : forall s, last l1 = Some s -> s <> c /\ s <> par /\ Some s <> head l2).
  { intros s Hs. apply last_elem_of in Hs. split; [intros ->; contradiction|]. split.
    - intros ->. apply Hpar. apply elem_of_app. left. exact Hs.
    - intros E. symmetry in E. apply head_elem_of in E.
      apply (Hn12 s Hs). apply list_elem_of_further. exact E. }
  assert (Hl2 : forall s, head l2 = Some s -> s <> c /\ s <> par).
  { intros s Hs. apply head_elem_of in Hs. split; [intros ->; contradiction|].
    intros ->. apply Hpar. apply elem_of_app. right. apply list_elem_of_further. exact Hs. }
  unfold ui_node_remove. rewrite Hp. eexists. split; [reflexivity|].
  destruct (head_app_mid l1 l2 c Hnd) as [[Hpt El1]|(Hpt & El1 & Hh)];
    destruct (last_app_mid l1 l2 c Hnd) as [[Hpt' El2]|(Hpt' & El2 & Hh')];
    rewrite <- Hf in Hpt; rewrite <- Hl in Hpt';
    destruct (last l1) as [s|] eqn:E1;
    try (apply last_None in E1; congruence);
    try (subst l1; discriminate);
    destruct (head l2) as [s2|] eqn:E2;
    try (destruct l2; [congruence|discriminate]);
    try (subst l2; discriminate);
    rewrite ?E1 in Hsp; rewrite ?E2 in Hsn;
    try (destruct (Hl1 s eq_refl) as (A1 & A2 & A3));
    try (destruct (Hl2 s2 eq_refl) as (B1 & B2));
    try (assert (s <> s2) by congruence);
    repeat (progress (upd; rewrite ?Hsn, ?Hsp, ?Hpt, ?Hpt'; cbv iota;
      cbn [child_first child_last parent sibling_prev sibling_next set_parent
           set_child_first set_child_last set_sibling_prev set_sibling_next set_links]));
    subst; rewrite ?app_nil_r in *; cbn [app head last] in *.
  all: (split; [congruence|]).
  all: (split; [congruence|]).
  all: (split; [reflexivity|]); (split; [reflexivity|]); (split; [reflexivity|]);
    (split; [intros x Hx; try discriminate; injection Hx as <-; upd; reflexivity|]);
    (split; [intros x Hx; try discriminate; injection Hx as <-; upd; reflexivity|]);
    intros q Q1 Q2 Q3 Q4;
    try (assert (q <> s) by congruence); try (assert (q <> s2) by congruence);
    upd; reflexivity.
Qed.


Lemma siblings_remove (a a' : Arena) (par c : nat) (l1 l2 : list nat)
    (prev_ : option nat) :
  siblings a par prev_ (l1 ++ c :: l2) -> NoDup (l1 ++ c :: l2) ->
  (forall s, last l1 = Some s -> a' s = set_sibling_next (head l2) (a s)) ->
  (forall s, head l2 = Some s ->
     a' s = set_sibling_prev (match last l1 with Some x => Some x | None => prev_ end) (a s)) ->
  (forall q, q ∈ l1 ++ l2 -> Some q <> last l1 -> Some q <> head l2 -> a' q = a q) ->
  siblings a' par prev_ (l1 ++ l2).
Proof.
  revert prev_. induction l1 as [|d l1 IH]; intros prev_ Hs Hnd Hlast Hhead Hq.
  - cbn [app siblings last] in *. destruct Hs as (_ & _ & _ & Hs).
    apply NoDup_cons in Hnd. destruct Hnd as [Hc Hnd].
    destruct l2 as [|s2 l2]; [exact I|].
    cbn [siblings head] in *. destruct Hs as (H1 & H2 & H3 & H4).
    rewrite (Hhead s2 eq_refl). cbn.
    split; [exact H1|]. split; [reflexivity|]. split; [exact H3|].
    apply (siblings_ext a); [|exact H4].
    intros q Hin. apply NoDup_cons in Hnd. destruct Hnd as [Hs2 _].
    apply Hq; [apply list_elem_of_further; exact Hin|discriminate|].
    intros [= ->]. contradiction.
  - cbn [app siblings] in *. destruct Hs as (H1 & H2 & H3 & H4).
    apply NoDup_cons in Hnd. destruct Hnd as [Hd Hnd].
    assert (Hd2 : Some d <> head l2).
    { intros E. symmetry in E. apply head_elem_of in E. apply Hd.
      apply elem_of_app. right. apply list_elem_of_further. exact E. }
    destruct l1 as [|d2 l1].
    + cbn [app last head] in *.
      rewrite (Hlast d eq_refl). cbn.
      split; [exact H1|]. split; [exact H2|]. split; [reflexivity|].
      apply (IH (Some d)); try assumption.
      * intros s [=].
      * intros q Hin _ Hq2. apply Hq; [apply list_elem_of_further; exact Hin| |exact Hq2].
        intros [= ->]. apply Hd. apply list_elem_of_further. exact Hin.
    + assert (Hl : last (d :: d2 :: l1) = last (d2 :: l1)) by reflexivity.
      rewrite Hl in *.
      assert (Hne : Some d <> last (d2 :: l1)).
      { intros E. symmetry in E. apply last_elem_of in E. apply Hd.
        apply elem_of_app. left. exact E. }
      rewrite (Hq d) by (try apply list_elem_of_here; assumption).
      split; [exact H1|]. split; [exact H2|]. split; [exact H3|].
      apply (IH (Some d)); try assumption.
      * intros s Hs. rewrite (Hhead s Hs).
        destruct (last (d2 :: l1)) eqn:E; [reflexivity|].
        apply last_None in E. discriminate.
      * intros q Hin. apply Hq. apply list_elem_of_further. exact Hin.
Qed.

Lemma remove_spec (a : Arena) (par c : nat) (l1 l2 : list nat) :
  child_list a par (l1 ++ c :: l2) ->
  exists a', ui_node_remove a c = Some a' /\
    child_list a' par (l1 ++ l2) /\
    parent (a' c) = None /\ sibling_prev (a' c) = None /\ sibling_next (a' c) = None /\
    (forall q, q <> par -> q <> c -> Some q <> last l1 -> Some q <> head l2 -> a' q = a q).
Proof.
  intros Hcl. destruct (remove_at a par c l1 l2 Hcl) as (a' & Hr & H1 & H2 & H3 & H4 & H5 & H6 & H7 & H8).
  exists a'. split; [exact Hr|].
  destruct Hcl as (Hf & Hl & Hs & Hnd & Hpar).
  assert (Hsub : forall q, q ∈ l1 ++ l2 -> q ∈ l1 ++ c :: l2).
  { intros q Hq. apply elem_of_app in Hq. apply elem_of_app.
    destruct Hq; [left|right; apply list_elem_of_further]; assumption. }
  assert (Hnd' : NoDup (l1 ++ l2)).
  { apply NoDup_app in Hnd. destruct Hnd as (Hn1 & Hn12 & Hn2).
    apply NoDup_cons in Hn2. destruct Hn2 as [Hc2 Hn2].
    apply NoDup_app. split; [exact Hn1|]. split; [|exact Hn2].
    intros x Hx Hx'. apply (Hn12 x Hx). apply list_elem_of_further. exact Hx'. }
  assert (Hc : c ∉ l1 ++ l2).
  { apply NoDup_app in Hnd. destruct Hnd as (Hn1 & Hn12 & Hn2).
    apply NoDup_cons in Hn2. destruct Hn2 as [Hc2 Hn2].
    intros Hin. apply elem_of_app in Hin. destruct Hin as [Hin|Hin]; [|contradiction].
    apply (Hn12 c Hin). apply list_elem_of_here. }
  split; [|repeat split; assumption].
  unfold child_list. split; [exact H1|]. split; [exact H2|]. split; [|split].
  - apply (siblings_remove a a' par c); try assumption.
    + intros s Hs'. rewrite option_eta. apply H7. exact Hs'.
    + intros q Hin. apply H8.
      * intros ->. apply Hpar. apply Hsub. exact Hin.
      * intros ->. contradiction.
  - exact Hnd'.
  - intros Hin. apply Hpar. apply Hsub. exact Hin.
Qed.

(** X29. [ui_node_append_child(parent, child)] puts a node that is in no list
    at the end of the list of the children of [parent]: the list is the old
    one followed by [child], with [child_first], [child_last], [parent] and
    both sibling links as a doubly linked list has them; no node but the
    parent, the child and the old last child is changed; and
    [ui_node_remove(child)] right afterwards gives back the old list. *)
Theorem ui_node_append_child_appends (a : Arena) (par child : nat) (l : list nat) :
  child_list a par l -> child ∉ l -> child <> par ->
  sibling_next (a child) = None ->
  let a' := ui_node_append_child a par child in
  child_list a' par (l ++ [child]) /\
  (forall q, q <> par -> q <> child -> Some q <> last l -> a' q = a q) /\
  exists a'', ui_node_remove a' child = Some a'' /\ child_list a'' par l.
Proof.
  intros Hcl Hc Hne Hn a'.
  destruct (append_child_spec a par child l Hcl Hc Hne Hn) as [H1 H2]. fold a' in H1, H2.
  split; [exact H1|]. split; [exact H2|].
  destruct (remove_spec a' par child l [] H1) as (a'' & Hr & H3 & _).
  exists a''. rewrite app_nil_r in H3. split; assumption.
Qed.

Lemma floater_frame_children : child_list floater_frame 0 [1%nat].
Proof.
  unfold child_list. cbn. repeat split; try reflexivity.
  - apply NoDup_singleton.
  - rewrite list_elem_of_singleton. discriminate.
Qed.

Lemma ui_node_append_child_appends_witness :
  let a' := ui_node_append_child floater_frame 0 6 in
  child_list a' 0 ([1%nat] ++ [6%nat]) /\
  (forall q, q <> 0%nat -> q <> 6%nat -> Some q <> last [1%nat] -> a' q = floater_frame q) /\
  exists a'', ui_node_remove a' 6 = Some a'' /\ child_list a'' 0 [1%nat].
Proof.
  apply (ui_node_append_child_appends floater_frame 0 6 [1%nat]).
  - exact floater_frame_children.
  - rewrite list_elem_of_singleton. discriminate.
  - discriminate.
  - reflexivity.
Defined.

(** X30. [ui_node_remove(child)] takes a node out of the list of the children
    of its parent, wherever in the list it stands: the list is the old one
    without the node, the node has no parent and no siblings afterwards, and
    no node but the parent, the node and its two neighbours is changed.
    Removing the node a second time dereferences its [NULL] parent. *)
Theorem ui_node_remove_unlinks (a : Arena) (par c : nat) (l1 l2 : list nat) :
  child_list a par (l1 ++ c :: l2) ->
  exists a', ui_node_remove a c = Some a' /\
    child_list a' par (l1 ++ l2) /\
    parent (a' c) = None /\ sibling_prev (a' c) = None /\ sibling_next (a' c) = None /\
    (forall q, q <> par -> q <> c -> Some q <> last l1 -> Some q <> head l2 -> a' q = a q) /\
    ui_node_remove a' c = None.
Proof.
  intros Hcl. destruct (remove_spec a par c l1 l2 Hcl) as (a' & Hr & H1 & H2 & H3 & H4 & H5).
  exists a'. split; [exact Hr|]. split; [exact H1|]. split; [exact H2|].
  split; [exact H3|]. split; [exact H4|]. split; [exact H5|].
  unfold ui_node_remove. rewrite H2. reflexivity.
Qed.

Lemma ui_node_remove_unlinks_witness :
  exists a', ui_node_remove floater_frame 1 = Some a' /\
    child_list a' 0 ([] ++ []) /\
    parent (a' 1%nat) = None /\ sibling_prev (a' 1%nat) = None /\
    sibling_next (a' 1%nat) = None /\
    (forall q, q <> 0%nat -> q <> 1%nat -> Some q <> last [] -> Some q <> head [] ->
       a' q = floater_frame q) /\
    ui_node_remove a' 1 = None.
Proof.
  apply (ui_node_remove_unlinks floater_frame 0 1 [] []).
  exact floater_frame_children.
Defined.

Lemma scrollarea_child_covers_viewport_witness :
  let node := scrollarea_frame (mkRect 0 0 10 10) 500 0%nat in
  let child := scrollarea_frame (mkRect 0 0 10 10) 500 1%nat in
  let c' := snd (layout_scrollarea node child) in
  (rect_contains (inner node) (mkPoint 3 9) = true ->
   rect_contains (outer c') (mkPoint 3 9) = true) /\
  rect_contains (outer_clipped c') (mkPoint 3 9)
  = rect_contains (outer c') (mkPoint 3 9) && rect_contains (inner_clipped node) (mkPoint 3 9) /\
  rect_contains (inner_clipped c') (mkPoint 3 9)
  = rect_contains (inner c') (mkPoint 3 9) && rect_contains (inner_clipped node) (mkPoint 3 9).
Proof.
  apply (scrollarea_child_covers_viewport
           (scrollarea_frame (mkRect 0 0 10 10) 500 0%nat)
           (scrollarea_frame (mkRect 0 0 10 10) 500 1%nat) (mkPoint 3 9)); by_eval.
Defined.

End TuiMore.
